(** * Monado compositor: renderer coordination, scratch images, peek window
      and the Rift feature-report builder

    A shallow embedding of
    - [rift_send_report] (src/xrt/drivers/rift/rift_hmd.c),
    - [chl_scratch_ensure] / [chl_scratch_free_resources]
      (comp_high_level_scratch.c),
    - [comp_window_peek_blit] (comp_window_peek.c),
    - the renderer of comp_renderer.c: [renderer_ensure_images_and_renderings],
      [renderer_submit_queue], [renderer_acquire_swapchain_image],
      [renderer_present_swapchain_image], [renderer_wait_for_present] and
      [comp_renderer_draw],
    - the peek window besides its blit: [comp_window_peek_create],
      [comp_window_peek_destroy], [window_peek_run_thread] and
      [comp_window_peek_get_vk_instance_exts] (comp_window_peek.c),
    - the debug image target (comp_window_debug_image.c),
    - [u_ls_ns_get_and_reset] (u_live_stats.cpp),
    - the frame splitter and the quirk sink (u_sink_split.c, u_sink_quirk.c),
    - [rift_hmd_create], [rift_hmd_destroy] and the reports they exchange
      with the headset (rift_hmd.c).

    Calls that leave the compositor (Vulkan, the target's function pointers,
    the clock, the HID layer) are recorded in a log, and what they return is
    read from an environment indexed by how often the call was made. *)

From Stdlib Require Import ZArith Lia Bool.
From Stdlib.Strings Require Import Byte.
From stdpp Require Import base tactics option list gmap sorting strings.

#[local] Set Warnings "-clear-no-such-hyp".

Local Open Scope Z_scope.

(** ** Integer widths *)

(** [size_t] and [uint64_t] arithmetic wraps modulo [2^64]. *)
Definition wrap64 (z : Z) : Z := z mod 2 ^ 64.

Definition SIZE_MAX : Z := 2 ^ 64 - 1.

Lemma wrap64_small z : 0 <= z <= SIZE_MAX -> wrap64 z = z.
Proof. unfold wrap64, SIZE_MAX. intros H. apply Z.mod_small. lia. Qed.

(** A value stored into an [int32_t]: reduced modulo [2^32] into
    [-2^31 .. 2^31 - 1]. *)
Definition to_int32 (z : Z) : Z := (z + 2 ^ 31) mod 2 ^ 32 - 2 ^ 31.

Lemma to_int32_small z : - 2 ^ 31 <= z < 2 ^ 31 -> to_int32 z = z.
Proof. unfold to_int32. intros H. rewrite Z.mod_small by lia. lia. Qed.

(** ** Computations over a state that may stop

    [AssertionFailed] is a failed [assert], [OutOfBounds] an array index
    outside its array, [OutOfFuel] a loop that was cut off. *)

Inductive fault : Type := AssertionFailed | OutOfBounds | OutOfFuel.

Inductive outcome (A : Type) : Type :=
| Ok (a : A)
| Fault (f : fault).
Arguments Ok {A} a.
Arguments Fault {A} f.

Definition M (S A : Type) : Type := S -> outcome (A * S).

Definition ret {S A : Type} (a : A) : M S A := fun s => Ok (a, s).

Definition bind {S A B : Type} (m : M S A) (k : A -> M S B) : M S B :=
  fun s => match m s with
           | Ok (a, s') => k a s'
           | Fault f => Fault f
           end.

#[global] Instance M_ret (S : Type) : MRet (M S) := fun A a => ret a.
#[global] Instance M_bind (S : Type) : MBind (M S) := fun A B k m => bind m k.

Definition gets {S A : Type} (f : S -> A) : M S A := fun s => Ok (f s, s).
Definition modify {S : Type} (f : S -> S) : M S unit := fun s => Ok (tt, f s).
Definition stop {S A : Type} (f : fault) : M S A := fun _ => Fault f.

(** [assert(b)] of a build that keeps assertions. *)
Definition assert_ {S : Type} (b : bool) : M S unit :=
  if b then ret tt else stop AssertionFailed.

(** [for (i = start; i < start + count; i++) body(i)] *)
Fixpoint for_loop {S : Type} (start count : nat) (body : nat -> M S unit)
  : M S unit :=
  match count with
  | O => ret tt
  | Datatypes.S c => bind (body start) (fun _ => for_loop (Datatypes.S start) c body)
  end.

Lemma bind_Ok {S A B : Type} (m : M S A) (k : A -> M S B) (s s' : S) (a : A) :
  m s = Ok (a, s') -> bind m k s = k a s'.
Proof. intros H. unfold bind. rewrite H. reflexivity. Qed.

Lemma bind_Fault {S A B : Type} (m : M S A) (k : A -> M S B) (s : S) (f : fault) :
  m s = Fault f -> bind m k s = Fault f.
Proof. intros H. unfold bind. rewrite H. reflexivity. Qed.

(** What holds of the result of a computation that returns. *)
Definition post {S A : Type} (m : M S A) (s : S) (Q : A -> S -> Prop) : Prop :=
  match m s with
  | Ok (a, s') => Q a s'
  | Fault _ => True
  end.

Lemma post_Ok {S A : Type} (m : M S A) (s s' : S) (a : A) (Q : A -> S -> Prop) :
  post m s Q -> m s = Ok (a, s') -> Q a s'.
Proof. unfold post. intros H Hrun. rewrite Hrun in H. exact H. Qed.

Lemma post_mono {S A : Type} (m : M S A) (s : S) (Q Q' : A -> S -> Prop) :
  post m s Q -> (∀ a s', Q a s' -> Q' a s') -> post m s Q'.
Proof. unfold post. destruct (m s) as [[a s'] |]; auto. Qed.

Lemma post_ret {S A : Type} (a : A) (s : S) (Q : A -> S -> Prop) :
  Q a s -> post (ret a) s Q.
Proof. intros H. exact H. Qed.

Lemma post_bind {S A B : Type} (m : M S A) (k : A -> M S B) (s : S)
    (Q : B -> S -> Prop) :
  post m s (fun a s' => post (k a) s' Q) -> post (bind m k) s Q.
Proof. unfold post, bind. destruct (m s) as [[a s'] |]; auto. Qed.

Lemma post_stop {S A : Type} (f : fault) (s : S) (Q : A -> S -> Prop) :
  post (stop f) s Q.
Proof. exact I. Qed.

Lemma post_assert {S : Type} (b : bool) (s : S) (Q : unit -> S -> Prop) :
  (b = true -> Q tt s) -> post (assert_ b) s Q.
Proof. destruct b; intros H; [apply H; reflexivity | exact I]. Qed.

Lemma post_for_loop {S : Type} (Inv : S -> Prop) (body : nat -> M S unit)
    (start count : nat) (s : S) :
  (∀ i s0, Inv s0 -> post (body i) s0 (fun _ s1 => Inv s1)) ->
  Inv s -> post (for_loop start count body) s (fun _ s' => Inv s').
Proof.
  intros Hbody. revert start s.
  induction count as [| count IH]; intros start s Hs; cbn [for_loop].
  - exact Hs.
  - apply post_bind. eapply post_mono; [apply Hbody, Hs |].
    intros u s1 Hs1. apply IH, Hs1.
Qed.

(** One step of a sequence whose first computation is known to return. *)
Tactic Notation "mstep" tactic3(t) :=
  unfold mbind, M_bind; erewrite bind_Ok by t.

(** ** Status codes *)

(** The [VkResult] values the compositor tells apart, and two that stand
    for any other error. *)
Inductive VkResult : Type :=
| VK_SUCCESS
| VK_TIMEOUT
| VK_SUBOPTIMAL_KHR
| VK_ERROR_OUT_OF_DATE_KHR
| VK_ERROR_EXTENSION_NOT_PRESENT
| VK_ERROR_DEVICE_LOST
| VK_ERROR_SURFACE_LOST_KHR.

#[global] Instance VkResult_eq_dec : EqDecision VkResult.
Proof. solve_decision. Defined.

Inductive xrt_result_t : Type :=
| XRT_SUCCESS
| XRT_ERROR_VULKAN
| XRT_ERROR_ALLOCATION.

#[global] Instance xrt_result_eq_dec : EqDecision xrt_result_t.
Proof. solve_decision. Defined.

(** ** Rift: the feature-report builder *)

Module Rift.

(** What [rift_send_report] does to the outside world. *)
Inductive hid_event : Type :=
| HMD_ERROR (ptr_len left : Z)
| os_hid_set_feature (data : list byte) (length : Z).

(** The two locals the macro works on: [uint8_t buffer[REPORT_MAX_SIZE]]
    and [size_t length]. *)
Record report_state : Type := mk_report_state {
  buffer : list byte;
  length : Z;
}.

(** Control flow of a macro body that may [return]. [Undefined] is a
    [memcpy] that leaves the destination or the source object. *)
Inductive flow (A : Type) : Type :=
| Continue (a : A)
| Return (r : Z)
| Undefined.
Arguments Continue {A} a.
Arguments Return {A} r.
Arguments Undefined {A}.

(** [memcpy(dst + off, src, n)] on a destination of [length dst] bytes. *)
Definition memcpy (dst : list byte) (off : Z) (src : list byte) (n : Z)
  : option (list byte) :=
  if decide (0 <= off ∧ 0 <= n ∧ off + n <= Z.of_nat (List.length dst)
             ∧ n <= Z.of_nat (List.length src))
  then Some (take (Z.to_nat off) dst ++ take (Z.to_nat n) src
             ++ drop (Z.to_nat (off + n)) dst)
  else None.

Section SendReport.

(** [REPORT_MAX_SIZE] comes from rift_interface.h. *)
Variable REPORT_MAX_SIZE : Z.

(** The result of [os_hid_set_feature] on the bytes handed to it. *)
Variable hid_result : list byte -> Z.

(** [REPORT_WRITE_DATA(ptr, ptr_len)]: [sizeof(buffer) - length] is a
    [size_t] subtraction. *)
Definition REPORT_WRITE_DATA (st : report_state) (ptr : list byte) (ptr_len : Z)
  : flow report_state * list hid_event :=
  let left := wrap64 (REPORT_MAX_SIZE - length st) in
  if ptr_len >? left then (Return (-1), [HMD_ERROR ptr_len left])
  else
    match memcpy (buffer st) (length st) ptr ptr_len with
    | None => (Undefined, [])
    | Some b => (Continue (mk_report_state b (wrap64 (length st + ptr_len))), [])
    end.

(** [REPORT_WRITE_VALUE(value)] for the one-byte [report_id]. *)
Definition REPORT_WRITE_VALUE (st : report_state) (value : byte)
  : flow report_state * list hid_event :=
  REPORT_WRITE_DATA st [value] 1.

(** [rift_send_report]; [buffer0] is the uninitialised stack buffer. The
    first component is the returned [int], [None] when behaviour is
    undefined. *)
Definition rift_send_report (buffer0 : list byte) (report_id : byte)
    (data : list byte) (data_length : Z) : option Z * list hid_event :=
  let st0 := mk_report_state buffer0 0 in
  match REPORT_WRITE_VALUE st0 report_id with
  | (Return r, ev) => (Some r, ev)
  | (Undefined, ev) => (None, ev)
  | (Continue st1, ev1) =>
    match REPORT_WRITE_DATA st1 data data_length with
    | (Return r, ev2) => (Some r, ev1 ++ ev2)
    | (Undefined, ev2) => (None, ev1 ++ ev2)
    | (Continue st2, ev2) =>
      let sent := take (Z.to_nat (length st2)) (buffer st2) in
      let result := hid_result sent in
      (Some (if result <? 0 then result else 0),
       ev1 ++ ev2 ++ [os_hid_set_feature sent (length st2)])
    end
  end.

End SendReport.

(** No call of [os_hid_set_feature] among the events. *)
Definition no_hid_call (evs : list hid_event) : Prop :=
  ∀ d l, os_hid_set_feature d l ∉ evs.

Lemma memcpy_Some dst off src n :
  0 <= off -> 0 <= n -> off + n <= Z.of_nat (List.length dst) ->
  n = Z.of_nat (List.length src) ->
  memcpy dst off src n
  = Some (take (Z.to_nat off) dst ++ src ++ drop (Z.to_nat (off + n)) dst).
Proof.
  intros Hoff Hn Hfit Hsrc. unfold memcpy.
  rewrite decide_True by lia.
  rewrite (take_ge src) by lia. reflexivity.
Qed.

Lemma hid_call_not_in_error d l a b : os_hid_set_feature d l ∉ [HMD_ERROR a b].
Proof. intros H. apply list_elem_of_singleton in H. discriminate H. Qed.

(** The first macro use, [REPORT_WRITE_VALUE(report_id)], on an empty
    buffer of at least one byte. *)
Lemma REPORT_WRITE_VALUE_first (REPORT_MAX_SIZE : Z) (buffer0 : list byte)
    (report_id : byte) :
  1 <= REPORT_MAX_SIZE <= SIZE_MAX ->
  Z.of_nat (List.length buffer0) = REPORT_MAX_SIZE ->
  REPORT_WRITE_VALUE REPORT_MAX_SIZE (mk_report_state buffer0 0) report_id
  = (Continue (mk_report_state (report_id :: drop 1 buffer0) 1), []).
Proof.
  intros Hmax Hlen. unfold REPORT_WRITE_VALUE, REPORT_WRITE_DATA. cbn [length buffer].
  rewrite Z.sub_0_r, wrap64_small by lia.
  destruct (Z.gtb_spec 1 REPORT_MAX_SIZE) as [Hgt | _]; [lia |].
  rewrite memcpy_Some by (cbn; lia).
  reflexivity.
Qed.

(** C10. For every report id and every [data] of [data_length] bytes,
    [rift_send_report] never copies outside its [REPORT_MAX_SIZE]-byte
    buffer; when [1 + data_length] exceeds [REPORT_MAX_SIZE] it returns
    [-1] and [os_hid_set_feature] is not called; otherwise the one HID call
    carries exactly [1 + data_length] bytes, the report id followed by the
    data. *)
Theorem rift_send_report_bounds (REPORT_MAX_SIZE : Z) (hid_result : list byte -> Z)
    (buffer0 : list byte) (report_id : byte) (data : list byte) (data_length : Z) :
  0 <= REPORT_MAX_SIZE <= SIZE_MAX ->
  Z.of_nat (List.length buffer0) = REPORT_MAX_SIZE ->
  Z.of_nat (List.length data) = data_length ->
  data_length <= SIZE_MAX ->
  let out := rift_send_report REPORT_MAX_SIZE hid_result buffer0 report_id
               data data_length in
  out.1 ≠ None
  ∧ (1 + data_length > REPORT_MAX_SIZE -> out.1 = Some (-1) ∧ no_hid_call out.2)
  ∧ (1 + data_length <= REPORT_MAX_SIZE ->
     out.2 = [os_hid_set_feature (report_id :: data) (1 + data_length)]
     ∧ out.1 = Some (if hid_result (report_id :: data) <? 0
                     then hid_result (report_id :: data) else 0)).
Proof.
  intros Hmax Hbuf Hdata Hsize out. subst out. unfold rift_send_report.
  destruct (decide (REPORT_MAX_SIZE = 0)) as [Hzero | Hpos].
  - (* a zero-sized buffer refuses the report id already *)
    unfold REPORT_WRITE_VALUE, REPORT_WRITE_DATA. cbn [length buffer].
    rewrite Hzero. change (wrap64 (0 - 0)) with 0. cbn.
    split; [discriminate |]. split; [| lia].
    intros _. split; [reflexivity |].
    intros d l. apply hid_call_not_in_error.
  - rewrite REPORT_WRITE_VALUE_first by (done || lia).
    unfold REPORT_WRITE_DATA. cbn [length buffer].
    rewrite wrap64_small by lia.
    destruct (Z.gtb_spec data_length (REPORT_MAX_SIZE - 1)) as [Hbig | Hfit].
    + cbn. split; [discriminate |]. split; [| lia].
      intros _. split; [reflexivity |].
      intros d l. apply hid_call_not_in_error.
    + assert (Hdrop : List.length (drop 1 buffer0) = (List.length buffer0 - 1)%nat)
        by apply length_drop.
      rewrite memcpy_Some by (cbn [List.length]; lia).
      cbn [length buffer]. rewrite wrap64_small by lia.
      assert (Hsent : take (Z.to_nat (1 + data_length))
                        (take (Z.to_nat 1) (report_id :: drop 1 buffer0) ++ data
                         ++ drop (Z.to_nat (1 + data_length)) (report_id :: drop 1 buffer0))
                      = report_id :: data).
      { change (Z.to_nat 1) with 1%nat. cbn [take app].
        replace (Z.to_nat (1 + data_length)) with (S (List.length data)) by lia.
        cbn [take]. f_equal. rewrite take_0. cbn [app].
        rewrite take_app_length. reflexivity. }
      rewrite Hsent. cbn.
      split; [discriminate |]. split; [lia |].
      intros _. split; reflexivity.
Qed.

(** Report id 8 with a five-byte payload: sent from a 69-byte buffer,
    refused by a four-byte buffer. *)
Lemma rift_send_report_bounds_witness :
  (let out := rift_send_report 69 (fun _ => 0) (replicate 69 x00) x08
                [x00; x00; x0b; x10; x27] 5 in
   out.1 = Some 0
   ∧ out.2 = [os_hid_set_feature [x08; x00; x00; x0b; x10; x27] 6])
  ∧ (let out := rift_send_report 4 (fun _ => 0) (replicate 4 x00) x08
                  [x00; x00; x0b; x10; x27] 5 in
     out.1 = Some (-1) ∧ no_hid_call out.2).
Proof.
  split.
  - destruct (rift_send_report_bounds 69 (fun _ => 0) (replicate 69 x00) x08
                [x00; x00; x0b; x10; x27] 5) as (_ & _ & Hfits).
    + unfold SIZE_MAX. lia.
    + reflexivity.
    + reflexivity.
    + unfold SIZE_MAX. lia.
    + destruct Hfits as [Hevents Hresult]; [lia |].
      split; [exact Hresult | exact Hevents].
  - destruct (rift_send_report_bounds 4 (fun _ => 0) (replicate 4 x00) x08
                [x00; x00; x0b; x10; x27] 5) as (_ & Hrefused & _).
    + unfold SIZE_MAX. lia.
    + reflexivity.
    + reflexivity.
    + unfold SIZE_MAX. lia.
    + apply Hrefused. lia.
Defined.

End Rift.

(** ** Scratch images: [chl_scratch] *)

Module Scratch.

Record VkExtent2D : Type := mk_extent { width : Z; height : Z }.

(** The two [VkFormat] values the code names. *)
Definition VK_FORMAT_UNDEFINED : Z := 0.
Definition VK_FORMAT_R8G8B8A8_SRGB : Z := 43.

(** Vulkan objects the scratch can hold: the shared render pass, the images
    of a view ([views[i].cssi]) and a render target ([views[i].targets[k]]). *)
Inductive resource : Type :=
| RenderPass
| ScratchImages (view : nat)
| TargetResources (view k : nat).

#[global] Instance resource_eq_dec : EqDecision resource.
Proof. solve_decision. Defined.

#[global] Instance resource_countable : Countable resource.
Proof.
  refine (inj_countable'
    (fun r => match r with
              | RenderPass => inl tt
              | ScratchImages i => inr (inl i)
              | TargetResources i k => inr (inr (i, k))
              end)
    (fun x => match x with
              | inl _ => RenderPass
              | inr (inl i) => ScratchImages i
              | inr (inr (i, k)) => TargetResources i k
              end) _).
  intros []; reflexivity.
Defined.

(** Calls into the render and scratch-image helpers, with what they
    returned. *)
Inductive call : Type :=
| render_gfx_render_pass_init (format : Z) (bret : bool)
| render_gfx_render_pass_fini
| comp_scratch_single_images_ensure_mutable (view : nat) (extent : VkExtent2D)
    (bret : bool)
| comp_scratch_single_images_ensure (view : nat) (extent : VkExtent2D)
    (format : Z) (bret : bool)
| comp_scratch_single_images_free (view : nat)
| render_gfx_target_resources_init (view k : nat) (extent : VkExtent2D)
| render_gfx_target_resources_fini (view k : nat)
| VK_ERROR.

(** The fields of [struct chl_scratch] that are plain data. *)
Record chl_scratch : Type := mk_scratch {
  view_count : nat;
  extent : VkExtent2D;
  format : Z;
  render_pass_initialized : bool;
}.

(** The scratch and every call made for it so far, oldest first. *)
Record world : Type := mk_world {
  scratch : chl_scratch;
  calls : list call;
}.

(** What the fallible helpers answer during one [chl_scratch_ensure]. *)
Record allocator : Type := mk_allocator {
  render_pass_init_ok : bool;
  images_ensure_ok : nat -> bool;
}.

Definition emit (c : call) : M world unit :=
  modify (fun w => mk_world (scratch w) (calls w ++ [c])).

Definition update (f : chl_scratch -> chl_scratch) : M world unit :=
  modify (fun w => mk_world (f (scratch w)) (calls w)).

Definition set_view_count (n : nat) (s : chl_scratch) : chl_scratch :=
  mk_scratch n (extent s) (format s) (render_pass_initialized s).
Definition set_extent (e : VkExtent2D) (s : chl_scratch) : chl_scratch :=
  mk_scratch (view_count s) e (format s) (render_pass_initialized s).
Definition set_format (f : Z) (s : chl_scratch) : chl_scratch :=
  mk_scratch (view_count s) (extent s) f (render_pass_initialized s).
Definition set_render_pass_initialized (b : bool) (s : chl_scratch) : chl_scratch :=
  mk_scratch (view_count s) (extent s) (format s) b.

Section WithConstants.

(** [XRT_MAX_VIEWS] (xrt_limits.h) and [COMP_SCRATCH_NUM_IMAGES]
    (comp_scratch.h) size the arrays [views] and [targets]. *)
Variable XRT_MAX_VIEWS : nat.
Variable COMP_SCRATCH_NUM_IMAGES : nat.

(** [scratch->views[i]]: an index outside the array is undefined. *)
Definition view_at (i : nat) : M world unit :=
  if decide (i < XRT_MAX_VIEWS)%nat then ret tt else stop OutOfBounds.

Definition chl_scratch_free_resources : M world unit :=
  n ← gets (fun w : world => view_count (scratch w));
  for_loop 0 n (fun i =>
    view_at i;;
    for_loop 0 COMP_SCRATCH_NUM_IMAGES (fun k =>
      emit (render_gfx_target_resources_fini i k));;
    emit (comp_scratch_single_images_free i));;
  (* Nothing allocated. *)
  update (set_view_count 0);;
  update (set_extent (mk_extent 0 0));;
  update (set_format VK_FORMAT_UNDEFINED);;
  (* Do this after the image targets as they reference the render pass. *)
  rpi ← gets (fun w : world => render_pass_initialized (scratch w));
  if (rpi : bool) then
    emit render_gfx_render_pass_fini;;
    update (set_render_pass_initialized false)
  else ret tt.

(** The loop over the views of [chl_scratch_ensure]: iterations
    [i, ..., i + count - 1]; [false] is the [return false] inside it. *)
Fixpoint ensure_views (A : allocator) (extent : VkExtent2D) (format : Z)
    (count i : nat) : M world bool :=
  match count with
  | O => ret true
  | S count' =>
    view_at i;;
    let bret := images_ensure_ok A i in
    (if decide (format = VK_FORMAT_R8G8B8A8_SRGB)
     then emit (comp_scratch_single_images_ensure_mutable i extent bret)
     else emit (comp_scratch_single_images_ensure i extent format bret));;
    if negb bret then
      emit VK_ERROR;;
      (* Free any that has already been allocated. *)
      chl_scratch_free_resources;;
      ret false
    else
      for_loop 0 COMP_SCRATCH_NUM_IMAGES (fun k =>
        emit (render_gfx_target_resources_init i k extent));;
      update (set_view_count (i + 1));;
      ensure_views A extent format count' (S i)
  end.

(** "Is everything already correct?" *)
Definition already_correct (s : chl_scratch) (view_count : nat)
    (extent : VkExtent2D) (format : Z) : Prop :=
  Scratch.view_count s = view_count
  ∧ width (Scratch.extent s) = width extent
  ∧ height (Scratch.extent s) = height extent
  ∧ Scratch.format s = format.

Definition chl_scratch_ensure (A : allocator) (view_count : nat)
    (extent : VkExtent2D) (format : Z) : M world bool :=
  s ← gets scratch;
  if decide (already_correct s view_count extent format) then ret true
  else
    (* Free all old resources. *)
    chl_scratch_free_resources;;
    (* Shared render pass between all scratch images. *)
    let bret := render_pass_init_ok A in
    emit (render_gfx_render_pass_init format bret);;
    if negb bret then
      emit VK_ERROR;;
      ret false
    else
      update (set_render_pass_initialized true);;
      ok ← ensure_views A extent format view_count 0;
      if negb (ok : bool) then ret false
      else
        (* Update the cached values. *)
        update (set_extent extent);;
        update (set_format format);;
        ret true.

(** [chl_scratch_init] leaves a zeroed struct and has made no call. *)
Definition initial : world :=
  mk_world (mk_scratch 0 (mk_extent 0 0) VK_FORMAT_UNDEFINED false) [].

(** *** Resource accounting

    The helpers' contract: an init or ensure that reports success hands
    out its object, one that reports failure hands out nothing, and a
    fini or free takes the object back. *)

Definition effect (live : gset resource) (c : call) : gset resource :=
  match c with
  | render_gfx_render_pass_init _ true => live ∪ {[RenderPass]}
  | render_gfx_render_pass_fini => live ∖ {[RenderPass]}
  | comp_scratch_single_images_ensure_mutable i _ true => live ∪ {[ScratchImages i]}
  | comp_scratch_single_images_ensure i _ _ true => live ∪ {[ScratchImages i]}
  | comp_scratch_single_images_free i => live ∖ {[ScratchImages i]}
  | render_gfx_target_resources_init i k _ => live ∪ {[TargetResources i k]}
  | render_gfx_target_resources_fini i k => live ∖ {[TargetResources i k]}
  | _ => live
  end.

(** The objects alive after a history of calls. *)
Definition live (t : list call) : gset resource := foldl effect ∅ t.

(** The call that gives a resource back. *)
Definition release (r : resource) : call :=
  match r with
  | RenderPass => render_gfx_render_pass_fini
  | ScratchImages i => comp_scratch_single_images_free i
  | TargetResources i k => render_gfx_target_resources_fini i k
  end.

(** A call that allocates: any init or ensure. *)
Definition is_allocation (c : call) : bool :=
  match c with
  | render_gfx_render_pass_init _ _
  | comp_scratch_single_images_ensure_mutable _ _ _
  | comp_scratch_single_images_ensure _ _ _ _
  | render_gfx_target_resources_init _ _ _ => true
  | _ => false
  end.

(** What view [i] holds, in the order [chl_scratch_free_resources] lets go
    of it. *)
Definition view_resources (i : nat) : list resource :=
  map (TargetResources i) (seq 0 COMP_SCRATCH_NUM_IMAGES) ++ [ScratchImages i].

(** What a scratch with [n] ensured views holds. *)
Definition owned_list (n : nat) (rp : bool) : list resource :=
  flat_map view_resources (seq 0 n) ++ (if rp then [RenderPass] else []).

Definition owned (s : chl_scratch) : gset resource :=
  list_to_set (owned_list (view_count s) (render_pass_initialized s)).

(** The calls of one [chl_scratch_free_resources]. *)
Definition free_calls (s : chl_scratch) : list call :=
  map release (owned_list (view_count s) (render_pass_initialized s)).

(** The struct after [chl_scratch_free_resources]. *)
Definition cleared : chl_scratch :=
  mk_scratch 0 (mk_extent 0 0) VK_FORMAT_UNDEFINED false.

(** The data fields agree with what is alive, and the views fit the
    array. *)
Definition consistent (w : world) : Prop :=
  (view_count (scratch w) <= XRT_MAX_VIEWS)%nat
  ∧ live (calls w) = owned (scratch w).


(** *** Running the loops *)

Lemma for_loop_emit (f : nat -> call) (start count : nat) (w : world) :
  for_loop start count (fun k => emit (f k)) w
  = Ok (tt, mk_world (scratch w) (calls w ++ map f (seq start count))).
Proof.
  revert start w. induction count as [| count IH]; intros start w; cbn.
  - rewrite app_nil_r. destruct w; reflexivity.
  - rewrite IH. cbn. rewrite <- app_assoc. reflexivity.
Qed.

Lemma free_views_run (start count : nat) (w : world) :
  (start + count <= XRT_MAX_VIEWS)%nat ->
  for_loop start count (fun i =>
    view_at i;;
    for_loop 0 COMP_SCRATCH_NUM_IMAGES (fun k =>
      emit (render_gfx_target_resources_fini i k));;
    emit (comp_scratch_single_images_free i)) w
  = Ok (tt, mk_world (scratch w)
              (calls w ++ map release (flat_map view_resources (seq start count)))).
Proof.
  revert start w. induction count as [| count IH]; intros start w Hfit.
  - cbn. rewrite app_nil_r. destruct w; reflexivity.
  - cbn [for_loop]. erewrite bind_Ok; cycle 1.
    { mstep (unfold view_at; rewrite decide_True by lia; reflexivity).
      mstep (apply for_loop_emit). reflexivity. }
    rewrite IH by lia. cbn.
    unfold view_resources at 2.
    rewrite !map_app, map_map. cbn.
    rewrite <- !app_assoc. reflexivity.
Qed.

Lemma chl_scratch_free_resources_run (w : world) :
  (view_count (scratch w) <= XRT_MAX_VIEWS)%nat ->
  chl_scratch_free_resources w
  = Ok (tt, mk_world cleared (calls w ++ free_calls (scratch w))).
Proof.
  intros Hfit. unfold chl_scratch_free_resources.
  mstep reflexivity.
  mstep (apply free_views_run; lia).
  unfold free_calls, owned_list. rewrite map_app.
  destruct w as [[n e f rp] t]. cbn.
  destruct rp; cbn; rewrite ?app_nil_r, <- ?app_assoc; reflexivity.
Qed.

(** *** What is alive after a history *)

Lemma live_app (t t' : list call) : live (t ++ t') = foldl effect (live t) t'.
Proof. unfold live. apply foldl_app. Qed.

Lemma release_all (rs : list resource) (L : gset resource) :
  foldl effect L (map release rs) = L ∖ list_to_set rs.
Proof.
  revert L. induction rs as [| r rs IH]; intros L; cbn.
  - set_solver.
  - rewrite IH. destruct r; cbn; set_solver.
Qed.

Lemma live_after_free (w : world) :
  live (calls w) = owned (scratch w) ->
  live (calls w ++ free_calls (scratch w)) = ∅.
Proof.
  intros Hlive. rewrite live_app. unfold free_calls.
  rewrite release_all, Hlive. unfold owned. set_solver.
Qed.


Lemma owned_list_S (n : nat) (rp : bool) :
  list_to_set (C := gset resource) (owned_list (S n) rp)
  = list_to_set (owned_list n rp) ∪ list_to_set (view_resources n).
Proof.
  unfold owned_list. rewrite seq_S, flat_map_app. cbn [flat_map].
  rewrite app_nil_r, !list_to_set_app_L. set_solver.
Qed.

Lemma allocate_targets (i : nat) (ext : VkExtent2D) (ks : list nat)
    (L : gset resource) :
  foldl effect L (map (fun k => render_gfx_target_resources_init i k ext) ks)
  = L ∪ list_to_set (map (TargetResources i) ks).
Proof.
  revert L. induction ks as [| k ks IH]; intros L; cbn.
  - set_solver.
  - rewrite IH. set_solver.
Qed.

(** The call that creates the images of view [i]: the mutable-format
    variant for sRGB. *)
Definition images_ensure_call (ext : VkExtent2D) (fmt : Z) (i : nat)
    (bret : bool) : call :=
  if decide (fmt = VK_FORMAT_R8G8B8A8_SRGB)
  then comp_scratch_single_images_ensure_mutable i ext bret
  else comp_scratch_single_images_ensure i ext fmt bret.

Lemma emit_images_ensure (ext : VkExtent2D) (fmt : Z) (i : nat) (bret : bool)
    (w : world) :
  (if decide (fmt = VK_FORMAT_R8G8B8A8_SRGB)
   then emit (comp_scratch_single_images_ensure_mutable i ext bret)
   else emit (comp_scratch_single_images_ensure i ext fmt bret)) w
  = Ok (tt, mk_world (scratch w) (calls w ++ [images_ensure_call ext fmt i bret])).
Proof.
  unfold images_ensure_call.
  destruct (decide (fmt = VK_FORMAT_R8G8B8A8_SRGB)); reflexivity.
Qed.

Lemma effect_images_ensure (ext : VkExtent2D) (fmt : Z) (i : nat) (bret : bool)
    (L : gset resource) :
  effect L (images_ensure_call ext fmt i bret)
  = if bret then L ∪ {[ScratchImages i]} else L.
Proof.
  unfold images_ensure_call.
  destruct (decide (fmt = VK_FORMAT_R8G8B8A8_SRGB)), bret; reflexivity.
Qed.

(** One iteration of the loop that succeeds. *)
Definition view_calls (ext : VkExtent2D) (fmt : Z) (i : nat) : list call :=
  images_ensure_call ext fmt i true
  :: map (fun k => render_gfx_target_resources_init i k ext)
       (seq 0 COMP_SCRATCH_NUM_IMAGES).

Lemma live_view_calls (ext : VkExtent2D) (fmt : Z) (i : nat) (t : list call) :
  live (t ++ view_calls ext fmt i) = live t ∪ list_to_set (view_resources i).
Proof.
  rewrite live_app. unfold view_calls, view_resources. cbn [foldl].
  rewrite effect_images_ensure, allocate_targets, list_to_set_app_L.
  set_solver.
Qed.

Lemma ensure_views_run (A : allocator) (ext : VkExtent2D) (fmt : Z)
    (count i : nat) (w : world) :
  view_count (scratch w) = i ->
  render_pass_initialized (scratch w) = true ->
  (i + count <= XRT_MAX_VIEWS)%nat ->
  live (calls w) = owned (scratch w) ->
  ∃ w' rest,
    ensure_views A ext fmt count i w
    = Ok (forallb (images_ensure_ok A) (seq i count), w')
    ∧ calls w' = calls w ++ rest
    ∧ if forallb (images_ensure_ok A) (seq i count)
      then scratch w' = set_view_count (i + count) (scratch w)
           ∧ live (calls w') = owned (scratch w')
      else scratch w' = cleared ∧ live (calls w') = ∅.
Proof.
  revert i w. induction count as [| count IH]; intros i w Hvc Hrp Hfit Hlive.
  - exists w, []. cbn. rewrite app_nil_r, Nat.add_0_r.
    split; [reflexivity |]. split; [reflexivity |].
    split; [| exact Hlive].
    destruct w as [[n e f rp] t]. cbn in *. subst. reflexivity.
  - cbn [ensure_views seq forallb].
    mstep (unfold view_at; rewrite decide_True by lia; reflexivity).
    destruct (images_ensure_ok A i) eqn:Hok; cbn [andb negb].
    + (* the images of view [i] were created *)
      set (w1 := mk_world (set_view_count (i + 1) (scratch w))
                   (calls w ++ view_calls ext fmt i)).
      destruct (IH (S i) w1) as (w' & rest & Hrun & Hcalls & Hpost).
      * unfold w1. cbn. lia.
      * unfold w1. cbn. exact Hrp.
      * lia.
      * unfold w1. cbn [calls scratch]. rewrite live_view_calls, Hlive.
        unfold owned. cbn [view_count set_view_count render_pass_initialized].
        rewrite Hvc. replace (i + 1)%nat with (S i) by lia.
        rewrite owned_list_S. reflexivity.
      * exists w', (view_calls ext fmt i ++ rest).
        split; [| split].
        -- rewrite <- Hrun.
           mstep (apply emit_images_ensure).
           mstep (apply for_loop_emit).
           mstep reflexivity.
           f_equal. unfold w1, view_calls. cbn.
           rewrite <- app_assoc. reflexivity.
        -- rewrite Hcalls. unfold w1. cbn. rewrite <- app_assoc. reflexivity.
        -- destruct (forallb (images_ensure_ok A) (seq (S i) count)).
           ++ destruct Hpost as [Hs Hl]. split; [| exact Hl].
              rewrite Hs. unfold w1. cbn. unfold set_view_count. cbn.
              f_equal. lia.
           ++ exact Hpost.
    + (* they were not: everything so far is given back *)
      set (failed := images_ensure_call ext fmt i false).
      set (w1 := mk_world (scratch w) (calls w ++ [failed; VK_ERROR])).
      assert (Hlive1 : live (calls w1) = owned (scratch w1)).
      { unfold w1. cbn [calls scratch]. rewrite live_app, Hlive. unfold failed.
        cbn [foldl]. rewrite effect_images_ensure. reflexivity. }
      exists (mk_world cleared (calls w1 ++ free_calls (scratch w1))),
             ([failed; VK_ERROR] ++ free_calls (scratch w1)).
      split; [| split].
      * mstep (apply emit_images_ensure).
        mstep reflexivity.
        mstep (apply chl_scratch_free_resources_run; cbn; lia).
        unfold w1, failed. cbn.
        rewrite <- ?app_assoc. reflexivity.
      * unfold w1. cbn. rewrite <- app_assoc. reflexivity.
      * split; [reflexivity |]. cbn [calls]. apply live_after_free, Hlive1.
Qed.


(** *** [chl_scratch_ensure] as a whole *)

Lemma chl_scratch_ensure_same (A : allocator) (vc : nat) (ext : VkExtent2D)
    (fmt : Z) (w : world) :
  already_correct (scratch w) vc ext fmt ->
  chl_scratch_ensure A vc ext fmt w = Ok (true, w).
Proof.
  intros Hsame. unfold chl_scratch_ensure.
  mstep reflexivity. rewrite decide_True by exact Hsame. reflexivity.
Qed.

Lemma chl_scratch_ensure_changed (A : allocator) (vc : nat) (ext : VkExtent2D)
    (fmt : Z) (w : world) :
  ¬ already_correct (scratch w) vc ext fmt ->
  consistent w ->
  (vc <= XRT_MAX_VIEWS)%nat ->
  ∃ w' rest,
    chl_scratch_ensure A vc ext fmt w
    = Ok (render_pass_init_ok A && forallb (images_ensure_ok A) (seq 0 vc), w')
    ∧ calls w' = calls w ++ free_calls (scratch w)
                 ++ render_gfx_render_pass_init fmt (render_pass_init_ok A) :: rest
    ∧ if render_pass_init_ok A && forallb (images_ensure_ok A) (seq 0 vc)
      then scratch w' = mk_scratch vc ext fmt true
           ∧ live (calls w') = owned (scratch w')
      else scratch w' = cleared ∧ live (calls w') = ∅.
Proof.
  intros Hdiff [Hfit Hlive] Hvc. unfold chl_scratch_ensure.
  mstep reflexivity. rewrite decide_False by exact Hdiff.
  mstep (apply chl_scratch_free_resources_run; exact Hfit).
  mstep reflexivity.
  assert (Hfreed : live (calls w ++ free_calls (scratch w)) = ∅)
    by (apply live_after_free, Hlive).
  destruct (render_pass_init_ok A) eqn:Hrp; cbn [negb andb].
  - (* the render pass exists; on to the views *)
    mstep reflexivity.
    set (w1 := mk_world (set_render_pass_initialized true cleared)
                 ((calls w ++ free_calls (scratch w))
                  ++ [render_gfx_render_pass_init fmt true])).
    destruct (ensure_views_run A ext fmt vc 0 w1)
      as (w2 & rest & Hrun & Hcalls & Hpost); try done.
    { unfold w1. cbn [calls scratch]. rewrite live_app, Hfreed.
      cbn. unfold owned. cbn. set_solver. }
    mstep (exact Hrun).
    destruct (forallb (images_ensure_ok A) (seq 0 vc)); cbn [negb].
    + destruct Hpost as [Hs Hl].
      exists (mk_world (set_format fmt (set_extent ext (scratch w2))) (calls w2)), rest.
      split; [reflexivity |]. cbn [calls scratch].
      split; [rewrite Hcalls; unfold w1; cbn; rewrite <- !app_assoc; reflexivity |].
      split; [rewrite Hs; reflexivity |].
      rewrite Hl. reflexivity.
    + exists w2, rest.
      split; [reflexivity |].
      split; [rewrite Hcalls; unfold w1; cbn; rewrite <- !app_assoc; reflexivity |].
      exact Hpost.
  - (* no render pass: nothing was handed out *)
    exists (mk_world cleared
              (((calls w ++ free_calls (scratch w))
                ++ [render_gfx_render_pass_init fmt false]) ++ [VK_ERROR])),
           [VK_ERROR].
    split; [reflexivity |]. cbn [calls scratch].
    split; [rewrite <- !app_assoc; reflexivity |].
    split; [reflexivity |].
    rewrite <- app_assoc, live_app, Hfreed. reflexivity.
Qed.

Lemma free_calls_release_only (s : chl_scratch) :
  Forall (fun c => is_allocation c = false) (free_calls s).
Proof.
  unfold free_calls. apply Forall_map, Forall_forall.
  intros [] _; reflexivity.
Qed.

Lemma forallb_false_intro (p : nat -> bool) (n i : nat) :
  (i < n)%nat -> p i = false -> forallb p (seq 0 n) = false.
Proof.
  intros Hlt Hp. apply not_true_is_false. intros Hall.
  rewrite forallb_forall in Hall.
  rewrite (Hall i) in Hp; [discriminate |].
  apply in_seq. lia.
Qed.

(** C4. With [view_count], [extent] and [format] equal to what is
    configured, [chl_scratch_ensure] returns true at once: the scratch is
    as before and no helper was called. A call that returned true is
    therefore followed, for the same arguments, by one that returns true
    and calls nothing, whatever the allocator would answer. With other
    arguments the first calls made are the releases of everything the
    scratch held, after which nothing is alive, and only then the render
    pass is created. *)
Theorem chl_scratch_ensure_idempotent (A A' : allocator) (vc : nat)
    (ext : VkExtent2D) (fmt : Z) (w : world) :
  consistent w ->
  (vc <= XRT_MAX_VIEWS)%nat ->
  (already_correct (scratch w) vc ext fmt ->
   chl_scratch_ensure A vc ext fmt w = Ok (true, w))
  ∧ (∀ w1, chl_scratch_ensure A vc ext fmt w = Ok (true, w1) ->
           chl_scratch_ensure A' vc ext fmt w1 = Ok (true, w1))
  ∧ (¬ already_correct (scratch w) vc ext fmt ->
     ∃ b w' rest,
       chl_scratch_ensure A vc ext fmt w = Ok (b, w')
       ∧ calls w' = calls w ++ free_calls (scratch w)
                    ++ render_gfx_render_pass_init fmt (render_pass_init_ok A) :: rest
       ∧ Forall (fun c => is_allocation c = false) (free_calls (scratch w))
       ∧ live (calls w ++ free_calls (scratch w)) = ∅).
Proof.
  intros Hcons Hvc. split; [| split].
  - apply chl_scratch_ensure_same.
  - intros w1 Hrun.
    destruct (decide (already_correct (scratch w) vc ext fmt)) as [Hsame | Hdiff].
    + rewrite chl_scratch_ensure_same in Hrun by exact Hsame.
      injection Hrun as <-. apply chl_scratch_ensure_same, Hsame.
    + destruct (chl_scratch_ensure_changed A vc ext fmt w Hdiff Hcons Hvc)
        as (w' & rest & Hrun' & _ & Hpost).
      rewrite Hrun' in Hrun. injection Hrun as Hok <-.
      rewrite Hok in Hpost. destruct Hpost as [Hs _].
      apply chl_scratch_ensure_same. rewrite Hs. repeat split.
  - intros Hdiff.
    destruct (chl_scratch_ensure_changed A vc ext fmt w Hdiff Hcons Hvc)
      as (w' & rest & Hrun & Hcalls & _).
    eexists _, w', rest. split; [exact Hrun |]. split; [exact Hcalls |].
    split; [apply free_calls_release_only |].
    apply live_after_free, Hcons.
Qed.


End WithConstants.

(** *** Concrete runs: two views of 1000 x 1000, three images each *)

Definition extent_1000 : VkExtent2D := mk_extent 1000 1000.

Definition allocator_ok : allocator := mk_allocator true (fun _ => true).
Definition allocator_none : allocator := mk_allocator false (fun _ => false).

(** The images of view 1 cannot be created. *)
Definition allocator_view1_fails : allocator :=
  mk_allocator true (fun i => negb (i =? 1)%nat).

Example ensure_two_views :
  chl_scratch_ensure 2 3 allocator_ok 2 extent_1000 VK_FORMAT_R8G8B8A8_SRGB initial
  = Ok (true,
        mk_world (mk_scratch 2 extent_1000 VK_FORMAT_R8G8B8A8_SRGB true)
          [render_gfx_render_pass_init VK_FORMAT_R8G8B8A8_SRGB true;
           comp_scratch_single_images_ensure_mutable 0 extent_1000 true;
           render_gfx_target_resources_init 0 0 extent_1000;
           render_gfx_target_resources_init 0 1 extent_1000;
           render_gfx_target_resources_init 0 2 extent_1000;
           comp_scratch_single_images_ensure_mutable 1 extent_1000 true;
           render_gfx_target_resources_init 1 0 extent_1000;
           render_gfx_target_resources_init 1 1 extent_1000;
           render_gfx_target_resources_init 1 2 extent_1000]).
Proof. reflexivity. Qed.

Example ensure_view1_fails :
  chl_scratch_ensure 2 3 allocator_view1_fails 2 extent_1000
    VK_FORMAT_R8G8B8A8_SRGB initial
  = Ok (false,
        mk_world cleared
          [render_gfx_render_pass_init VK_FORMAT_R8G8B8A8_SRGB true;
           comp_scratch_single_images_ensure_mutable 0 extent_1000 true;
           render_gfx_target_resources_init 0 0 extent_1000;
           render_gfx_target_resources_init 0 1 extent_1000;
           render_gfx_target_resources_init 0 2 extent_1000;
           comp_scratch_single_images_ensure_mutable 1 extent_1000 false;
           VK_ERROR;
           render_gfx_target_resources_fini 0 0;
           render_gfx_target_resources_fini 0 1;
           render_gfx_target_resources_fini 0 2;
           comp_scratch_single_images_free 0;
           render_gfx_render_pass_fini]).
Proof. reflexivity. Qed.

(** More views than the array has: the loop leaves [views]. *)
Example ensure_too_many_views :
  chl_scratch_ensure 2 3 allocator_ok 3 extent_1000 VK_FORMAT_R8G8B8A8_SRGB initial
  = Fault OutOfBounds.
Proof. reflexivity. Qed.

Lemma initial_consistent (max_views num_images : nat) :
  consistent max_views num_images initial.
Proof. split; [cbn; lia | reflexivity]. Qed.

(** The scratch after [ensure_two_views]. *)
Definition two_views : world :=
  mk_world (mk_scratch 2 extent_1000 VK_FORMAT_R8G8B8A8_SRGB true)
    [render_gfx_render_pass_init VK_FORMAT_R8G8B8A8_SRGB true;
     comp_scratch_single_images_ensure_mutable 0 extent_1000 true;
     render_gfx_target_resources_init 0 0 extent_1000;
     render_gfx_target_resources_init 0 1 extent_1000;
     render_gfx_target_resources_init 0 2 extent_1000;
     comp_scratch_single_images_ensure_mutable 1 extent_1000 true;
     render_gfx_target_resources_init 1 0 extent_1000;
     render_gfx_target_resources_init 1 1 extent_1000;
     render_gfx_target_resources_init 1 2 extent_1000].

Lemma two_views_consistent : consistent 2 3 two_views.
Proof. split; [cbn; lia |]. unfold live, owned. cbn. set_solver. Qed.

(** On [two_views] a second call with the same arguments returns true
    and calls nothing, even with an allocator that would refuse
    everything; the first call on the empty scratch is followed by such a
    second call; a call for 500 x 500 first releases the nine objects. *)
Lemma chl_scratch_ensure_idempotent_witness :
  chl_scratch_ensure 2 3 allocator_none 2 extent_1000 VK_FORMAT_R8G8B8A8_SRGB two_views
  = Ok (true, two_views)
  ∧ (chl_scratch_ensure 2 3 allocator_ok 2 extent_1000 VK_FORMAT_R8G8B8A8_SRGB initial
     = Ok (true, two_views)
     ∧ chl_scratch_ensure 2 3 allocator_none 2 extent_1000 VK_FORMAT_R8G8B8A8_SRGB
         two_views
       = Ok (true, two_views))
  ∧ (∃ b w' rest,
       chl_scratch_ensure 2 3 allocator_ok 2 (mk_extent 500 500)
         VK_FORMAT_R8G8B8A8_SRGB two_views
       = Ok (b, w')
       ∧ calls w'
         = calls two_views
           ++ [render_gfx_target_resources_fini 0 0;
               render_gfx_target_resources_fini 0 1;
               render_gfx_target_resources_fini 0 2;
               comp_scratch_single_images_free 0;
               render_gfx_target_resources_fini 1 0;
               render_gfx_target_resources_fini 1 1;
               render_gfx_target_resources_fini 1 2;
               comp_scratch_single_images_free 1;
               render_gfx_render_pass_fini]
           ++ render_gfx_render_pass_init VK_FORMAT_R8G8B8A8_SRGB true :: rest).
Proof.
  split; [| split].
  - apply (proj1 (chl_scratch_ensure_idempotent 2 3 allocator_none allocator_none 2
                    extent_1000 VK_FORMAT_R8G8B8A8_SRGB two_views
                    two_views_consistent (le_n 2))).
    repeat split.
  - split; [reflexivity |].
    apply (proj1 (proj2 (chl_scratch_ensure_idempotent 2 3 allocator_ok allocator_none 2
                           extent_1000 VK_FORMAT_R8G8B8A8_SRGB initial
                           (initial_consistent 2 3) (le_n 2)))).
    reflexivity.
  - destruct (proj2 (proj2 (chl_scratch_ensure_idempotent 2 3 allocator_ok allocator_ok 2
                              (mk_extent 500 500) VK_FORMAT_R8G8B8A8_SRGB two_views
                              two_views_consistent (le_n 2))))
      as (b & w' & rest & Hrun & Hcalls & _).
    + intros (_ & Hwidth & _). discriminate Hwidth.
    + exists b, w', rest. split; [exact Hrun | exact Hcalls].
Defined.


(** *** Further properties of the scratch *)

Section Lifetime.

Variable XRT_MAX_VIEWS : nat.
Variable COMP_SCRATCH_NUM_IMAGES : nat.

Lemma elem_of_view_resources (i : nat) (r : resource) :
  r ∈ view_resources COMP_SCRATCH_NUM_IMAGES i
  <-> r = ScratchImages i
      ∨ ∃ k, (k < COMP_SCRATCH_NUM_IMAGES)%nat ∧ r = TargetResources i k.
Proof.
  unfold view_resources. rewrite elem_of_app, list_elem_of_fmap, list_elem_of_singleton.
  split.
  - intros [(k & -> & Hk) | ->]; [right | left; reflexivity].
    exists k. split; [| reflexivity]. apply elem_of_seq in Hk. lia.
  - intros [-> | (k & Hk & ->)]; [right; reflexivity | left].
    exists k. split; [reflexivity |]. apply elem_of_seq. lia.
Qed.

(** What a scratch with these fields holds. *)
Lemma elem_of_owned (s : chl_scratch) (r : resource) :
  r ∈ owned COMP_SCRATCH_NUM_IMAGES s
  <-> (r = RenderPass ∧ render_pass_initialized s = true)
      ∨ ∃ i, (i < view_count s)%nat
             ∧ (r = ScratchImages i
                ∨ ∃ k, (k < COMP_SCRATCH_NUM_IMAGES)%nat ∧ r = TargetResources i k).
Proof.
  unfold owned, owned_list. rewrite elem_of_list_to_set, elem_of_app.
  rewrite list_elem_of_In, in_flat_map. split.
  - intros [(i & Hi & Hr) | Hrp].
    + right. exists i. apply in_seq in Hi. split; [lia |].
      apply elem_of_view_resources, list_elem_of_In, Hr.
    + left. destruct (render_pass_initialized s); [| set_solver].
      apply list_elem_of_singleton in Hrp. split; [exact Hrp | reflexivity].
  - intros [[-> ->] | (i & Hi & Hr)]; [right; set_solver | left].
    exists i. split; [apply in_seq; lia |].
    apply list_elem_of_In, elem_of_view_resources, Hr.
Qed.

Lemma consistent_cleared (t : list call) :
  live t = ∅ -> consistent XRT_MAX_VIEWS COMP_SCRATCH_NUM_IMAGES (mk_world cleared t).
Proof. intros Hlive. split; [cbn; lia |]. cbn [calls scratch]. rewrite Hlive. reflexivity. Qed.

(** [chl_scratch_ensure] returns, and leaves the fields in step with
    what is alive. *)
Lemma chl_scratch_ensure_consistent (A : allocator) (vc : nat) (ext : VkExtent2D)
    (fmt : Z) (w : world) :
  consistent XRT_MAX_VIEWS COMP_SCRATCH_NUM_IMAGES w ->
  (vc <= XRT_MAX_VIEWS)%nat ->
  ∃ ok w',
    chl_scratch_ensure XRT_MAX_VIEWS COMP_SCRATCH_NUM_IMAGES A vc ext fmt w
    = Ok (ok, w')
    ∧ consistent XRT_MAX_VIEWS COMP_SCRATCH_NUM_IMAGES w'.
Proof.
  intros Hcons Hvc.
  destruct (decide (already_correct (scratch w) vc ext fmt)) as [Hsame | Hdiff].
  - exists true, w. rewrite chl_scratch_ensure_same by exact Hsame.
    split; [reflexivity | exact Hcons].
  - destruct (chl_scratch_ensure_changed XRT_MAX_VIEWS COMP_SCRATCH_NUM_IMAGES
                A vc ext fmt w Hdiff Hcons Hvc) as (w' & rest & Hrun & _ & Hpost).
    eexists _, w'. split; [exact Hrun |].
    destruct (render_pass_init_ok A && forallb (images_ensure_ok A) (seq 0 vc));
      destruct Hpost as [Hs Hl].
    + split; [rewrite Hs; cbn; exact Hvc | exact Hl].
    + destruct w' as [s' t']. cbn in Hs, Hl. subst s'. apply consistent_cleared, Hl.
Qed.

(** X1. [chl_scratch_ensure] with a view count that fits the array
    always returns, and keeps the struct in step with what is alive:
    after it, the objects alive are exactly those the fields account for.
    When it returns true the fields read the arguments; if it had work to
    do, what is alive then is the render pass, the images of each of the
    [view_count] views and [COMP_SCRATCH_NUM_IMAGES] render targets per
    view, and nothing else. It returns true exactly when the fields
    matched already or every creation succeeded. *)
Theorem chl_scratch_ensure_holds (A : allocator) (vc : nat) (ext : VkExtent2D)
    (fmt : Z) (w : world) :
  consistent XRT_MAX_VIEWS COMP_SCRATCH_NUM_IMAGES w ->
  (vc <= XRT_MAX_VIEWS)%nat ->
  ∃ ok w',
    chl_scratch_ensure XRT_MAX_VIEWS COMP_SCRATCH_NUM_IMAGES A vc ext fmt w
    = Ok (ok, w')
    ∧ consistent XRT_MAX_VIEWS COMP_SCRATCH_NUM_IMAGES w'
    ∧ (ok = true -> already_correct (scratch w') vc ext fmt)
    ∧ (ok = true <->
       already_correct (scratch w) vc ext fmt
       ∨ (render_pass_init_ok A = true
          ∧ ∀ i, (i < vc)%nat -> images_ensure_ok A i = true))
    ∧ (ok = true -> ¬ already_correct (scratch w) vc ext fmt ->
       ∀ r, r ∈ live (calls w')
            <-> r = RenderPass
                ∨ ∃ i, (i < vc)%nat
                       ∧ (r = ScratchImages i
                          ∨ ∃ k, (k < COMP_SCRATCH_NUM_IMAGES)%nat
                                 ∧ r = TargetResources i k)).
Proof.
  intros Hcons Hvc.
  destruct (decide (already_correct (scratch w) vc ext fmt)) as [Hsame | Hdiff].
  - exists true, w. rewrite chl_scratch_ensure_same by exact Hsame.
    split; [reflexivity |]. split; [exact Hcons |]. split; [auto |].
    split; [split; auto |]. intros _ Hdiff. contradiction.
  - destruct (chl_scratch_ensure_changed XRT_MAX_VIEWS COMP_SCRATCH_NUM_IMAGES
                A vc ext fmt w Hdiff Hcons Hvc) as (w' & rest & Hrun & _ & Hpost).
    assert (Hall : render_pass_init_ok A && forallb (images_ensure_ok A) (seq 0 vc) = true
                   <-> render_pass_init_ok A = true
                       ∧ ∀ i, (i < vc)%nat -> images_ensure_ok A i = true).
    { rewrite andb_true_iff, forallb_forall. split; intros [Hrp Himg]; (split; [exact Hrp |]).
      - intros i Hi. apply Himg, in_seq. lia.
      - intros i Hi. apply Himg. apply in_seq in Hi. lia. }
    eexists _, w'. split; [exact Hrun |].
    destruct (render_pass_init_ok A && forallb (images_ensure_ok A) (seq 0 vc)).
    + destruct Hpost as [Hs Hl].
      split; [split; [rewrite Hs; cbn; exact Hvc | exact Hl] |].
      split; [intros _; rewrite Hs; repeat split |].
      split; [split; [intros _; right; apply Hall; reflexivity | reflexivity] |].
      intros _ _ r. rewrite Hl, elem_of_owned, Hs. cbn [view_count render_pass_initialized].
      split.
      * intros [[-> _] | Hview]; [left; reflexivity | right; exact Hview].
      * intros [-> | Hview]; [left; split; reflexivity | right; exact Hview].
    + destruct Hpost as [Hs Hl].
      split.
      { destruct w' as [s' t']. cbn in Hs, Hl. subst s'. apply consistent_cleared, Hl. }
      split; [discriminate |].
      split; [| discriminate].
      split; [discriminate |].
      intros [Hsame | Hok]; [contradiction |].
      apply Hall in Hok. discriminate Hok.
Qed.

(** X2. [chl_scratch_free_resources] on a scratch whose fields account
    for what is alive returns with nothing alive and the fields zeroed;
    it only gives back, one call per object held; and called again it
    makes no call at all. *)
Theorem chl_scratch_free_resources_releases (w : world) :
  consistent XRT_MAX_VIEWS COMP_SCRATCH_NUM_IMAGES w ->
  ∃ w' released,
    chl_scratch_free_resources XRT_MAX_VIEWS COMP_SCRATCH_NUM_IMAGES w = Ok (tt, w')
    ∧ scratch w' = cleared
    ∧ calls w' = calls w ++ released
    ∧ live (calls w') = ∅
    ∧ Forall (fun c => is_allocation c = false) released
    ∧ length released
      = (view_count (scratch w) * (COMP_SCRATCH_NUM_IMAGES + 1)
         + if render_pass_initialized (scratch w) then 1 else 0)%nat
    ∧ chl_scratch_free_resources XRT_MAX_VIEWS COMP_SCRATCH_NUM_IMAGES w' = Ok (tt, w').
Proof.
  intros [Hfit Hlive].
  exists (mk_world cleared (calls w ++ free_calls COMP_SCRATCH_NUM_IMAGES (scratch w))),
         (free_calls COMP_SCRATCH_NUM_IMAGES (scratch w)).
  split; [apply chl_scratch_free_resources_run, Hfit |].
  split; [reflexivity |]. split; [reflexivity |].
  split; [apply live_after_free, Hlive |].
  split; [apply free_calls_release_only |].
  split.
  - unfold free_calls, owned_list. rewrite length_map, length_app.
    assert (Hviews : ∀ n start,
      length (flat_map (view_resources COMP_SCRATCH_NUM_IMAGES) (seq start n))
      = (n * (COMP_SCRATCH_NUM_IMAGES + 1))%nat).
    { induction n as [| n IH]; intros start; [reflexivity |].
      cbn [seq flat_map]. rewrite length_app, IH. unfold view_resources.
      rewrite length_app, length_map, length_seq. cbn. lia. }
    rewrite Hviews. destruct (render_pass_initialized (scratch w)); reflexivity.
  - rewrite chl_scratch_free_resources_run by (cbn; lia).
    cbn [scratch calls]. unfold free_calls, owned_list. cbn.
    rewrite app_nil_r. reflexivity.
Qed.

Lemma ensure_views_overrun (A : allocator) (ext : VkExtent2D) (fmt : Z)
    (count i : nat) (w : world) :
  (i <= XRT_MAX_VIEWS < i + count)%nat ->
  (∀ j, (i <= j < XRT_MAX_VIEWS)%nat -> images_ensure_ok A j = true) ->
  ensure_views XRT_MAX_VIEWS COMP_SCRATCH_NUM_IMAGES A ext fmt count i w
  = Fault OutOfBounds.
Proof.
  revert i w. induction count as [| count IH]; intros i w Hover Hok; [lia |].
  cbn [ensure_views]. unfold mbind, M_bind.
  destruct (decide (i < XRT_MAX_VIEWS)%nat) as [Hin | Hout].
  - erewrite bind_Ok by (unfold view_at; rewrite decide_True by exact Hin; reflexivity).
    rewrite (Hok i) by lia. cbn [negb].
    erewrite bind_Ok by apply emit_images_ensure.
    erewrite bind_Ok by apply for_loop_emit.
    erewrite bind_Ok by reflexivity.
    apply IH; [lia |]. intros j Hj. apply Hok. lia.
  - apply bind_Fault. unfold view_at. rewrite decide_False by exact Hout. reflexivity.
Qed.

(** X3. [chl_scratch_ensure] does not compare [view_count] with the
    size of [views]: asked for more views than [XRT_MAX_VIEWS], with a
    render pass and images that can all be created, its loop runs past
    the end of the array. *)
Theorem chl_scratch_ensure_too_many_views (A : allocator) (vc : nat)
    (ext : VkExtent2D) (fmt : Z) (w : world) :
  consistent XRT_MAX_VIEWS COMP_SCRATCH_NUM_IMAGES w ->
  (XRT_MAX_VIEWS < vc)%nat ->
  render_pass_init_ok A = true ->
  (∀ i, (i < XRT_MAX_VIEWS)%nat -> images_ensure_ok A i = true) ->
  chl_scratch_ensure XRT_MAX_VIEWS COMP_SCRATCH_NUM_IMAGES A vc ext fmt w
  = Fault OutOfBounds.
Proof.
  intros [Hfit _] Hmany Hrp Himg. unfold chl_scratch_ensure.
  mstep reflexivity.
  rewrite decide_False by (intros (Hvc & _); lia).
  mstep (apply chl_scratch_free_resources_run; exact Hfit).
  mstep reflexivity. rewrite Hrp. cbn [negb].
  mstep reflexivity.
  unfold mbind, M_bind. apply bind_Fault.
  apply ensure_views_overrun; [lia |]. intros j Hj. apply Himg. lia.
Qed.

End Lifetime.

Lemma chl_scratch_ensure_holds_witness :
  ∃ w',
    chl_scratch_ensure 2 3 allocator_ok 2 extent_1000 VK_FORMAT_R8G8B8A8_SRGB initial
    = Ok (true, w')
    ∧ consistent 2 3 w'
    ∧ already_correct (scratch w') 2 extent_1000 VK_FORMAT_R8G8B8A8_SRGB
    ∧ ∀ r, r ∈ live (calls w')
           <-> r = RenderPass
               ∨ ∃ i, (i < 2)%nat
                      ∧ (r = ScratchImages i
                         ∨ ∃ k, (k < 3)%nat ∧ r = TargetResources i k).
Proof.
  destruct (chl_scratch_ensure_holds 2 3 allocator_ok 2 extent_1000
              VK_FORMAT_R8G8B8A8_SRGB initial (initial_consistent 2 3) (le_n 2))
    as (ok & w' & Hrun & Hcons & Hfields & Hok & Hlive).
  assert (Hdiff : ¬ already_correct (scratch initial) 2 extent_1000
                      VK_FORMAT_R8G8B8A8_SRGB)
    by (intros (Hvc & _); discriminate Hvc).
  assert (Htrue : ok = true).
  { apply Hok. right. split; [reflexivity |]. intros i _. reflexivity. }
  subst ok. exists w'. split; [exact Hrun |]. split; [exact Hcons |].
  split; [apply Hfields; reflexivity |].
  apply Hlive; [reflexivity | exact Hdiff].
Defined.

Lemma chl_scratch_free_resources_releases_witness :
  ∃ w' released,
    chl_scratch_free_resources 2 3 two_views = Ok (tt, w')
    ∧ scratch w' = cleared
    ∧ calls w' = calls two_views ++ released
    ∧ live (calls w') = ∅
    ∧ Forall (fun c => is_allocation c = false) released
    ∧ length released = 9%nat
    ∧ chl_scratch_free_resources 2 3 w' = Ok (tt, w').
Proof.
  exact (chl_scratch_free_resources_releases 2 3 two_views two_views_consistent).
Defined.

Lemma chl_scratch_ensure_too_many_views_witness :
  chl_scratch_ensure 2 3 allocator_ok 3 extent_1000 VK_FORMAT_R8G8B8A8_SRGB two_views
  = Fault OutOfBounds.
Proof.
  apply (chl_scratch_ensure_too_many_views 2 3 allocator_ok 3 extent_1000
           VK_FORMAT_R8G8B8A8_SRGB two_views two_views_consistent).
  - lia.
  - reflexivity.
  - intros i _. reflexivity.
Defined.

End Scratch.

(** ** The peek window: [comp_window_peek_blit] *)

Module Peek.

Inductive comp_window_peek_eye : Type :=
| COMP_WINDOW_PEEK_EYE_LEFT
| COMP_WINDOW_PEEK_EYE_RIGHT
| COMP_WINDOW_PEEK_EYE_BOTH.

(** What the blit does outside the window struct, with the results. *)
Inductive event : Type :=
| COMP_DEBUG_resizing
| create_images (width height : Z)
| comp_target_check_ready (ret : bool)
| comp_target_acquire (ret : VkResult) (current : option Z)
| COMP_ERROR_acquire (ret : VkResult)
| vkBeginCommandBuffer
| vkCmdBlitImage (src dst : Z) (src_width src_height dst_width dst_height : Z)
| vkEndCommandBuffer (ret : VkResult)
| vk_cmd_submit_locked (ret : VkResult)
| vkQueuePresentKHR (current : Z) (ret : VkResult)
| VK_ERROR.

(** What [base.base] reads once [create_images] has returned. *)
Record swapchain_images : Type := mk_images {
  images_width : Z;
  images_height : Z;
  images_count : Z;
}.

(** What the window's swapchain target and Vulkan answer, by call number. *)
Record env : Type := mk_env {
  create_images_result : nat -> swapchain_images;
  check_ready : nat -> bool;
  acquire : nat -> VkResult * option Z;
  end_command_buffer : nat -> VkResult;
  submit : nat -> VkResult;
  queue_present : nat -> VkResult;
}.

(** [struct comp_window_peek]: [width], [height], [running] and [hidden]
    are written by the SDL thread; [target_width], [target_height] and
    [image_count] are [base.base.width], [.height] and [.image_count]. *)
Record comp_window_peek : Type := mk_peek {
  eye : comp_window_peek_eye;
  width : Z;
  height : Z;
  running : bool;
  hidden : bool;
  target_width : Z;
  target_height : Z;
  image_count : Z;
  log : list event;
}.

Definition emit (e : event) : M comp_window_peek unit :=
  modify (fun w => mk_peek (eye w) (width w) (height w) (running w) (hidden w)
                     (target_width w) (target_height w) (image_count w)
                     (log w ++ [e])).

Fixpoint count (p : event -> bool) (l : list event) : nat :=
  match l with
  | [] => 0
  | e :: l' => (if p e then 1 else 0) + count p l'
  end.

Definition is_create_images (e : event) : bool :=
  match e with create_images _ _ => true | _ => false end.
Definition is_check_ready (e : event) : bool :=
  match e with comp_target_check_ready _ => true | _ => false end.
Definition is_acquire (e : event) : bool :=
  match e with comp_target_acquire _ _ => true | _ => false end.
Definition is_end_command_buffer (e : event) : bool :=
  match e with vkEndCommandBuffer _ => true | _ => false end.
Definition is_submit (e : event) : bool :=
  match e with vk_cmd_submit_locked _ => true | _ => false end.
Definition is_queue_present (e : event) : bool :=
  match e with vkQueuePresentKHR _ _ => true | _ => false end.

(** A call whose answer the environment gives: the [n]-th call of its kind
    gets answer [n], and the call is logged with it. *)
Definition query {A : Type} (is_kind : event -> bool) (answer : nat -> A)
    (mk : A -> event) : M comp_window_peek A :=
  fun w => let a := answer (count is_kind (log w)) in
           bind (emit (mk a)) (fun _ => ret a) w.

(** The swapchain has been re-created. *)
Definition set_target (created : swapchain_images) (w : comp_window_peek)
  : comp_window_peek :=
  mk_peek (eye w) (width w) (height w) (running w) (hidden w)
    (images_width created) (images_height created) (images_count created) (log w).

Section WithEnv.

Variable P : env.

(** [while (!comp_target_check_ready(&w->base.base)) ;] with at most
    [fuel] polls. *)
Fixpoint wait_until_ready (fuel : nat) : M comp_window_peek unit :=
  match fuel with
  | O => stop OutOfFuel
  | S fuel' =>
    ready ← query is_check_ready (check_ready P) comp_target_check_ready;
    if (ready : bool) then ret tt else wait_until_ready fuel'
  end.

(** [w->base.base.images[current]]: an index that was never written, or
    one outside the images, leaves the array. *)
Definition image_at (current : option Z) : M comp_window_peek Z :=
  n ← gets image_count;
  match current with
  | Some i => if decide (0 <= i < n) then ret i else stop OutOfBounds
  | None => stop OutOfBounds
  end.

Definition comp_window_peek_blit (fuel : nat) (src : Z) (width height : Z)
  : M comp_window_peek unit :=
  w ← gets (fun w : comp_window_peek => w);
  if hidden w || negb (running w) then ret tt
  else
    (if negb (Peek.width w =? target_width w) || negb (Peek.height w =? target_height w)
     then
       emit COMP_DEBUG_resizing;;
       created ← query is_create_images (create_images_result P)
                   (fun _ => create_images (Peek.width w) (Peek.height w));
       modify (set_target created)
     else ret tt);;
    wait_until_ready fuel;;
    acq ← query is_acquire (acquire P) (fun a => comp_target_acquire a.1 a.2);
    (if decide (acq.1 = VK_SUCCESS) then ret tt else emit (COMP_ERROR_acquire acq.1));;
    dst ← image_at acq.2;
    emit vkBeginCommandBuffer;;
    w ← gets (fun w : comp_window_peek => w);
    (* [blit.dstOffsets[1].x = w->width]: an [int32_t] field. *)
    emit (vkCmdBlitImage src dst width height
            (to_int32 (Peek.width w)) (to_int32 (Peek.height w)));;
    r_end ← query is_end_command_buffer (end_command_buffer P) vkEndCommandBuffer;
    if decide (r_end = VK_SUCCESS) then
      (* Done writing commands, submit to queue. *)
      r_submit ← query is_submit (submit P) vk_cmd_submit_locked;
      if decide (r_submit = VK_SUCCESS) then
        r_present ← query is_queue_present (queue_present P) (vkQueuePresentKHR dst);
        if decide (r_present = VK_SUCCESS) then ret tt
        else emit VK_ERROR
      else emit VK_ERROR
    else emit VK_ERROR.

Definition comp_window_peek_get_eye : M comp_window_peek comp_window_peek_eye :=
  gets eye.

End WithEnv.

(** *** Hidden windows and the busy wait *)

Section Blit.

Variable P : env.

Lemma comp_window_peek_blit_hidden (fuel : nat) (src width height : Z)
    (w : comp_window_peek) :
  hidden w || negb (running w) = true ->
  comp_window_peek_blit P fuel src width height w = Ok (tt, w).
Proof.
  intros Hoff. unfold comp_window_peek_blit.
  mstep reflexivity. rewrite Hoff. reflexivity.
Qed.

Lemma peek_count_app (p : event -> bool) (l l' : list event) :
  count p (l ++ l') = (count p l + count p l')%nat.
Proof. induction l as [| e l IH]; cbn; [reflexivity | rewrite IH; lia]. Qed.

Lemma log_emit (e : event) (w w' : comp_window_peek) (u : unit) :
  emit e w = Ok (u, w') -> log w' = log w ++ [e].
Proof. intros [= _ <-]. reflexivity. Qed.

(** While the target answers not-ready, the loop is still polling. *)
Lemma wait_until_ready_blocks (n fuel : nat) (w : comp_window_peek) :
  (∀ k, (k < n)%nat -> check_ready P (count is_check_ready (log w) + k) = false) ->
  (fuel <= n)%nat ->
  wait_until_ready P fuel w = Fault OutOfFuel.
Proof.
  revert n w. induction fuel as [| fuel IH]; intros n w Hbusy Hfuel.
  - reflexivity.
  - cbn [wait_until_ready]. mstep reflexivity.
    rewrite <- (Nat.add_0_r (count is_check_ready (log w))).
    rewrite Hbusy by lia.
    apply (IH (n - 1)%nat); [| lia].
    intros k Hk.
    transitivity (check_ready P (count is_check_ready (log w) + S k)%nat);
      [| apply Hbusy; lia].
    f_equal. cbn [log]. rewrite peek_count_app. cbn. lia.
Qed.

(** The window with [evs] added to its log. *)
Definition logged (evs : list event) (w : comp_window_peek) : comp_window_peek :=
  mk_peek (eye w) (width w) (height w) (running w) (hidden w)
    (target_width w) (target_height w) (image_count w) (log w ++ evs).

Lemma emit_run (e : event) (w : comp_window_peek) :
  emit e w = Ok (tt, logged [e] w).
Proof. reflexivity. Qed.

Lemma query_run {A : Type} (is_kind : event -> bool) (answer : nat -> A)
    (mk : A -> event) (w : comp_window_peek) :
  query is_kind answer mk w
  = Ok (answer (count is_kind (log w)),
        logged [mk (answer (count is_kind (log w)))] w).
Proof. reflexivity. Qed.

Lemma logged_logged (evs evs' : list event) (w : comp_window_peek) :
  logged evs' (logged evs w) = logged (evs ++ evs') w.
Proof. unfold logged. cbn. rewrite <- app_assoc. reflexivity. Qed.

Lemma count_logged (p : event -> bool) (evs : list event) (w : comp_window_peek) :
  count p (log (logged evs w)) = (count p (log w) + count p evs)%nat.
Proof. cbn [log logged]. apply peek_count_app. Qed.

(** Once the target answers ready, after [n] answers of not-ready, the
    loop is left; it has polled [n + 1] times. *)
Lemma wait_until_ready_returns (n fuel : nat) (w : comp_window_peek) :
  (∀ k, (k < n)%nat -> check_ready P (count is_check_ready (log w) + k) = false) ->
  check_ready P (count is_check_ready (log w) + n) = true ->
  (n < fuel)%nat ->
  wait_until_ready P fuel w
  = Ok (tt, logged (replicate n (comp_target_check_ready false)
                    ++ [comp_target_check_ready true]) w).
Proof.
  revert n w. induction fuel as [| fuel IH]; intros n w Hbusy Hready Hfuel; [lia |].
  cbn [wait_until_ready]. mstep reflexivity.
  destruct n as [| n].
  - rewrite Nat.add_0_r in Hready. rewrite Hready. reflexivity.
  - rewrite <- (Nat.add_0_r (count is_check_ready (log w))).
    rewrite Hbusy by lia.
    rewrite (IH n).
    + unfold logged. cbn [log eye width height running hidden target_width
        target_height image_count replicate app].
      rewrite <- app_assoc. reflexivity.
    + intros k Hk. cbn [log]. rewrite peek_count_app. cbn [count is_check_ready].
      replace (count is_check_ready (log w) + (1 + 0) + k)%nat
        with (count is_check_ready (log w) + S k)%nat by lia.
      apply Hbusy. lia.
    + cbn [log]. rewrite peek_count_app. cbn [count is_check_ready].
      replace (count is_check_ready (log w) + (1 + 0) + n)%nat
        with (count is_check_ready (log w) + S n)%nat by lia.
      exact Hready.
    + lia.
Qed.

(** The window after the resize that precedes the wait. *)
Definition resized (w : comp_window_peek) : comp_window_peek :=
  if negb (width w =? target_width w) || negb (height w =? target_height w)
  then set_target (create_images_result P (count is_create_images (log w)))
         (logged [COMP_DEBUG_resizing; create_images (width w) (height w)] w)
  else w.

Lemma resize_step_run (w : comp_window_peek) :
  (if negb (width w =? target_width w) || negb (height w =? target_height w)
   then
     emit COMP_DEBUG_resizing;;
     created ← query is_create_images (create_images_result P)
                 (fun _ => create_images (width w) (height w));
     modify (set_target created)
   else ret tt) w = Ok (tt, resized w).
Proof.
  unfold resized.
  destruct (negb (width w =? target_width w) || negb (height w =? target_height w));
    [| reflexivity].
  mstep (apply emit_run). mstep (apply query_run).
  rewrite logged_logged, count_logged, Nat.add_0_r. reflexivity.
Qed.

Lemma count_resized (p : event -> bool) (w : comp_window_peek) :
  p COMP_DEBUG_resizing = false ->
  (∀ width height, p (create_images width height) = false) ->
  count p (log (resized w)) = count p (log w).
Proof.
  intros Hdebug Hcreate. unfold resized.
  destruct (_ || _); [| reflexivity].
  cbn [log set_target logged]. rewrite peek_count_app. cbn [count].
  rewrite Hdebug, Hcreate. lia.
Qed.

Lemma count_replicate_not_ready (p : event -> bool) (n : nat) :
  count p (replicate n (comp_target_check_ready false))
  = (if p (comp_target_check_ready false) then n else 0)%nat.
Proof.
  induction n as [| n IH]; cbn [replicate count].
  - destruct (p _); reflexivity.
  - rewrite IH. destruct (p _); reflexivity.
Qed.

Lemma comp_window_peek_blit_blocks (n fuel : nat) (src width height : Z)
    (w : comp_window_peek) :
  hidden w || negb (running w) = false ->
  (∀ k, (k < n)%nat -> check_ready P (count is_check_ready (log w) + k) = false) ->
  (fuel <= n)%nat ->
  comp_window_peek_blit P fuel src width height w = Fault OutOfFuel.
Proof.
  intros Hon Hbusy Hfuel. unfold comp_window_peek_blit.
  mstep reflexivity. rewrite Hon.
  mstep (apply resize_step_run).
  unfold mbind, M_bind. apply bind_Fault.
  apply (wait_until_ready_blocks n); [| exact Hfuel].
  intros k Hk. rewrite count_resized by reflexivity. apply Hbusy, Hk.
Qed.

(** A shown window whose target answers ready at poll [n], and whose
    acquire leaves an index inside the images the swapchain then has:
    the blit returns, after [n + 1] polls and one acquire. *)
Lemma comp_window_peek_blit_returns (n fuel : nat) (src width height : Z)
    (w : comp_window_peek) (i : Z) :
  hidden w || negb (running w) = false ->
  (∀ k, (k < n)%nat -> check_ready P (count is_check_ready (log w) + k) = false) ->
  check_ready P (count is_check_ready (log w) + n) = true ->
  (n < fuel)%nat ->
  (acquire P (count is_acquire (log w))).2 = Some i ->
  0 <= i < image_count (resized w) ->
  ∃ w',
    comp_window_peek_blit P fuel src width height w = Ok (tt, w')
    ∧ count is_check_ready (log w') = (count is_check_ready (log w) + S n)%nat
    ∧ count is_acquire (log w') = S (count is_acquire (log w)).
Proof.
  intros Hon Hbusy Hready Hfuel Hindex Hrange. unfold comp_window_peek_blit.
  mstep reflexivity. rewrite Hon.
  mstep (apply resize_step_run).
  mstep (apply (wait_until_ready_returns n);
         rewrite ?count_resized by reflexivity;
         [intros k Hk; apply Hbusy, Hk | exact Hready | exact Hfuel]).
  remember (logged (replicate n (comp_target_check_ready false)
                    ++ [comp_target_check_ready true])
              (resized w)) as w1 eqn:Hw1.
  assert (Hcount1 : ∀ p, p COMP_DEBUG_resizing = false ->
            (∀ width height, p (create_images width height) = false) ->
            count p (log w1)
            = (count p (log w)
               + ((if p (comp_target_check_ready false) then n else 0)
                  + (if p (comp_target_check_ready true) then 1 else 0)))%nat).
  { intros p Hdebug Hcreate. subst w1.
    rewrite count_logged, count_resized, peek_count_app, count_replicate_not_ready
      by assumption.
    cbn [count]. lia. }
  assert (Hpolls : count is_check_ready (log w1)
                   = (count is_check_ready (log w) + S n)%nat).
  { rewrite Hcount1 by reflexivity. cbn. lia. }
  assert (Hacquires : count is_acquire (log w1) = count is_acquire (log w)).
  { rewrite Hcount1 by reflexivity. cbn. lia. }
  assert (Himages : image_count w1 = image_count (resized w)) by (subst w1; reflexivity).
  clear Hw1.
  mstep (apply query_run). rewrite Hacquires, Hindex. cbn [fst snd].
  set (result := (acquire P (count is_acquire (log w))).1).
  assert (Hstep : ∃ evs,
    (if decide (result = VK_SUCCESS) then ret tt else emit (COMP_ERROR_acquire result))
      (logged [comp_target_acquire result (Some i)] w1)
    = Ok (tt, logged (comp_target_acquire result (Some i) :: evs) w1)
    ∧ count is_check_ready evs = 0%nat
    ∧ count is_acquire evs = 0%nat).
  { destruct (decide (result = VK_SUCCESS)).
    - exists []. split; [reflexivity | split; reflexivity].
    - exists [COMP_ERROR_acquire result].
      split; [rewrite emit_run, logged_logged; reflexivity | split; reflexivity]. }
  destruct Hstep as (evs & Hrun2 & Hpolls2 & Hacquires2).
  mstep (exact Hrun2).
  mstep (unfold image_at; mstep reflexivity; cbn [image_count logged];
         rewrite Himages, decide_True by exact Hrange; reflexivity).
  mstep (apply emit_run). rewrite logged_logged.
  mstep reflexivity.
  mstep (apply emit_run). rewrite logged_logged.
  mstep (apply query_run). rewrite logged_logged.
  assert (Hdone : ∀ tail,
    count is_check_ready tail = 0%nat -> count is_acquire tail = 0%nat ->
    count is_check_ready (log (logged ((comp_target_acquire result (Some i) :: evs) ++ tail) w1))
    = (count is_check_ready (log w) + S n)%nat
    ∧ count is_acquire (log (logged ((comp_target_acquire result (Some i) :: evs) ++ tail) w1))
      = S (count is_acquire (log w))).
  { intros tail Hready_tail Hacquire_tail.
    rewrite !count_logged, !peek_count_app, Hpolls, Hacquires.
    cbn [count is_check_ready is_acquire].
    rewrite Hpolls2, Hacquires2, Hready_tail, Hacquire_tail. lia. }
  destruct (decide (end_command_buffer P _ = VK_SUCCESS)).
  2: { eexists. split; [rewrite emit_run, logged_logged, <- !app_assoc; reflexivity |].
       apply Hdone; reflexivity. }
  mstep (apply query_run). rewrite logged_logged.
  destruct (decide (submit P _ = VK_SUCCESS)).
  2: { eexists. split; [rewrite emit_run, logged_logged, <- !app_assoc; reflexivity |].
       apply Hdone; reflexivity. }
  mstep (apply query_run). rewrite logged_logged.
  destruct (decide (queue_present P _ = VK_SUCCESS)).
  2: { eexists. split; [rewrite emit_run, logged_logged, <- !app_assoc; reflexivity |].
       apply Hdone; reflexivity. }
  eexists. split; [rewrite <- !app_assoc; reflexivity |].
  apply Hdone; reflexivity.
Qed.

(** What the blit does once the target has answered ready, when the
    acquire leaves index [i]: the acquire and, if it failed, the error
    line; the command buffer with the blit from [src] into image [i]; the
    submission only if [vkEndCommandBuffer] succeeded, and the present of
    image [i] only if the submission succeeded.  Each failure is logged
    and ends the blit. *)
Definition after_ready (src width height : Z) (w : comp_window_peek) (i : Z)
  : list event :=
  let result := (acquire P (count is_acquire (log w))).1 in
  let r_end := end_command_buffer P (count is_end_command_buffer (log w)) in
  let r_submit := submit P (count is_submit (log w)) in
  let r_present := queue_present P (count is_queue_present (log w)) in
  comp_target_acquire result (Some i)
  :: (if decide (result = VK_SUCCESS) then [] else [COMP_ERROR_acquire result])
  ++ [vkBeginCommandBuffer;
      vkCmdBlitImage src i width height (to_int32 (Peek.width w)) (to_int32 (Peek.height w));
      vkEndCommandBuffer r_end]
  ++ (if decide (r_end = VK_SUCCESS) then
        vk_cmd_submit_locked r_submit
        :: (if decide (r_submit = VK_SUCCESS) then
              vkQueuePresentKHR i r_present
              :: (if decide (r_present = VK_SUCCESS) then [] else [VK_ERROR])
            else [VK_ERROR])
      else [VK_ERROR]).

Lemma width_resized (w : comp_window_peek) :
  width (resized w) = width w ∧ height (resized w) = height w.
Proof. unfold resized. destruct (_ || _); split; reflexivity. Qed.

(** The polls that end the wait add to no other count. *)
Lemma count_waited (p : event -> bool) (n : nat) (w : comp_window_peek) :
  p COMP_DEBUG_resizing = false ->
  (∀ width height, p (create_images width height) = false) ->
  (∀ ready, p (comp_target_check_ready ready) = false) ->
  count p (log (logged (replicate n (comp_target_check_ready false)
                        ++ [comp_target_check_ready true]) (resized w)))
  = count p (log w).
Proof.
  intros Hdebug Hcreate Hready.
  rewrite count_logged, count_resized, peek_count_app, count_replicate_not_ready
    by assumption.
  cbn [count]. rewrite !Hready. lia.
Qed.

(** The whole run of a blit that gets past its wait and whose acquire
    leaves an index inside the images. *)
Lemma comp_window_peek_blit_run (n fuel : nat) (src width height : Z)
    (w : comp_window_peek) (i : Z) :
  hidden w || negb (running w) = false ->
  (∀ k, (k < n)%nat -> check_ready P (count is_check_ready (log w) + k) = false) ->
  check_ready P (count is_check_ready (log w) + n) = true ->
  (n < fuel)%nat ->
  (acquire P (count is_acquire (log w))).2 = Some i ->
  0 <= i < image_count (resized w) ->
  comp_window_peek_blit P fuel src width height w
  = Ok (tt, logged (replicate n (comp_target_check_ready false)
                    ++ [comp_target_check_ready true]
                    ++ after_ready src width height w i) (resized w)).
Proof.
  intros Hon Hbusy Hready Hfuel Hindex Hrange. unfold comp_window_peek_blit.
  mstep reflexivity. rewrite Hon.
  mstep (apply resize_step_run).
  mstep (apply (wait_until_ready_returns n);
         rewrite ?count_resized by reflexivity;
         [intros k Hk; apply Hbusy, Hk | exact Hready | exact Hfuel]).
  replace (logged (replicate n (comp_target_check_ready false)
                   ++ [comp_target_check_ready true]
                   ++ after_ready src width height w i) (resized w))
    with (logged (after_ready src width height w i)
            (logged (replicate n (comp_target_check_ready false)
                     ++ [comp_target_check_ready true]) (resized w)))
    by (rewrite logged_logged, <- app_assoc; reflexivity).
  destruct (width_resized w) as [Hwidth Hheight].
  remember (logged (replicate n (comp_target_check_ready false)
                    ++ [comp_target_check_ready true])
              (resized w)) as w1 eqn:Hw1.
  assert (Hcount : ∀ p, p COMP_DEBUG_resizing = false ->
            (∀ width height, p (create_images width height) = false) ->
            (∀ ready, p (comp_target_check_ready ready) = false) ->
            count p (log w1) = count p (log w))
    by (intros p Hd Hc Hr; subst w1; apply count_waited; assumption).
  assert (Himages : image_count w1 = image_count (resized w)) by (subst w1; reflexivity).
  assert (Hwidth1 : Peek.width w1 = Peek.width w) by (subst w1; exact Hwidth).
  assert (Hheight1 : Peek.height w1 = Peek.height w) by (subst w1; exact Hheight).
  clear Hw1. unfold after_ready.
  mstep (apply query_run). rewrite Hcount, Hindex by reflexivity. cbn [fst snd].
  set (result := (acquire P (count is_acquire (log w))).1).
  assert (Hstep :
    (if decide (result = VK_SUCCESS) then ret tt else emit (COMP_ERROR_acquire result))
      (logged [comp_target_acquire result (Some i)] w1)
    = Ok (tt, logged (comp_target_acquire result (Some i)
                      :: (if decide (result = VK_SUCCESS) then []
                          else [COMP_ERROR_acquire result])) w1)).
  { destruct (decide (result = VK_SUCCESS)); [reflexivity |].
    rewrite emit_run, logged_logged. reflexivity. }
  mstep (exact Hstep). clear Hstep.
  mstep (unfold image_at; mstep reflexivity; cbn [image_count logged];
         rewrite Himages, decide_True by exact Hrange; reflexivity).
  mstep (apply emit_run). rewrite logged_logged.
  mstep reflexivity.
  mstep (apply emit_run). rewrite logged_logged.
  cbn [Peek.width Peek.height logged]. rewrite Hwidth1, Hheight1.
  mstep (apply query_run). rewrite logged_logged.
  assert (Hlater : ∀ p evs,
            count p evs = 0%nat ->
            p COMP_DEBUG_resizing = false ->
            (∀ width height, p (create_images width height) = false) ->
            (∀ ready, p (comp_target_check_ready ready) = false) ->
            count p (log (logged evs w1)) = count p (log w)).
  { intros p evs Hevs Hd Hc Hr. rewrite count_logged, Hcount, Hevs by assumption. lia. }
  assert (Hquiet : ∀ p,
            (∀ ret current, p (comp_target_acquire ret current) = false) ->
            (∀ ret, p (COMP_ERROR_acquire ret) = false) ->
            count p (comp_target_acquire result (Some i)
                     :: (if decide (result = VK_SUCCESS) then []
                         else [COMP_ERROR_acquire result])) = 0%nat).
  { intros p Hacq Herr. cbn [count]. rewrite Hacq.
    destruct (decide (result = VK_SUCCESS)); cbn [count]; rewrite ?Herr; reflexivity. }
  rewrite (Hlater is_end_command_buffer)
    by (try reflexivity; rewrite !peek_count_app, Hquiet by reflexivity; reflexivity).
  set (r_end := end_command_buffer P _).
  destruct (decide (r_end = VK_SUCCESS)).
  2: { rewrite emit_run, !logged_logged, <- !app_assoc. reflexivity. }
  mstep (apply query_run). rewrite logged_logged.
  rewrite (Hlater is_submit)
    by (try reflexivity; rewrite !peek_count_app, Hquiet by reflexivity; reflexivity).
  set (r_submit := submit P _).
  destruct (decide (r_submit = VK_SUCCESS)).
  2: { rewrite emit_run, !logged_logged, <- !app_assoc. reflexivity. }
  mstep (apply query_run). rewrite logged_logged.
  rewrite (Hlater is_queue_present)
    by (try reflexivity; rewrite !peek_count_app, Hquiet by reflexivity; reflexivity).
  set (r_present := queue_present P _).
  destruct (decide (r_present = VK_SUCCESS)).
  2: { rewrite emit_run, !logged_logged, <- !app_assoc. reflexivity. }
  rewrite <- !app_assoc. reflexivity.
Qed.

(** [current] is read whatever the acquire answered: when the acquire
    left it unwritten, or wrote an index outside the images, the read of
    [images[current]] leaves the array. *)
Lemma comp_window_peek_blit_leaves_images (n fuel : nat) (src width height : Z)
    (w : comp_window_peek) :
  hidden w || negb (running w) = false ->
  (∀ k, (k < n)%nat -> check_ready P (count is_check_ready (log w) + k) = false) ->
  check_ready P (count is_check_ready (log w) + n) = true ->
  (n < fuel)%nat ->
  match (acquire P (count is_acquire (log w))).2 with
  | Some i => ¬ 0 <= i < image_count (resized w)
  | None => True
  end ->
  comp_window_peek_blit P fuel src width height w = Fault OutOfBounds.
Proof.
  intros Hon Hbusy Hready Hfuel Hindex. unfold comp_window_peek_blit.
  mstep reflexivity. rewrite Hon.
  mstep (apply resize_step_run).
  mstep (apply (wait_until_ready_returns n);
         rewrite ?count_resized by reflexivity;
         [intros k Hk; apply Hbusy, Hk | exact Hready | exact Hfuel]).
  mstep (apply query_run). rewrite count_waited by reflexivity. cbn [fst snd].
  set (acq := acquire P (count is_acquire (log w))) in *.
  assert (Hread : ∀ w1, image_count w1 = image_count (resized w) ->
            image_at acq.2 w1 = Fault OutOfBounds).
  { intros w1 Himages. unfold image_at. mstep reflexivity. rewrite Himages.
    destruct acq.2 as [i |]; [| reflexivity].
    rewrite decide_False by exact Hindex. reflexivity. }
  destruct (decide (acq.1 = VK_SUCCESS)).
  - mstep reflexivity. unfold mbind, M_bind. apply bind_Fault, Hread. reflexivity.
  - mstep (apply emit_run). unfold mbind, M_bind. apply bind_Fault, Hread. reflexivity.
Qed.

End Blit.

(** A shown, running window whose target never becomes ready. *)
Definition env_never_ready : env :=
  mk_env (fun _ => mk_images 640 480 3) (fun _ => false)
    (fun _ => (VK_SUCCESS, Some 0))
    (fun _ => VK_SUCCESS) (fun _ => VK_SUCCESS) (fun _ => VK_SUCCESS).

Definition window_shown : comp_window_peek :=
  mk_peek COMP_WINDOW_PEEK_EYE_LEFT 640 480 true false 640 480 3 [].


(** A target that answers ready from poll [n] on. *)
Definition env_ready_at (n : nat) : env :=
  mk_env (fun _ => mk_images 640 480 3) (fun k => (n <=? k)%nat)
    (fun _ => (VK_SUCCESS, Some 0))
    (fun _ => VK_SUCCESS) (fun _ => VK_SUCCESS) (fun _ => VK_SUCCESS).

(** The SDL window is 800 x 600 by now, its swapchain still 640 x 480. *)
Definition window_grown : comp_window_peek :=
  mk_peek COMP_WINDOW_PEEK_EYE_LEFT 800 600 true false 640 480 3 [].

Example blit_resizes_first :
  comp_window_peek_blit
    (mk_env (fun _ => mk_images 800 600 2) (fun _ => true)
       (fun _ => (VK_SUCCESS, Some 1))
       (fun _ => VK_SUCCESS) (fun _ => VK_SUCCESS) (fun _ => VK_SUCCESS))
    1 7 1000 1000 window_grown
  = Ok (tt, mk_peek COMP_WINDOW_PEEK_EYE_LEFT 800 600 true false 800 600 2
              [COMP_DEBUG_resizing;
               create_images 800 600;
               comp_target_check_ready true;
               comp_target_acquire VK_SUCCESS (Some 1);
               vkBeginCommandBuffer;
               vkCmdBlitImage 7 1 1000 1000 800 600;
               vkEndCommandBuffer VK_SUCCESS;
               vk_cmd_submit_locked VK_SUCCESS;
               vkQueuePresentKHR 1 VK_SUCCESS]).
Proof. reflexivity. Qed.

Example blit_after_two_polls :
  comp_window_peek_blit (env_ready_at 2) 3 7 1000 1000 window_shown
  = Ok (tt, logged [comp_target_check_ready false;
                    comp_target_check_ready false;
                    comp_target_check_ready true;
                    comp_target_acquire VK_SUCCESS (Some 0);
                    vkBeginCommandBuffer;
                    vkCmdBlitImage 7 0 1000 1000 640 480;
                    vkEndCommandBuffer VK_SUCCESS;
                    vk_cmd_submit_locked VK_SUCCESS;
                    vkQueuePresentKHR 0 VK_SUCCESS] window_shown).
Proof. reflexivity. Qed.

End Peek.

(** ** The renderer: comp_renderer.c *)

Module Renderer.

(** The fields of [struct comp_frame] the renderer reads. *)
Record comp_frame : Type := mk_frame {
  id : Z;
  predicted_display_time_ns : Z;
  desired_present_time_ns : Z;
  present_slop_ns : Z;
}.

(** Modelled from the spec: comp_frame.h is not among the sources. A slot
    is invalid when it holds no frame; the invalid slot carries the id
    [-1], the value [target_calc_frame_pacing] starts from. *)
Definition invalid_frame : comp_frame := mk_frame (-1) 0 0 0.

(** Modelled from the spec: [is_invalid(slot)], an O(1) query. *)
Definition comp_frame_is_invalid_locked (f : comp_frame) : bool := id f =? -1.

(** Modelled from the spec: one millisecond, [U_TIME_1MS_IN_NS] of
    u_time.h. *)
Definition U_TIME_1MS_IN_NS : Z := 1000 * 1000.

(** [VkImageUsageFlagBits] *)
Definition VK_IMAGE_USAGE_TRANSFER_SRC_BIT : Z := 1.
Definition VK_IMAGE_USAGE_STORAGE_BIT : Z := 8.
Definition VK_IMAGE_USAGE_COLOR_ATTACHMENT_BIT : Z := 16.

(** Where a [COMP_ERROR] is raised. *)
Inductive error_site : Type :=
| requested_0_command_buffers
| vkCreateFence_failed
| vkWaitForFences_failed
| acquire_force_recreate_failed
| comp_target_acquire_failed (ret : VkResult)
| vk_swapchain_present_failed (ret : VkResult)
| vk_check_failed (ret : VkResult).

(** Everything that leaves the renderer, oldest first, with what came
    back. The [comp_target_*] events are the target's function pointers. *)
Inductive event : Type :=
| comp_target_check_ready (ret : bool)
| comp_target_has_images (ret : bool)
| comp_target_create_images (image_usage : Z)
| comp_target_acquire (ret : VkResult) (index : option Z)
| comp_target_present (index timeline_value desired_present_time_ns present_slop_ns : Z)
    (ret : VkResult)
| comp_target_wait_for_present (ret : VkResult)
| comp_target_flush
| comp_target_update_timings
| comp_target_mark_begin (frame_id when_ns : Z)
| comp_target_mark_submit_begin (frame_id when_ns : Z)
| comp_target_mark_submit_end (frame_id when_ns : Z)
| comp_target_info_gpu (frame_id when_ns : Z)
| os_monotonic_get_ns (ret : Z)
| vkQueueWaitIdle
| vkCreateFence (i : nat) (ret : VkResult)
| vkDestroyFence (i : nat)
| vkWaitForFences (fence : Z) (ret : VkResult)
| vkResetFences (fence : Z) (ret : VkResult)
| vk_cmd_submit_locked (fence frame_id : Z) (ret : VkResult)
| render_distortion_images_ensure (ret : bool)
| render_gfx_render_pass_init
| render_gfx_render_pass_fini
| render_gfx_target_resources_init (i : nat)
| render_gfx_target_resources_fini (i : nat)
| chl_frame_state_init
| chl_frame_state_fini
| render_gfx_init
| render_gfx_fini
| render_compute_init
| render_compute_fini
| calc_viewport_data
| calc_vertex_rot_data
| calc_pose_data
| chl_frame_state_gfx_default_pipeline (buffer : Z)
| chl_frame_state_cs_default_pipeline (buffer : Z)
| comp_mirror_fixup_ui_state
| comp_mirror_is_ready_and_active (ret : bool)
| comp_mirror_do_blit (frame_id : Z) (ret : xrt_result_t)
| render_resources_get_timestamps (ret : bool)
| COMP_DEBUG
| COMP_ERROR (site : error_site)
| LOG_FRAME_LAG (diff_ns : Z).

(** The answers of the target, of Vulkan, of the helpers and of the
    clock: the [n]-th call of a kind gets answer [n]. [image_count n] is
    [target->image_count] once [create_images] has been called [n]
    times. *)
Record env : Type := mk_env {
  use_compute : bool;
  wait_for_present_supported : bool;
  one_projection_layer_fast_path : bool;
  layer_count : Z;
  check_ready : nat -> bool;
  has_images : nat -> bool;
  image_count : nat -> Z;
  acquire : nat -> VkResult * option Z;
  present : nat -> VkResult;
  wait_for_present : nat -> VkResult;
  distortion_images_ensure : nat -> bool;
  create_fence : nat -> VkResult;
  wait_for_fences : nat -> VkResult;
  reset_fences : nat -> VkResult;
  cmd_submit : nat -> VkResult;
  monotonic_ns : nat -> Z;
  mirror_is_ready_and_active : nat -> bool;
  mirror_do_blit : nat -> xrt_result_t;
  get_timestamps : nat -> bool;
  scratch_image : nat -> Z;
  scratch_width : Z;
  scratch_height : Z;
  target_image : Z -> Z;
  target_width : Z;
  target_height : Z;
}.

(** [struct comp_renderer] ([rtr_array] and [fences] as "not [NULL]"),
    the two frame slots of the compositor, its peek window, and the
    log. *)
Record world : Type := mk_world {
  acquired_buffer : Z;
  fenced_buffer : Z;
  rtr_array : bool;
  fences : bool;
  buffer_count : Z;
  waited : comp_frame;
  rendering : comp_frame;
  peek : option Peek.comp_window_peek;
  log : list event;
}.

Definition set_acquired_buffer (v : Z) (w : world) : world :=
  mk_world v (fenced_buffer w) (rtr_array w) (fences w) (buffer_count w)
    (waited w) (rendering w) (peek w) (log w).
Definition set_fenced_buffer (v : Z) (w : world) : world :=
  mk_world (acquired_buffer w) v (rtr_array w) (fences w) (buffer_count w)
    (waited w) (rendering w) (peek w) (log w).
Definition set_rtr_array (v : bool) (w : world) : world :=
  mk_world (acquired_buffer w) (fenced_buffer w) v (fences w) (buffer_count w)
    (waited w) (rendering w) (peek w) (log w).
Definition set_fences (v : bool) (w : world) : world :=
  mk_world (acquired_buffer w) (fenced_buffer w) (rtr_array w) v (buffer_count w)
    (waited w) (rendering w) (peek w) (log w).
Definition set_buffer_count (v : Z) (w : world) : world :=
  mk_world (acquired_buffer w) (fenced_buffer w) (rtr_array w) (fences w) v
    (waited w) (rendering w) (peek w) (log w).
Definition set_waited (v : comp_frame) (w : world) : world :=
  mk_world (acquired_buffer w) (fenced_buffer w) (rtr_array w) (fences w)
    (buffer_count w) v (rendering w) (peek w) (log w).
Definition set_rendering (v : comp_frame) (w : world) : world :=
  mk_world (acquired_buffer w) (fenced_buffer w) (rtr_array w) (fences w)
    (buffer_count w) (waited w) v (peek w) (log w).
Definition set_peek (v : option Peek.comp_window_peek) (w : world) : world :=
  mk_world (acquired_buffer w) (fenced_buffer w) (rtr_array w) (fences w)
    (buffer_count w) (waited w) (rendering w) v (log w).
Definition add_log (e : event) (w : world) : world :=
  mk_world (acquired_buffer w) (fenced_buffer w) (rtr_array w) (fences w)
    (buffer_count w) (waited w) (rendering w) (peek w) (log w ++ [e]).

Definition emit (e : event) : M world unit := modify (add_log e).

Fixpoint count (p : event -> bool) (l : list event) : nat :=
  match l with
  | [] => 0
  | e :: l' => (if p e then 1 else 0) + count p l'
  end.

Definition is_check_ready (e : event) : bool :=
  match e with comp_target_check_ready _ => true | _ => false end.
Definition is_has_images (e : event) : bool :=
  match e with comp_target_has_images _ => true | _ => false end.
Definition is_create_images (e : event) : bool :=
  match e with comp_target_create_images _ => true | _ => false end.
Definition is_acquire (e : event) : bool :=
  match e with comp_target_acquire _ _ => true | _ => false end.
Definition is_present (e : event) : bool :=
  match e with comp_target_present _ _ _ _ _ => true | _ => false end.
Definition is_wait_for_present (e : event) : bool :=
  match e with comp_target_wait_for_present _ => true | _ => false end.
Definition is_distortion_images_ensure (e : event) : bool :=
  match e with render_distortion_images_ensure _ => true | _ => false end.
Definition is_create_fence (e : event) : bool :=
  match e with vkCreateFence _ _ => true | _ => false end.
Definition is_wait_for_fences (e : event) : bool :=
  match e with vkWaitForFences _ _ => true | _ => false end.
Definition is_reset_fences (e : event) : bool :=
  match e with vkResetFences _ _ => true | _ => false end.
Definition is_cmd_submit (e : event) : bool :=
  match e with vk_cmd_submit_locked _ _ _ => true | _ => false end.
Definition is_clock (e : event) : bool :=
  match e with os_monotonic_get_ns _ => true | _ => false end.
Definition is_mirror_is_ready_and_active (e : event) : bool :=
  match e with comp_mirror_is_ready_and_active _ => true | _ => false end.
Definition is_mirror_do_blit (e : event) : bool :=
  match e with comp_mirror_do_blit _ _ => true | _ => false end.
Definition is_get_timestamps (e : event) : bool :=
  match e with render_resources_get_timestamps _ => true | _ => false end.
Definition is_frame_lag (e : event) : bool :=
  match e with LOG_FRAME_LAG _ => true | _ => false end.

(** A call the environment answers: the [n]-th call of its kind gets
    answer [n] and is logged with it. *)
Definition query {A : Type} (is_kind : event -> bool) (answer : nat -> A)
    (mk : A -> event) : M world A :=
  fun w => let a := answer (count is_kind (log w)) in
           bind (emit (mk a)) (fun _ => ret a) w.

Section WithEnv.

Variable E : env.
Variable P : Peek.env.

Definition ask_check_ready : M world bool :=
  query is_check_ready (check_ready E) comp_target_check_ready.
Definition ask_has_images : M world bool :=
  query is_has_images (has_images E) comp_target_has_images.
Definition ask_acquire : M world (VkResult * option Z) :=
  query is_acquire (acquire E) (fun a => comp_target_acquire a.1 a.2).
Definition ask_clock : M world Z :=
  query is_clock (monotonic_ns E) os_monotonic_get_ns.

(** vk_helpers.h is not among the sources: [VK_CHK_AND_RET(ret, name)]
    reports [ret] and returns it from the enclosing function unless it is
    [VK_SUCCESS]. [rest] is what follows the macro. *)
Definition VK_CHK_AND_RET (ret_ : VkResult) (rest : M world VkResult)
  : M world VkResult :=
  if decide (ret_ = VK_SUCCESS) then rest
  else emit (COMP_ERROR (vk_check_failed ret_));; ret ret_.

(** [r->fences[i]] and [r->rtr_array[i]] (and [target->images[i]], of
    which the renderer keeps the count in [buffer_count]). *)
Definition fence_at (i : Z) : M world unit :=
  w ← gets (fun w : world => w);
  if fences w && (0 <=? i) && (i <? buffer_count w) then ret tt
  else stop OutOfBounds.
Definition rtr_at (i : Z) : M world unit :=
  w ← gets (fun w : world => w);
  if rtr_array w && (0 <=? i) && (i <? buffer_count w) then ret tt
  else stop OutOfBounds.
Definition image_at (i : Z) : M world unit :=
  w ← gets (fun w : world => w);
  if (0 <=? i) && (i <? buffer_count w) then ret tt
  else stop OutOfBounds.

Definition renderer_wait_queue_idle : M world unit := emit vkQueueWaitIdle.

Definition renderer_build_rendering_target_resources (index : nat) : M world unit :=
  emit (render_gfx_target_resources_init index).

Definition renderer_create_renderings_and_fences : M world unit :=
  w ← gets (fun w : world => w);
  assert_ (negb (fences w));;
  if buffer_count w =? 0 then emit (COMP_ERROR requested_0_command_buffers)
  else
    emit COMP_DEBUG;;
    (if negb (use_compute E) then
       modify (set_rtr_array true);;
       emit render_gfx_render_pass_init;;
       for_loop 0 (Z.to_nat (buffer_count w)) renderer_build_rendering_target_resources
     else ret tt);;
    modify (set_fences true);;
    for_loop 0 (Z.to_nat (buffer_count w)) (fun i =>
      ret_ ← query is_create_fence (create_fence E) (vkCreateFence i);
      if decide (ret_ = VK_SUCCESS) then ret tt
      else emit (COMP_ERROR vkCreateFence_failed)).

Definition renderer_close_renderings_and_fences : M world unit :=
  w ← gets (fun w : world => w);
  (* Renderings *)
  (if (0 <? buffer_count w) && rtr_array w then
     for_loop 0 (Z.to_nat (buffer_count w)) (fun i =>
       emit (render_gfx_target_resources_fini i));;
     emit render_gfx_render_pass_fini;;
     modify (set_rtr_array false)
   else ret tt);;
  (* Fences *)
  (if (0 <? buffer_count w) && fences w then
     for_loop 0 (Z.to_nat (buffer_count w)) (fun i => emit (vkDestroyFence i));;
     modify (set_fences false)
   else ret tt);;
  modify (set_buffer_count 0);;
  modify (set_acquired_buffer (-1));;
  modify (set_fenced_buffer (-1)).

Definition renderer_ensure_images_and_renderings (force_recreate : bool)
  : M world bool :=
  ready ← ask_check_ready;
  if negb (ready : bool) then ret false (* Not ready, so can't render anything. *)
  else
    create ← (if force_recreate then ret true
              else
                has ← ask_has_images;
                if negb (has : bool) then ret true
                else w ← gets (fun w : world => w); ret (buffer_count w =? 0));
    if negb (create : bool) then ret true
    else
      emit COMP_DEBUG;;
      renderer_wait_queue_idle;;
      (* destroy all dependent things before creating new images *)
      renderer_close_renderings_and_fences;;
      w ← gets (fun w : world => w);
      let image_usage :=
        Z.lor (if use_compute E then VK_IMAGE_USAGE_STORAGE_BIT
               else VK_IMAGE_USAGE_COLOR_ATTACHMENT_BIT)
              (match peek w with
               | Some _ => VK_IMAGE_USAGE_TRANSFER_SRC_BIT
               | None => 0
               end) in
      emit (comp_target_create_images image_usage);;
      bret ← query is_distortion_images_ensure (distortion_images_ensure E)
               render_distortion_images_ensure;
      if negb (bret : bool) then ret false
      else
        w ← gets (fun w : world => w);
        modify (set_buffer_count (image_count E (count is_create_images (log w))));;
        renderer_create_renderings_and_fences;;
        w ← gets (fun w : world => w);
        assert_ (negb (buffer_count w =? 0));;
        ret true.

Definition renderer_wait_for_last_fence : M world unit :=
  w ← gets (fun w : world => w);
  if fenced_buffer w <? 0 then ret tt
  else
    fence_at (fenced_buffer w);;
    ret_ ← query is_wait_for_fences (wait_for_fences E)
             (vkWaitForFences (fenced_buffer w));
    (if decide (ret_ = VK_SUCCESS) then ret tt
     else emit (COMP_ERROR vkWaitForFences_failed));;
    modify (set_fenced_buffer (-1)).

Definition renderer_submit_queue : M world VkResult :=
  w ← gets (fun w : world => w);
  let frame_id := id (rendering w) in
  assert_ (0 <=? frame_id);;
  (* Wait for the last fence, if any. *)
  renderer_wait_for_last_fence;;
  w ← gets (fun w : world => w);
  assert_ (fenced_buffer w <? 0);;
  assert_ (0 <=? acquired_buffer w);;
  fence_at (acquired_buffer w);;
  ret_ ← query is_reset_fences (reset_fences E) (vkResetFences (acquired_buffer w));
  VK_CHK_AND_RET ret_ (
    assert_ (negb (comp_frame_is_invalid_locked (rendering w)));;
    (* Everything prepared, now we are submitting. *)
    now_ns ← ask_clock;
    emit (comp_target_mark_submit_begin frame_id now_ns);;
    ret_ ← query is_cmd_submit (cmd_submit E)
             (vk_cmd_submit_locked (acquired_buffer w) frame_id);
    (* We have now completed the submit, even if we failed. *)
    now_ns ← ask_clock;
    emit (comp_target_mark_submit_end frame_id now_ns);;
    (* Check after marking as submit complete. *)
    VK_CHK_AND_RET ret_ (
      (* This buffer now have a pending fence. *)
      modify (set_fenced_buffer (acquired_buffer w));;
      ret ret_)).

(** [uint32_t] to [int32_t], as [r->acquired_buffer = buffer_index]
    converts. *)
Definition int32_of_uint32 (v : Z) : Z :=
  let u := v mod 2 ^ 32 in
  if u <? 2 ^ 31 then u else u - 2 ^ 32.

Definition is_stale (ret_ : VkResult) : bool :=
  bool_decide (ret_ = VK_ERROR_OUT_OF_DATE_KHR) || bool_decide (ret_ = VK_SUBOPTIMAL_KHR).

Definition renderer_acquire_swapchain_image : M world unit :=
  w ← gets (fun w : world => w);
  assert_ (acquired_buffer w <? 0);;
  ok ← renderer_ensure_images_and_renderings false;
  if negb (ok : bool) then ret tt (* Not ready yet. *)
  else
    acq ← ask_acquire;
    let buffer_index := default 0 acq.2 in
    if is_stale acq.1 then
      emit COMP_DEBUG;;
      ok ← renderer_ensure_images_and_renderings true;
      if negb (ok : bool) then
        (* Failed on force recreate. *)
        emit (COMP_ERROR acquire_force_recreate_failed)
      else
        (* Acquire image again to silence validation error *)
        acq2 ← ask_acquire;
        let buffer_index := default buffer_index acq2.2 in
        (if decide (acq2.1 = VK_SUCCESS) then ret tt
         else emit (COMP_ERROR (comp_target_acquire_failed acq2.1)));;
        modify (set_acquired_buffer (int32_of_uint32 buffer_index))
    else
      (if decide (acq.1 = VK_SUCCESS) then ret tt
       else emit (COMP_ERROR (comp_target_acquire_failed acq.1)));;
      modify (set_acquired_buffer (int32_of_uint32 buffer_index)).

Definition renderer_resize : M world unit :=
  ready ← ask_check_ready;
  if negb (ready : bool) then
    (* Can't create images right now. Just close any existing renderings. *)
    renderer_close_renderings_and_fences
  else
    (* Force recreate. *)
    renderer_ensure_images_and_renderings true;; ret tt.

Definition renderer_present_swapchain_image (desired_present_time_ns present_slop_ns : Z)
  : M world unit :=
  w ← gets (fun w : world => w);
  assert_ (negb (comp_frame_is_invalid_locked (rendering w)));;
  ret_ ← query is_present (present E)
           (comp_target_present (acquired_buffer w) (id (rendering w))
              desired_present_time_ns present_slop_ns);
  modify (set_acquired_buffer (-1));;
  if is_stale ret_ then renderer_resize
  else if decide (ret_ = VK_SUCCESS) then ret tt
  else emit (COMP_ERROR (vk_swapchain_present_failed ret_)).

(** The test that decides on the frame-lag warning, in [uint64_t]. *)
Definition missed_frame (before_ns after_ns desired_present_time_ns : Z) : bool :=
  (wrap64 (before_ns + U_TIME_1MS_IN_NS) <? after_ns)
  && (wrap64 (desired_present_time_ns + U_TIME_1MS_IN_NS) <? after_ns).

Definition renderer_wait_for_present (desired_present_time_ns : Z) : M world unit :=
  ready ← ask_check_ready;
  if negb (ready : bool) then ret tt
  else
    (* For estimating frame misses. *)
    before_ns ← ask_clock;
    (if wait_for_present_supported E then
       (* the timeout, 2.5 frame intervals, is a float product *)
       result ← query is_wait_for_present (wait_for_present E)
                  comp_target_wait_for_present;
       assert_ (negb (bool_decide (result = VK_ERROR_EXTENSION_NOT_PRESENT)))
     else
       (* Do the acquire *)
       renderer_acquire_swapchain_image);;
    (* How long did it take? *)
    after_ns ← ask_clock;
    if missed_frame before_ns after_ns desired_present_time_ns then
      emit (LOG_FRAME_LAG (wrap64 (after_ns - desired_present_time_ns)))
    else ret tt.

Definition dispatch_graphics : M world VkResult :=
  w ← gets (fun w : world => w);
  emit calc_viewport_data;;
  emit calc_vertex_rot_data;;
  emit calc_pose_data;;
  (* Does everything; renders into rtr_array[acquired_buffer]. *)
  rtr_at (acquired_buffer w);;
  emit (chl_frame_state_gfx_default_pipeline (acquired_buffer w));;
  (* Everything is ready, submit to the queue. *)
  ret_ ← renderer_submit_queue;
  VK_CHK_AND_RET ret_ (ret ret_).

Definition dispatch_compute : M world VkResult :=
  w ← gets (fun w : world => w);
  emit calc_pose_data;;
  (* Target Vulkan resources: target->images[acquired_buffer]. *)
  image_at (acquired_buffer w);;
  emit calc_viewport_data;;
  emit (chl_frame_state_cs_default_pipeline (acquired_buffer w));;
  (* Everything is ready, submit to the queue. *)
  ret_ ← renderer_submit_queue;
  VK_CHK_AND_RET ret_ (ret ret_).

(** Modelled from the spec: [move_and_clear(dst_slot, src_slot)] with
    [dst_slot] the rendering and [src_slot] the waited slot, its one use:
    it fails as a programming error if the destination is valid, moves
    the frame and invalidates the source. *)
Definition comp_frame_move_and_clear_locked : M world unit :=
  w ← gets (fun w : world => w);
  assert_ (comp_frame_is_invalid_locked (rendering w));;
  modify (set_rendering (waited w));;
  modify (set_waited invalid_frame).

(** Modelled from the spec: [clear(slot)] on the rendering slot. *)
Definition comp_frame_clear_locked : M world unit :=
  modify (set_rendering invalid_frame).

(** A computation on the peek window, run on [c->peek]. *)
Definition on_peek {A : Type} (p : Peek.comp_window_peek)
    (m : M Peek.comp_window_peek A) : M world A :=
  fun w => match m p with
           | Ok (a, p') => Ok (a, set_peek (Some p') w)
           | Fault f => Fault f
           end.

(** The [#ifdef XRT_FEATURE_WINDOW_PEEK] block of [comp_renderer_draw]:
    without the feature, or with [c->peek == NULL], nothing happens. *)
Definition peek_block (fuel : nat) : M world unit :=
  w ← gets (fun w : world => w);
  match peek w with
  | None => ret tt
  | Some p =>
    eye ← on_peek p Peek.comp_window_peek_get_eye;
    match eye with
    | Peek.COMP_WINDOW_PEEK_EYE_LEFT =>
      on_peek p (Peek.comp_window_peek_blit P fuel (scratch_image E 0)
                   (scratch_width E) (scratch_height E))
    | Peek.COMP_WINDOW_PEEK_EYE_RIGHT =>
      on_peek p (Peek.comp_window_peek_blit P fuel (scratch_image E 1)
                   (scratch_width E) (scratch_height E))
    | Peek.COMP_WINDOW_PEEK_EYE_BOTH =>
      image_at (acquired_buffer w);;
      on_peek p (Peek.comp_window_peek_blit P fuel (target_image E (acquired_buffer w))
                   (target_width E) (target_height E))
    end
  end.

(** [comp_renderer_draw]; [fuel] bounds the polls of the peek window's
    busy wait. *)
Definition comp_renderer_draw (fuel : nat) : M world xrt_result_t :=
  w ← gets (fun w : world => w);
  (* Check that we don't have any bad data. *)
  assert_ (negb (comp_frame_is_invalid_locked (waited w)));;
  assert_ (comp_frame_is_invalid_locked (rendering w));;
  (* Move waited frame to rendering frame, clear waited. *)
  comp_frame_move_and_clear_locked;;
  w ← gets (fun w : world => w);
  let frame := rendering w in
  (* Tell the target we are starting to render, for frame timing. *)
  now_ns ← ask_clock;
  emit (comp_target_mark_begin (id frame) now_ns);;
  (* Are we ready to render? No - skip rendering. *)
  ready ← ask_check_ready;
  if negb (ready : bool) then
    (* Need to emulate rendering for the timing. *)
    now_ns ← ask_clock;
    emit (comp_target_mark_submit_begin (id frame) now_ns);;
    now_ns ← ask_clock;
    emit (comp_target_mark_submit_end (id frame) now_ns);;
    (* Clear the rendering frame. *)
    comp_frame_clear_locked;;
    ret XRT_SUCCESS
  else
    emit comp_target_flush;;
    emit comp_target_update_timings;;
    w ← gets (fun w : world => w);
    (if acquired_buffer w <? 0 then
       (* Ensures that renderings are created. *)
       renderer_acquire_swapchain_image
     else ret tt);;
    emit comp_target_update_timings;;
    (* Consistency check. *)
    assert_ (negb (one_projection_layer_fast_path E) || (1 <=? layer_count E));;
    emit chl_frame_state_init;;
    res ← (if use_compute E then
             emit render_compute_init;; dispatch_compute
           else
             emit render_gfx_init;; dispatch_graphics);
    if decide (res = VK_SUCCESS) then
      peek_block fuel;;
      w ← gets (fun w : world => w);
      renderer_present_swapchain_image (desired_present_time_ns (rendering w))
        (present_slop_ns (rendering w));;
      (* Save for timestamps below. *)
      w ← gets (fun w : world => w);
      let frame_id := id (rendering w) in
      let desired_present_time_ns := desired_present_time_ns (rendering w) in
      (* Clear the rendered frame. *)
      comp_frame_clear_locked;;
      emit comp_mirror_fixup_ui_state;;
      active ← query is_mirror_is_ready_and_active (mirror_is_ready_and_active E)
                 comp_mirror_is_ready_and_active;
      xret ← (if (active : bool) then
                query is_mirror_do_blit (mirror_do_blit E) (comp_mirror_do_blit frame_id)
              else ret XRT_SUCCESS);
      renderer_wait_queue_idle;;
      (* Free any resources and finalize the scratch images. *)
      emit chl_frame_state_fini;;
      (* Check timestamps. *)
      (if decide (xret = XRT_SUCCESS) then
         have ← query is_get_timestamps (get_timestamps E)
                  render_resources_get_timestamps;
         if (have : bool) then
           now_ns ← ask_clock;
           emit (comp_target_info_gpu frame_id now_ns)
         else ret tt
       else ret tt);;
      (* Free resources. *)
      (if use_compute E then emit render_compute_fini else emit render_gfx_fini);;
      renderer_wait_for_present desired_present_time_ns;;
      emit comp_target_update_timings;;
      ret xret
    else ret XRT_ERROR_VULKAN.

End WithEnv.

(** *** What every step of a function preserves *)

Lemma count_app (p : event -> bool) (l l' : list event) :
  count p (l ++ l') = (count p l + count p l')%nat.
Proof. induction l as [| e l IH]; cbn; [reflexivity | rewrite IH; lia]. Qed.

(** [m] takes a world to one that is [R]-related to it, and so does any
    sequence of such steps when [R] is a preorder. *)
Definition stable {A : Type} (R : relation world) (m : M world A) : Prop :=
  ∀ w, post m w (fun _ w' => R w w').

Section Stable.

Context (R : relation world) `{!PreOrder R}.

Lemma stable_ret {A : Type} (a : A) : stable R (ret a).
Proof. intros w. apply post_ret. reflexivity. Qed.

Lemma stable_bind {A B : Type} (m : M world A) (k : A -> M world B) :
  stable R m -> (∀ a, stable R (k a)) -> stable R (bind m k).
Proof.
  intros Hm Hk w. apply post_bind. eapply post_mono; [apply Hm |].
  intros a w1 H1. eapply post_mono; [apply Hk |].
  intros b w2 H2. cbn beta in *. etransitivity; eassumption.
Qed.

Lemma stable_gets {A : Type} (f : world -> A) : stable R (gets f).
Proof. intros w. unfold post, gets. reflexivity. Qed.

Lemma stable_modify (f : world -> world) :
  (∀ w, R w (f w)) -> stable R (modify f).
Proof. intros Hf w. apply Hf. Qed.

Lemma stable_stop {A : Type} (f : fault) : stable R (stop (A := A) f).
Proof. intros w. exact I. Qed.

Lemma stable_assert (b : bool) : stable R (assert_ b).
Proof. destruct b; [apply stable_ret | apply stable_stop]. Qed.

Lemma stable_emit (e : event) : (∀ w, R w (add_log e w)) -> stable R (emit e).
Proof. intros He w. apply He. Qed.

Lemma stable_query {A : Type} (is_kind : event -> bool) (answer : nat -> A)
    (mk : A -> event) :
  (∀ a w, R w (add_log (mk a) w)) -> stable R (query is_kind answer mk).
Proof. intros Hmk w. apply Hmk. Qed.

Lemma stable_for_loop (body : nat -> M world unit) (start count : nat) :
  (∀ i, stable R (body i)) -> stable R (for_loop start count body).
Proof.
  intros Hbody w.
  apply (post_for_loop (fun w' => R w w')).
  - intros i w0 H0. eapply post_mono; [apply Hbody |].
    intros u w1 H1. cbn beta in *. etransitivity; eassumption.
  - reflexivity.
Qed.

End Stable.

Lemma stable_weaken {A : Type} (R R' : relation world) (m : M world A) :
  (∀ w w', R w w' -> R' w w') -> stable R m -> stable R' m.
Proof.
  intros Himp Hm w. eapply post_mono; [apply Hm |].
  intros a w' H. apply Himp, H.
Qed.

(** [w'] has the log of [w] and more, all of it allowed by [ok]. *)
Definition appended (ok : event -> bool) : relation world :=
  fun w w' => ∃ rest, log w' = log w ++ rest ∧ forallb ok rest = true.

Lemma appended_refl (ok : event -> bool) (w w' : world) :
  log w' = log w -> appended ok w w'.
Proof. intros H. exists []. rewrite app_nil_r. split; [exact H | reflexivity]. Qed.

Lemma appended_trans (ok : event -> bool) (w1 w2 w3 : world) :
  appended ok w1 w2 -> appended ok w2 w3 -> appended ok w1 w3.
Proof.
  intros (r1 & H1 & Hok1) (r2 & H2 & Hok2). exists (r1 ++ r2).
  rewrite H2, H1, <- app_assoc. split; [reflexivity |].
  rewrite forallb_app, Hok1, Hok2. reflexivity.
Qed.

#[local] Instance appended_preorder (ok : event -> bool) : PreOrder (appended ok).
Proof.
  split.
  - intros w. apply appended_refl. reflexivity.
  - intros w1 w2 w3. apply appended_trans.
Qed.

Lemma appended_add_log (ok : event -> bool) (e : event) (w : world) :
  ok e = true -> appended ok w (add_log e w).
Proof. intros He. exists [e]. split; [reflexivity |]. cbn. rewrite He. reflexivity. Qed.

Lemma appended_weaken (ok ok' : event -> bool) (w w' : world) :
  (∀ e, ok e = true -> ok' e = true) -> appended ok w w' -> appended ok' w w'.
Proof.
  intros Himp (rest & Hlog & Hok). exists rest. split; [exact Hlog |].
  rewrite forallb_forall in *. auto.
Qed.

Lemma appended_count (ok p : event -> bool) (w w' : world) :
  (∀ e, ok e = true -> p e = false) ->
  appended ok w w' -> count p (log w') = count p (log w).
Proof.
  intros Hp (rest & Hlog & Hok). rewrite Hlog, count_app. clear Hlog.
  assert (count p rest = 0%nat) as ->; [| lia].
  induction rest as [| e rest IH]; [reflexivity |].
  cbn in Hok. apply andb_prop in Hok as [He Hrest].
  cbn. rewrite (Hp e He), IH by exact Hrest. reflexivity.
Qed.

Lemma appended_elem (ok : event -> bool) (w w' : world) (e : event) :
  appended ok w w' -> e ∈ log w -> e ∈ log w'.
Proof. intros (rest & Hlog & _) He. rewrite Hlog. apply elem_of_app. left. exact He. Qed.

(** [m] only appends events allowed by [ok]. *)
Abbreviation only ok := (stable (appended ok)).

Lemma only_weaken {A : Type} (ok ok' : event -> bool) (m : M world A) :
  (∀ e, ok e = true -> ok' e = true) -> only ok m -> only ok' m.
Proof.
  intros Himp. apply stable_weaken. intros w w'. apply appended_weaken, Himp.
Qed.

(** [f] reads the same in [w'] as in [w]. *)
Definition same {B : Type} (f : world -> B) : relation world :=
  fun w w' => f w' = f w.

#[local] Instance same_preorder {B : Type} (f : world -> B) : PreOrder (same f).
Proof.
  split.
  - intros w. reflexivity.
  - intros w1 w2 w3 H12 H23. unfold same in *. congruence.
Qed.

(** [m] leaves [f] as it was. *)
Abbreviation keeps f := (stable (same f)).

(** Neither a clock reading nor a frame-lag warning. *)
Definition quiet (e : event) : bool := negb (is_clock e) && negb (is_frame_lag e).

Definition any_event (e : event) : bool := true.

Create HintDb stable_db.

(** A single step preserves the relation at hand. *)
Ltac stable_side :=
  first [ apply appended_add_log; reflexivity
        | apply appended_refl; reflexivity
        | unfold same; reflexivity ].

Ltac stable_apply lem :=
  apply lem; try (lazymatch goal with |- PreOrder _ => typeclasses eauto end).

(** One step of a proof that a computation is stable; [side] proves
    that a single change of the world is in the relation. *)
Ltac stable_step side :=
  lazymatch goal with
  | |- stable _ (mbind _ _) => unfold mbind, M_bind
  | |- stable _ (bind _ _) => stable_apply stable_bind; [| intros ?]
  | |- stable _ (ret _) => stable_apply stable_ret
  | |- stable _ (gets _) => stable_apply stable_gets
  | |- stable _ (emit _) => stable_apply stable_emit; intros ?; side
  | |- stable _ (modify _) => stable_apply stable_modify; intros ?; side
  | |- stable _ (stop _) => stable_apply stable_stop
  | |- stable _ (assert_ _) => stable_apply stable_assert
  | |- stable _ (query _ _ _) => stable_apply stable_query; intros ? ?; side
  | |- stable _ (for_loop _ _ _) => stable_apply stable_for_loop; intros ?
  | |- stable _ (if ?b then _ else _) => destruct b
  | |- stable _ (match ?x with _ => _ end) => destruct x
  | |- stable _ _ => solve [eauto with stable_db]
  end.

Ltac stable_tac := repeat (stable_step stable_side).

Section Framing.

Variable E : env.
Variable P : Peek.env.

Lemma only_renderer_wait_queue_idle : only quiet renderer_wait_queue_idle.
Proof. unfold renderer_wait_queue_idle. stable_tac. Qed.

Lemma only_renderer_create_renderings_and_fences :
  only quiet (renderer_create_renderings_and_fences E).
Proof.
  unfold renderer_create_renderings_and_fences,
    renderer_build_rendering_target_resources.
  stable_tac.
Qed.

Lemma only_renderer_close_renderings_and_fences :
  only quiet renderer_close_renderings_and_fences.
Proof. unfold renderer_close_renderings_and_fences. stable_tac. Qed.

#[local] Hint Resolve only_renderer_wait_queue_idle
  only_renderer_create_renderings_and_fences
  only_renderer_close_renderings_and_fences : stable_db.

Lemma only_renderer_ensure_images_and_renderings (force_recreate : bool) :
  only quiet (renderer_ensure_images_and_renderings E force_recreate).
Proof.
  unfold renderer_ensure_images_and_renderings, ask_check_ready, ask_has_images.
  stable_tac.
Qed.

#[local] Hint Resolve only_renderer_ensure_images_and_renderings : stable_db.

Lemma only_renderer_acquire_swapchain_image :
  only quiet (renderer_acquire_swapchain_image E).
Proof.
  unfold renderer_acquire_swapchain_image, ask_acquire.
  stable_tac.
Qed.

End Framing.

Lemma post_query {A : Type} (is_kind : event -> bool) (answer : nat -> A)
    (mk : A -> event) (w : world) (Q : A -> world -> Prop) :
  Q (answer (count is_kind (log w)))
    (add_log (mk (answer (count is_kind (log w)))) w) ->
  post (query is_kind answer mk) w Q.
Proof. intros H. exact H. Qed.

Lemma post_emit (e : event) (w : world) (Q : unit -> world -> Prop) :
  Q tt (add_log e w) -> post (emit e) w Q.
Proof. intros H. exact H. Qed.

Lemma count_add_log (p : event -> bool) (e : event) (w : world) :
  count p (log (add_log e w)) = (count p (log w) + (if p e then 1 else 0))%nat.
Proof. cbn [log add_log]. rewrite count_app. cbn. lia. Qed.

Section WaitForPresent.

Variable E : env.

#[local] Hint Resolve only_renderer_acquire_swapchain_image : stable_db.

(** The wait itself: no clock reading and no warning in it. *)
Lemma only_wait_phase :
  only quiet
    (if wait_for_present_supported E
     then
       result ← query is_wait_for_present (wait_for_present E)
                  comp_target_wait_for_present;
       assert_ (negb (bool_decide (result = VK_ERROR_EXTENSION_NOT_PRESENT)))
     else renderer_acquire_swapchain_image E).
Proof. stable_tac. Qed.

Lemma quiet_not_clock (e : event) : quiet e = true -> is_clock e = false.
Proof. unfold quiet. destruct (is_clock e); [discriminate | reflexivity]. Qed.

Lemma quiet_not_frame_lag (e : event) : quiet e = true -> is_frame_lag e = false.
Proof.
  unfold quiet. destruct (is_frame_lag e); [| reflexivity].
  rewrite andb_false_r. discriminate.
Qed.

Lemma renderer_wait_for_present_post (desired : Z) (w : world) :
  post (renderer_wait_for_present E desired) w (fun _ w' =>
    count is_frame_lag (log w')
    = (count is_frame_lag (log w)
       + if check_ready E (count is_check_ready (log w))
            && missed_frame (monotonic_ns E (count is_clock (log w)))
                 (monotonic_ns E (S (count is_clock (log w)))) desired
         then 1 else 0)%nat).
Proof.
  unfold renderer_wait_for_present, mbind, M_bind, ask_check_ready, ask_clock.
  apply post_bind, post_query.
  destruct (check_ready E (count is_check_ready (log w))); cbn [negb andb].
  - apply post_bind, post_query.
    set (w1 := add_log (comp_target_check_ready true) w).
    set (before_ns := monotonic_ns E (count is_clock (log w1))).
    set (w2 := add_log (os_monotonic_get_ns before_ns) w1).
    apply post_bind. eapply post_mono; [apply only_wait_phase |].
    intros u w3 Hquiet. cbn in Hquiet.
    assert (Hclock3 : count is_clock (log w3) = S (count is_clock (log w))).
    { rewrite (appended_count quiet is_clock w2 w3 quiet_not_clock Hquiet).
      unfold w2, w1. rewrite !count_add_log. cbn. lia. }
    assert (Hlag3 : count is_frame_lag (log w3) = count is_frame_lag (log w)).
    { rewrite (appended_count quiet is_frame_lag w2 w3 quiet_not_frame_lag Hquiet).
      unfold w2, w1. rewrite !count_add_log. cbn. lia. }
    assert (Hbefore : before_ns = monotonic_ns E (count is_clock (log w))).
    { unfold before_ns, w1. rewrite count_add_log. cbn. f_equal. lia. }
    apply post_bind, post_query. rewrite Hclock3, Hbefore.
    destruct (missed_frame _ _ desired).
    + apply post_emit. rewrite !count_add_log, Hlag3. cbn. lia.
    + apply post_ret. rewrite count_add_log, Hlag3. cbn. lia.
  - apply post_ret. rewrite count_add_log. cbn. lia.
Qed.

Lemma missed_frame_spec (before_ns after_ns desired : Z) :
  0 <= before_ns < 2 ^ 63 -> 0 <= desired < 2 ^ 63 ->
  missed_frame before_ns after_ns desired = true
  <-> before_ns + U_TIME_1MS_IN_NS < after_ns ∧ desired + U_TIME_1MS_IN_NS < after_ns.
Proof.
  intros Hb Hd. unfold missed_frame, U_TIME_1MS_IN_NS.
  rewrite !wrap64_small by (unfold SIZE_MAX; lia).
  rewrite andb_true_iff, !Z.ltb_lt. reflexivity.
Qed.

End WaitForPresent.

Definition with_log (l : list event) (w : world) : world :=
  mk_world (acquired_buffer w) (fenced_buffer w) (rtr_array w) (fences w)
    (buffer_count w) (waited w) (rendering w) (peek w) l.

Lemma Ok_eq {A : Type} (a a' : A) (w w' : world) :
  a = a' -> w = w' -> Ok (a, w) = Ok (a', w').
Proof. intros -> ->. reflexivity. Qed.

Lemma world_eq (w w' : world) :
  acquired_buffer w = acquired_buffer w' ->
  fenced_buffer w = fenced_buffer w' ->
  rtr_array w = rtr_array w' ->
  fences w = fences w' ->
  buffer_count w = buffer_count w' ->
  waited w = waited w' ->
  rendering w = rendering w' ->
  peek w = peek w' ->
  log w = log w' ->
  w = w'.
Proof. destruct w, w'. cbn. intros. subst. reflexivity. Qed.

(** The last step of a run: both sides are worlds that agree field by
    field, the logs up to the nesting of [++]. *)
Ltac finish_run :=
  unfold ret; apply Ok_eq; [reflexivity |];
  apply world_eq; [reflexivity .. |];
  lazy beta iota delta [log add_log set_acquired_buffer set_fenced_buffer
    set_rtr_array set_fences set_buffer_count set_waited set_rendering set_peek
    with_log];
  rewrite <- ?app_assoc;
  first [reflexivity | rewrite ?app_nil_r; reflexivity].

Section Draw.

Variable E : env.
Variable P : Peek.env.

Lemma comp_frame_move_and_clear_locked_run (w : world) :
  comp_frame_is_invalid_locked (rendering w) = true ->
  comp_frame_move_and_clear_locked w
  = Ok (tt, set_waited invalid_frame (set_rendering (waited w) w)).
Proof.
  intros Hr. unfold comp_frame_move_and_clear_locked.
  mstep reflexivity. rewrite Hr. reflexivity.
Qed.

(** C2. When the target reports not-ready at the poll that follows the
    move of the waited frame into the rendering slot, [comp_renderer_draw]
    marks begin, submit-begin and submit-end for that frame id, each with
    a fresh clock reading, clears the rendering slot and returns
    [XRT_SUCCESS]; the log gains nothing else, so there is no acquire, no
    submission and no present. *)
Theorem comp_renderer_draw_discarded (fuel : nat) (w : world) :
  comp_frame_is_invalid_locked (waited w) = false ->
  comp_frame_is_invalid_locked (rendering w) = true ->
  check_ready E (count is_check_ready (log w)) = false ->
  let frame_id := id (waited w) in
  let t0 := monotonic_ns E (count is_clock (log w)) in
  let t1 := monotonic_ns E (count is_clock (log w) + 1) in
  let t2 := monotonic_ns E (count is_clock (log w) + 2) in
  comp_renderer_draw E P fuel w
  = Ok (XRT_SUCCESS,
        mk_world (acquired_buffer w) (fenced_buffer w) (rtr_array w) (fences w)
          (buffer_count w) invalid_frame invalid_frame (peek w)
          (log w ++ [os_monotonic_get_ns t0;
                     comp_target_mark_begin frame_id t0;
                     comp_target_check_ready false;
                     os_monotonic_get_ns t1;
                     comp_target_mark_submit_begin frame_id t1;
                     os_monotonic_get_ns t2;
                     comp_target_mark_submit_end frame_id t2])).
Proof.
  intros Hwaited Hrendering Hready frame_id t0 t1 t2.
  unfold comp_renderer_draw.
  mstep reflexivity. rewrite Hwaited, Hrendering. cbn [negb].
  mstep reflexivity. mstep reflexivity.
  mstep (apply comp_frame_move_and_clear_locked_run; exact Hrendering).
  mstep reflexivity.
  mstep reflexivity. mstep reflexivity. mstep reflexivity.
  rewrite !count_add_log. cbn [log set_waited set_rendering is_check_ready is_clock].
  rewrite !Nat.add_0_r, Hready. cbn [negb].
  mstep reflexivity. mstep reflexivity. mstep reflexivity. mstep reflexivity.
  mstep reflexivity.
  rewrite !count_add_log. cbn [log set_waited set_rendering is_check_ready is_clock].
  rewrite !Nat.add_0_r.
  replace (count is_clock (log w) + 1 + 1)%nat with (count is_clock (log w) + 2)%nat by lia.
  finish_run.
Qed.

End Draw.

(** *** Fences *)

Section SubmitQueue.

Variable E : env.

(** The events of [renderer_wait_for_last_fence]. *)
Definition wait_events (w : world) : list event :=
  if fenced_buffer w <? 0 then []
  else
    let ret_ := wait_for_fences E (count is_wait_for_fences (log w)) in
    vkWaitForFences (fenced_buffer w) ret_
    :: (if decide (ret_ = VK_SUCCESS) then []
        else [COMP_ERROR vkWaitForFences_failed]).

(** The events of [renderer_submit_queue] after the reset of the fence. *)
Definition submit_events (w : world) : list event :=
  let frame_id := id (rendering w) in
  let r_reset := reset_fences E (count is_reset_fences (log w)) in
  let r_submit := cmd_submit E (count is_cmd_submit (log w)) in
  let t0 := monotonic_ns E (count is_clock (log w)) in
  let t1 := monotonic_ns E (count is_clock (log w) + 1) in
  if decide (r_reset = VK_SUCCESS) then
    [os_monotonic_get_ns t0;
     comp_target_mark_submit_begin frame_id t0;
     vk_cmd_submit_locked (acquired_buffer w) frame_id r_submit;
     os_monotonic_get_ns t1;
     comp_target_mark_submit_end frame_id t1]
    ++ (if decide (r_submit = VK_SUCCESS) then []
        else [COMP_ERROR (vk_check_failed r_submit)])
  else [COMP_ERROR (vk_check_failed r_reset)].

(** What [renderer_submit_queue] returns. *)
Definition submit_result (w : world) : VkResult :=
  let r_reset := reset_fences E (count is_reset_fences (log w)) in
  if decide (r_reset = VK_SUCCESS)
  then cmd_submit E (count is_cmd_submit (log w))
  else r_reset.

Lemma fence_at_run (i : Z) (w : world) :
  fences w = true -> 0 <= i < buffer_count w -> fence_at i w = Ok (tt, w).
Proof.
  intros Hfences [Hlo Hhi]. unfold fence_at. mstep reflexivity.
  rewrite Hfences, (proj2 (Z.leb_le _ _) Hlo), (proj2 (Z.ltb_lt _ _) Hhi).
  reflexivity.
Qed.

Lemma renderer_wait_for_last_fence_run (w : world) :
  fences w = true ->
  fenced_buffer w < buffer_count w ->
  renderer_wait_for_last_fence E w
  = Ok (tt, set_fenced_buffer (if fenced_buffer w <? 0 then fenced_buffer w else -1)
              (with_log (log w ++ wait_events w) w)).
Proof.
  intros Hfences Hfb. unfold renderer_wait_for_last_fence, wait_events.
  mstep reflexivity.
  destruct (Z.ltb_spec (fenced_buffer w) 0) as [Hneg | Hpos].
  - rewrite app_nil_r. destruct w; reflexivity.
  - mstep (apply fence_at_run; [exact Hfences | lia]).
    mstep reflexivity.
    destruct (decide (wait_for_fences E (count is_wait_for_fences (log w)) = VK_SUCCESS)).
    + mstep reflexivity. unfold modify. finish_run.
    + mstep reflexivity. unfold modify. finish_run.
Qed.

Lemma count_wait_events (p : event -> bool) (w : world) :
  (∀ f r, p (vkWaitForFences f r) = false) ->
  (∀ site, p (COMP_ERROR site) = false) ->
  count p (wait_events w) = 0%nat.
Proof.
  intros Hwait Herr. unfold wait_events.
  destruct (fenced_buffer w <? 0); [reflexivity |].
  destruct (decide _); cbn; rewrite ?Hwait, ?Herr; reflexivity.
Qed.

(** [fenced_buffer] once [renderer_submit_queue] has returned. *)
Definition fenced_after (w : world) : Z :=
  if decide (submit_result w = VK_SUCCESS) then acquired_buffer w
  else if fenced_buffer w <? 0 then fenced_buffer w else -1.

Lemma renderer_submit_queue_run (w : world) :
  0 <= id (rendering w) ->
  fences w = true ->
  0 <= acquired_buffer w < buffer_count w ->
  fenced_buffer w < buffer_count w ->
  renderer_submit_queue E w
  = Ok (submit_result w,
        set_fenced_buffer (fenced_after w)
          (with_log
             (log w ++ wait_events w
              ++ vkResetFences (acquired_buffer w)
                   (reset_fences E (count is_reset_fences (log w)))
                 :: submit_events w) w)).
Proof.
  intros Hid Hfences Hacq Hfb. unfold renderer_submit_queue.
  mstep reflexivity.
  mstep (rewrite (proj2 (Z.leb_le _ _) Hid); reflexivity).
  mstep (apply renderer_wait_for_last_fence_run; assumption).
  mstep reflexivity.
  cbn [fenced_buffer acquired_buffer set_fenced_buffer with_log rendering].
  assert (Hfb' : ((if fenced_buffer w <? 0 then fenced_buffer w else -1) <? 0) = true).
  { destruct (Z.ltb_spec (fenced_buffer w) 0); [apply Z.ltb_lt; lia | reflexivity]. }
  rewrite Hfb'. mstep reflexivity.
  rewrite (proj2 (Z.leb_le _ _) (proj1 Hacq)). mstep reflexivity.
  mstep (apply fence_at_run; [exact Hfences | exact Hacq]).
  mstep reflexivity.
  cbn [log set_fenced_buffer with_log].
  rewrite count_app, count_wait_events, Nat.add_0_r by reflexivity.
  unfold submit_result, submit_events, fenced_after, submit_result, VK_CHK_AND_RET.
  assert (Hvalid : comp_frame_is_invalid_locked (rendering w) = false).
  { unfold comp_frame_is_invalid_locked. apply Z.eqb_neq. lia. }
  destruct (decide (reset_fences E (count is_reset_fences (log w)) = VK_SUCCESS))
    as [Hreset | Hreset]; lazy beta iota.
  - rewrite Hvalid. cbn [negb]. mstep reflexivity.
    unfold ask_clock. mstep reflexivity. mstep reflexivity. mstep reflexivity.
    mstep reflexivity. mstep reflexivity.
    rewrite !count_add_log. cbn [log set_fenced_buffer with_log add_log].
    rewrite !count_app, !count_wait_events by reflexivity.
    cbn [count is_clock is_cmd_submit]. rewrite !Nat.add_0_r.
    destruct (decide (cmd_submit E (count is_cmd_submit (log w)) = VK_SUCCESS))
      as [Hsubmit | Hsubmit]; lazy beta iota.
    + mstep reflexivity. finish_run.
    + mstep reflexivity. finish_run.
  - rewrite ?(decide_False (P := _ = VK_SUCCESS)) by exact Hreset.
    mstep reflexivity. finish_run.
Qed.

(** The fences with a submission that has not been waited for: a
    successful submit makes its fence pending; a wait on the fence, the
    end of the fence, or an idle queue ends that. *)
Definition fence_effect (pending : gset Z) (e : event) : gset Z :=
  match e with
  | vk_cmd_submit_locked fence _ VK_SUCCESS => pending ∪ {[fence]}
  | vkWaitForFences fence _ => pending ∖ {[fence]}
  | vkDestroyFence i => pending ∖ {[Z.of_nat i]}
  | vkQueueWaitIdle => ∅
  | _ => pending
  end.

Definition pending_fences (l : list event) : gset Z := foldl fence_effect ∅ l.

(** The fence an event resets or hands to a submission. *)
Definition uses_fence (e : event) : option Z :=
  match e with
  | vkResetFences fence _ => Some fence
  | vk_cmd_submit_locked fence _ _ => Some fence
  | _ => None
  end.

(** No event of [l] uses a fence that is pending when the event happens. *)
Fixpoint disciplined_from (pending : gset Z) (l : list event) : Prop :=
  match l with
  | [] => True
  | e :: l' =>
    (∀ fence, uses_fence e = Some fence -> fence ∉ pending)
    ∧ disciplined_from (fence_effect pending e) l'
  end.

Definition disciplined (l : list event) : Prop := disciplined_from ∅ l.

(** The log is disciplined and [fenced_buffer] names the one fence that
    may be pending. *)
Definition fence_inv (w : world) : Prop :=
  disciplined (log w)
  ∧ pending_fences (log w)
    ⊆ (if fenced_buffer w <? 0 then ∅ else {[fenced_buffer w]}).

Lemma disciplined_from_app (pending : gset Z) (l l' : list event) :
  disciplined_from pending (l ++ l')
  <-> disciplined_from pending l
      ∧ disciplined_from (foldl fence_effect pending l) l'.
Proof.
  revert pending. induction l as [| e l IH]; intros pending; cbn.
  - tauto.
  - rewrite IH. tauto.
Qed.

Lemma pending_after_wait_events (w : world) (pending : gset Z) :
  pending ⊆ (if fenced_buffer w <? 0 then ∅ else {[fenced_buffer w]}) ->
  foldl fence_effect pending (wait_events w) = ∅
  ∧ disciplined_from pending (wait_events w).
Proof.
  intros Hsub. unfold wait_events.
  destruct (fenced_buffer w <? 0).
  - cbn. split; [set_solver | exact I].
  - destruct (decide _); cbn;
      (split; [set_solver | repeat split; try discriminate]).
Qed.

Lemma submit_events_fences (w : world) :
  foldl fence_effect ∅ (submit_events w)
  = (if decide (submit_result w = VK_SUCCESS) then {[acquired_buffer w]} else ∅)
  ∧ disciplined_from ∅ (submit_events w).
Proof.
  unfold submit_events, submit_result.
  destruct (reset_fences E (count is_reset_fences (log w)));
    destruct (cmd_submit E (count is_cmd_submit (log w)));
    cbn; (split; [set_solver |]);
    repeat split; try discriminate; intros f [= <-]; set_solver.
Qed.

(** The invariant after the events of one [renderer_submit_queue]. *)
Lemma fence_inv_submitted (w : world) :
  0 <= acquired_buffer w ->
  fence_inv w ->
  fence_inv
    (set_fenced_buffer (fenced_after w)
       (with_log
          (log w ++ wait_events w
           ++ vkResetFences (acquired_buffer w)
                (reset_fences E (count is_reset_fences (log w)))
              :: submit_events w) w)).
Proof.
  intros Hacq [Hdisc Hpending].
  destruct (pending_after_wait_events w _ Hpending) as [Hwaited Hwait_ok].
  destruct (submit_events_fences w) as [Hsubmitted Hsubmit_ok].
  unfold fence_inv, disciplined, pending_fences.
  cbn [log fenced_buffer set_fenced_buffer with_log].
  split.
  - apply disciplined_from_app. split; [exact Hdisc |].
    apply disciplined_from_app. split; [exact Hwait_ok |].
    fold (pending_fences (log w)). rewrite Hwaited. cbn [disciplined_from fence_effect].
    split; [intros f _; set_solver | exact Hsubmit_ok].
  - rewrite !foldl_app. fold (pending_fences (log w)). rewrite Hwaited.
    cbn [foldl fence_effect]. rewrite Hsubmitted. unfold fenced_after.
    destruct (decide (submit_result w = VK_SUCCESS)).
    + destruct (Z.ltb_spec (acquired_buffer w) 0); [lia | set_solver].
    + set_solver.
Qed.

(** One [renderer_submit_queue]: its events, where the wait is, what
    becomes of [fenced_buffer], and the invariant. *)
Lemma renderer_submit_queue_spec (w : world) :
  0 <= id (rendering w) ->
  fences w = true ->
  0 <= acquired_buffer w < buffer_count w ->
  fenced_buffer w < buffer_count w ->
  fence_inv w ->
  ∃ w',
    renderer_submit_queue E w = Ok (submit_result w, w')
    ∧ log w' = log w ++ wait_events w
               ++ vkResetFences (acquired_buffer w)
                    (reset_fences E (count is_reset_fences (log w)))
                  :: submit_events w
    ∧ (∀ fence r, vkWaitForFences fence r ∈ wait_events w ->
                  fence = fenced_buffer w ∧ 0 <= fence)
    ∧ (∀ e, e ∈ submit_events w -> is_wait_for_fences e = false)
    ∧ (submit_result w = VK_SUCCESS -> fenced_buffer w' = acquired_buffer w)
    ∧ acquired_buffer w' = acquired_buffer w
    ∧ fence_inv w'.
Proof.
  intros Hid Hfences Hacq Hfb Hinv.
  eexists. split; [apply renderer_submit_queue_run; assumption |].
  split; [reflexivity |]. split; [| split; [| split; [| split]]].
  - intros fence r Hin. unfold wait_events in Hin.
    destruct (Z.ltb_spec (fenced_buffer w) 0) as [Hneg | Hpos].
    + apply elem_of_nil in Hin. contradiction.
    + apply elem_of_cons in Hin as [Heq | Hin].
      * injection Heq as -> _. split; [reflexivity | exact Hpos].
      * destruct (decide _); [apply elem_of_nil in Hin; contradiction |].
        apply list_elem_of_singleton in Hin. discriminate Hin.
  - intros e Hin. unfold submit_events in Hin.
    destruct (decide _).
    + apply elem_of_app in Hin as [Hin | Hin].
      * repeat (apply elem_of_cons in Hin as [-> | Hin]; [reflexivity |]).
        apply elem_of_nil in Hin. contradiction.
      * destruct (decide _); [apply elem_of_nil in Hin; contradiction |].
        apply list_elem_of_singleton in Hin as ->. reflexivity.
    + apply list_elem_of_singleton in Hin as ->. reflexivity.
  - intros Hok. cbn [fenced_buffer set_fenced_buffer].
    unfold fenced_after. rewrite decide_True by exact Hok. reflexivity.
  - reflexivity.
  - apply fence_inv_submitted; [apply Hacq | exact Hinv].
Qed.

End SubmitQueue.

(** *** The status [comp_renderer_draw] returns *)

Lemma post_skip {A B : Type} (m : M world A) (k : A -> M world B) (w : world)
    (Q : B -> world -> Prop) :
  (∀ a w', post (k a) w' Q) -> post (bind m k) w Q.
Proof.
  intros Hk. apply post_bind. unfold post at 1.
  destruct (m w) as [[a w'] |]; [apply Hk | exact I].
Qed.

Lemma post_conj {A : Type} (m : M world A) (w : world) (Q1 Q2 : A -> world -> Prop) :
  post m w Q1 -> post m w Q2 -> post m w (fun a w' => Q1 a w' ∧ Q2 a w').
Proof. unfold post. destruct (m w) as [[a w'] |]; [split; assumption | trivial]. Qed.

(** A reset or a submission of the main path that did not succeed. *)
Definition submission_failed (l : list event) : Prop :=
  ∃ fence frame_id ret_,
    ret_ ≠ VK_SUCCESS
    ∧ (vkResetFences fence ret_ ∈ l ∨ vk_cmd_submit_locked fence frame_id ret_ ∈ l).

Lemma elem_of_add_log (e e' : event) (w : world) :
  e ∈ log w ∨ e = e' -> e ∈ log (add_log e' w).
Proof.
  intros H. cbn [log add_log]. apply elem_of_app.
  destruct H as [H | ->]; [left; exact H | right; apply list_elem_of_singleton; reflexivity].
Qed.

Section Status.

Variable E : env.
Variable P : Peek.env.

Lemma renderer_submit_queue_failed (w : world) :
  post (renderer_submit_queue E) w (fun ret_ w' =>
    ret_ ≠ VK_SUCCESS -> submission_failed (log w')).
Proof.
  unfold renderer_submit_queue, mbind, M_bind.
  do 7 (apply post_skip; intros ? ?).
  apply post_bind, post_query. unfold VK_CHK_AND_RET, ask_clock, mbind, M_bind.
  destruct (decide (reset_fences E _ = VK_SUCCESS)) as [Hreset | Hreset].
  - do 3 (apply post_skip; intros ? ?).
    apply post_bind, post_query.
    apply post_bind, post_query. apply post_bind, post_emit.
    destruct (decide (cmd_submit E _ = VK_SUCCESS)) as [Hsubmit | Hsubmit].
    + apply post_skip. intros ? ?. apply post_ret. intros Hne. contradiction.
    + apply post_bind, post_emit, post_ret. intros _.
      eexists _, _, _. split; [exact Hsubmit |]. right.
      do 3 (apply elem_of_add_log; left).
      apply elem_of_add_log. right. reflexivity.
  - apply post_bind, post_emit, post_ret. intros _.
    eexists _, 0, _. split; [exact Hreset |]. left.
    apply elem_of_add_log. left. apply elem_of_add_log. right. reflexivity.
Qed.

Lemma dispatch_graphics_failed (w : world) :
  post (dispatch_graphics E) w (fun ret_ w' =>
    ret_ ≠ VK_SUCCESS -> submission_failed (log w')).
Proof.
  unfold dispatch_graphics, mbind, M_bind.
  do 6 (apply post_skip; intros ? ?).
  apply post_bind. eapply post_mono; [apply renderer_submit_queue_failed |].
  intros ret_ w1 Hfailed. cbn beta in Hfailed. unfold VK_CHK_AND_RET, mbind, M_bind.
  destruct (decide (ret_ = VK_SUCCESS)) as [Hok | Hne].
  - apply post_ret. intros Hne. contradiction.
  - apply post_bind, post_emit, post_ret. intros _.
    destruct (Hfailed Hne) as (fence & frame_id & r & Hr & Hin).
    exists fence, frame_id, r. split; [exact Hr |].
    destruct Hin as [Hin | Hin]; [left | right]; apply elem_of_add_log; left; exact Hin.
Qed.

Lemma dispatch_compute_failed (w : world) :
  post (dispatch_compute E) w (fun ret_ w' =>
    ret_ ≠ VK_SUCCESS -> submission_failed (log w')).
Proof.
  unfold dispatch_compute, mbind, M_bind.
  do 5 (apply post_skip; intros ? ?).
  apply post_bind. eapply post_mono; [apply renderer_submit_queue_failed |].
  intros ret_ w1 Hfailed. cbn beta in Hfailed. unfold VK_CHK_AND_RET, mbind, M_bind.
  destruct (decide (ret_ = VK_SUCCESS)) as [Hok | Hne].
  - apply post_ret. intros Hne. contradiction.
  - apply post_bind, post_emit, post_ret. intros _.
    destruct (Hfailed Hne) as (fence & frame_id & r & Hr & Hin).
    exists fence, frame_id, r. split; [exact Hr |].
    destruct Hin as [Hin | Hin]; [left | right]; apply elem_of_add_log; left; exact Hin.
Qed.

Lemma any_event_all (ok : event -> bool) (e : event) :
  ok e = true -> any_event e = true.
Proof. reflexivity. Qed.

Lemma only_any_renderer_wait_queue_idle : only any_event renderer_wait_queue_idle.
Proof.
  eapply only_weaken; [apply any_event_all | apply only_renderer_wait_queue_idle].
Qed.

Lemma only_any_renderer_acquire_swapchain_image :
  only any_event (renderer_acquire_swapchain_image E).
Proof.
  eapply only_weaken;
    [apply any_event_all | apply only_renderer_acquire_swapchain_image].
Qed.

#[local] Hint Resolve only_any_renderer_wait_queue_idle
  only_any_renderer_acquire_swapchain_image : stable_db.

Lemma only_any_renderer_wait_for_present (desired : Z) :
  only any_event (renderer_wait_for_present E desired).
Proof.
  unfold renderer_wait_for_present, ask_check_ready, ask_clock.
  stable_tac.
Qed.

#[local] Hint Resolve only_any_renderer_wait_for_present : stable_db.

(** What [comp_renderer_draw] returns comes from the main path alone:
    from a failed reset or submission, or from [comp_mirror_do_blit]. *)
Lemma comp_renderer_draw_status (fuel : nat) (w : world) :
  post (comp_renderer_draw E P fuel) w (fun status w' =>
    status = XRT_SUCCESS
    ∨ (status = XRT_ERROR_VULKAN ∧ submission_failed (log w'))
    ∨ (∃ frame_id, comp_mirror_do_blit frame_id status ∈ log w')).
Proof.
  unfold comp_renderer_draw, mbind, M_bind.
  do 7 (apply post_skip; intros ? ?).
  apply post_skip. intros ready w1. destruct ready; cbn [negb].
  - (* ready *)
    do 7 (apply post_skip; intros ? ?).
    apply post_bind.
    apply (post_mono _ _ (fun ret_ w' => ret_ ≠ VK_SUCCESS -> submission_failed (log w'))).
    { destruct (use_compute E); apply post_skip; intros ? ?;
        [apply dispatch_compute_failed | apply dispatch_graphics_failed]. }
    intros res w2 Hfailed.
    destruct (decide (res = VK_SUCCESS)) as [Hok | Hne].
    + do 6 (apply post_skip; intros ? ?).
      apply post_skip. intros active w3. destruct active.
      * (* the mirror blit gives the status *)
        apply post_bind, post_query.
        match goal with
        | |- post ?m ?w0 _ =>
          assert (Honly : only any_event m) by (unfold ask_clock; stable_tac);
          assert (Hret : post m w0 (fun status _ =>
                    status = mirror_do_blit E (count is_mirror_do_blit (log w3))))
            by (do 6 (apply post_skip; intros ? ?); apply post_ret; reflexivity)
        end.
        eapply post_mono; [apply post_conj; [apply Honly | apply Hret] |].
        intros status w_end [Happ ->]. cbn beta in Happ. right. right.
        eexists. eapply appended_elem; [exact Happ |].
        apply elem_of_add_log. right. reflexivity.
      * apply post_bind, post_ret.
        do 6 (apply post_skip; intros ? ?). apply post_ret. left. reflexivity.
    + apply post_ret. right. left. split; [reflexivity | apply Hfailed, Hne].
  - (* not ready: the discarded frame *)
    do 5 (apply post_skip; intros ? ?). apply post_ret. left. reflexivity.
Qed.

End Status.

(** *** Re-creating the images *)

Section Recreate.

Variable E : env.

Lemma for_loop_emits (f : nat -> event) (start n : nat) (w : world) :
  for_loop start n (fun i => emit (f i)) w
  = Ok (tt, with_log (log w ++ map f (seq start n)) w).
Proof.
  revert start w. induction n as [| n IH]; intros start w; cbn [for_loop seq map].
  - rewrite app_nil_r. destruct w; reflexivity.
  - erewrite bind_Ok by reflexivity. rewrite IH. finish_run.
Qed.

(** The events of one round of the loop that creates the fences: fence
    [i], by call [c] of [vkCreateFence]. *)
Definition fence_events_at (c i : nat) : list event :=
  let ret_ := create_fence E c in
  vkCreateFence i ret_
  :: (if decide (ret_ = VK_SUCCESS) then [] else [COMP_ERROR vkCreateFence_failed]).

Fixpoint fence_events (c i n : nat) : list event :=
  match n with
  | O => []
  | S n' => fence_events_at c i ++ fence_events (S c) (S i) n'
  end.

Lemma create_fence_run (i : nat) (w : world) :
  (ret_ ← query is_create_fence (create_fence E) (vkCreateFence i);
   if decide (ret_ = VK_SUCCESS) then ret tt
   else emit (COMP_ERROR vkCreateFence_failed)) w
  = Ok (tt, with_log (log w ++ fence_events_at (count is_create_fence (log w)) i) w).
Proof.
  unfold fence_events_at. mstep reflexivity.
  destruct (decide (create_fence E (count is_create_fence (log w)) = VK_SUCCESS)).
  - finish_run.
  - unfold emit, modify. finish_run.
Qed.

Lemma count_fence_events_at (c i : nat) :
  count is_create_fence (fence_events_at c i) = 1%nat.
Proof. unfold fence_events_at. destruct (decide _); reflexivity. Qed.

Lemma create_fences_run (start n : nat) (w : world) :
  for_loop start n (fun i =>
    ret_ ← query is_create_fence (create_fence E) (vkCreateFence i);
    if decide (ret_ = VK_SUCCESS) then ret tt
    else emit (COMP_ERROR vkCreateFence_failed)) w
  = Ok (tt, with_log
              (log w ++ fence_events (count is_create_fence (log w)) start n) w).
Proof.
  revert start w. induction n as [| n IH]; intros start w;
    cbn [for_loop fence_events].
  - rewrite app_nil_r. destruct w; reflexivity.
  - erewrite bind_Ok by apply create_fence_run. rewrite IH.
    cbn [log with_log]. rewrite count_app, count_fence_events_at, Nat.add_1_r.
    finish_run.
Qed.

(** The events of [renderer_close_renderings_and_fences]. *)
Definition close_events (w : world) : list event :=
  let n := Z.to_nat (buffer_count w) in
  (if (0 <? buffer_count w) && rtr_array w
   then map render_gfx_target_resources_fini (seq 0 n) ++ [render_gfx_render_pass_fini]
   else [])
  ++ (if (0 <? buffer_count w) && fences w then map vkDestroyFence (seq 0 n) else []).

(** The renderer once [renderer_close_renderings_and_fences] has
    returned. *)
Definition closed (w : world) : world :=
  mk_world (-1) (-1)
    (if (0 <? buffer_count w) && rtr_array w then false else rtr_array w)
    (if (0 <? buffer_count w) && fences w then false else fences w)
    0 (waited w) (rendering w) (peek w) (log w ++ close_events w).

Lemma renderer_close_renderings_and_fences_run (w : world) :
  renderer_close_renderings_and_fences w = Ok (tt, closed w).
Proof.
  unfold renderer_close_renderings_and_fences, closed, close_events.
  mstep reflexivity.
  destruct ((0 <? buffer_count w) && rtr_array w), ((0 <? buffer_count w) && fences w).
  - mstep (mstep (apply for_loop_emits); mstep reflexivity; reflexivity).
    mstep (mstep (apply for_loop_emits); reflexivity).
    mstep reflexivity. mstep reflexivity. unfold modify. finish_run.
  - mstep (mstep (apply for_loop_emits); mstep reflexivity; reflexivity).
    mstep reflexivity.
    mstep reflexivity. mstep reflexivity. unfold modify. finish_run.
  - mstep reflexivity.
    mstep (mstep (apply for_loop_emits); reflexivity).
    mstep reflexivity. mstep reflexivity. unfold modify. finish_run.
  - mstep reflexivity. mstep reflexivity.
    mstep reflexivity. mstep reflexivity. unfold modify. finish_run.
Qed.

(** The events of [renderer_create_renderings_and_fences] for
    [buffer_count] buffers, the next [vkCreateFence] being call [c]. *)
Definition create_events (buffer_count : Z) (c : nat) : list event :=
  if buffer_count =? 0 then [COMP_ERROR requested_0_command_buffers]
  else
    COMP_DEBUG
    :: (if negb (use_compute E)
        then render_gfx_render_pass_init
             :: map render_gfx_target_resources_init (seq 0 (Z.to_nat buffer_count))
        else [])
    ++ fence_events c 0 (Z.to_nat buffer_count).

(** The renderer once [renderer_create_renderings_and_fences] has
    returned. *)
Definition created (w : world) : world :=
  mk_world (acquired_buffer w) (fenced_buffer w)
    (if buffer_count w =? 0 then rtr_array w
     else if negb (use_compute E) then true else rtr_array w)
    (if buffer_count w =? 0 then fences w else true)
    (buffer_count w) (waited w) (rendering w) (peek w)
    (log w ++ create_events (buffer_count w) (count is_create_fence (log w))).

Lemma renderer_create_renderings_and_fences_run (w : world) :
  fences w = false ->
  renderer_create_renderings_and_fences E w = Ok (tt, created w).
Proof.
  intros Hfences.
  unfold renderer_create_renderings_and_fences, created, create_events,
    renderer_build_rendering_target_resources.
  mstep reflexivity. mstep (rewrite Hfences; reflexivity).
  destruct (buffer_count w =? 0).
  - unfold emit, modify. finish_run.
  - mstep reflexivity.
    destruct (use_compute E); cbn [negb].
    + mstep reflexivity. mstep reflexivity.
      rewrite create_fences_run. cbn [log set_fences add_log].
      rewrite count_app. cbn [count is_create_fence]. rewrite Nat.add_0_r.
      finish_run.
    + mstep (mstep reflexivity; mstep reflexivity; apply for_loop_emits).
      mstep reflexivity.
      rewrite create_fences_run.
      cbn [log set_fences add_log with_log set_rtr_array].
      rewrite !count_app. cbn [count is_create_fence].
      assert (Hinit : ∀ l, count is_create_fence
                (map render_gfx_target_resources_init l) = 0%nat).
      { induction l as [| i l IH]; [reflexivity | exact IH]. }
      rewrite Hinit, !Nat.add_0_r.
      finish_run.
Qed.

(** Events of tearing down and building up the renderings. *)
Definition housekeeping (e : event) : bool :=
  match e with
  | vkQueueWaitIdle | vkCreateFence _ _ | vkDestroyFence _
  | render_gfx_render_pass_init | render_gfx_render_pass_fini
  | render_gfx_target_resources_init _ | render_gfx_target_resources_fini _
  | COMP_DEBUG | COMP_ERROR _ => true
  | _ => false
  end.

Lemma forallb_map_seq (ok : event -> bool) (f : nat -> event) (start n : nat) :
  (∀ i, ok (f i) = true) -> forallb ok (map f (seq start n)) = true.
Proof.
  intros Hf. revert start. induction n as [| n IH]; intros start; cbn.
  - reflexivity.
  - rewrite Hf, IH. reflexivity.
Qed.

Lemma housekeeping_fence_events (c i n : nat) :
  forallb housekeeping (fence_events c i n) = true.
Proof.
  revert c i. induction n as [| n IH]; intros c i; cbn [fence_events].
  - reflexivity.
  - rewrite forallb_app, IH. unfold fence_events_at.
    destruct (decide _); reflexivity.
Qed.

Lemma housekeeping_close_events (w : world) :
  forallb housekeeping (close_events w) = true.
Proof.
  unfold close_events.
  destruct ((0 <? buffer_count w) && rtr_array w), ((0 <? buffer_count w) && fences w);
    rewrite ?forallb_app, ?forallb_map_seq by reflexivity; reflexivity.
Qed.

Lemma housekeeping_create_events (buffer_count : Z) (c : nat) :
  forallb housekeeping (create_events buffer_count c) = true.
Proof.
  unfold create_events. destruct (buffer_count =? 0); [reflexivity |].
  cbn [forallb housekeeping andb]. rewrite forallb_app, housekeeping_fence_events.
  destruct (use_compute E); cbn [negb forallb housekeeping andb];
    rewrite ?forallb_map_seq by reflexivity; reflexivity.
Qed.

Lemma count_housekeeping (p : event -> bool) (l : list event) :
  (∀ e, housekeeping e = true -> p e = false) ->
  forallb housekeeping l = true -> count p l = 0%nat.
Proof.
  intros Hp. induction l as [| e l IH]; cbn; [reflexivity |].
  intros Hl. apply andb_prop in Hl as [He Hl].
  rewrite (Hp e He), IH by exact Hl. reflexivity.
Qed.

(** The fences are allocated only together with at least one buffer. *)
Definition fences_sized (w : world) : Prop :=
  fences w = true -> 0 < buffer_count w.

Lemma fences_closed (w : world) : fences_sized w -> fences (closed w) = false.
Proof.
  unfold fences_sized, closed. cbn [fences]. intros Hsized.
  destruct (fences w); [| rewrite andb_false_r; reflexivity].
  rewrite (proj2 (Z.ltb_lt _ _) (Hsized eq_refl)). reflexivity.
Qed.

Lemma count_closed (p : event -> bool) (w : world) :
  (∀ e, housekeeping e = true -> p e = false) ->
  count p (log (closed w)) = count p (log w).
Proof.
  intros Hp. cbn [log closed].
  rewrite count_app, (count_housekeeping p _ Hp (housekeeping_close_events w)).
  apply Nat.add_0_r.
Qed.

Lemma count_created (p : event -> bool) (w : world) :
  (∀ e, housekeeping e = true -> p e = false) ->
  count p (log (created w)) = count p (log w).
Proof.
  intros Hp. cbn [log created].
  rewrite count_app, (count_housekeeping p _ Hp (housekeeping_create_events _ _)).
  apply Nat.add_0_r.
Qed.

(** The value of [create] in [renderer_ensure_images_and_renderings]:
    with [force_recreate] the target is not asked for its images. *)
Definition must_create (force_recreate : bool) : M world bool :=
  if force_recreate then ret true
  else
    has ← ask_has_images E;
    if negb (has : bool) then ret true
    else w ← gets (fun w : world => w); ret (buffer_count w =? 0).

Lemma must_create_run (force_recreate : bool) (w : world) :
  ∃ create evs,
    must_create force_recreate w = Ok (create, with_log (log w ++ evs) w)
    ∧ forallb is_has_images evs = true
    ∧ (force_recreate = true -> create = true).
Proof.
  unfold must_create, ask_has_images. destruct force_recreate.
  - exists true, []. split; [| split; reflexivity].
    rewrite app_nil_r. destruct w; reflexivity.
  - destruct (has_images E (count is_has_images (log w))) eqn:Hhas.
    + exists (buffer_count w =? 0), [comp_target_has_images true].
      split; [| split; [reflexivity | discriminate]].
      mstep reflexivity. rewrite Hhas. reflexivity.
    + exists true, [comp_target_has_images false].
      split; [| split; [reflexivity | discriminate]].
      mstep reflexivity. rewrite Hhas. reflexivity.
Qed.

Lemma count_has_images (p : event -> bool) (evs : list event) :
  (∀ e, is_has_images e = true -> p e = false) ->
  forallb is_has_images evs = true -> count p evs = 0%nat.
Proof.
  intros Hp. induction evs as [| e evs IH]; cbn; [reflexivity |].
  intros Hevs. apply andb_prop in Hevs as [He Hevs].
  rewrite (Hp e He), IH by exact Hevs. reflexivity.
Qed.

Lemma renderer_ensure_images_and_renderings_spec (force : bool) (w : world) :
  fences_sized w ->
  (∀ n, 0 < image_count E n) ->
  let ready := check_ready E (count is_check_ready (log w)) in
  let bret := distortion_images_ensure E (count is_distortion_images_ensure (log w)) in
  ∃ ok w',
    renderer_ensure_images_and_renderings E force w = Ok (ok, w')
    ∧ fences_sized w'
    ∧ (acquired_buffer w' = acquired_buffer w ∨ acquired_buffer w' = -1)
    ∧ count is_check_ready (log w') = S (count is_check_ready (log w))
    ∧ (ok = true -> ready = true)
    ∧ (force = true ->
       ok = ready && bret
       ∧ count is_create_images (log w')
         = (count is_create_images (log w) + (if ready then 1 else 0))%nat
       ∧ (ready = true -> acquired_buffer w' = -1)).
Proof.
  intros Hsized Himages ready bret.
  unfold renderer_ensure_images_and_renderings, ask_check_ready.
  mstep reflexivity. fold ready.
  destruct ready eqn:Hready; cbn [negb].
  2: { eexists _, _. split; [reflexivity |].
       split; [exact Hsized |]. split; [left; reflexivity |].
       split; [rewrite count_add_log; cbn; lia |].
       split; [discriminate |]. intros _.
       split; [reflexivity |]. split; [| discriminate].
       rewrite count_add_log. cbn. lia. }
  destruct (must_create_run force (add_log (comp_target_check_ready true) w))
    as (create & evs & Hrun & Hevs & Hforce).
  mstep (exact Hrun).
  remember (with_log (log (add_log (comp_target_check_ready true) w) ++ evs)
              (add_log (comp_target_check_ready true) w)) as w1 eqn:Hw1.
  assert (Hsized1 : fences_sized w1) by (subst w1; exact Hsized).
  assert (Hacq1 : acquired_buffer w1 = acquired_buffer w) by (subst w1; reflexivity).
  assert (Hready1 : count is_check_ready (log w1) = S (count is_check_ready (log w))).
  { subst w1. cbn [log with_log add_log]. rewrite !count_app.
    rewrite (count_has_images is_check_ready evs) by (try exact Hevs; intros []; easy).
    cbn. lia. }
  assert (Hcreate1 : count is_create_images (log w1) = count is_create_images (log w)).
  { subst w1. cbn [log with_log add_log]. rewrite !count_app.
    rewrite (count_has_images is_create_images evs) by (try exact Hevs; intros []; easy).
    cbn. lia. }
  assert (Hdist1 : count is_distortion_images_ensure (log w1)
                   = count is_distortion_images_ensure (log w)).
  { subst w1. cbn [log with_log add_log]. rewrite !count_app.
    rewrite (count_has_images is_distortion_images_ensure evs)
      by (try exact Hevs; intros []; easy).
    cbn. lia. }
  clear Hw1 Hrun Hevs.
  destruct create; cbn [negb].
  2: { exists true, w1. split; [reflexivity |].
       split; [exact Hsized1 |]. split; [left; exact Hacq1 |].
       split; [exact Hready1 |]. split; [reflexivity |].
       intros Hf. discriminate (Hforce Hf). }
  mstep reflexivity. unfold renderer_wait_queue_idle. mstep reflexivity.
  mstep (apply renderer_close_renderings_and_fences_run).
  mstep reflexivity. mstep reflexivity. mstep reflexivity.
  remember (closed (add_log vkQueueWaitIdle (add_log COMP_DEBUG w1))) as w2 eqn:Hw2.
  assert (Hsized2 : fences w2 = false).
  { subst w2. apply fences_closed. exact Hsized1. }
  assert (Hacq2 : acquired_buffer w2 = -1) by (subst w2; reflexivity).
  assert (Hcount2 : ∀ p, p vkQueueWaitIdle = false -> p COMP_DEBUG = false ->
            (∀ e, housekeeping e = true -> p e = false) ->
            count p (log w2) = count p (log w1)).
  { intros p Hidle Hdebug Hp. subst w2.
    rewrite count_closed, !count_add_log, Hidle, Hdebug by exact Hp. lia. }
  clear Hw2.
  match goal with
  | |- context [comp_target_create_images ?u] => generalize u; intros usage
  end.
  rewrite count_add_log, Hcount2, Hdist1 by (try reflexivity; intros []; easy).
  cbn [is_distortion_images_ensure]. rewrite Nat.add_0_r. fold bret.
  destruct bret eqn:Hbret; cbn [negb].
  2: { eexists _, _. split; [reflexivity |].
       split; [intros Hf; cbn in Hf; congruence |].
       split; [right; exact Hacq2 |].
       split; [rewrite !count_add_log, Hcount2, Hready1
                 by (try reflexivity; intros []; easy); cbn; lia |].
       split; [discriminate |]. intros _.
       split; [reflexivity |]. split; [| intros _; exact Hacq2].
       rewrite !count_add_log, Hcount2, Hcreate1 by (try reflexivity; intros []; easy).
       cbn. lia. }
  mstep reflexivity. mstep reflexivity.
  mstep (apply renderer_create_renderings_and_fences_run; exact Hsized2).
  mstep reflexivity.
  match goal with
  | |- context [set_buffer_count ?n _] => pose proof (Himages
         (count is_create_images
            (log (add_log (render_distortion_images_ensure true)
                    (add_log (comp_target_create_images usage) w2))))) as Hpos;
       generalize dependent n; intros buffers Hpos
  end.
  mstep (cbn [buffer_count created set_buffer_count];
         rewrite (proj2 (Z.eqb_neq buffers 0)) by lia; reflexivity).
  eexists _, _. split; [reflexivity |].
  split; [intros _; exact Hpos |].
  split; [right; exact Hacq2 |].
  split.
  { rewrite count_created by (intros []; easy). cbn [log set_buffer_count].
    rewrite !count_add_log, Hcount2, Hready1 by (try reflexivity; intros []; easy).
    cbn. lia. }
  split; [reflexivity |]. intros _.
  split; [reflexivity |]. split; [| intros _; exact Hacq2].
  rewrite count_created by (intros []; easy). cbn [log set_buffer_count].
  rewrite !count_add_log, Hcount2, Hcreate1 by (try reflexivity; intros []; easy).
  cbn. lia.
Qed.

(** The events of [renderer_ensure_images_and_renderings]. *)
Definition recreation (e : event) : bool :=
  housekeeping e || is_check_ready e || is_has_images e || is_create_images e
  || is_distortion_images_ensure e.

Lemma only_recreation (force_recreate : bool) :
  only recreation (renderer_ensure_images_and_renderings E force_recreate).
Proof.
  unfold renderer_ensure_images_and_renderings, renderer_wait_queue_idle,
    renderer_close_renderings_and_fences, renderer_create_renderings_and_fences,
    renderer_build_rendering_target_resources, ask_check_ready, ask_has_images.
  stable_tac.
Qed.

(** A stale first answer to [comp_target_acquire]: one forced
    re-creation, and one more acquire if that went well. *)
Lemma renderer_acquire_swapchain_image_stale (w w1 : world) :
  fences_sized w ->
  (∀ n, 0 < image_count E n) ->
  acquired_buffer w < 0 ->
  renderer_ensure_images_and_renderings E false w = Ok (true, w1) ->
  let a := count is_acquire (log w) in
  is_stale (acquire E a).1 = true ->
  let ready := check_ready E (count is_check_ready (log w1)) in
  let bret := distortion_images_ensure E (count is_distortion_images_ensure (log w1)) in
  ∃ w',
    renderer_acquire_swapchain_image E w = Ok (tt, w')
    ∧ count is_create_images (log w')
      = (count is_create_images (log w1) + (if ready then 1 else 0))%nat
    ∧ count is_acquire (log w') = (a + (if ready && bret then 2 else 1))%nat
    ∧ (if ready && bret then
         acquired_buffer w'
         = int32_of_uint32 (default (default 0 (acquire E a).2) (acquire E (S a)).2)
         ∧ ((acquire E (S a)).1 ≠ VK_SUCCESS ->
            COMP_ERROR (comp_target_acquire_failed (acquire E (S a)).1) ∈ log w')
       else
         acquired_buffer w' < 0
         ∧ COMP_ERROR acquire_force_recreate_failed ∈ log w').
Proof.
  intros Hsized Himages Hacq Hens a Hstale ready bret.
  destruct (renderer_ensure_images_and_renderings_spec false w Hsized Himages)
    as (ok0 & w0 & Hrun0 & Hsized1 & Hacq1 & _).
  rewrite Hens in Hrun0. injection Hrun0 as <- <-.
  pose proof (post_Ok _ _ _ _ _ (only_recreation false w) Hens) as Happ1.
  cbn beta in Happ1.
  assert (Ha1 : count is_acquire (log w1) = a).
  { apply (appended_count recreation); [| exact Happ1]. intros []; easy. }
  unfold renderer_acquire_swapchain_image, ask_acquire.
  mstep reflexivity. mstep (rewrite (proj2 (Z.ltb_lt _ _) Hacq); reflexivity).
  mstep (exact Hens). cbn [negb]. mstep reflexivity.
  rewrite Ha1, Hstale. mstep reflexivity.
  remember (add_log COMP_DEBUG
              (add_log (comp_target_acquire (acquire E a).1 (acquire E a).2) w1))
    as w2 eqn:Hw2.
  assert (Hsized2 : fences_sized w2) by (subst w2; exact Hsized1).
  assert (Hacq2 : acquired_buffer w2 < 0).
  { subst w2. cbn [acquired_buffer add_log]. lia. }
  assert (Hcount2 : ∀ p, count p (log w2)
            = (count p (log w1)
               + ((if p (comp_target_acquire (acquire E a).1 (acquire E a).2)
                   then 1 else 0)
                  + (if p COMP_DEBUG then 1 else 0)))%nat).
  { intros p. subst w2. rewrite !count_add_log. lia. }
  clear Hw2.
  destruct (renderer_ensure_images_and_renderings_spec true w2 Hsized2 Himages)
    as (ok & w3 & Hrun3 & Hsized3 & Hacq3 & _ & _ & Hforced).
  destruct (Hforced eq_refl) as (Hok & Hcreate3 & _). clear Hforced.
  pose proof (post_Ok _ _ _ _ _ (only_recreation true w2) Hrun3) as Happ3.
  cbn beta in Happ3.
  assert (Ha3 : count is_acquire (log w3) = S a).
  { rewrite (appended_count recreation is_acquire w2 w3) by (try exact Happ3; intros []; easy).
    rewrite Hcount2, Ha1. cbn. lia. }
  rewrite !Hcount2 in Hok, Hcreate3. cbn [is_check_ready is_distortion_images_ensure
    is_create_images] in Hok, Hcreate3.
  rewrite !Nat.add_0_r in Hok, Hcreate3. fold ready bret in Hok, Hcreate3.
  mstep (exact Hrun3). subst ok.
  destruct (ready && bret); cbn [negb].
  - mstep reflexivity. rewrite Ha3.
    destruct (decide ((acquire E (S a)).1 = VK_SUCCESS)) as [Hsecond | Hsecond].
    + mstep reflexivity. eexists. split; [reflexivity |].
      cbn [log set_acquired_buffer].
      split; [rewrite count_add_log; cbn; lia |].
      split; [rewrite count_add_log, Ha3; cbn; lia |].
      split; [reflexivity | intros Hne; contradiction].
    + mstep reflexivity. eexists. split; [reflexivity |].
      cbn [log set_acquired_buffer].
      split; [rewrite !count_add_log; cbn; lia |].
      split; [rewrite !count_add_log, Ha3; cbn; lia |].
      split; [reflexivity | intros _].
      apply elem_of_add_log. right. reflexivity.
  - eexists. split; [reflexivity |].
    split; [rewrite count_add_log; cbn; lia |].
    split; [rewrite count_add_log, Ha3; cbn; lia |].
    split; [cbn [acquired_buffer add_log]; lia |].
    apply elem_of_add_log. right. reflexivity.
Qed.

Lemma renderer_acquire_swapchain_image_returns (w : world) :
  fences_sized w ->
  (∀ n, 0 < image_count E n) ->
  acquired_buffer w < 0 ->
  ∃ w', renderer_acquire_swapchain_image E w = Ok (tt, w').
Proof.
  intros Hsized Himages Hacq.
  unfold renderer_acquire_swapchain_image, ask_acquire.
  mstep reflexivity. mstep (rewrite (proj2 (Z.ltb_lt _ _) Hacq); reflexivity).
  destruct (renderer_ensure_images_and_renderings_spec false w Hsized Himages)
    as (ok & w1 & Hrun1 & Hsized1 & _).
  mstep (exact Hrun1). destruct ok; cbn [negb]; [| eexists; reflexivity].
  mstep reflexivity.
  destruct (is_stale _).
  - mstep reflexivity.
    match goal with
    | |- context [bind (renderer_ensure_images_and_renderings E true) _ ?w2] =>
      destruct (renderer_ensure_images_and_renderings_spec true w2 Hsized1 Himages)
        as (ok & w3 & Hrun3 & _)
    end.
    mstep (exact Hrun3). destruct ok; cbn [negb]; [| eexists; reflexivity].
    mstep reflexivity.
    destruct (decide _); mstep reflexivity; eexists; reflexivity.
  - destruct (decide _); mstep reflexivity; eexists; reflexivity.
Qed.

(** [renderer_wait_for_present] returns: with [KHR_present_wait] unless
    the wait reports the extension missing, without it whenever the
    acquire it falls back to is entered with no image acquired. *)
Lemma renderer_wait_for_present_returns (desired : Z) (w : world) :
  (if wait_for_present_supported E
   then wait_for_present E (count is_wait_for_present (log w))
        ≠ VK_ERROR_EXTENSION_NOT_PRESENT
   else acquired_buffer w < 0 ∧ fences_sized w ∧ ∀ n, 0 < image_count E n) ->
  ∃ w', renderer_wait_for_present E desired w = Ok (tt, w').
Proof.
  intros Hpre. unfold renderer_wait_for_present, ask_check_ready, ask_clock.
  mstep reflexivity.
  destruct (check_ready E _); cbn [negb]; [| eexists; reflexivity].
  mstep reflexivity.
  destruct (wait_for_present_supported E).
  - mstep (mstep reflexivity; rewrite !count_add_log; cbn [is_wait_for_present];
           rewrite !Nat.add_0_r, bool_decide_false by exact Hpre; reflexivity).
    mstep reflexivity.
    destruct (missed_frame _ _ _); eexists; reflexivity.
  - destruct Hpre as (Hacq & Hsized & Himages).
    match goal with
    | |- context [bind (renderer_acquire_swapchain_image E) _ ?w2] =>
      destruct (renderer_acquire_swapchain_image_returns w2 Hsized Himages Hacq)
        as (w3 & Hrun3)
    end.
    mstep (exact Hrun3). mstep reflexivity.
    destruct (missed_frame _ _ _); eexists; reflexivity.
Qed.

Lemma keeps_rendering_ensure (force_recreate : bool) :
  keeps rendering (renderer_ensure_images_and_renderings E force_recreate).
Proof.
  unfold renderer_ensure_images_and_renderings, renderer_wait_queue_idle,
    renderer_close_renderings_and_fences, renderer_create_renderings_and_fences,
    renderer_build_rendering_target_resources, ask_check_ready, ask_has_images.
  stable_tac.
Qed.

(** A stale answer to [comp_target_present]: the image is given up and
    the resize path is taken, which re-creates the images if the target
    is ready and closes the renderings if it is not. *)
Lemma renderer_present_swapchain_image_stale (desired slop : Z) (w : world) :
  fences_sized w ->
  (∀ n, 0 < image_count E n) ->
  comp_frame_is_invalid_locked (rendering w) = false ->
  let result := present E (count is_present (log w)) in
  is_stale result = true ->
  let ready := check_ready E (count is_check_ready (log w)) in
  let ready' := check_ready E (S (count is_check_ready (log w))) in
  ∃ w',
    renderer_present_swapchain_image E desired slop w = Ok (tt, w')
    ∧ comp_target_present (acquired_buffer w) (id (rendering w)) desired slop result
      ∈ log w'
    ∧ acquired_buffer w' = -1
    ∧ rendering w' = rendering w
    ∧ count is_present (log w') = S (count is_present (log w))
    ∧ count is_acquire (log w') = count is_acquire (log w)
    ∧ count is_cmd_submit (log w') = count is_cmd_submit (log w)
    ∧ count is_create_images (log w')
      = (count is_create_images (log w) + (if ready && ready' then 1 else 0))%nat
    ∧ (ready = false -> buffer_count w' = 0).
Proof.
  intros Hsized Himages Hvalid result Hstale ready ready'.
  unfold renderer_present_swapchain_image.
  mstep reflexivity. mstep (rewrite Hvalid; reflexivity).
  mstep reflexivity. fold result. mstep reflexivity. rewrite Hstale.
  remember (set_acquired_buffer (-1)
              (add_log (comp_target_present (acquired_buffer w) (id (rendering w))
                          desired slop result) w)) as w1 eqn:Hw1.
  assert (Hsized1 : fences_sized w1) by (subst w1; exact Hsized).
  assert (Hacq1 : acquired_buffer w1 = -1) by (subst w1; reflexivity).
  assert (Hrendering1 : rendering w1 = rendering w) by (subst w1; reflexivity).
  assert (Hin1 : comp_target_present (acquired_buffer w) (id (rendering w))
                   desired slop result ∈ log w1).
  { subst w1. cbn [log set_acquired_buffer]. apply elem_of_add_log. right. reflexivity. }
  assert (Hcount1 : ∀ p, count p (log w1)
            = (count p (log w)
               + (if p (comp_target_present (acquired_buffer w) (id (rendering w))
                          desired slop result) then 1 else 0))%nat).
  { intros p. subst w1. cbn [log set_acquired_buffer]. apply count_add_log. }
  clear Hw1.
  unfold renderer_resize, ask_check_ready. mstep reflexivity.
  rewrite Hcount1. cbn [is_check_ready]. rewrite Nat.add_0_r. fold ready.
  remember (add_log (comp_target_check_ready ready) w1) as w2 eqn:Hw2.
  assert (Hsized2 : fences_sized w2) by (subst w2; exact Hsized1).
  assert (Hacq2 : acquired_buffer w2 = -1) by (subst w2; exact Hacq1).
  assert (Hrendering2 : rendering w2 = rendering w) by (subst w2; exact Hrendering1).
  assert (Hin2 : comp_target_present (acquired_buffer w) (id (rendering w))
                   desired slop result ∈ log w2).
  { subst w2. apply elem_of_add_log. left. exact Hin1. }
  assert (Hcount2 : ∀ p, count p (log w2)
            = (count p (log w)
               + ((if p (comp_target_present (acquired_buffer w) (id (rendering w))
                           desired slop result) then 1 else 0)
                  + (if p (comp_target_check_ready ready) then 1 else 0)))%nat).
  { intros p. subst w2. rewrite count_add_log, Hcount1. lia. }
  clear Hw2.
  destruct ready eqn:Hready; cbn [negb andb].
  - destruct (renderer_ensure_images_and_renderings_spec true w2 Hsized2 Himages)
      as (ok & w3 & Hrun3 & _ & Hacq3 & _ & _ & Hforced).
    destruct (Hforced eq_refl) as (_ & Hcreate3 & _). clear Hforced.
    pose proof (post_Ok _ _ _ _ _ (only_recreation true w2) Hrun3) as Happ3.
    pose proof (post_Ok _ _ _ _ _ (keeps_rendering_ensure true w2) Hrun3) as Hkeep3.
    cbn beta in Happ3, Hkeep3. unfold same in Hkeep3.
    rewrite !Hcount2 in Hcreate3. cbn [is_check_ready is_create_images] in Hcreate3.
    replace (count is_check_ready (log w) + (0 + 1))%nat
      with (S (count is_check_ready (log w))) in Hcreate3 by lia.
    fold ready' in Hcreate3.
    mstep (exact Hrun3). exists w3. split; [reflexivity |].
    split; [eapply appended_elem; [exact Happ3 | exact Hin2] |].
    split; [destruct Hacq3 as [-> | ->]; [exact Hacq2 | reflexivity] |].
    split; [congruence |].
    rewrite !(appended_count recreation _ w2 w3) by (try exact Happ3; intros []; easy).
    rewrite !Hcount2. cbn.
    split; [lia |]. split; [lia |]. split; [lia |]. split; [| discriminate].
    rewrite Hcreate3. lia.
  - rewrite renderer_close_renderings_and_fences_run.
    exists (closed w2). split; [reflexivity |].
    split; [cbn [log closed]; apply elem_of_app; left; exact Hin2 |].
    split; [reflexivity |]. split; [exact Hrendering2 |].
    rewrite !count_closed, !Hcount2 by (intros []; easy). cbn.
    split; [lia |]. split; [lia |]. split; [lia |]. split; [lia | reflexivity].
Qed.

Lemma post_modify (f : world -> world) (w : world) (Q : unit -> world -> Prop) :
  Q tt (f w) -> post (modify f) w Q.
Proof. intros H. exact H. Qed.

Lemma keeps_rendering_wait_for_present (desired : Z) :
  keeps rendering (renderer_wait_for_present E desired).
Proof.
  unfold renderer_wait_for_present, renderer_acquire_swapchain_image,
    ask_check_ready, ask_clock, ask_acquire.
  pose proof keeps_rendering_ensure.
  stable_tac.
Qed.

(** When [comp_renderer_draw] returns, the rendering slot is empty again
    unless the reset of the fence or the submission failed. *)
Lemma comp_renderer_draw_rendering_slot (P : Peek.env) (fuel : nat) (w : world) :
  post (comp_renderer_draw E P fuel) w (fun status w' =>
    rendering w' = invalid_frame
    ∨ (status = XRT_ERROR_VULKAN ∧ submission_failed (log w'))).
Proof.
  unfold comp_renderer_draw, mbind, M_bind.
  do 7 (apply post_skip; intros ? ?).
  apply post_skip. intros ready w1. destruct ready; cbn [negb].
  - do 7 (apply post_skip; intros ? ?).
    apply post_bind.
    apply (post_mono _ _ (fun ret_ w' => ret_ ≠ VK_SUCCESS -> submission_failed (log w'))).
    { destruct (use_compute E); apply post_skip; intros ? ?;
        [apply dispatch_compute_failed | apply dispatch_graphics_failed]. }
    intros res w2 Hfailed.
    destruct (decide (res = VK_SUCCESS)) as [Hok | Hne].
    + do 4 (apply post_skip; intros ? ?).
      apply post_bind. unfold comp_frame_clear_locked. apply post_modify.
      match goal with
      | |- post ?m ?w0 _ =>
        assert (Hkeep : keeps rendering m)
          by (unfold renderer_wait_queue_idle, ask_clock;
              pose proof keeps_rendering_wait_for_present; stable_tac)
      end.
      eapply post_mono; [apply Hkeep |].
      intros status w_end Hsame. left. exact Hsame.
    + apply post_ret. right. split; [reflexivity | apply Hfailed, Hne].
  - do 4 (apply post_skip; intros ? ?).
    apply post_bind. unfold comp_frame_clear_locked. apply post_modify.
    apply post_ret. left. reflexivity.
Qed.

End Recreate.

(** *** The fence discipline over a whole frame *)

(** Events that neither use a fence nor make one pending. *)
Definition fence_neutral (e : event) : bool :=
  match e with
  | vkResetFences _ _ | vk_cmd_submit_locked _ _ _ => false
  | _ => true
  end.

Lemma neutral_events (pending : gset Z) (evs : list event) :
  forallb fence_neutral evs = true ->
  foldl fence_effect pending evs ⊆ pending ∧ disciplined_from pending evs.
Proof.
  revert pending. induction evs as [| e evs IH]; intros pending Hevs; cbn.
  - split; [set_solver | exact I].
  - cbn in Hevs. apply andb_prop in Hevs as [He Hevs].
    destruct (IH (fence_effect pending e) Hevs) as [Hsub Hdisc].
    assert (Heffect : fence_effect pending e ⊆ pending)
      by (destruct e; try discriminate He; cbn; set_solver).
    split; [set_solver |]. split; [| exact Hdisc].
    intros fence Huses. destruct e; discriminate.
Qed.

(** The invariant of [renderer_submit_queue], with the bounds that make
    [fenced_buffer] an index of the fences. *)
Definition fence_ok (w : world) : Prop :=
  fence_inv w
  ∧ 0 <= buffer_count w
  ∧ (0 <= fenced_buffer w -> fences w = true ∧ fenced_buffer w < buffer_count w).

(** No submission is pending and no buffer is marked as fenced. *)
Definition fence_idle (w : world) : Prop :=
  fence_inv w ∧ fenced_buffer w < 0 ∧ 0 <= buffer_count w.

Lemma fence_idle_ok (w : world) : fence_idle w -> fence_ok w.
Proof. intros (Hinv & Hneg & Hcount). split; [exact Hinv |]. split; [exact Hcount | lia]. Qed.

Lemma fence_inv_events (evs : list event) (w w' : world) :
  forallb fence_neutral evs = true ->
  log w' = log w ++ evs ->
  fenced_buffer w' = fenced_buffer w ->
  fence_inv w -> fence_inv w'.
Proof.
  intros Hevs Hlog Hfenced [Hdisc Hpending].
  destruct (neutral_events (pending_fences (log w)) evs Hevs) as [Hsub Hdisc'].
  unfold fence_inv, disciplined, pending_fences in *. rewrite Hlog, Hfenced.
  split.
  - apply disciplined_from_app. split; assumption.
  - rewrite foldl_app. set_solver.
Qed.

Definition keeps_fence_ok : relation world := fun w w' => fence_ok w -> fence_ok w'.
Definition keeps_fence_idle : relation world := fun w w' => fence_idle w -> fence_idle w'.

#[local] Instance keeps_fence_ok_preorder : PreOrder keeps_fence_ok.
Proof. split; [intros w H; exact H | intros w1 w2 w3 H12 H23 H; exact (H23 (H12 H))]. Qed.

#[local] Instance keeps_fence_idle_preorder : PreOrder keeps_fence_idle.
Proof. split; [intros w H; exact H | intros w1 w2 w3 H12 H23 H; exact (H23 (H12 H))]. Qed.

Lemma fence_ok_add_log (e : event) (w : world) :
  fence_neutral e = true -> keeps_fence_ok w (add_log e w).
Proof.
  intros He (Hinv & Hrest). split; [| exact Hrest].
  apply (fence_inv_events [e] w); [cbn; rewrite He | | |]; done.
Qed.

Lemma fence_ok_fields (w w' : world) :
  log w' = log w -> fenced_buffer w' = fenced_buffer w ->
  fences w' = fences w -> buffer_count w' = buffer_count w ->
  keeps_fence_ok w w'.
Proof.
  intros Hlog Hfenced Hfences Hcount (Hinv & Hrest).
  unfold fence_ok. rewrite Hfenced, Hfences, Hcount. split; [| exact Hrest].
  apply (fence_inv_events [] w); [reflexivity | rewrite app_nil_r | |]; done.
Qed.

Lemma fence_ok_set_fences (w : world) : keeps_fence_ok w (set_fences true w).
Proof.
  intros (Hinv & Hcount & Hfenced). split; [exact Hinv |]. split; [exact Hcount |].
  intros Hpos. split; [reflexivity | apply Hfenced, Hpos].
Qed.

Lemma fence_idle_add_log (e : event) (w : world) :
  fence_neutral e = true -> keeps_fence_idle w (add_log e w).
Proof.
  intros He (Hinv & Hrest). split; [| exact Hrest].
  apply (fence_inv_events [e] w); [cbn; rewrite He | | |]; done.
Qed.

Lemma fence_idle_fields (w w' : world) :
  log w' = log w -> fenced_buffer w' = fenced_buffer w ->
  buffer_count w' = buffer_count w ->
  keeps_fence_idle w w'.
Proof.
  intros Hlog Hfenced Hcount (Hinv & Hrest).
  unfold fence_idle. rewrite Hfenced, Hcount. split; [| exact Hrest].
  apply (fence_inv_events [] w); [reflexivity | rewrite app_nil_r | |]; done.
Qed.

Lemma fence_idle_set_buffer_count (n : Z) (w : world) :
  0 <= n -> keeps_fence_idle w (set_buffer_count n w).
Proof. intros Hn (Hinv & Hneg & _). split; [exact Hinv |]. split; [exact Hneg | exact Hn]. Qed.

(** A single change of the world that keeps the fences in order. *)
Ltac fence_side :=
  first [ apply fence_ok_add_log; reflexivity
        | apply fence_ok_fields; reflexivity
        | apply fence_ok_set_fences
        | apply fence_idle_add_log; reflexivity
        | apply fence_idle_fields; reflexivity
        | apply fence_idle_set_buffer_count; solve [auto] ].

Ltac fence_tac := repeat (stable_step fence_side).

Section FenceDiscipline.

Variable E : env.
Variable P : Peek.env.

Hypothesis image_count_nonneg : ∀ n, 0 <= image_count E n.

(** Destroying the fences [0 .. n-1] ends what was pending on them. *)
Lemma destroyed_fences (pending : gset Z) (n : nat) (fence : Z) :
  fence ∈ foldl fence_effect pending (map vkDestroyFence (seq 0 n)) ->
  fence ∈ pending ∧ ¬ (0 <= fence < Z.of_nat n).
Proof.
  induction n as [| n IH].
  - cbn. intros Hin. split; [exact Hin | lia].
  - rewrite seq_S, map_app, foldl_app. cbn [map foldl fence_effect Nat.add].
    intros Hin. apply elem_of_difference in Hin as [Hin Hne].
    destruct (IH Hin) as [Hpending Hout]. split; [exact Hpending |].
    rewrite elem_of_singleton in Hne. lia.
Qed.

Lemma fence_neutral_close_events (w : world) :
  forallb fence_neutral (close_events w) = true.
Proof.
  unfold close_events.
  destruct ((0 <? buffer_count w) && rtr_array w), ((0 <? buffer_count w) && fences w);
    rewrite ?forallb_app, ?forallb_map_seq by reflexivity; reflexivity.
Qed.

Lemma fence_ok_closed (w : world) : fence_ok w -> fence_idle (closed w).
Proof.
  intros ([Hdisc Hpending] & Hcount & Hfenced).
  split; [| split; [reflexivity | reflexivity]].
  destruct (neutral_events (pending_fences (log w)) (close_events w)
              (fence_neutral_close_events w)) as [Hsub Hdisc'].
  unfold fence_inv, disciplined, pending_fences in *. cbn [log closed fenced_buffer].
  split; [apply disciplined_from_app; split; assumption |].
  rewrite foldl_app. change (-1 <? 0) with true. cbn match.
  intros fence Hin. exfalso.
  destruct (Z.ltb_spec (fenced_buffer w) 0) as [Hneg | Hpos].
  - apply Hsub, Hpending in Hin. set_solver.
  - destruct (Hfenced Hpos) as [Hfences Hbound].
    unfold close_events in Hin. rewrite Hfences, andb_true_r in Hin.
    rewrite (proj2 (Z.ltb_lt 0 (buffer_count w))) in Hin by lia.
    rewrite foldl_app in Hin.
    apply destroyed_fences in Hin as [Hin Hout].
    destruct (neutral_events (foldl fence_effect ∅ (log w))
                (if rtr_array w
                 then map render_gfx_target_resources_fini
                        (seq 0 (Z.to_nat (buffer_count w)))
                      ++ [render_gfx_render_pass_fini]
                 else [])) as [Hsub' _].
    { destruct (rtr_array w); [| reflexivity].
      rewrite forallb_app, forallb_map_seq by reflexivity. reflexivity. }
    apply Hsub', Hpending in Hin. apply elem_of_singleton in Hin. subst fence.
    apply Hout. lia.
Qed.

Lemma fence_ok_close : stable keeps_fence_ok renderer_close_renderings_and_fences.
Proof.
  intros w. unfold post. rewrite renderer_close_renderings_and_fences_run.
  intros Hok. apply fence_idle_ok, fence_ok_closed, Hok.
Qed.

Lemma fence_ok_wait_queue_idle : stable keeps_fence_ok renderer_wait_queue_idle.
Proof. unfold renderer_wait_queue_idle. fence_tac. Qed.

Lemma fence_idle_create :
  stable keeps_fence_idle (renderer_create_renderings_and_fences E).
Proof.
  unfold renderer_create_renderings_and_fences,
    renderer_build_rendering_target_resources.
  fence_tac.
Qed.

#[local] Hint Resolve fence_ok_close fence_ok_wait_queue_idle fence_idle_create
  : stable_db.

Lemma fence_ok_ensure (force_recreate : bool) :
  stable keeps_fence_ok (renderer_ensure_images_and_renderings E force_recreate).
Proof.
  intros w. unfold renderer_ensure_images_and_renderings, ask_check_ready, mbind, M_bind.
  apply post_bind, post_query.
  destruct (check_ready E _); cbn [negb].
  2: { apply post_ret. apply fence_ok_add_log. reflexivity. }
  apply post_bind.
  match goal with
  | |- post ?m _ _ =>
    assert (Hcreate : stable keeps_fence_ok m) by (unfold ask_has_images; fence_tac)
  end.
  eapply post_mono; [apply Hcreate |]. intros create w1 H1. cbn beta in H1.
  assert (Hok1 : fence_ok w -> fence_ok w1).
  { intros Hok. apply H1, fence_ok_add_log; [reflexivity | exact Hok]. }
  clear H1 Hcreate.
  destruct create; cbn [negb]; [| apply post_ret; exact Hok1].
  apply post_bind, post_emit. unfold renderer_wait_queue_idle.
  apply post_bind, post_emit. apply post_bind. unfold post at 1.
  rewrite renderer_close_renderings_and_fences_run.
  match goal with
  | |- post ?m _ _ =>
    assert (Hrest : stable keeps_fence_idle m) by fence_tac
  end.
  eapply post_mono; [apply Hrest |]. intros ok w' H2 Hok. cbn beta in H2.
  apply fence_idle_ok, H2, fence_ok_closed.
  apply fence_ok_add_log; [reflexivity |].
  apply fence_ok_add_log; [reflexivity |].
  apply Hok1, Hok.
Qed.

#[local] Hint Resolve fence_ok_ensure : stable_db.

Lemma fence_ok_acquire : stable keeps_fence_ok (renderer_acquire_swapchain_image E).
Proof. unfold renderer_acquire_swapchain_image, ask_acquire. fence_tac. Qed.

#[local] Hint Resolve fence_ok_acquire : stable_db.

Lemma fence_ok_present (desired slop : Z) :
  stable keeps_fence_ok (renderer_present_swapchain_image E desired slop).
Proof.
  unfold renderer_present_swapchain_image, renderer_resize, ask_check_ready.
  fence_tac.
Qed.

Lemma fence_ok_wait_for_present (desired : Z) :
  stable keeps_fence_ok (renderer_wait_for_present E desired).
Proof.
  unfold renderer_wait_for_present, ask_check_ready, ask_clock.
  fence_tac.
Qed.

Lemma post_gets {A : Type} (f : world -> A) (w : world) (Q : A -> world -> Prop) :
  Q (f w) w -> post (gets f) w Q.
Proof. intros H. exact H. Qed.

Lemma post_const {A : Type} (m : M world A) (w : world) (C : Prop) :
  C -> post m w (fun _ _ => C).
Proof. intros H. unfold post. destruct (m w) as [[a w'] |]; [exact H | exact I]. Qed.

(** What [renderer_submit_queue] has checked when it returns. *)
Lemma renderer_submit_queue_checks (w : world) :
  post (renderer_submit_queue E) w (fun _ _ =>
    0 <= id (rendering w)
    ∧ fences w = true
    ∧ 0 <= acquired_buffer w < buffer_count w).
Proof.
  unfold renderer_submit_queue, mbind, M_bind.
  apply post_bind, post_gets.
  apply post_bind, post_assert. intros Hid. apply Z.leb_le in Hid.
  apply post_bind.
  assert (Hkeep : keeps (fun w => (fences w, acquired_buffer w, buffer_count w))
                    (renderer_wait_for_last_fence E))
    by (unfold renderer_wait_for_last_fence, fence_at; stable_tac).
  eapply post_mono; [apply Hkeep |]. intros u w1 Hsame.
  unfold same in Hsame. injection Hsame as Hfences Hacq Hcount.
  apply post_bind, post_gets.
  apply post_bind, post_assert. intros _.
  apply post_bind, post_assert. intros Hpos. apply Z.leb_le in Hpos.
  apply post_bind. unfold fence_at, mbind, M_bind.
  apply post_bind, post_gets.
  destruct (fences w1 && (0 <=? acquired_buffer w1)
            && (acquired_buffer w1 <? buffer_count w1)) eqn:Hcheck;
    [| apply post_stop].
  apply post_ret. apply post_const.
  apply andb_prop in Hcheck as [Hcheck Hlt]. apply andb_prop in Hcheck as [Hf _].
  apply Z.ltb_lt in Hlt. rewrite <- Hfences, <- Hacq, <- Hcount.
  split; [exact Hid |]. split; [exact Hf | lia].
Qed.

Lemma fence_ok_submit_queue : stable keeps_fence_ok (renderer_submit_queue E).
Proof.
  intros w. unfold post.
  destruct (renderer_submit_queue E w) as [[r w'] |] eqn:Hrun; [| exact I].
  intros (Hinv & Hcount & Hfenced).
  destruct (post_Ok _ _ _ _ _ (renderer_submit_queue_checks w) Hrun)
    as (Hid & Hfences & Hacq).
  assert (Hfb : fenced_buffer w < buffer_count w).
  { destruct (Z.ltb_spec (fenced_buffer w) 0); [lia | apply Hfenced; lia]. }
  rewrite renderer_submit_queue_run in Hrun by assumption.
  injection Hrun as _ <-.
  split; [apply fence_inv_submitted; [lia | exact Hinv] |].
  cbn [fenced_buffer set_fenced_buffer fences buffer_count with_log].
  split; [exact Hcount |]. unfold fenced_after.
  destruct (decide (submit_result E w = VK_SUCCESS)).
  - intros _. split; [exact Hfences | lia].
  - destruct (Z.ltb_spec (fenced_buffer w) 0); lia.
Qed.

#[local] Hint Resolve fence_ok_present fence_ok_wait_for_present
  fence_ok_submit_queue : stable_db.

Lemma fence_ok_dispatch_graphics : stable keeps_fence_ok (dispatch_graphics E).
Proof. unfold dispatch_graphics, rtr_at, VK_CHK_AND_RET. fence_tac. Qed.

Lemma fence_ok_dispatch_compute : stable keeps_fence_ok (dispatch_compute E).
Proof. unfold dispatch_compute, image_at, VK_CHK_AND_RET. fence_tac. Qed.

Lemma fence_ok_on_peek {A : Type} (p : Peek.comp_window_peek)
    (m : M Peek.comp_window_peek A) :
  stable keeps_fence_ok (on_peek p m).
Proof.
  intros w. unfold post, on_peek.
  destruct (m p) as [[a p'] |]; [| exact I].
  apply fence_ok_fields; reflexivity.
Qed.

#[local] Hint Resolve fence_ok_dispatch_graphics fence_ok_dispatch_compute
  fence_ok_on_peek : stable_db.

(** A whole [comp_renderer_draw] keeps the fences in order. *)
Lemma comp_renderer_draw_fence_ok (fuel : nat) (w : world) :
  fence_ok w ->
  post (comp_renderer_draw E P fuel) w (fun _ w' => fence_ok w').
Proof.
  intros Hok.
  assert (Hdraw : stable keeps_fence_ok (comp_renderer_draw E P fuel)).
  { unfold comp_renderer_draw, comp_frame_move_and_clear_locked,
      comp_frame_clear_locked, peek_block, image_at, ask_clock, ask_check_ready.
    fence_tac. }
  eapply post_mono; [apply Hdraw |]. intros status w' Hkeep. exact (Hkeep Hok).
Qed.

End FenceDiscipline.

(** *** Concrete targets and frames *)

Definition always {A : Type} (a : A) : nat -> A := fun _ => a.

(** Three images, handed out in turn. *)
Definition round_robin : nat -> VkResult * option Z :=
  fun n => (VK_SUCCESS, Some (Z.of_nat n mod 3)).

(** A clock that advances one millisecond per reading. *)
Definition milliseconds : nat -> Z := fun n => 1000000 * Z.of_nat n.

(** A graphics-pipeline compositor on a three-image target; the
    arguments are what the runs below vary. *)
Definition mock (supported : bool) (ready : nat -> bool)
    (acq : nat -> VkResult * option Z) (distortion : nat -> bool)
    (submit_ : nat -> VkResult) (clock : nat -> Z) : env :=
  mk_env false supported false 1
    ready (fun n => negb (n =? 0)%nat) (always 3) acq
    (always VK_SUCCESS) (always VK_SUCCESS) distortion
    (always VK_SUCCESS) (always VK_SUCCESS) (always VK_SUCCESS) submit_
    clock (always false) (always XRT_SUCCESS) (always false)
    (fun i => Z.of_nat i) 1000 1000 (fun i => 100 + i) 1920 1080.

Definition env_steady : env :=
  mock false (always true) round_robin (always true) (always VK_SUCCESS) milliseconds.

Definition env_not_ready : env :=
  mock false (always false) round_robin (always true) (always VK_SUCCESS) milliseconds.

(** [acquire] answers out-of-date twice, then succeeds. *)
Definition env_out_of_date_twice : env :=
  mock false (always true)
    (fun n => if (n <? 2)%nat then (VK_ERROR_OUT_OF_DATE_KHR, None)
              else (VK_SUCCESS, Some 1))
    (always true) (always VK_SUCCESS) milliseconds.

(** [acquire] answers out-of-date once, and the target is gone at the
    poll of the forced re-creation (the third poll of the frame). *)
Definition env_recreate_fails : env :=
  mock false (fun n => negb (n =? 2)%nat)
    (fun n => if (n <? 1)%nat then (VK_ERROR_OUT_OF_DATE_KHR, None)
              else (VK_SUCCESS, Some 1))
    (always true) (always VK_SUCCESS) milliseconds.

(** [acquire] answers out-of-date once, then hands out images. *)
Definition env_out_of_date_once : env :=
  mock false (always true)
    (fun n => if (n <? 1)%nat then (VK_ERROR_OUT_OF_DATE_KHR, None)
              else (VK_SUCCESS, Some (Z.of_nat n mod 3)))
    (always true) (always VK_SUCCESS) milliseconds.

(** A target that has its three images; the arguments are the answers
    to [acquire] and to [present]. *)
Definition env_images_in_place (acq : nat -> VkResult * option Z)
    (present_ : nat -> VkResult) : env :=
  mk_env false false false 1
    (always true) (always true) (always 3) acq
    present_ (always VK_SUCCESS) (always true)
    (always VK_SUCCESS) (always VK_SUCCESS) (always VK_SUCCESS) (always VK_SUCCESS)
    milliseconds (always false) (always XRT_SUCCESS) (always false)
    (fun i => Z.of_nat i) 1000 1000 (fun i => 100 + i) 1920 1080.

(** The queue submission fails. *)
Definition env_submit_fails : env :=
  mock false (always true) round_robin (always true)
    (always VK_ERROR_DEVICE_LOST) milliseconds.

Definition frame7 : comp_frame := mk_frame 7 5000000 4000000 100000.
Definition frame8 : comp_frame := mk_frame 8 6000000 5000000 100000.

(** After [renderer_init] on a target without images, frame 7 waited. *)
Definition start : world :=
  mk_world (-1) (-1) false false 0 frame7 invalid_frame None [].

(** Image 1 acquired for frame 7, image 0 submitted for frame 6. *)
Definition acquired1_fenced0 : world :=
  mk_world 1 0 true true 3 invalid_frame frame7 None
    [vk_cmd_submit_locked 0 6 VK_SUCCESS].

(** Renderings in place, nothing acquired, frame 7 waited. *)
Definition in_place : world :=
  mk_world (-1) (-1) true true 3 frame7 invalid_frame None [].

(** After a present, with renderings in place. *)
Definition presented : world :=
  mk_world (-1) 0 true true 3 invalid_frame invalid_frame None [].

(** The events that tell what became of the frame. *)
Definition is_key (e : event) : bool :=
  match e with
  | comp_target_check_ready _
  | comp_target_create_images _
  | comp_target_acquire _ _
  | vk_cmd_submit_locked _ _ _
  | comp_target_present _ _ _ _ _
  | COMP_ERROR _ => true
  | _ => false
  end.

Fixpoint keep (p : event -> bool) (l : list event) : list event :=
  match l with
  | [] => []
  | e :: l' => if p e then e :: keep p l' else keep p l'
  end.

Example draw_steady_frame :
  ∃ w', comp_renderer_draw env_steady Peek.env_never_ready 0 start
        = Ok (XRT_SUCCESS, w')
        ∧ keep is_key (log w')
          = [comp_target_check_ready true;
             comp_target_check_ready true;
             comp_target_create_images 16;
             comp_target_acquire VK_SUCCESS (Some 0);
             vk_cmd_submit_locked 0 7 VK_SUCCESS;
             comp_target_present 0 7 4000000 100000 VK_SUCCESS;
             comp_target_check_ready true;
             comp_target_check_ready true;
             comp_target_acquire VK_SUCCESS (Some 1)]
        ∧ rendering w' = invalid_frame.
Proof. eexists. split; [vm_compute; reflexivity |]. split; reflexivity. Qed.

(** *** The claims about the renderer *)

Lemma comp_renderer_draw_discarded_witness :
  comp_renderer_draw env_not_ready Peek.env_never_ready 0 start
  = Ok (XRT_SUCCESS,
        mk_world (-1) (-1) false false 0 invalid_frame invalid_frame None
          [os_monotonic_get_ns 0;
           comp_target_mark_begin 7 0;
           comp_target_check_ready false;
           os_monotonic_get_ns 1000000;
           comp_target_mark_submit_begin 7 1000000;
           os_monotonic_get_ns 2000000;
           comp_target_mark_submit_end 7 2000000]).
Proof.
  exact (comp_renderer_draw_discarded env_not_ready Peek.env_never_ready 0 start
           eq_refl eq_refl eq_refl).
Defined.

Lemma acquired1_fenced0_fence_inv : fence_inv acquired1_fenced0.
Proof.
  split.
  - split; [intros fence _; set_solver | exact I].
  - cbn. set_solver.
Qed.

Lemma start_fence_ok : fence_ok start.
Proof.
  split; [| split; [reflexivity | intros Hpos; cbn in Hpos; lia]].
  split; [exact I | cbn; set_solver].
Qed.

(** C6. [renderer_submit_queue] waits, if at all, on the fence of
    [fenced_buffer], the index submitted last, and does so before it
    resets and submits the fence of [acquired_buffer]; nothing after the
    reset is a wait. After a successful submission [fenced_buffer] is the
    acquired index. With that, no fence is reset or handed to a
    submission while an earlier submission with it has not been waited
    for; and a whole [comp_renderer_draw] hands the invariant on to the
    next frame. *)
Theorem renderer_submit_queue_fence_reuse (E : env) :
  (∀ w,
     0 <= id (rendering w) ->
     fences w = true ->
     0 <= acquired_buffer w < buffer_count w ->
     fenced_buffer w < buffer_count w ->
     fence_inv w ->
     ∃ w',
       renderer_submit_queue E w = Ok (submit_result E w, w')
       ∧ log w' = log w ++ wait_events E w
                  ++ vkResetFences (acquired_buffer w)
                       (reset_fences E (count is_reset_fences (log w)))
                     :: submit_events E w
       ∧ (∀ fence r, vkWaitForFences fence r ∈ wait_events E w ->
                     fence = fenced_buffer w ∧ 0 <= fence)
       ∧ (∀ e, e ∈ submit_events E w -> is_wait_for_fences e = false)
       ∧ (submit_result E w = VK_SUCCESS -> fenced_buffer w' = acquired_buffer w)
       ∧ acquired_buffer w' = acquired_buffer w
       ∧ fence_inv w')
  ∧ (∀ P fuel w status w',
       (∀ n, 0 <= image_count E n) ->
       fence_ok w ->
       comp_renderer_draw E P fuel w = Ok (status, w') ->
       fence_ok w').
Proof.
  split.
  - intros w. apply renderer_submit_queue_spec.
  - intros P fuel w status w' Himages Hok Hrun.
    exact (post_Ok _ _ _ _ _ (comp_renderer_draw_fence_ok E P Himages fuel w Hok) Hrun).
Qed.

Lemma renderer_submit_queue_fence_reuse_witness :
  (∃ w',
     renderer_submit_queue env_steady acquired1_fenced0 = Ok (VK_SUCCESS, w')
     ∧ log w'
       = [vk_cmd_submit_locked 0 6 VK_SUCCESS;
          vkWaitForFences 0 VK_SUCCESS;
          vkResetFences 1 VK_SUCCESS;
          os_monotonic_get_ns 0;
          comp_target_mark_submit_begin 7 0;
          vk_cmd_submit_locked 1 7 VK_SUCCESS;
          os_monotonic_get_ns 1000000;
          comp_target_mark_submit_end 7 1000000]
     ∧ fenced_buffer w' = 1
     ∧ fence_inv w')
  ∧ (∃ w',
       comp_renderer_draw env_steady Peek.env_never_ready 0 start
       = Ok (XRT_SUCCESS, w')
       ∧ fence_ok w').
Proof.
  split.
  - destruct (proj1 (renderer_submit_queue_fence_reuse env_steady) acquired1_fenced0)
      as (w' & Hrun & Hlog & _ & _ & Hfenced & _ & Hinv).
    + cbn. lia.
    + reflexivity.
    + cbn. lia.
    + cbn. lia.
    + exact acquired1_fenced0_fence_inv.
    + exists w'. split; [exact Hrun |]. split; [exact Hlog |].
      split; [apply Hfenced; reflexivity | exact Hinv].
  - eexists. split; [vm_compute; reflexivity |].
    apply (proj2 (renderer_submit_queue_fence_reuse env_steady)
             Peek.env_never_ready 0%nat start XRT_SUCCESS).
    + intros n. vm_compute. discriminate.
    + exact start_fence_ok.
    + vm_compute. reflexivity.
Defined.

(** The wait returns after half a millisecond, five and a half
    milliseconds past the desired present time. *)
Definition env_short_wait : env :=
  mock true (always true) round_robin (always true) (always VK_SUCCESS)
    (fun n => if (n =? 0)%nat then 10000000 else 10500000).

(** The wait takes twenty milliseconds. *)
Definition env_long_wait : env :=
  mock true (always true) round_robin (always true) (always VK_SUCCESS)
    (fun n => if (n =? 0)%nat then 0 else 20000000).

(** Against C7 as stated: the time after the wait exceeds the desired
    present time by more than one millisecond, and nothing is logged
    besides the calls, because the wait itself was shorter than one
    millisecond. *)
Lemma renderer_wait_for_present_short_wait :
  renderer_wait_for_present env_short_wait 5000000 presented
  = Ok (tt, with_log [comp_target_check_ready true;
                      os_monotonic_get_ns 10000000;
                      comp_target_wait_for_present VK_SUCCESS;
                      os_monotonic_get_ns 10500000] presented)
  ∧ 5000000 + U_TIME_1MS_IN_NS < 10500000.
Proof. split; [vm_compute; reflexivity | unfold U_TIME_1MS_IN_NS; lia]. Qed.

(** C7, amended. [renderer_wait_for_present] has no status to return,
    and it returns: with [KHR_present_wait] unless the wait reports the
    extension missing, without it when no image is acquired. It logs the
    frame-lag warning, once, exactly when the target was ready at its
    poll, the wait itself took more than one millisecond, and the clock
    after the wait is more than one millisecond past the desired present
    time. *)
Theorem renderer_wait_for_present_warning (E : env) (desired : Z) (w : world) :
  0 <= desired < 2 ^ 63 ->
  0 <= monotonic_ns E (count is_clock (log w)) < 2 ^ 63 ->
  (if wait_for_present_supported E
   then wait_for_present E (count is_wait_for_present (log w))
        ≠ VK_ERROR_EXTENSION_NOT_PRESENT
   else acquired_buffer w < 0 ∧ fences_sized w ∧ ∀ n, 0 < image_count E n) ->
  let ready := check_ready E (count is_check_ready (log w)) in
  let before_ns := monotonic_ns E (count is_clock (log w)) in
  let after_ns := monotonic_ns E (S (count is_clock (log w))) in
  ∃ w',
    renderer_wait_for_present E desired w = Ok (tt, w')
    ∧ (count is_frame_lag (log w') = S (count is_frame_lag (log w))
       <-> ready = true
           ∧ before_ns + U_TIME_1MS_IN_NS < after_ns
           ∧ desired + U_TIME_1MS_IN_NS < after_ns)
    ∧ (count is_frame_lag (log w') = count is_frame_lag (log w)
       ∨ count is_frame_lag (log w') = S (count is_frame_lag (log w))).
Proof.
  intros Hdesired Hbefore Hpre ready before_ns after_ns.
  destruct (renderer_wait_for_present_returns E desired w Hpre) as (w' & Hrun).
  exists w'. split; [exact Hrun |].
  pose proof (post_Ok _ _ _ _ _ (renderer_wait_for_present_post E desired w) Hrun)
    as Hcount.
  cbn beta in Hcount. fold ready before_ns after_ns in Hcount.
  pose proof (missed_frame_spec before_ns after_ns desired Hbefore Hdesired) as Hspec.
  destruct ready, (missed_frame before_ns after_ns desired); cbn [andb] in Hcount.
  - split; [| right; lia].
    split; [intros _; split; [reflexivity | apply Hspec; reflexivity] | lia].
  - split; [| left; lia].
    split; [lia |]. intros (_ & Hmiss). apply Hspec in Hmiss. discriminate Hmiss.
  - split; [| left; lia]. split; [lia | intros [Hfalse _]; discriminate Hfalse].
  - split; [| left; lia]. split; [lia | intros [Hfalse _]; discriminate Hfalse].
Qed.

(** A wait of twenty milliseconds that ends fifteen milliseconds past
    the desired present time: one warning. *)
Lemma renderer_wait_for_present_warning_witness :
  ∃ w',
    renderer_wait_for_present env_long_wait 5000000 presented = Ok (tt, w')
    ∧ count is_frame_lag (log w') = 1%nat
    ∧ log w' = [comp_target_check_ready true; os_monotonic_get_ns 0;
                comp_target_wait_for_present VK_SUCCESS;
                os_monotonic_get_ns 20000000; LOG_FRAME_LAG 15000000].
Proof.
  destruct (renderer_wait_for_present_warning env_long_wait 5000000 presented)
    as (w' & Hrun & Hiff & _).
  - lia.
  - cbn. lia.
  - discriminate.
  - exists w'. split; [exact Hrun |]. split.
    + apply Hiff. split; [reflexivity |]. cbn. unfold U_TIME_1MS_IN_NS. lia.
    + assert (Hcompute : renderer_wait_for_present env_long_wait 5000000 presented
                = Ok (tt, with_log [comp_target_check_ready true; os_monotonic_get_ns 0;
                                    comp_target_wait_for_present VK_SUCCESS;
                                    os_monotonic_get_ns 20000000;
                                    LOG_FRAME_LAG 15000000] presented))
        by (vm_compute; reflexivity).
      rewrite Hcompute in Hrun. injection Hrun as <-. reflexivity.
Defined.


(** Out-of-date once, with the images in place: one forced
    [create_images], one more acquire, and the frame is submitted and
    presented on the image of the second acquire. *)
Example draw_out_of_date_once :
  ∃ w', comp_renderer_draw
          (env_images_in_place (acquire env_out_of_date_once) (always VK_SUCCESS))
          Peek.env_never_ready 0 in_place
        = Ok (XRT_SUCCESS, w')
        ∧ keep is_key (log w')
          = [comp_target_check_ready true;
             comp_target_check_ready true;
             comp_target_acquire VK_ERROR_OUT_OF_DATE_KHR None;
             comp_target_check_ready true;
             comp_target_create_images 16;
             comp_target_acquire VK_SUCCESS (Some 1);
             vk_cmd_submit_locked 1 7 VK_SUCCESS;
             comp_target_present 1 7 4000000 100000 VK_SUCCESS;
             comp_target_check_ready true;
             comp_target_check_ready true;
             comp_target_acquire VK_SUCCESS (Some 2)].
Proof. eexists. split; [vm_compute; reflexivity | reflexivity]. Qed.

(** A forced re-creation that fails, the target being gone at its poll:
    [acquired_buffer] stays [-1] and the draw goes on into
    [dispatch_graphics], which indexes [rtr_array] with it. *)
Example draw_forced_recreation_fails :
  comp_renderer_draw env_recreate_fails Peek.env_never_ready 0 start
  = Fault OutOfBounds.
Proof. vm_compute. reflexivity. Qed.

(** C3, where the code leaves the claim. When the submission fails,
    [comp_renderer_draw] returns [XRT_ERROR_VULKAN] with frame 7 still in
    the rendering slot; the draw of the next waited frame then stops at
    the assertion that the rendering slot is invalid. *)
Theorem comp_renderer_draw_error_keeps_frame :
  ∃ w',
    comp_renderer_draw env_submit_fails Peek.env_never_ready 0 start
    = Ok (XRT_ERROR_VULKAN, w')
    ∧ rendering w' = frame7
    ∧ comp_frame_is_invalid_locked (rendering w') = false
    ∧ comp_renderer_draw env_submit_fails Peek.env_never_ready 0
        (set_waited frame8 w')
      = Fault AssertionFailed.
Proof.
  eexists. split; [vm_compute; reflexivity |].
  split; [reflexivity |]. split; reflexivity.
Qed.


(** A hidden window in front of the steady target. *)
Definition window_hidden : Peek.comp_window_peek :=
  Peek.mk_peek Peek.COMP_WINDOW_PEEK_EYE_LEFT 640 480 true true 640 480 3 [].

(** A peek target that is ready at its third poll and whose submission
    fails, and one whose acquire fails and writes no index. *)
Definition peek_submit_fails : Peek.env :=
  Peek.mk_env (fun _ => Peek.mk_images 640 480 3) (fun k => (2 <=? k)%nat)
    (fun _ => (VK_SUBOPTIMAL_KHR, Some 2))
    (fun _ => VK_SUCCESS) (fun _ => VK_ERROR_DEVICE_LOST) (fun _ => VK_SUCCESS).

Definition peek_acquire_fails : Peek.env :=
  Peek.mk_env (fun _ => Peek.mk_images 640 480 3) (fun _ => true)
    (fun _ => (VK_ERROR_SURFACE_LOST_KHR, None))
    (fun _ => VK_SUCCESS) (fun _ => VK_SUCCESS) (fun _ => VK_SUCCESS).


(** With the never-ready window attached the frame is not drawn, however
    long the wait. *)
Example draw_blocked_by_peek :
  comp_renderer_draw env_steady Peek.env_never_ready 500
    (set_peek (Some Peek.window_shown) start)
  = Fault OutOfFuel.
Proof. vm_compute. reflexivity. Qed.

(** *** A frame is presented only after it was submitted *)

Definition no_present (e : event) : bool := negb (is_present e).

(** Nothing is presented and the rendering slot is left alone. *)
Definition calm : relation world :=
  fun w w' => appended no_present w w' ∧ rendering w' = rendering w.

(** Moreover the acquired image stays the same. *)
Definition still : relation world :=
  fun w w' => calm w w' ∧ acquired_buffer w' = acquired_buffer w.

#[local] Instance calm_preorder : PreOrder calm.
Proof.
  split.
  - intros w. split; reflexivity.
  - intros w1 w2 w3 [Ha1 Hr1] [Ha2 Hr2]. split; [etransitivity; eassumption |].
    congruence.
Qed.

#[local] Instance still_preorder : PreOrder still.
Proof.
  split.
  - intros w. split; reflexivity.
  - intros w1 w2 w3 [Hc1 Ha1] [Hc2 Ha2]. split; [etransitivity; eassumption |].
    congruence.
Qed.

Ltac calm_side :=
  first [ split; [apply appended_add_log; reflexivity | reflexivity]
        | split; [apply appended_refl; reflexivity | reflexivity]
        | split; [split; [apply appended_add_log; reflexivity | reflexivity]
                 | reflexivity]
        | split; [split; [apply appended_refl; reflexivity | reflexivity]
                 | reflexivity]
        | apply appended_add_log; reflexivity
        | apply appended_refl; reflexivity ].

Ltac calm_tac := repeat (stable_step calm_side).

Lemma post_bind_stable {A B : Type} (R : relation world) (m : M world A)
    (k : A -> M world B) (w : world) (Q : B -> world -> Prop) :
  stable R m -> (∀ a w1, R w w1 -> post (k a) w1 Q) -> post (bind m k) w Q.
Proof.
  intros Hm Hk. apply post_bind. eapply post_mono; [apply Hm |].
  intros a w1 H1. apply Hk, H1.
Qed.

Section Presented.

Variable E : env.
Variable P : Peek.env.

Lemma calm_renderer_acquire_swapchain_image :
  stable calm (renderer_acquire_swapchain_image E).
Proof.
  unfold renderer_acquire_swapchain_image, renderer_ensure_images_and_renderings,
    renderer_wait_queue_idle, renderer_close_renderings_and_fences,
    renderer_create_renderings_and_fences, renderer_build_rendering_target_resources,
    ask_check_ready, ask_has_images, ask_acquire.
  calm_tac.
Qed.

Lemma still_renderer_wait_for_last_fence :
  stable still (renderer_wait_for_last_fence E).
Proof. unfold renderer_wait_for_last_fence, fence_at. calm_tac. Qed.

Lemma still_fence_at (i : Z) : stable still (fence_at i).
Proof. unfold fence_at. calm_tac. Qed.

Lemma still_renderer_submit_queue : stable still (renderer_submit_queue E).
Proof.
  unfold renderer_submit_queue, renderer_wait_for_last_fence, fence_at,
    VK_CHK_AND_RET, ask_clock.
  calm_tac.
Qed.

(** The frame in the rendering slot was submitted with success on the
    acquired image, by one of the events since [w]. *)
Definition submitted_since (w w' : world) : Prop :=
  ∃ rest,
    log w' = log w ++ rest
    ∧ vk_cmd_submit_locked (acquired_buffer w') (id (rendering w')) VK_SUCCESS ∈ rest.

Lemma submitted_since_before (w0 w1 w2 : world) :
  appended any_event w0 w1 -> submitted_since w1 w2 -> submitted_since w0 w2.
Proof.
  intros (r1 & Hlog1 & _) (r2 & Hlog2 & Hin). exists (r1 ++ r2).
  rewrite Hlog2, Hlog1, <- app_assoc. split; [reflexivity |].
  apply elem_of_app. right. exact Hin.
Qed.

Lemma submitted_since_after (w0 w1 w2 : world) :
  submitted_since w0 w1 -> still w1 w2 -> submitted_since w0 w2.
Proof.
  intros (r1 & Hlog1 & Hin) [[(r2 & Hlog2 & _) Hrendering] Hacquired].
  exists (r1 ++ r2). rewrite Hlog2, Hlog1, <- app_assoc. split; [reflexivity |].
  rewrite Hrendering, Hacquired. apply elem_of_app. left. exact Hin.
Qed.

Lemma still_any (w w' : world) : still w w' -> appended any_event w w'.
Proof.
  intros [[Happ _] _]. eapply appended_weaken; [| exact Happ]. reflexivity.
Qed.

Lemma renderer_submit_queue_submitted (w : world) :
  post (renderer_submit_queue E) w (fun ret_ w' =>
    ret_ = VK_SUCCESS -> submitted_since w w').
Proof.
  unfold renderer_submit_queue, mbind, M_bind.
  apply post_bind, post_gets. apply post_bind, post_assert. intros _.
  apply (post_bind_stable still); [apply still_renderer_wait_for_last_fence |].
  intros [] w1 Hstill1.
  apply post_bind, post_gets.
  apply post_bind, post_assert. intros _.
  apply post_bind, post_assert. intros _.
  apply (post_bind_stable still); [apply still_fence_at |].
  intros [] w2 Hstill2.
  apply post_bind, post_query. unfold VK_CHK_AND_RET, ask_clock, mbind, M_bind.
  destruct (decide (reset_fences E _ = VK_SUCCESS)) as [Hreset | Hreset].
  - apply post_bind, post_assert. intros _.
    apply post_bind, post_query. apply post_bind, post_emit.
    apply post_bind, post_query.
    apply post_bind, post_query. apply post_bind, post_emit.
    remember (cmd_submit E _) as r eqn:Hr. clear Hr.
    destruct (decide (r = VK_SUCCESS)) as [-> | Hsubmit].
    + apply post_bind, post_modify, post_ret. intros _.
      eapply submitted_since_before; [apply still_any, Hstill1 |].
      eapply submitted_since_before; [apply still_any, Hstill2 |].
      destruct Hstill1 as [[_ Hrendering1] Hacquired1].
      destruct Hstill2 as [[_ Hrendering2] Hacquired2].
      eexists. cbn [log set_fenced_buffer add_log acquired_buffer rendering].
      split; [rewrite <- !app_assoc; reflexivity |].
      rewrite Hrendering2, Hrendering1, Hacquired2.
      cbn [app]. do 3 apply list_elem_of_further. apply list_elem_of_here.
    + apply post_bind, post_emit, post_ret. intros Hok. contradiction.
  - apply post_bind, post_emit, post_ret. intros Hok. contradiction.
Qed.

Lemma only_no_present_any {A : Type} (m : M world A) :
  stable still m -> only any_event m.
Proof. apply stable_weaken. intros w w'. apply still_any. Qed.

Lemma dispatch_graphics_submitted (w : world) :
  post (dispatch_graphics E) w (fun res w' =>
    still w w' ∧ (res = VK_SUCCESS -> submitted_since w w')).
Proof.
  apply post_conj.
  { assert (Hstill : stable still (dispatch_graphics E)); [| apply Hstill].
    pose proof still_renderer_submit_queue.
    unfold dispatch_graphics, rtr_at, VK_CHK_AND_RET. calm_tac. }
  unfold dispatch_graphics, mbind, M_bind.
  apply post_bind, post_gets.
  apply (post_bind_stable still); [calm_tac |]. intros [] w1 H1.
  apply (post_bind_stable still); [calm_tac |]. intros [] w2 H2.
  apply (post_bind_stable still); [calm_tac |]. intros [] w3 H3.
  apply (post_bind_stable still); [unfold rtr_at; calm_tac |]. intros [] w4 H4.
  apply (post_bind_stable still); [calm_tac |]. intros [] w5 H5.
  assert (Hprefix : still w w5) by (repeat (etransitivity; [eassumption |]); reflexivity).
  apply post_bind. eapply post_mono; [apply renderer_submit_queue_submitted |].
  intros ret_ w6 Hsubmitted. cbn beta in Hsubmitted. unfold VK_CHK_AND_RET.
  destruct (decide (ret_ = VK_SUCCESS)) as [Hok | Hne].
  - apply post_ret. intros _.
    eapply submitted_since_before; [apply still_any, Hprefix | apply Hsubmitted, Hok].
  - unfold mbind, M_bind. apply post_bind, post_emit, post_ret.
    intros Hok. contradiction.
Qed.

Lemma dispatch_compute_submitted (w : world) :
  post (dispatch_compute E) w (fun res w' =>
    still w w' ∧ (res = VK_SUCCESS -> submitted_since w w')).
Proof.
  apply post_conj.
  { assert (Hstill : stable still (dispatch_compute E)); [| apply Hstill].
    pose proof still_renderer_submit_queue.
    unfold dispatch_compute, image_at, VK_CHK_AND_RET. calm_tac. }
  unfold dispatch_compute, mbind, M_bind.
  apply post_bind, post_gets.
  apply (post_bind_stable still); [calm_tac |]. intros [] w1 H1.
  apply (post_bind_stable still); [unfold image_at; calm_tac |]. intros [] w2 H2.
  apply (post_bind_stable still); [calm_tac |]. intros [] w3 H3.
  apply (post_bind_stable still); [calm_tac |]. intros [] w4 H4.
  assert (Hprefix : still w w4) by (repeat (etransitivity; [eassumption |]); reflexivity).
  apply post_bind. eapply post_mono; [apply renderer_submit_queue_submitted |].
  intros ret_ w5 Hsubmitted. cbn beta in Hsubmitted. unfold VK_CHK_AND_RET.
  destruct (decide (ret_ = VK_SUCCESS)) as [Hok | Hne].
  - apply post_ret. intros _.
    eapply submitted_since_before; [apply still_any, Hprefix | apply Hsubmitted, Hok].
  - unfold mbind, M_bind. apply post_bind, post_emit, post_ret.
    intros Hok. contradiction.
Qed.

Lemma still_on_peek {A : Type} (p : Peek.comp_window_peek)
    (m : M Peek.comp_window_peek A) :
  stable still (on_peek p m).
Proof.
  intros w. unfold post, on_peek. destruct (m p) as [[a p'] |]; [| exact I].
  split; [split; [apply appended_refl |] |]; reflexivity.
Qed.

Lemma still_peek_block (fuel : nat) : stable still (peek_block E P fuel).
Proof.
  pose proof @still_on_peek.
  unfold peek_block, image_at. calm_tac.
Qed.

Lemma calm_only {A : Type} (m : M world A) : stable calm m -> only no_present m.
Proof. apply stable_weaken. intros w w' [Happ _]. exact Happ. Qed.

Lemma calm_renderer_ensure_images_and_renderings (force_recreate : bool) :
  stable calm (renderer_ensure_images_and_renderings E force_recreate).
Proof.
  unfold renderer_ensure_images_and_renderings,
    renderer_wait_queue_idle, renderer_close_renderings_and_fences,
    renderer_create_renderings_and_fences, renderer_build_rendering_target_resources,
    ask_check_ready, ask_has_images.
  calm_tac.
Qed.

Lemma calm_renderer_resize : stable calm (renderer_resize E).
Proof.
  pose proof calm_renderer_ensure_images_and_renderings.
  unfold renderer_resize, renderer_close_renderings_and_fences, ask_check_ready.
  calm_tac.
Qed.

Lemma calm_renderer_wait_for_present (desired : Z) :
  stable calm (renderer_wait_for_present E desired).
Proof.
  pose proof calm_renderer_acquire_swapchain_image.
  unfold renderer_wait_for_present, ask_check_ready, ask_clock.
  calm_tac.
Qed.

(** The events of one draw of the frame [frame_id]: either nothing was
    presented, or one image was, with that frame, after a submission of
    the frame on that image had succeeded. *)
Definition presented_after_submit (frame_id : Z) (rest : list event) : Prop :=
  forallb no_present rest = true
  ∨ ∃ before after index desired slop ret_,
      rest = before
             ++ comp_target_present index frame_id desired slop ret_ :: after
      ∧ forallb no_present before = true
      ∧ forallb no_present after = true
      ∧ vk_cmd_submit_locked index frame_id VK_SUCCESS ∈ before.

(** X4. In one [comp_renderer_draw] the target is asked to present at
    most once; the frame it is given is the frame that was waiting when
    the draw began, on the image that was acquired; and the request comes
    only after the submission of that frame on that image has returned
    [VK_SUCCESS], in the same draw. *)
Theorem comp_renderer_draw_presents_submitted (fuel : nat) (w : world) :
  post (comp_renderer_draw E P fuel) w (fun _ w' =>
    ∃ rest,
      log w' = log w ++ rest ∧ presented_after_submit (id (waited w)) rest).
Proof.
  unfold comp_renderer_draw, mbind, M_bind.
  apply post_bind, post_gets.
  apply post_bind, post_assert. intros _.
  apply post_bind, post_assert. intros _.
  apply post_bind. unfold comp_frame_move_and_clear_locked, mbind, M_bind.
  apply post_bind, post_gets. apply post_bind, post_assert. intros _.
  apply post_bind, post_modify, post_modify.
  set (w1 := set_waited invalid_frame (set_rendering (waited w) w)).
  assert (Hlog1 : log w1 = log w) by reflexivity.
  assert (Hframe1 : rendering w1 = waited w) by reflexivity.
  clearbody w1.
  apply post_bind, post_gets.
  apply (post_bind_stable calm); [unfold ask_clock; calm_tac |]. intros now_ns w2 H2.
  apply (post_bind_stable calm); [calm_tac |]. intros [] w3 H3.
  apply (post_bind_stable calm); [unfold ask_check_ready; calm_tac |].
  intros ready w4 H4.
  assert (Hbegin : calm w1 w4) by (repeat (etransitivity; [eassumption |]); reflexivity).
  clear H2 H3 H4.
  destruct ready; cbn [negb].
  - (* the target is ready *)
    apply (post_bind_stable calm); [calm_tac |]. intros [] w5 H5.
    apply (post_bind_stable calm); [calm_tac |]. intros [] w6 H6.
    apply post_bind, post_gets.
    apply (post_bind_stable calm);
      [destruct (acquired_buffer w6 <? 0);
       [apply calm_renderer_acquire_swapchain_image | calm_tac] |].
    intros [] w7 H7.
    apply (post_bind_stable calm); [calm_tac |]. intros [] w8 H8.
    apply post_bind, post_assert. intros _.
    apply (post_bind_stable calm); [calm_tac |]. intros [] w9 H9.
    assert (Hprefix : calm w1 w9)
      by (repeat (etransitivity; [eassumption |]); reflexivity).
    clear Hbegin H5 H6 H7 H8 H9.
    apply post_bind.
    apply (post_mono _ _ (fun res w' =>
             still w9 w' ∧ (res = VK_SUCCESS -> submitted_since w9 w'))).
    { destruct (use_compute E); unfold mbind, M_bind.
      - apply (post_bind_stable still); [calm_tac |]. intros [] wa Ha.
        eapply post_mono; [apply dispatch_compute_submitted |].
        intros res wb [Hb Hsub]. split; [etransitivity; eassumption |].
        intros Hok. eapply submitted_since_before; [apply still_any, Ha | apply Hsub, Hok].
      - apply (post_bind_stable still); [calm_tac |]. intros [] wa Ha.
        eapply post_mono; [apply dispatch_graphics_submitted |].
        intros res wb [Hb Hsub]. split; [etransitivity; eassumption |].
        intros Hok. eapply submitted_since_before; [apply still_any, Ha | apply Hsub, Hok]. }
    intros res w10 [Hstill10 Hsub10].
    destruct (decide (res = VK_SUCCESS)) as [Hok | Hne].
    + (* submitted: the peek window, then the present *)
      apply (post_bind_stable still); [apply still_peek_block |]. intros [] w11 H11.
      pose proof (submitted_since_after _ _ _ (Hsub10 Hok) H11) as Hsub11.
      assert (Hstill11 : still w9 w11) by (etransitivity; eassumption).
      clear Hsub10 Hstill10 H11.
      apply post_bind, post_gets.
      apply post_bind. unfold renderer_present_swapchain_image, mbind, M_bind.
      apply post_bind, post_gets. apply post_bind, post_assert. intros _.
      apply post_bind, post_query.
      match goal with
      | |- post ?m ?w0 _ =>
        assert (Hinner : only no_present m)
          by (pose proof (calm_only _ calm_renderer_resize); stable_tac)
      end.
      eapply post_mono; [apply Hinner |]. intros [] w12 H12. cbn beta in H12.
      match goal with
      | |- post ?m ?w0 _ =>
        assert (Houter : only no_present m)
          by (pose proof (fun d => calm_only _ (calm_renderer_wait_for_present d));
              unfold comp_frame_clear_locked, renderer_wait_queue_idle, ask_clock;
              stable_tac)
      end.
      eapply post_mono; [apply Houter |]. intros status w13 H13. cbn beta in H13.
      (* putting the pieces together *)
      destruct Hprefix as [(r1 & Hr1 & Hq1) Hframe9].
      destruct Hstill11 as [[(r2 & Hr2 & Hq2) Hframe11] Hacquired11].
      destruct Hsub11 as (r2' & Hr2' & Hin).
      assert (r2' = r2) as -> by (rewrite Hr2 in Hr2'; apply app_inv_head in Hr2'; auto).
      destruct H12 as (r3 & Hr3 & Hq3). destruct H13 as (r4 & Hr4 & Hq4).
      cbn [log add_log] in Hr3.
      exists (r1 ++ r2 ++ [comp_target_present (acquired_buffer w11) (id (rendering w11))
                             (desired_present_time_ns (rendering w11))
                             (present_slop_ns (rendering w11))
                             (present E (count is_present (log w11)))]
              ++ r3 ++ r4).
      split.
      { rewrite Hr4, Hr3, Hr2, Hr1, Hlog1, <- !app_assoc. reflexivity. }
      right. exists (r1 ++ r2), (r3 ++ r4). eexists _, _, _, _.
      split; [rewrite <- !app_assoc; cbn [app]; rewrite Hframe11, Hframe9, Hframe1;
              reflexivity |].
      split; [rewrite forallb_app, Hq1, Hq2; reflexivity |].
      split; [rewrite forallb_app, Hq3, Hq4; reflexivity |].
      apply elem_of_app. right. rewrite <- Hframe1, <- Hframe9, <- Hframe11. exact Hin.
    + (* the submission failed: nothing is presented *)
      apply post_ret.
      destruct Hprefix as [(r1 & Hr1 & Hq1) _].
      destruct Hstill10 as [[(r2 & Hr2 & Hq2) _] _].
      exists (r1 ++ r2). split; [rewrite Hr2, Hr1, Hlog1, <- app_assoc; reflexivity |].
      left. rewrite forallb_app, Hq1, Hq2. reflexivity.
  - (* the target is not ready: the frame is discarded *)
    match goal with
    | |- post ?m ?w0 _ =>
      assert (Hquiet : only no_present m)
        by (unfold ask_clock, comp_frame_clear_locked; stable_tac)
    end.
    eapply post_mono; [apply Hquiet |]. intros status w5 H5. cbn beta in H5.
    destruct Hbegin as [(r1 & Hr1 & Hq1) _]. destruct H5 as (r2 & Hr2 & Hq2).
    exists (r1 ++ r2). split; [rewrite Hr2, Hr1, Hlog1, <- app_assoc; reflexivity |].
    left. rewrite forallb_app, Hq1, Hq2. reflexivity.
Qed.

End Presented.

(** *** A frame is dispatched on an acquired image *)

Section Dispatched.

Variable E : env.
Variable P : Peek.env.

(** Since [w] a frame was rendered into the image with index
    [index >= 0]: the graphics or the compute pipeline ran on it. *)
Definition rendered_since (w w' : world) : Prop :=
  ∃ rest index,
    log w' = log w ++ rest
    ∧ 0 <= index
    ∧ (chl_frame_state_gfx_default_pipeline index ∈ rest
       ∨ chl_frame_state_cs_default_pipeline index ∈ rest).

Lemma rendered_since_before (w0 w1 w2 : world) :
  appended any_event w0 w1 -> rendered_since w1 w2 -> rendered_since w0 w2.
Proof.
  intros (r1 & Hlog1 & _) (r2 & index & Hlog2 & Hindex & Hin).
  exists (r1 ++ r2), index. rewrite Hlog2, Hlog1, <- app_assoc.
  split; [reflexivity |]. split; [exact Hindex |].
  destruct Hin as [Hin | Hin]; [left | right]; apply elem_of_app; right; exact Hin.
Qed.

Lemma rendered_since_after (w0 w1 w2 : world) :
  rendered_since w0 w1 -> appended any_event w1 w2 -> rendered_since w0 w2.
Proof.
  intros (r1 & index & Hlog1 & Hindex & Hin) (r2 & Hlog2 & _).
  exists (r1 ++ r2), index. rewrite Hlog2, Hlog1, <- app_assoc.
  split; [reflexivity |]. split; [exact Hindex |].
  destruct Hin as [Hin | Hin]; [left | right]; apply elem_of_app; left; exact Hin.
Qed.

Lemma only_any_submit_and_check :
  only any_event (ret_ ← renderer_submit_queue E; VK_CHK_AND_RET ret_ (ret ret_)).
Proof.
  pose proof (only_no_present_any _ (still_renderer_submit_queue E)).
  unfold VK_CHK_AND_RET. stable_tac.
Qed.

(** With no buffer acquired the dispatch does not return: it reads
    [rtr_array[-1]], or [images[-1]] on the compute path. *)
Lemma dispatch_without_buffer (w : world) :
  acquired_buffer w < 0 ->
  dispatch_graphics E w = Fault OutOfBounds
  ∧ dispatch_compute E w = Fault OutOfBounds.
Proof.
  intros Hnone.
  assert (Hneg : (0 <=? acquired_buffer w) = false) by (apply Z.leb_gt; exact Hnone).
  split.
  - unfold dispatch_graphics, rtr_at, emit, modify, gets, mbind, M_bind, bind.
    cbn [rtr_array buffer_count add_log acquired_buffer].
    rewrite Hneg, andb_false_r. reflexivity.
  - unfold dispatch_compute, image_at, emit, modify, gets, mbind, M_bind, bind.
    cbn [rtr_array buffer_count add_log acquired_buffer].
    rewrite Hneg. reflexivity.
Qed.

Lemma dispatch_graphics_rendered (w : world) :
  post (dispatch_graphics E) w (fun _ w' => rendered_since w w').
Proof.
  unfold dispatch_graphics, mbind, M_bind.
  apply post_bind, post_gets.
  do 3 (apply post_bind, post_emit).
  apply post_bind. unfold rtr_at, mbind, M_bind. apply post_bind, post_gets.
  destruct (_ && _) eqn:Hin; [| exact I].
  apply andb_prop in Hin as [Hin _]. apply andb_prop in Hin as [_ Hindex].
  apply Z.leb_le in Hindex.
  apply post_ret. apply post_bind, post_emit.
  eapply post_mono; [apply only_any_submit_and_check |].
  intros res w' Happ. cbn beta in Happ.
  eapply rendered_since_after; [| exact Happ].
  eexists _, (acquired_buffer w). split; [cbn [log add_log]; rewrite <- !app_assoc; reflexivity |].
  split; [exact Hindex |]. left. cbn [app].
  do 3 apply list_elem_of_further. apply list_elem_of_here.
Qed.

Lemma dispatch_compute_rendered (w : world) :
  post (dispatch_compute E) w (fun _ w' => rendered_since w w').
Proof.
  unfold dispatch_compute, mbind, M_bind.
  apply post_bind, post_gets.
  apply post_bind, post_emit.
  apply post_bind. unfold image_at, mbind, M_bind. apply post_bind, post_gets.
  destruct (_ && _) eqn:Hin; [| exact I].
  apply andb_prop in Hin as [Hindex _]. apply Z.leb_le in Hindex.
  apply post_ret. do 2 (apply post_bind, post_emit).
  eapply post_mono; [apply only_any_submit_and_check |].
  intros res w' Happ. cbn beta in Happ.
  eapply rendered_since_after; [| exact Happ].
  eexists _, (acquired_buffer w). split; [cbn [log add_log]; rewrite <- !app_assoc; reflexivity |].
  split; [exact Hindex |]. right. cbn [app].
  do 2 apply list_elem_of_further. apply list_elem_of_here.
Qed.

Lemma only_any_renderer_present_swapchain_image (desired slop : Z) :
  only any_event (renderer_present_swapchain_image E desired slop).
Proof.
  pose proof (only_weaken _ _ _ (any_event_all quiet)
                (only_renderer_ensure_images_and_renderings E true)).
  pose proof (only_weaken _ _ _ (any_event_all quiet)
                (only_renderer_close_renderings_and_fences)).
  unfold renderer_present_swapchain_image, renderer_resize, ask_check_ready.
  stable_tac.
Qed.

(** A draw that finds its target ready returns only after the frame was
    dispatched on an acquired image. *)
Lemma comp_renderer_draw_dispatched (fuel : nat) (w : world) :
  check_ready E (count is_check_ready (log w)) = true ->
  post (comp_renderer_draw E P fuel) w (fun _ w' => rendered_since w w').
Proof.
  intros Hready.
  unfold comp_renderer_draw, mbind, M_bind.
  apply post_bind, post_gets.
  apply post_bind, post_assert. intros _.
  apply post_bind, post_assert. intros _.
  apply post_bind. unfold comp_frame_move_and_clear_locked, mbind, M_bind.
  apply post_bind, post_gets. apply post_bind, post_assert. intros _.
  apply post_bind, post_modify, post_modify.
  apply post_bind, post_gets.
  unfold ask_clock. apply post_bind, post_query. apply post_bind, post_emit.
  unfold ask_check_ready. apply post_bind, post_query.
  cbn [log add_log set_waited set_rendering].
  rewrite !count_app. cbn [count is_check_ready]. rewrite !Nat.add_0_r, Hready.
  cbn [negb].
  match goal with
  | |- post _ ?w0 _ => remember w0 as w1 eqn:Hw1
  end.
  assert (Hbegin : appended any_event w w1)
    by (subst w1; eexists; split;
        [cbn [log add_log set_waited set_rendering]; rewrite <- !app_assoc; reflexivity
        | reflexivity]).
  clear Hw1.
  apply (post_bind_stable (appended any_event)); [stable_tac |]. intros [] w2 H2.
  apply (post_bind_stable (appended any_event)); [stable_tac |]. intros [] w3 H3.
  apply post_bind, post_gets.
  apply (post_bind_stable (appended any_event));
    [destruct (acquired_buffer w3 <? 0);
     [apply only_any_renderer_acquire_swapchain_image | stable_tac] |].
  intros [] w4 H4.
  apply (post_bind_stable (appended any_event)); [stable_tac |]. intros [] w5 H5.
  apply post_bind, post_assert. intros _.
  apply (post_bind_stable (appended any_event)); [stable_tac |]. intros [] w6 H6.
  assert (Hprefix : appended any_event w w6)
    by (repeat (etransitivity; [eassumption |]); reflexivity).
  clear Hbegin H2 H3 H4 H5 H6.
  apply post_bind.
  apply (post_mono _ _ (fun _ w' => rendered_since w6 w')).
  { destruct (use_compute E); unfold mbind, M_bind.
    - apply (post_bind_stable (appended any_event)); [stable_tac |]. intros [] wa Ha.
      eapply post_mono; [apply dispatch_compute_rendered |].
      intros res wb Hb. eapply rendered_since_before; eassumption.
    - apply (post_bind_stable (appended any_event)); [stable_tac |]. intros [] wa Ha.
      eapply post_mono; [apply dispatch_graphics_rendered |].
      intros res wb Hb. eapply rendered_since_before; eassumption. }
  intros res w7 Hrendered.
  pose proof (rendered_since_before _ _ _ Hprefix Hrendered) as Hdone.
  clear Hprefix Hrendered.
  match goal with
  | |- post ?m _ _ =>
    assert (Honly : only any_event m)
  end.
  { pose proof (only_no_present_any _ (still_peek_block E P fuel)).
    pose proof only_any_renderer_present_swapchain_image.
    pose proof only_any_renderer_wait_queue_idle.
    pose proof (only_any_renderer_wait_for_present E).
    unfold comp_frame_clear_locked, ask_clock. stable_tac. }
  eapply post_mono; [apply Honly |].
  intros status w8 Happ. eapply rendered_since_after; eassumption.
Qed.

End Dispatched.



Lemma comp_renderer_draw_presents_submitted_witness :
  ∃ w' rest,
    comp_renderer_draw env_steady Peek.env_never_ready 0 start = Ok (XRT_SUCCESS, w')
    ∧ log w' = log start ++ rest
    ∧ presented_after_submit 7 rest
    ∧ count is_present rest = 1%nat.
Proof.
  assert (Hrun : ∃ w', comp_renderer_draw env_steady Peek.env_never_ready 0 start
                       = Ok (XRT_SUCCESS, w')
                       ∧ count is_present (log w') = 1%nat)
    by (eexists; split; [vm_compute; reflexivity | reflexivity]).
  destruct Hrun as (w' & Hrun & Hcount).
  destruct (post_Ok _ _ _ _ _
              (comp_renderer_draw_presents_submitted env_steady Peek.env_never_ready
                 0 start) Hrun) as (rest & Hlog & Hshape).
  exists w', rest. split; [exact Hrun |]. split; [exact Hlog |].
  split; [exact Hshape |].
  rewrite Hlog in Hcount. exact Hcount.
Defined.

(** *** The Vulkan objects of the renderings *)

(** What [renderer_create_renderings_and_fences] creates: the render
    pass, the target resources of image [i] and the fence of image [i]. *)
Inductive object : Type :=
| RenderPass
| Target (i : nat)
| Fence (i : nat).

#[global] Instance object_eq_dec : EqDecision object.
Proof. solve_decision. Defined.

#[global] Instance object_countable : Countable object.
Proof.
  refine (inj_countable'
    (fun o => match o with
              | RenderPass => inl tt
              | Target i => inr (inl i)
              | Fence i => inr (inr i)
              end)
    (fun x => match x with
              | inl _ => RenderPass
              | inr (inl i) => Target i
              | inr (inr i) => Fence i
              end) _).
  intros []; reflexivity.
Defined.

(** An init hands out its object, a [vkCreateFence] does if it
    succeeds, and a fini or destroy takes the object back. *)
Definition object_effect (alive : gset object) (e : event) : gset object :=
  match e with
  | render_gfx_render_pass_init => alive ∪ {[RenderPass]}
  | render_gfx_render_pass_fini => alive ∖ {[RenderPass]}
  | render_gfx_target_resources_init i => alive ∪ {[Target i]}
  | render_gfx_target_resources_fini i => alive ∖ {[Target i]}
  | vkCreateFence i VK_SUCCESS => alive ∪ {[Fence i]}
  | vkDestroyFence i => alive ∖ {[Fence i]}
  | _ => alive
  end.

(** The objects alive after a history of events. *)
Definition alive (l : list event) : gset object := foldl object_effect ∅ l.

Definition targets (n : nat) : gset object := list_to_set (map Target (seq 0 n)).
Definition fence_set (n : nat) : gset object := list_to_set (map Fence (seq 0 n)).

(** The objects that [rtr_array], the render pass and [fences] have
    room for. *)
Definition slots (w : world) : gset object :=
  let n := Z.to_nat (buffer_count w) in
  (if rtr_array w then {[RenderPass]} ∪ targets n else ∅)
  ∪ (if fences w then fence_set n else ∅).

(** Every object alive is one the renderer still refers to, and the
    arrays exist only together with at least one buffer. *)
Definition tidy (w : world) : Prop :=
  alive (log w) ⊆ slots w
  ∧ (rtr_array w || fences w = true -> 0 < buffer_count w).

(** Nothing is alive and there are no arrays. *)
Definition neat (w : world) : Prop :=
  alive (log w) = ∅ ∧ rtr_array w = false ∧ fences w = false.

(** Events that neither create nor destroy an object. *)
Definition object_neutral (e : event) : bool :=
  match e with
  | render_gfx_render_pass_init | render_gfx_render_pass_fini
  | render_gfx_target_resources_init _ | render_gfx_target_resources_fini _
  | vkCreateFence _ _ | vkDestroyFence _ => false
  | _ => true
  end.

Lemma alive_app (l l' : list event) : alive (l ++ l') = foldl object_effect (alive l) l'.
Proof. unfold alive. apply foldl_app. Qed.

Lemma alive_neutral (l : list event) (e : event) :
  object_neutral e = true -> alive (l ++ [e]) = alive l.
Proof. intros He. rewrite alive_app. destruct e; try discriminate He; reflexivity. Qed.

Lemma elem_of_targets (n : nat) (o : object) :
  o ∈ targets n <-> ∃ i, (i < n)%nat ∧ o = Target i.
Proof.
  unfold targets. rewrite elem_of_list_to_set, list_elem_of_fmap. split.
  - intros (i & -> & Hi). exists i. apply elem_of_seq in Hi. split; [lia | reflexivity].
  - intros (i & Hi & ->). exists i. split; [reflexivity |]. apply elem_of_seq. lia.
Qed.

Lemma elem_of_fence_set (n : nat) (o : object) :
  o ∈ fence_set n <-> ∃ i, (i < n)%nat ∧ o = Fence i.
Proof.
  unfold fence_set. rewrite elem_of_list_to_set, list_elem_of_fmap. split.
  - intros (i & -> & Hi). exists i. apply elem_of_seq in Hi. split; [lia | reflexivity].
  - intros (i & Hi & ->). exists i. split; [reflexivity |]. apply elem_of_seq. lia.
Qed.

Lemma targets_S (n : nat) : targets (S n) = targets n ∪ {[Target n]}.
Proof.
  apply set_eq. intros o. rewrite elem_of_union, !elem_of_targets, elem_of_singleton.
  split.
  - intros (i & Hi & ->). destruct (decide (i = n)) as [-> | Hne]; [right; reflexivity |].
    left. exists i. split; [lia | reflexivity].
  - intros [(i & Hi & ->) | ->]; eexists; (split; [| reflexivity]); lia.
Qed.

Lemma fence_set_S (n : nat) : fence_set (S n) = fence_set n ∪ {[Fence n]}.
Proof.
  apply set_eq. intros o. rewrite elem_of_union, !elem_of_fence_set, elem_of_singleton.
  split.
  - intros (i & Hi & ->). destruct (decide (i = n)) as [-> | Hne]; [right; reflexivity |].
    left. exists i. split; [lia | reflexivity].
  - intros [(i & Hi & ->) | ->]; eexists; (split; [| reflexivity]); lia.
Qed.

Lemma init_targets (L : gset object) (n : nat) :
  foldl object_effect L (map render_gfx_target_resources_init (seq 0 n))
  = L ∪ targets n.
Proof.
  induction n as [| n IH]; [cbn; unfold targets; cbn; set_solver |].
  rewrite seq_S, map_app, foldl_app, IH, targets_S. cbn. set_solver.
Qed.

Lemma fini_targets (L : gset object) (n : nat) :
  foldl object_effect L (map render_gfx_target_resources_fini (seq 0 n))
  = L ∖ targets n.
Proof.
  induction n as [| n IH]; [cbn; unfold targets; cbn; set_solver |].
  rewrite seq_S, map_app, foldl_app, IH, targets_S. cbn. set_solver.
Qed.

Lemma destroy_fences (L : gset object) (n : nat) :
  foldl object_effect L (map vkDestroyFence (seq 0 n)) = L ∖ fence_set n.
Proof.
  induction n as [| n IH]; [cbn; unfold fence_set; cbn; set_solver |].
  rewrite seq_S, map_app, foldl_app, IH, fence_set_S. cbn. set_solver.
Qed.

Definition keeps_tidy : relation world := fun w w' => tidy w -> tidy w'.
Definition keeps_neat : relation world := fun w w' => neat w -> neat w'.

#[local] Instance keeps_tidy_preorder : PreOrder keeps_tidy.
Proof. split; [intros w H; exact H | intros w1 w2 w3 H12 H23 H; exact (H23 (H12 H))]. Qed.

#[local] Instance keeps_neat_preorder : PreOrder keeps_neat.
Proof. split; [intros w H; exact H | intros w1 w2 w3 H12 H23 H; exact (H23 (H12 H))]. Qed.

Lemma tidy_fields (w w' : world) :
  alive (log w') = alive (log w) -> rtr_array w' = rtr_array w ->
  fences w' = fences w -> buffer_count w' = buffer_count w ->
  keeps_tidy w w'.
Proof.
  intros Hlog Hrtr Hfences Hcount Htidy. unfold tidy, slots in *.
  rewrite Hlog, Hrtr, Hfences, Hcount. exact Htidy.
Qed.

Lemma tidy_add_log (e : event) (w : world) :
  object_neutral e = true -> keeps_tidy w (add_log e w).
Proof. intros He. apply tidy_fields; [apply alive_neutral, He | | |]; reflexivity. Qed.

Lemma neat_fields (w w' : world) :
  alive (log w') = alive (log w) -> rtr_array w' = rtr_array w ->
  fences w' = fences w ->
  keeps_neat w w'.
Proof.
  intros Hlog Hrtr Hfences Hneat. unfold neat in *.
  rewrite Hlog, Hrtr, Hfences. exact Hneat.
Qed.

Lemma neat_add_log (e : event) (w : world) :
  object_neutral e = true -> keeps_neat w (add_log e w).
Proof. intros He. apply neat_fields; [apply alive_neutral, He | |]; reflexivity. Qed.

(** A single change of the world that creates and destroys nothing. *)
Ltac tidy_side :=
  first [ apply tidy_add_log; reflexivity
        | apply tidy_fields; reflexivity
        | apply neat_add_log; reflexivity
        | apply neat_fields; reflexivity ].

Ltac tidy_tac := repeat (stable_step tidy_side).

Lemma neat_tidy (w : world) : neat w -> tidy w.
Proof.
  intros (Halive & Hrtr & Hfences). split.
  - rewrite Halive. set_solver.
  - rewrite Hrtr, Hfences. discriminate.
Qed.

Lemma tidy_closed (w : world) : tidy w -> neat (closed w).
Proof.
  intros [Hsub Hsized]. unfold neat, closed. cbn [log rtr_array fences].
  split; [| split].
  - rewrite alive_app. unfold close_events, slots in *.
    destruct (rtr_array w) eqn:Hrtr, (fences w) eqn:Hfences;
      cbn [orb] in Hsized;
      rewrite ?(proj2 (Z.ltb_lt 0 (buffer_count w))) by (apply Hsized; reflexivity);
      rewrite ?andb_false_r; cbn [andb];
      rewrite ?app_nil_r, ?foldl_app, ?fini_targets, ?destroy_fences;
      cbn [foldl object_effect app]; set_solver.
  - destruct (rtr_array w) eqn:Hrtr; [| rewrite andb_false_r; reflexivity].
    rewrite (proj2 (Z.ltb_lt 0 (buffer_count w))) by (apply Hsized; reflexivity).
    reflexivity.
  - destruct (fences w) eqn:Hfences; [| rewrite andb_false_r; reflexivity].
    rewrite (proj2 (Z.ltb_lt 0 (buffer_count w)))
      by (apply Hsized; apply orb_true_r).
    reflexivity.
Qed.

Lemma tidy_close : stable keeps_tidy renderer_close_renderings_and_fences.
Proof.
  intros w. unfold post. rewrite renderer_close_renderings_and_fences_run.
  intros Htidy. apply neat_tidy, tidy_closed, Htidy.
Qed.

(** X5.  [renderer_close_renderings_and_fences] gives back everything.
    From a state in which every object alive has its slot in [rtr_array]
    or [fences], and the arrays exist only with a positive
    [buffer_count], it returns with no render pass, target resource or
    fence left alive, both arrays gone, [buffer_count] zero and no buffer
    acquired or fenced; a second call changes nothing and logs nothing. *)
Theorem renderer_close_renderings_and_fences_releases (w : world) :
  tidy w ->
  ∃ w',
    renderer_close_renderings_and_fences w = Ok (tt, w')
    ∧ alive (log w') = ∅
    ∧ rtr_array w' = false ∧ fences w' = false ∧ buffer_count w' = 0
    ∧ acquired_buffer w' = -1 ∧ fenced_buffer w' = -1
    ∧ renderer_close_renderings_and_fences w' = Ok (tt, w').
Proof.
  intros Htidy. exists (closed w).
  rewrite !renderer_close_renderings_and_fences_run.
  destruct (tidy_closed w Htidy) as (Halive & Hrtr & Hfences).
  split; [reflexivity |]. split; [exact Halive |].
  split; [exact Hrtr |]. split; [exact Hfences |].
  do 3 (split; [reflexivity |]).
  f_equal. f_equal.
  assert (Hacquired : acquired_buffer (closed w) = -1) by reflexivity.
  assert (Hfenced : fenced_buffer (closed w) = -1) by reflexivity.
  assert (Hcount : buffer_count (closed w) = 0) by reflexivity.
  destruct (closed w) as [acquired fenced rtr fncs n waited_ rendering_ peek_ log_].
  cbn [acquired_buffer fenced_buffer buffer_count rtr_array fences] in *. subst.
  unfold closed, close_events. cbn. rewrite app_nil_r. reflexivity.
Qed.

Section Tidy.

Variable E : env.
Variable P : Peek.env.

Hypothesis image_count_nonneg : ∀ n, 0 <= image_count E n.

Lemma create_fences (L : gset object) (c i n : nat) :
  foldl object_effect L (fence_events E c i n) ⊆ L ∪ fence_set (i + n).
Proof.
  revert L c i. induction n as [| n IH]; intros L c i; cbn [fence_events].
  - cbn. set_solver.
  - rewrite foldl_app. etransitivity; [apply IH |].
    replace (S i + n)%nat with (i + S n)%nat by lia.
    assert (Hin : Fence i ∈ fence_set (i + S n))
      by (apply elem_of_fence_set; exists i; split; [lia | reflexivity]).
    unfold fence_events_at.
    destruct (create_fence E c); cbn; set_solver.
Qed.

Lemma neat_created (w : world) : neat w -> 0 <= buffer_count w -> tidy (created E w).
Proof.
  intros (Halive & Hrtr & Hfences) Hcount. unfold tidy, created, slots, create_events.
  cbn [log rtr_array fences buffer_count]. rewrite alive_app, Halive, Hrtr, Hfences.
  destruct (Z.eqb_spec (buffer_count w) 0) as [Hzero | Hpos].
  - cbn. split; [set_solver | discriminate].
  - split; [| intros _; lia].
    destruct (use_compute E); cbn [negb foldl object_effect app].
    + etransitivity; [apply create_fences |]. cbn [Nat.add]. set_solver.
    + rewrite foldl_app, init_targets.
      etransitivity; [apply create_fences |]. cbn [Nat.add]. set_solver.
Qed.

Lemma tidy_wait_queue_idle : stable keeps_tidy renderer_wait_queue_idle.
Proof. unfold renderer_wait_queue_idle. tidy_tac. Qed.

#[local] Hint Resolve tidy_close tidy_wait_queue_idle : stable_db.

Lemma tidy_ensure (force_recreate : bool) :
  stable keeps_tidy (renderer_ensure_images_and_renderings E force_recreate).
Proof.
  intros w. unfold renderer_ensure_images_and_renderings, ask_check_ready, mbind, M_bind.
  apply post_bind, post_query.
  destruct (check_ready E _); cbn [negb].
  2: { apply post_ret. apply tidy_add_log. reflexivity. }
  apply post_bind.
  match goal with
  | |- post ?m _ _ =>
    assert (Hcreate : stable keeps_tidy m) by (unfold ask_has_images; tidy_tac)
  end.
  eapply post_mono; [apply Hcreate |]. intros create w1 H1. cbn beta in H1.
  assert (Htidy1 : tidy w -> tidy w1).
  { intros Htidy. apply H1, tidy_add_log; [reflexivity | exact Htidy]. }
  clear H1 Hcreate.
  destruct create; cbn [negb]; [| apply post_ret; exact Htidy1].
  apply post_bind, post_emit. unfold renderer_wait_queue_idle.
  apply post_bind, post_emit. apply post_bind. unfold post at 1.
  rewrite renderer_close_renderings_and_fences_run.
  apply post_bind, post_gets. apply post_bind, post_emit.
  apply post_bind, post_query.
  match goal with
  | |- post _ ?w2 _ =>
    assert (Hneat : tidy w -> neat w2);
      [| remember w2 as w3 eqn:Hw3; clear Hw3]
  end.
  { intros Htidy.
    apply neat_add_log; [reflexivity |]. apply neat_add_log; [reflexivity |].
    apply tidy_closed.
    apply tidy_add_log; [reflexivity |]. apply tidy_add_log; [reflexivity |].
    apply Htidy1, Htidy. }
  destruct (distortion_images_ensure E _); cbn [negb].
  2: { apply post_ret. intros Htidy. apply neat_tidy, Hneat, Htidy. }
  apply post_bind, post_gets. apply post_bind, post_modify.
  apply post_bind. unfold post at 1.
  destruct (renderer_create_renderings_and_fences E _) as [[u w4] |] eqn:Hrun;
    [| exact I].
  apply post_bind, post_gets. apply post_bind, post_assert. intros _.
  apply post_ret. intros Htidy.
  destruct (Hneat Htidy) as (Halive & Hrtr & Hfences).
  rewrite renderer_create_renderings_and_fences_run in Hrun by exact Hfences.
  injection Hrun as <- <-.
  apply neat_created; [| apply image_count_nonneg].
  split; [exact Halive |]. split; [exact Hrtr | exact Hfences].
Qed.

#[local] Hint Resolve tidy_ensure : stable_db.

Lemma tidy_acquire : stable keeps_tidy (renderer_acquire_swapchain_image E).
Proof. unfold renderer_acquire_swapchain_image, ask_acquire. tidy_tac. Qed.

#[local] Hint Resolve tidy_acquire : stable_db.

Lemma tidy_present (desired slop : Z) :
  stable keeps_tidy (renderer_present_swapchain_image E desired slop).
Proof.
  unfold renderer_present_swapchain_image, renderer_resize, ask_check_ready.
  tidy_tac.
Qed.

Lemma tidy_wait_for_present (desired : Z) :
  stable keeps_tidy (renderer_wait_for_present E desired).
Proof. unfold renderer_wait_for_present, ask_check_ready, ask_clock. tidy_tac. Qed.

Lemma tidy_submit_queue : stable keeps_tidy (renderer_submit_queue E).
Proof.
  unfold renderer_submit_queue, renderer_wait_for_last_fence, fence_at,
    VK_CHK_AND_RET, ask_clock.
  tidy_tac.
Qed.

#[local] Hint Resolve tidy_present tidy_wait_for_present tidy_submit_queue
  : stable_db.

Lemma tidy_dispatch_graphics : stable keeps_tidy (dispatch_graphics E).
Proof. unfold dispatch_graphics, rtr_at, VK_CHK_AND_RET. tidy_tac. Qed.

Lemma tidy_dispatch_compute : stable keeps_tidy (dispatch_compute E).
Proof. unfold dispatch_compute, image_at, VK_CHK_AND_RET. tidy_tac. Qed.

Lemma tidy_on_peek {A : Type} (p : Peek.comp_window_peek)
    (m : M Peek.comp_window_peek A) :
  stable keeps_tidy (on_peek p m).
Proof.
  intros w. unfold post, on_peek.
  destruct (m p) as [[a p'] |]; [| exact I].
  apply tidy_fields; reflexivity.
Qed.

#[local] Hint Resolve tidy_dispatch_graphics tidy_dispatch_compute
  tidy_on_peek : stable_db.

Lemma tidy_draw (fuel : nat) : stable keeps_tidy (comp_renderer_draw E P fuel).
Proof.
  unfold comp_renderer_draw, comp_frame_move_and_clear_locked,
    comp_frame_clear_locked, peek_block, image_at, ask_clock, ask_check_ready.
  tidy_tac.
Qed.

(** X6.  [comp_renderer_draw] leaks no Vulkan object.  On a target
    that never reports a negative image count: if every render pass,
    target resource and fence created so far and not destroyed is one
    that [rtr_array] and [fences] have a slot for, and the arrays exist
    only with a positive [buffer_count], then the same holds whenever a
    draw returns, whatever the target answers and also when the images
    are re-created on the way. *)
Theorem comp_renderer_draw_keeps_objects (fuel : nat) (w : world) :
  tidy w ->
  post (comp_renderer_draw E P fuel) w (fun _ w' => tidy w').
Proof.
  intros Htidy. eapply post_mono; [apply tidy_draw |].
  intros status w' Hkeep. exact (Hkeep Htidy).
Qed.

End Tidy.

Lemma tidy_start : tidy start.
Proof. split; [unfold alive; cbn; set_solver | discriminate]. Qed.

Lemma steady_image_count (n : nat) : 0 <= image_count env_steady n.
Proof. cbn. unfold always. lia. Qed.

Lemma comp_renderer_draw_keeps_objects_witness :
  tidy start
  ∧ ∃ w',
      comp_renderer_draw env_steady Peek.env_never_ready 0 start = Ok (XRT_SUCCESS, w')
      ∧ tidy w'
      ∧ size (alive (log w')) = 7%nat.
Proof.
  split; [exact tidy_start |].
  assert (Hrun : ∃ w', comp_renderer_draw env_steady Peek.env_never_ready 0 start
                       = Ok (XRT_SUCCESS, w')
                       ∧ size (alive (log w')) = 7%nat)
    by (eexists; split; [vm_compute; reflexivity | vm_compute; reflexivity]).
  destruct Hrun as (w' & Hrun & Hsize).
  exists w'. split; [exact Hrun |]. split; [| exact Hsize].
  exact (post_Ok _ _ _ _ _
           (comp_renderer_draw_keeps_objects env_steady Peek.env_never_ready
              steady_image_count 0 start tidy_start) Hrun).
Defined.

Lemma renderer_close_renderings_and_fences_releases_witness :
  ∃ w1 w2,
    comp_renderer_draw env_steady Peek.env_never_ready 0 start = Ok (XRT_SUCCESS, w1)
    ∧ size (alive (log w1)) = 7%nat
    ∧ renderer_close_renderings_and_fences w1 = Ok (tt, w2)
    ∧ alive (log w2) = ∅
    ∧ buffer_count w2 = 0.
Proof.
  assert (Hrun : ∃ w1, comp_renderer_draw env_steady Peek.env_never_ready 0 start
                       = Ok (XRT_SUCCESS, w1)
                       ∧ size (alive (log w1)) = 7%nat)
    by (eexists; split; [vm_compute; reflexivity | vm_compute; reflexivity]).
  destruct Hrun as (w1 & Hrun & Hsize).
  pose proof (post_Ok _ _ _ _ _
                (tidy_draw env_steady Peek.env_never_ready steady_image_count 0 start)
                Hrun tidy_start) as Htidy.
  destruct (renderer_close_renderings_and_fences_releases w1 Htidy)
    as (w2 & Hclose & Halive & _ & _ & Hcount & _).
  exists w1, w2. repeat (split; [assumption |]). exact Hcount.
Defined.

End Renderer.

(** ** The peek window: creation, the SDL thread and destruction
       (comp_window_peek.c) *)

Module PeekWindow.

Inductive error : Type :=
| invalid_option (option_ : string)
| must_be_one_of
| vk_cmd_pool_init_failed (ret : VkResult)
| vk_cmd_pool_create_cmd_buffer_failed (ret : VkResult)
| failed_to_init_SDL2
| failed_to_create_SDL_window
| failed_to_create_SDL_surface
| out_required_list_is_null
| failed_to_create_temp_SDL_window
| failed_to_get_instance_extensions.

(** Calls and log lines of creation and destruction, with what the calls
    returned. *)
Inductive event : Type :=
| COMP_WARN
| COMP_ERROR (e : error)
| COMP_DEBUG (option_ : string)
| calloc
| vk_cmd_pool_init (ret : VkResult)
| vk_cmd_pool_create_cmd_buffer (ret : VkResult)
| SDL_WasInit (flags : Z)
| SDL_Init (ret : Z)
| SDL_CreateWindow (width height : Z) (created : bool)
| comp_target_swapchain_init_and_set_fnptrs
| SDL_Vulkan_CreateSurface (created : bool)
| create_images (width height : Z)
| os_thread_helper_init
| os_thread_helper_start
| os_thread_helper_destroy
| vkDeviceWaitIdle
| vkFreeCommandBuffers
| vk_cmd_pool_destroy
| comp_target_swapchain_cleanup
| SDL_DestroyWindow
| free
| U_LOG_E (e : error)
| U_LOG_T (name : string) (added : bool)
| SDL_Vulkan_GetInstanceExtensions (ok : bool)
| free_names.

Definition emit (e : event) : M (list event) unit := modify (fun l => l ++ [e]).

Definition wrap32 (z : Z) : Z := z mod 2 ^ 32.

(** *** The SDL thread *)

Inductive SDL_Keycode : Type :=
| SDLK_ESCAPE
| SDLK_other (sym : Z).

Inductive SDL_WindowEventID : Type :=
| SDL_WINDOWEVENT_HIDDEN
| SDL_WINDOWEVENT_SHOWN
| SDL_WINDOWEVENT_SIZE_CHANGED
| SDL_WINDOWEVENT_DISPLAY_CHANGED
| SDL_WINDOWEVENT_MOVED
| SDL_WINDOWEVENT_other.

Inductive SDL_Event : Type :=
| SDL_QUIT
| SDL_WINDOWEVENT (event : SDL_WindowEventID) (data1 data2 : Z)
| SDL_KEYDOWN (sym : SDL_Keycode)
| SDL_other.

Definition set_running (v : bool) (w : Peek.comp_window_peek) : Peek.comp_window_peek :=
  Peek.mk_peek (Peek.eye w) (Peek.width w) (Peek.height w) v (Peek.hidden w)
    (Peek.target_width w) (Peek.target_height w) (Peek.image_count w) (Peek.log w).
Definition set_hidden (v : bool) (w : Peek.comp_window_peek) : Peek.comp_window_peek :=
  Peek.mk_peek (Peek.eye w) (Peek.width w) (Peek.height w) (Peek.running w) v
    (Peek.target_width w) (Peek.target_height w) (Peek.image_count w) (Peek.log w).
Definition set_size (width height : Z) (w : Peek.comp_window_peek)
  : Peek.comp_window_peek :=
  Peek.mk_peek (Peek.eye w) (wrap32 width) (wrap32 height) (Peek.running w)
    (Peek.hidden w) (Peek.target_width w) (Peek.target_height w)
    (Peek.image_count w) (Peek.log w).

Section Thread.

(** What the [n]-th [SDL_GetWindowSize] reports. *)
Variable SDL_GetWindowSize : nat -> Z * Z.

(** The body of the inner loop: the window and the number of
    [SDL_GetWindowSize] calls so far. *)
Definition handle_event (s : Peek.comp_window_peek * nat) (event : SDL_Event)
  : Peek.comp_window_peek * nat :=
  let s :=
    match event with
    | SDL_QUIT => (set_running false s.1, s.2)
    | SDL_WINDOWEVENT SDL_WINDOWEVENT_HIDDEN _ _ => (set_hidden true s.1, s.2)
    | SDL_WINDOWEVENT SDL_WINDOWEVENT_SHOWN _ _ => (set_hidden false s.1, s.2)
    | SDL_WINDOWEVENT SDL_WINDOWEVENT_SIZE_CHANGED data1 data2 =>
      (set_size data1 data2 s.1, s.2)
    | SDL_WINDOWEVENT SDL_WINDOWEVENT_DISPLAY_CHANGED _ _
    | SDL_WINDOWEVENT SDL_WINDOWEVENT_MOVED _ _ =>
      (set_size (SDL_GetWindowSize s.2).1 (SDL_GetWindowSize s.2).2 s.1, S s.2)
    | SDL_WINDOWEVENT SDL_WINDOWEVENT_other _ _ => s
    | SDL_KEYDOWN SDLK_ESCAPE => (set_running false s.1, s.2)
    | SDL_KEYDOWN (SDLK_other _) => s
    | SDL_other => s
    end in
  match event with
  | SDL_QUIT => (set_running false s.1, s.2)
  | _ => s
  end.

(** [while (SDL_PollEvent(&event))] on the events queued at that time. *)
Definition poll_events (queue : list SDL_Event) (s : Peek.comp_window_peek * nat)
  : Peek.comp_window_peek * nat :=
  foldl handle_event s queue.

(** The other thread's [w->running = false], of
    [comp_window_peek_destroy]. *)
Definition stop_requested (s : Peek.comp_window_peek * nat)
  : Peek.comp_window_peek * nat :=
  (set_running false s.1, s.2).

(** [while (w->running)]. [w->running] is shared with the thread that
    calls [comp_window_peek_destroy], which clears it to end the loop. A
    round is one pass of the loop, from its test of [w->running] on:
    whether that write has arrived by the test, and the events the SDL
    queue holds when the test lets the thread in. The thread is still in
    the loop when the rounds are used up. *)
Fixpoint run_loop (rounds : list (bool * list SDL_Event))
  : M (Peek.comp_window_peek * nat)%type unit :=
  fun s =>
    match rounds with
    | [] => if Peek.running s.1 then Fault OutOfFuel else Ok (tt, s)
    | (cleared, queue) :: rounds =>
      let s := if (cleared : bool) then stop_requested s else s in
      if Peek.running s.1 then run_loop rounds (poll_events queue s)
      else Ok (tt, s)
    end.

(** The window when the loop is entered. *)
Definition started (s : Peek.comp_window_peek * nat) : Peek.comp_window_peek * nat :=
  (set_hidden false (set_running true s.1), s.2).

Definition window_peek_run_thread (rounds : list (bool * list SDL_Event))
  : M (Peek.comp_window_peek * nat)%type unit :=
  modify started;;
  run_loop rounds.

End Thread.

(** How far the SDL thread has come when [comp_window_peek_create]
    returns. [os_thread_helper_start] comes before the [return]: by then
    the thread may not have run, or it may have set [running] and
    [hidden] and handled the first events of the SDL queue. *)
Inductive progress : Type :=
| not_started
| polling (handled : list SDL_Event).

(** What [comp_window_peek_create] finds around it: the two environment
    variables, the sizes of the device's screen and views, what Vulkan
    and SDL answer, and how far the thread it starts has come when it
    returns, with what [SDL_GetWindowSize] has told that thread. *)
Record system : Type := mk_system {
  XRT_COMPOSITOR_COMPUTE : option string;
  XRT_WINDOW_PEEK : option string;
  screen : (Z * Z)%type;
  view0 : (Z * Z)%type;
  view1 : (Z * Z)%type;
  pool_init : VkResult;
  create_cmd_buffer : VkResult;
  was_init : Z;
  sdl_init : Z;
  window_created : bool;
  surface_created : bool;
  thread : progress;
  window_size : nat -> Z * Z;
}.

Section Create.

Variable P : Peek.env.
Variable sys : system.

(** The labels [err_window], [err_pool] and [err_free]: each falls
    through to the next. *)
Definition err_free : M (list event) (option Peek.comp_window_peek) :=
  emit free;; ret None.
Definition err_pool : M (list event) (option Peek.comp_window_peek) :=
  emit vk_cmd_pool_destroy;; err_free.
Definition err_window : M (list event) (option Peek.comp_window_peek) :=
  emit SDL_DestroyWindow;; err_pool.

(** The chain of [strcmp] on the option. *)
Definition choose_eye (option_ : string)
  : option (Peek.comp_window_peek_eye * (Z * Z))%type :=
  if bool_decide (option_ = "both"%string) || bool_decide (option_ = "BOTH"%string)
     || bool_decide (option_ = EmptyString)
  then Some (Peek.COMP_WINDOW_PEEK_EYE_BOTH, screen sys)
  else if bool_decide (option_ = "left"%string) || bool_decide (option_ = "LEFT"%string)
  then Some (Peek.COMP_WINDOW_PEEK_EYE_LEFT, view0 sys)
  else if bool_decide (option_ = "right"%string) || bool_decide (option_ = "RIGHT"%string)
  then Some (Peek.COMP_WINDOW_PEEK_EYE_RIGHT, view1 sys)
  else None.

(** The struct as [comp_window_peek_create] has filled it in when it
    starts the thread: [running] and [hidden] are as [calloc] left them,
    the swapchain is what [create_images] made. *)
Definition filled_window (eye : Peek.comp_window_peek_eye) (width height : Z)
  : Peek.comp_window_peek :=
  Peek.set_target (Peek.create_images_result P 0)
    (Peek.mk_peek eye (wrap32 width) (wrap32 height) false false 0 0 0
       [Peek.create_images (wrap32 width) (wrap32 height)]).

(** The struct behind the pointer that is returned: what was filled in,
    with what the thread has written since its start. *)
Definition new_window (eye : Peek.comp_window_peek_eye) (width height : Z)
  : Peek.comp_window_peek :=
  match thread sys with
  | not_started => filled_window eye width height
  | polling handled =>
    (poll_events (window_size sys) handled
       (started (filled_window eye width height, 0%nat))).1
  end.

Definition comp_window_peek_create : M (list event) (option Peek.comp_window_peek) :=
  match XRT_COMPOSITOR_COMPUTE sys with
  | Some _ => emit COMP_WARN;; ret None
  | None =>
    match XRT_WINDOW_PEEK sys with
    | None => ret None
    | Some option_ =>
      match choose_eye option_ with
      | None =>
        emit (COMP_ERROR (invalid_option option_));;
        emit (COMP_ERROR must_be_one_of);;
        ret None
      | Some (eye, (w_pixels, h_pixels)) =>
        (* [int32_t width, height] *)
        let width := to_int32 w_pixels in
        let height := to_int32 h_pixels in
        emit (COMP_DEBUG option_);;
        emit calloc;;
        (* Vulkan *)
        emit (vk_cmd_pool_init (pool_init sys));;
        if negb (bool_decide (pool_init sys = VK_SUCCESS)) then
          emit (COMP_ERROR (vk_cmd_pool_init_failed (pool_init sys)));;
          err_free
        else
          emit (vk_cmd_pool_create_cmd_buffer (create_cmd_buffer sys));;
          if negb (bool_decide (create_cmd_buffer sys = VK_SUCCESS)) then
            emit (COMP_ERROR
                    (vk_cmd_pool_create_cmd_buffer_failed (create_cmd_buffer sys)));;
            err_pool
          else
            (* SDL: only initialize SDL if it hasn't been initialized yet *)
            emit (SDL_WasInit (was_init sys));;
            sdl ← (if was_init sys =? 0 then
                     emit (SDL_Init (sdl_init sys));;
                     ret (negb (sdl_init sys <? 0))
                   else ret true);
            if negb (sdl : bool) then
              emit (COMP_ERROR failed_to_init_SDL2);;
              err_pool
            else
              emit (SDL_CreateWindow width height (window_created sys));;
              if negb (window_created sys) then
                emit (COMP_ERROR failed_to_create_SDL_window);;
                err_pool
              else
                emit comp_target_swapchain_init_and_set_fnptrs;;
                emit (SDL_Vulkan_CreateSurface (surface_created sys));;
                if negb (surface_created sys) then
                  emit (COMP_ERROR failed_to_create_SDL_surface);;
                  err_window
                else
                  (* Images *)
                  emit (create_images (wrap32 width) (wrap32 height));;
                  (* Thread *)
                  emit os_thread_helper_init;;
                  emit os_thread_helper_start;;
                  ret (Some (new_window eye width height))
      end
    end
  end.

End Create.

(** [comp_window_peek_destroy(w_ptr)]: the state holds the pointer
    [*w_ptr] and the log. *)
Definition comp_window_peek_destroy
  : M (option Peek.comp_window_peek * list event)%type unit :=
  w ← gets (fun s : (option Peek.comp_window_peek * list event)%type => s.1);
  match w with
  | None => ret tt
  | Some _ =>
    (* Finish the SDL window loop *)
    modify (fun s : (option Peek.comp_window_peek * list event)%type =>
      (set_running false <$> s.1, s.2));;
    modify (fun s : (option Peek.comp_window_peek * list event)%type =>
      (s.1,
       s.2 ++ [os_thread_helper_destroy; vkDeviceWaitIdle; vkFreeCommandBuffers;
               vk_cmd_pool_destroy; comp_target_swapchain_cleanup;
               SDL_DestroyWindow; free]));;
    modify (fun s : (option Peek.comp_window_peek * list event)%type => (None, s.2))
  end.

(** *** The instance extensions SDL needs *)

(** What SDL answers to [comp_window_peek_get_vk_instance_exts]; [names]
    are the extensions it reports, [size] their number. *)
Record sdl : Type := mk_sdl {
  video_was_init : Z;
  video_init : Z;
  tmp_window_created : bool;
  count_ok : bool;
  names_ok : bool;
  names : list string;
}.

(** The contract of [u_string_list_append_unique] (u_string_list.h): the
    string is appended unless the list has it, and the result is 0 when
    it had. *)
Definition u_string_list_append_unique (l : list string) (s : string)
  : list string * Z :=
  if bool_decide (s ∈ l) then (l, 0) else (l ++ [s], 1).

(** The state is the list behind [out_required_list], [None] for a
    [NULL] pointer, and the log. *)
Definition log_ext (e : event) : M (option (list string) * list event)%type unit :=
  modify (fun s : (option (list string) * list event)%type => (s.1, s.2 ++ [e])).

Definition append_ext (name : string)
  : M (option (list string) * list event)%type unit :=
  s ← gets (fun s : (option (list string) * list event)%type => s);
  match s.1 with
  | None => stop OutOfBounds
  | Some l =>
    let r := u_string_list_append_unique l name in
    modify (fun s : (option (list string) * list event)%type => (Some r.1, s.2));;
    log_ext (U_LOG_T name (negb (r.2 =? 0)))
  end.

Fixpoint append_exts (names : list string)
  : M (option (list string) * list event)%type unit :=
  match names with
  | [] => ret tt
  | name :: names => append_ext name;; append_exts names
  end.

Definition comp_window_peek_get_vk_instance_exts (S : sdl)
  : M (option (list string) * list event)%type bool :=
  s ← gets (fun s : (option (list string) * list event)%type => s);
  match s.1 with
  | None => log_ext (U_LOG_E out_required_list_is_null);; ret false
  | Some _ =>
    (* Only initialize SDL if it hasn't been initialized yet *)
    log_ext (SDL_WasInit (video_was_init S));;
    inited ← (if video_was_init S =? 0 then
                log_ext (SDL_Init (video_init S));;
                ret (negb (video_init S <? 0))
              else ret true);
    if negb (inited : bool) then
      log_ext (U_LOG_E failed_to_init_SDL2);; ret false
    else
      log_ext (SDL_CreateWindow 2 2 (tmp_window_created S));;
      if negb (tmp_window_created S) then
        log_ext (U_LOG_E failed_to_create_temp_SDL_window);; ret false
      else
        let err_free := log_ext free_names;; log_ext SDL_DestroyWindow;; ret true in
        log_ext (SDL_Vulkan_GetInstanceExtensions (count_ok S));;
        if negb (count_ok S) then
          log_ext (U_LOG_E failed_to_get_instance_extensions);; err_free
        else
          filled ← (if 0 <? Z.of_nat (length (names S)) then
                      log_ext (SDL_Vulkan_GetInstanceExtensions (names_ok S));;
                      ret (names_ok S)
                    else ret true);
          if negb (filled : bool) then
            log_ext (U_LOG_E failed_to_get_instance_extensions);; err_free
          else
            append_exts (names S);;
            err_free
  end.

(** *** What is held *)

(** What a peek window holds: its struct, the command pool with its
    command buffer, the SDL window, the surface of the swapchain target
    and the thread. *)
Inductive resource : Type :=
| Struct
| CommandPool
| CommandBuffer
| Window
| Surface
| Thread.

#[global] Instance resource_eq_dec : EqDecision resource.
Proof. solve_decision. Defined.

(** The effect of a call on what is held; [None] when it lets go of
    something that is not held. Destroying the pool frees its command
    buffers; cleaning up the swapchain target destroys the surface. *)
Definition release (r : resource) (held : list resource) : option (list resource) :=
  if bool_decide (r ∈ held) then Some (filter (fun x => x ≠ r) held) else None.

Definition effect (held : list resource) (e : event) : option (list resource) :=
  match e with
  | calloc => Some (Struct :: held)
  | vk_cmd_pool_init VK_SUCCESS => Some (CommandPool :: held)
  | vk_cmd_pool_create_cmd_buffer VK_SUCCESS => Some (CommandBuffer :: held)
  | SDL_CreateWindow _ _ true => Some (Window :: held)
  | SDL_Vulkan_CreateSurface true => Some (Surface :: held)
  | os_thread_helper_start => Some (Thread :: held)
  | os_thread_helper_destroy => release Thread held
  | vkFreeCommandBuffers => release CommandBuffer held
  | vk_cmd_pool_destroy =>
    held ← release CommandPool held;
    Some (filter (fun x => x ≠ CommandBuffer) held)
  | comp_target_swapchain_cleanup => release Surface held
  | SDL_DestroyWindow => release Window held
  | free => release Struct held
  | _ => Some held
  end.

Fixpoint held_after (held : list resource) (l : list event) : option (list resource) :=
  match l with
  | [] => Some held
  | e :: l => held ← effect held e; held_after held l
  end.

Lemma held_after_app (held : list resource) (l l' : list event) :
  held_after held (l ++ l') = held ← held_after held l; held_after held l'.
Proof.
  revert held. induction l as [| e l IH]; intros held; [reflexivity |].
  cbn. destruct (effect held e) as [held' |]; [apply IH | reflexivity].
Qed.

(** Everything a window that was returned holds. *)
Definition all_held : list resource :=
  [Thread; Surface; Window; CommandBuffer; CommandPool; Struct].

(** The seven spellings [comp_window_peek_create] accepts. *)
Definition spellings (eye : Peek.comp_window_peek_eye) : list string :=
  match eye with
  | Peek.COMP_WINDOW_PEEK_EYE_BOTH => ["both"; "BOTH"; EmptyString]
  | Peek.COMP_WINDOW_PEEK_EYE_LEFT => ["left"; "LEFT"]
  | Peek.COMP_WINDOW_PEEK_EYE_RIGHT => ["right"; "RIGHT"]
  end%string.

(** The pixels the window of an eye shows. *)
Definition source_size (sys : system) (eye : Peek.comp_window_peek_eye) : Z * Z :=
  match eye with
  | Peek.COMP_WINDOW_PEEK_EYE_BOTH => screen sys
  | Peek.COMP_WINDOW_PEEK_EYE_LEFT => view0 sys
  | Peek.COMP_WINDOW_PEEK_EYE_RIGHT => view1 sys
  end.

Lemma choose_eye_Some (sys : system) (option_ : string)
    (eye : Peek.comp_window_peek_eye) (size : Z * Z) :
  choose_eye sys option_ = Some (eye, size) ->
  option_ ∈ spellings eye ∧ size = source_size sys eye.
Proof.
  unfold choose_eye. intros H.
  repeat case_bool_decide; cbn in H; try discriminate H;
    injection H as <- <-; subst option_; (split; [set_solver | reflexivity]).
Qed.

Lemma choose_eye_None (sys : system) (option_ : string) :
  choose_eye sys option_ = None ->
  ∀ eye, option_ ∉ spellings eye.
Proof.
  unfold choose_eye. intros H eye.
  repeat case_bool_decide; cbn in H; try discriminate H.
  destruct eye; cbn; set_solver.
Qed.

Ltac decide_results :=
  repeat first
    [ rewrite bool_decide_eq_true_2 by reflexivity
    | rewrite bool_decide_eq_false_2 by discriminate ].

Ltac run_events :=
  decide_results;
  unfold mbind, M_bind, bind, emit, modify, ret; cbn;
  rewrite <- ?app_assoc; try reflexivity.

Ltac create_leaf :=
  eexists _, _; split; [run_events |]; split; [reflexivity |];
  let p := fresh "p" in
  let Hp := fresh "Hp" in
  intros p Hp; first [discriminate Hp | injection Hp as <-].

(** What is held once a call has returned [w], or [NULL]. *)
Definition held_by (result : option Peek.comp_window_peek) : list resource :=
  match result with
  | Some _ => all_held
  | None => []
  end.

(** *** What the thread writes *)

(** Closing the window and the Escape key. *)
Definition quits (event : SDL_Event) : bool :=
  match event with
  | SDL_QUIT | SDL_KEYDOWN SDLK_ESCAPE => true
  | _ => false
  end.

(** The events that write [width] and [height]. *)
Definition resizes (event : SDL_Event) : bool :=
  match event with
  | SDL_WINDOWEVENT SDL_WINDOWEVENT_SIZE_CHANGED _ _
  | SDL_WINDOWEVENT SDL_WINDOWEVENT_DISPLAY_CHANGED _ _
  | SDL_WINDOWEVENT SDL_WINDOWEVENT_MOVED _ _ => true
  | _ => false
  end.

Section ThreadWrites.

Variable SDL_GetWindowSize : nat -> Z * Z.

Lemma running_handle_event (s : Peek.comp_window_peek * nat) (event : SDL_Event) :
  Peek.running (handle_event SDL_GetWindowSize s event).1
  = Peek.running s.1 && negb (quits event).
Proof.
  destruct event as [| [] data1 data2 | [] |]; cbn;
    rewrite ?andb_true_r, ?andb_false_r; reflexivity.
Qed.

Lemma running_poll_events (queue : list SDL_Event) (s : Peek.comp_window_peek * nat) :
  Peek.running (poll_events SDL_GetWindowSize queue s).1
  = Peek.running s.1 && forallb (fun event => negb (quits event)) queue.
Proof.
  revert s. induction queue as [| event queue IH]; intros s; cbn.
  - rewrite andb_true_r. reflexivity.
  - unfold poll_events in IH. rewrite IH, running_handle_event, andb_assoc.
    reflexivity.
Qed.

Lemma forallb_no_quit (queue : list SDL_Event) :
  forallb (fun event => negb (quits event)) queue = true
  <-> Forall (fun event => quits event = false) queue.
Proof.
  rewrite forallb_forall, Forall_forall. split; intros H e He.
  - apply list_elem_of_In, H in He. destruct (quits e); [discriminate | reflexivity].
  - apply list_elem_of_In, H in He. rewrite He. reflexivity.
Qed.

(** The thread writes neither the eye nor the swapchain of the window,
    nor its log. *)
Lemma fixed_handle_event (s : Peek.comp_window_peek * nat) (event : SDL_Event) :
  let w := (handle_event SDL_GetWindowSize s event).1 in
  Peek.eye w = Peek.eye s.1
  ∧ Peek.target_width w = Peek.target_width s.1
  ∧ Peek.target_height w = Peek.target_height s.1
  ∧ Peek.image_count w = Peek.image_count s.1
  ∧ Peek.log w = Peek.log s.1.
Proof. destruct event as [| [] data1 data2 | [] |]; cbn; repeat split. Qed.

Lemma fixed_poll_events (queue : list SDL_Event) (s : Peek.comp_window_peek * nat) :
  let w := (poll_events SDL_GetWindowSize queue s).1 in
  Peek.eye w = Peek.eye s.1
  ∧ Peek.target_width w = Peek.target_width s.1
  ∧ Peek.target_height w = Peek.target_height s.1
  ∧ Peek.image_count w = Peek.image_count s.1
  ∧ Peek.log w = Peek.log s.1.
Proof.
  revert s. induction queue as [| event queue IH]; intros s; cbn.
  - repeat split.
  - unfold poll_events in IH.
    destruct (IH (handle_event SDL_GetWindowSize s event)) as (H1 & H2 & H3 & H4 & H5).
    destruct (fixed_handle_event s event) as (G1 & G2 & G3 & G4 & G5).
    cbn zeta in *. repeat split; congruence.
Qed.

(** Only a resize or a move writes [width] and [height]. *)
Lemma size_handle_event (s : Peek.comp_window_peek * nat) (event : SDL_Event) :
  resizes event = false ->
  Peek.width (handle_event SDL_GetWindowSize s event).1 = Peek.width s.1
  ∧ Peek.height (handle_event SDL_GetWindowSize s event).1 = Peek.height s.1.
Proof.
  destruct event as [| [] data1 data2 | [] |]; cbn; intros H;
    try discriminate H; split; reflexivity.
Qed.

Lemma size_poll_events (queue : list SDL_Event) (s : Peek.comp_window_peek * nat) :
  forallb (fun event => negb (resizes event)) queue = true ->
  Peek.width (poll_events SDL_GetWindowSize queue s).1 = Peek.width s.1
  ∧ Peek.height (poll_events SDL_GetWindowSize queue s).1 = Peek.height s.1.
Proof.
  revert s. induction queue as [| event queue IH]; intros s Hqueue; cbn.
  - split; reflexivity.
  - cbn in Hqueue. apply andb_prop in Hqueue as [Hevent Hqueue].
    apply negb_true_iff in Hevent.
    unfold poll_events in IH.
    destruct (IH (handle_event SDL_GetWindowSize s event) Hqueue) as [Hw Hh].
    destruct (size_handle_event s event Hevent) as [Hw' Hh'].
    split; congruence.
Qed.

(** Only [SDL_WINDOWEVENT_HIDDEN] sets [hidden]. *)
Lemma hidden_poll_events (queue : list SDL_Event) (s : Peek.comp_window_peek * nat) :
  Peek.hidden s.1 = false ->
  (∀ data1 data2, SDL_WINDOWEVENT SDL_WINDOWEVENT_HIDDEN data1 data2 ∉ queue) ->
  Peek.hidden (poll_events SDL_GetWindowSize queue s).1 = false.
Proof.
  revert s. induction queue as [| event queue IH]; intros s Hshown Hqueue; cbn.
  - exact Hshown.
  - unfold poll_events in IH. apply IH.
    + destruct event as [| [] data1 data2 | [] |]; cbn; try exact Hshown;
        try reflexivity.
      exfalso. apply (Hqueue data1 data2). apply list_elem_of_here.
    + intros data1 data2 Hin. apply (Hqueue data1 data2).
      apply list_elem_of_further, Hin.
Qed.

End ThreadWrites.

Lemma wrap32_to_int32 (z : Z) : wrap32 (to_int32 z) = wrap32 z.
Proof.
  unfold wrap32, to_int32.
  rewrite Zminus_mod, Zmod_mod, <- Zminus_mod.
  f_equal. lia.
Qed.

(** The run of [comp_window_peek_create] in every environment. *)
Lemma comp_window_peek_create_run (P : Peek.env) (sys : system) (l : list event) :
  ∃ result events,
    comp_window_peek_create P sys l = Ok (result, l ++ events)
    ∧ held_after [] events = Some (held_by result)
    ∧ (∀ p, result = Some p ->
        XRT_COMPOSITOR_COMPUTE sys = None
        ∧ ∃ option_ eye width height,
            XRT_WINDOW_PEEK sys = Some option_
            ∧ choose_eye sys option_ = Some (eye, (width, height))
            ∧ SDL_CreateWindow (to_int32 width) (to_int32 height) true ∈ events
            ∧ create_images (wrap32 width) (wrap32 height) ∈ events
            ∧ p = new_window P sys eye (to_int32 width) (to_int32 height)).
Proof.
  unfold comp_window_peek_create, err_window, err_pool, err_free.
  destruct (XRT_COMPOSITOR_COMPUTE sys) as [compute |]; [create_leaf |].
  destruct (XRT_WINDOW_PEEK sys) as [option_ |]; [| exists None, []; cbn;
    rewrite app_nil_r; split; [reflexivity | split; [reflexivity | discriminate]]].
  destruct (choose_eye sys option_) as [[eye [width height]] |] eqn:Heye;
    [| create_leaf].
  cbn zeta. rewrite !wrap32_to_int32.
  destruct (pool_init sys); try solve [create_leaf].
  destruct (create_cmd_buffer sys); try solve [create_leaf].
  destruct (was_init sys =? 0); [destruct (sdl_init sys <? 0) |];
    try solve [create_leaf];
    (destruct (window_created sys); [destruct (surface_created sys) |]);
    try solve [create_leaf];
    (create_leaf; split; [reflexivity |];
     exists option_, eye, width, height;
     split; [reflexivity |]; split; [exact Heye |];
     split; [set_solver |]; split; [set_solver | reflexivity]).
Qed.

(** X7. [comp_window_peek_create] returns a window only without
    [XRT_COMPOSITOR_COMPUTE] and with [XRT_WINDOW_PEEK] spelt exactly
    [both], [BOTH] or empty, [left] or [LEFT], [right] or [RIGHT]. The
    window then shows that eye: the SDL window was created at the size
    of the screen, of view 0 or of view 1 as an [int32_t], and the
    swapchain at that size as a [uint32_t]. The SDL thread is started
    before the return, so what the struct says on return depends on how
    far that thread has come: as long as it has not run, [running] and
    [hidden] are false and [width] and [height] are that size; once it
    polls, [hidden] is false unless the window was hidden, [running] is
    true unless a quit was among the events it has handled, and the size
    stands unless a resize or a move was. Any other spelling returns
    [NULL] after two error lines, with nothing allocated. *)
Theorem comp_window_peek_create_option (P : Peek.env) (sys : system)
    (l : list event) :
  (∀ p l',
     comp_window_peek_create P sys l = Ok (Some p, l') ->
     XRT_COMPOSITOR_COMPUTE sys = None
     ∧ ∃ option_ events,
         XRT_WINDOW_PEEK sys = Some option_
         ∧ option_ ∈ spellings (Peek.eye p)
         ∧ l' = l ++ events
         ∧ let size := source_size sys (Peek.eye p) in
           SDL_CreateWindow (to_int32 size.1) (to_int32 size.2) true ∈ events
           ∧ create_images (wrap32 size.1) (wrap32 size.2) ∈ events
           ∧ Peek.log p = [Peek.create_images (wrap32 size.1) (wrap32 size.2)]
           ∧ (thread sys = not_started ->
              Peek.running p = false
              ∧ Peek.hidden p = false
              ∧ (Peek.width p, Peek.height p) = (wrap32 size.1, wrap32 size.2))
           ∧ (∀ handled,
                thread sys = polling handled ->
                Peek.running p = forallb (fun event => negb (quits event)) handled
                ∧ ((∀ data1 data2,
                      SDL_WINDOWEVENT SDL_WINDOWEVENT_HIDDEN data1 data2 ∉ handled) ->
                   Peek.hidden p = false)
                ∧ (forallb (fun event => negb (resizes event)) handled = true ->
                   (Peek.width p, Peek.height p) = (wrap32 size.1, wrap32 size.2))))
  ∧ (∀ option_,
       XRT_COMPOSITOR_COMPUTE sys = None ->
       XRT_WINDOW_PEEK sys = Some option_ ->
       (∀ eye, option_ ∉ spellings eye) ->
       comp_window_peek_create P sys l
       = Ok (None, l ++ [COMP_ERROR (invalid_option option_);
                         COMP_ERROR must_be_one_of])).
Proof.
  split.
  - intros p l' Hrun.
    destruct (comp_window_peek_create_run P sys l)
      as (result & events & Hrun' & _ & Hnew).
    rewrite Hrun' in Hrun. injection Hrun as -> <-.
    destruct (Hnew p eq_refl) as (Hcompute & option_ & eye & width & height
                                  & Hoption & Heye & Hwindow & Himages & ->).
    split; [exact Hcompute |]. exists option_, events. split; [exact Hoption |].
    apply choose_eye_Some in Heye as [Hspelt Hsize].
    set (filled := filled_window P eye (to_int32 width) (to_int32 height)).
    assert (Hfilled : Peek.eye filled = eye
                      ∧ Peek.log filled = [Peek.create_images (wrap32 width) (wrap32 height)]
                      ∧ Peek.running filled = false
                      ∧ Peek.hidden filled = false
                      ∧ Peek.width filled = wrap32 width
                      ∧ Peek.height filled = wrap32 height).
    { subst filled. cbn. rewrite !wrap32_to_int32. repeat split. }
    destruct Hfilled as (Feye & Flog & Frunning & Fhidden & Fwidth & Fheight).
    assert (Heye : Peek.eye (new_window P sys eye (to_int32 width) (to_int32 height)) = eye
                   ∧ Peek.log (new_window P sys eye (to_int32 width) (to_int32 height))
                     = [Peek.create_images (wrap32 width) (wrap32 height)]).
    { unfold new_window. fold filled. destruct (thread sys) as [| handled].
      - split; assumption.
      - destruct (fixed_poll_events (window_size sys) handled (started (filled, 0%nat)))
          as (H1 & _ & _ & _ & H5).
        cbn zeta in H1, H5. rewrite H1, H5. split; assumption. }
    destruct Heye as [Heye Hlog]. rewrite Heye, <- Hsize. cbn [fst snd].
    split; [exact Hspelt |]. split; [reflexivity |].
    split; [exact Hwindow |]. split; [exact Himages |]. split; [exact Hlog |].
    unfold new_window. fold filled. split.
    + intros ->. rewrite Frunning, Fhidden, Fwidth, Fheight. repeat split.
    + intros handled ->. split; [| split].
      * rewrite running_poll_events. reflexivity.
      * intros Hshown. apply hidden_poll_events; [reflexivity | exact Hshown].
      * intros Hsame.
        destruct (size_poll_events (window_size sys) handled (started (filled, 0%nat))
                    Hsame) as [-> ->].
        cbn [started fst set_hidden set_running Peek.width Peek.height].
        rewrite Fwidth, Fheight. reflexivity.
  - intros option_ Hcompute Hoption Hspelt. unfold comp_window_peek_create.
    rewrite Hcompute, Hoption.
    destruct (choose_eye sys option_) as [[eye size] |] eqn:Heye.
    + apply choose_eye_Some in Heye as [Hin _]. destruct (Hspelt eye Hin).
    + run_events.
Qed.

(** A headset of 2160 x 1200 with views of 1080 x 1200, on a machine
    where everything works; the thread has come as far as [thread]. *)
Definition desktop_with (thread : progress) (option_ : string) : system :=
  mk_system None (Some option_) (2160, 1200) (1080, 1200) (1080, 1200)
    VK_SUCCESS VK_SUCCESS 0 0 true true thread (fun _ => (1080, 1200)).

(** The same, the thread being in its loop with no event yet. *)
Definition desktop (option_ : string) : system := desktop_with (polling []) option_.

Lemma comp_window_peek_create_option_witness :
  (∃ p l',
     comp_window_peek_create Peek.env_never_ready (desktop "LEFT") [] = Ok (Some p, l')
     ∧ Peek.eye p = Peek.COMP_WINDOW_PEEK_EYE_LEFT
     ∧ Peek.running p = true
     ∧ (Peek.width p, Peek.height p) = (1080, 1200))
  ∧ (∃ p l',
       comp_window_peek_create Peek.env_never_ready (desktop_with not_started "LEFT") []
       = Ok (Some p, l')
       ∧ Peek.running p = false)
  ∧ comp_window_peek_create Peek.env_never_ready (desktop "Left") []
    = Ok (None, [COMP_ERROR (invalid_option "Left"); COMP_ERROR must_be_one_of]).
Proof.
  split; [| split].
  - eexists _, _. split; [vm_compute; reflexivity |].
    destruct (proj1 (comp_window_peek_create_option Peek.env_never_ready
                       (desktop "LEFT") []) _ _ eq_refl)
      as (_ & option_ & events & _ & _ & _ & _ & _ & _ & _ & Hpolling).
    destruct (Hpolling [] eq_refl) as (Hrunning & _ & Hsize).
    split; [reflexivity |].
    split; [exact Hrunning | exact (Hsize eq_refl)].
  - eexists _, _. split; [vm_compute; reflexivity |].
    destruct (proj1 (comp_window_peek_create_option Peek.env_never_ready
                       (desktop_with not_started "LEFT") []) _ _ eq_refl)
      as (_ & option_ & events & _ & _ & _ & _ & _ & _ & Hnot & _).
    exact (proj1 (Hnot eq_refl)).
  - apply (proj2 (comp_window_peek_create_option Peek.env_never_ready
                    (desktop "Left") [])); try reflexivity.
    intros []; cbn; set_solver.
Defined.

(** X8. Wherever [comp_window_peek_create] gives up, it has let go of
    everything it had got hold of, and of nothing else: the struct after a
    failed pool, pool and struct after a failed command buffer, SDL or
    window, and window, pool and struct after a failed surface. It
    always returns; a window it returns holds its struct, command pool,
    command buffer, SDL window, surface and thread. *)
Theorem comp_window_peek_create_cleanup (P : Peek.env) (sys : system)
    (l : list event) :
  ∃ result events,
    comp_window_peek_create P sys l = Ok (result, l ++ events)
    ∧ held_after [] events = Some (held_by result).
Proof.
  destruct (comp_window_peek_create_run P sys l)
    as (result & events & Hrun & Hheld & _).
  exists result, events. split; [exact Hrun | exact Hheld].
Qed.



(** *** The thread stops on a quit, or when it is told to *)

(** A round in which the loop goes on: [running] has not been cleared
    from outside and no event of the queue quits. *)
Definition goes_on (round : bool * list SDL_Event) : Prop :=
  round.1 = false ∧ Forall (fun event => quits event = false) round.2.

Section ThreadStops.

Variable SDL_GetWindowSize : nat -> Z * Z.

Lemma run_loop_goes_on (rounds : list (bool * list SDL_Event))
    (s : Peek.comp_window_peek * nat) :
  Peek.running s.1 = true ->
  Forall goes_on rounds ->
  run_loop SDL_GetWindowSize rounds s = Fault OutOfFuel.
Proof.
  intros Hrunning Hquiet. revert s Hrunning.
  induction Hquiet as [| [cleared queue] rounds [Hcleared Hqueue] _ IH];
    intros s Hrunning; cbn [run_loop]; [rewrite Hrunning; reflexivity |].
  cbn [fst snd] in Hcleared, Hqueue. subst cleared. rewrite Hrunning.
  apply IH. rewrite running_poll_events, Hrunning.
  apply forallb_no_quit in Hqueue. rewrite Hqueue. reflexivity.
Qed.

Lemma run_loop_polls (before : list (bool * list SDL_Event))
    (rounds : list (bool * list SDL_Event)) (s : Peek.comp_window_peek * nat) :
  Peek.running s.1 = true ->
  Forall goes_on before ->
  run_loop SDL_GetWindowSize (before ++ rounds) s
  = run_loop SDL_GetWindowSize rounds
      (poll_events SDL_GetWindowSize (concat before.*2) s)
  ∧ Peek.running (poll_events SDL_GetWindowSize (concat before.*2) s).1 = true.
Proof.
  intros Hrunning Hquiet. revert s Hrunning.
  induction Hquiet as [| [cleared queue] before [Hcleared Hqueue] _ IH];
    intros s Hrunning.
  - split; [reflexivity | exact Hrunning].
  - cbn [fst snd] in Hcleared, Hqueue. subst cleared.
    cbn [app run_loop fmap list_fmap concat snd]. rewrite Hrunning.
    assert (Hnext : Peek.running (poll_events SDL_GetWindowSize queue s).1 = true).
    { rewrite running_poll_events, Hrunning.
      apply forallb_no_quit in Hqueue. rewrite Hqueue. reflexivity. }
    destruct (IH _ Hnext) as [Hrun Hstill].
    unfold poll_events in *. rewrite foldl_app. split; [exact Hrun | exact Hstill].
Qed.

Lemma run_loop_quit (queue : list SDL_Event) (after : list (bool * list SDL_Event))
    (s : Peek.comp_window_peek * nat) :
  Peek.running s.1 = true ->
  Exists (fun event => quits event = true) queue ->
  run_loop SDL_GetWindowSize ((false, queue) :: after) s
  = Ok (tt, poll_events SDL_GetWindowSize queue s)
  ∧ Peek.running (poll_events SDL_GetWindowSize queue s).1 = false.
Proof.
  intros Hrunning Hquit.
  assert (Hstopped : Peek.running (poll_events SDL_GetWindowSize queue s).1 = false).
  { rewrite running_poll_events, Hrunning. cbn [andb].
    apply not_true_is_false. intros Hall. apply forallb_no_quit in Hall.
    apply Exists_exists in Hquit as (event & Hin & Hq).
    rewrite Forall_forall in Hall. rewrite (Hall event Hin) in Hq. discriminate Hq. }
  split; [| exact Hstopped].
  cbn [run_loop]. rewrite Hrunning.
  destruct after as [| [cleared next] after]; cbn [run_loop].
  - rewrite Hstopped. reflexivity.
  - assert (Hboth : Peek.running
                      (if cleared
                       then stop_requested (poll_events SDL_GetWindowSize queue s)
                       else poll_events SDL_GetWindowSize queue s).1 = false)
      by (destruct cleared; [reflexivity | exact Hstopped]).
    rewrite Hboth. destruct cleared; [| reflexivity].
    unfold stop_requested. cbn [fst snd].
    destruct (poll_events SDL_GetWindowSize queue s) as [w n]. cbn [fst snd] in *.
    destruct w. cbn in Hstopped. subst. reflexivity.
Qed.

(** X10. The SDL thread of the peek window sets [running] and clears
    [hidden], and leaves its loop when the test of [running] fails:
    after [SDL_QUIT] or the Escape key, or after
    [comp_window_peek_destroy] has cleared [running] from its thread. As
    long as none of these happens it keeps polling. In the round in
    which a quit arrives it still handles every event of the queue,
    those behind the quit too, and then returns with [running] false;
    events of later rounds are not looked at. When [running] was cleared
    from outside, the thread returns at the next test without polling
    again. *)
Theorem window_peek_run_thread_stops (rounds : list (bool * list SDL_Event))
    (s : Peek.comp_window_peek * nat) :
  (Forall goes_on rounds ->
   window_peek_run_thread SDL_GetWindowSize rounds s = Fault OutOfFuel)
  ∧ (∀ before queue after,
       rounds = before ++ (false, queue) :: after ->
       Forall goes_on before ->
       Exists (fun event => quits event = true) queue ->
       window_peek_run_thread SDL_GetWindowSize rounds s
       = Ok (tt, poll_events SDL_GetWindowSize (concat before.*2 ++ queue) (started s))
       ∧ Peek.running
           (poll_events SDL_GetWindowSize (concat before.*2 ++ queue) (started s)).1
         = false)
  ∧ (∀ before queue after,
       rounds = before ++ (true, queue) :: after ->
       Forall goes_on before ->
       window_peek_run_thread SDL_GetWindowSize rounds s
       = Ok (tt, stop_requested
                   (poll_events SDL_GetWindowSize (concat before.*2) (started s)))).
Proof.
  split; [| split].
  - intros Hquiet. unfold window_peek_run_thread.
    mstep reflexivity. apply run_loop_goes_on; [reflexivity | exact Hquiet].
  - intros before queue after -> Hquiet Hquit.
    unfold window_peek_run_thread, poll_events. rewrite foldl_app.
    mstep reflexivity.
    destruct (run_loop_polls before ((false, queue) :: after) (started s) eq_refl Hquiet)
      as [-> Hrunning].
    apply run_loop_quit; assumption.
  - intros before queue after -> Hquiet.
    unfold window_peek_run_thread. mstep reflexivity.
    destruct (run_loop_polls before ((true, queue) :: after) (started s) eq_refl Hquiet)
      as [-> _].
    reflexivity.
Qed.

End ThreadStops.

(** The window is resized, then closed with an event behind the close,
    and moved in the round after; or it is resized, and the compositor
    destroys it while a key press is waiting. *)
Lemma window_peek_run_thread_stops_witness :
  window_peek_run_thread (fun _ => (800, 600))
    [(false, [SDL_WINDOWEVENT SDL_WINDOWEVENT_SIZE_CHANGED 1024 768]);
     (false, [SDL_QUIT; SDL_WINDOWEVENT SDL_WINDOWEVENT_HIDDEN 0 0]);
     (false, [SDL_WINDOWEVENT SDL_WINDOWEVENT_MOVED 0 0])]
    (Peek.mk_peek Peek.COMP_WINDOW_PEEK_EYE_BOTH 640 480 false false 640 480 3 [], 0%nat)
  = Ok (tt, (Peek.mk_peek Peek.COMP_WINDOW_PEEK_EYE_BOTH 1024 768 false true 640 480 3 [],
             0%nat))
  ∧ window_peek_run_thread (fun _ => (800, 600))
      [(false, [SDL_WINDOWEVENT SDL_WINDOWEVENT_SIZE_CHANGED 1024 768]);
       (false, [SDL_KEYDOWN (SDLK_other 97)])]
      (Peek.mk_peek Peek.COMP_WINDOW_PEEK_EYE_BOTH 640 480 false false 640 480 3 [], 0%nat)
    = Fault OutOfFuel
  ∧ window_peek_run_thread (fun _ => (800, 600))
      [(false, [SDL_WINDOWEVENT SDL_WINDOWEVENT_SIZE_CHANGED 1024 768]);
       (true, [SDL_KEYDOWN (SDLK_other 97)])]
      (Peek.mk_peek Peek.COMP_WINDOW_PEEK_EYE_BOTH 640 480 false false 640 480 3 [], 0%nat)
    = Ok (tt, (Peek.mk_peek Peek.COMP_WINDOW_PEEK_EYE_BOTH 1024 768 false false 640 480 3 [],
               0%nat)).
Proof.
  split; [| split].
  - refine (proj1 (proj1 (proj2 (window_peek_run_thread_stops (fun _ => (800, 600)) _ _))
                     [(false, [SDL_WINDOWEVENT SDL_WINDOWEVENT_SIZE_CHANGED 1024 768])]
                     [SDL_QUIT; SDL_WINDOWEVENT SDL_WINDOWEVENT_HIDDEN 0 0]
                     [(false, [SDL_WINDOWEVENT SDL_WINDOWEVENT_MOVED 0 0])] _ _ _)).
    + reflexivity.
    + repeat constructor.
    + left. reflexivity.
  - apply (proj1 (window_peek_run_thread_stops (fun _ => (800, 600)) _ _)).
    repeat constructor.
  - refine (proj2 (proj2 (window_peek_run_thread_stops (fun _ => (800, 600)) _ _))
              [(false, [SDL_WINDOWEVENT SDL_WINDOWEVENT_SIZE_CHANGED 1024 768])]
              [SDL_KEYDOWN (SDLK_other 97)] [] _ _).
    + reflexivity.
    + repeat constructor.
Defined.

(** *** The instance extensions *)

(** The list after the loop over the names, and the trace lines. *)
Fixpoint extended (l : list string) (names : list string) : list string :=
  match names with
  | [] => l
  | name :: names => extended (u_string_list_append_unique l name).1 names
  end.

Fixpoint traced (l : list string) (names : list string) : list event :=
  match names with
  | [] => []
  | name :: names =>
    U_LOG_T name (negb ((u_string_list_append_unique l name).2 =? 0))
    :: traced (u_string_list_append_unique l name).1 names
  end.

Lemma append_ext_run (name : string) (l : list string) (log : list event) :
  append_ext name (Some l, log)
  = Ok (tt, (Some (u_string_list_append_unique l name).1,
             log ++ [U_LOG_T name (negb ((u_string_list_append_unique l name).2 =? 0))])).
Proof. reflexivity. Qed.

Lemma append_exts_run (names : list string) (l : list string) (log : list event) :
  append_exts names (Some l, log)
  = Ok (tt, (Some (extended l names), log ++ traced l names)).
Proof.
  revert l log. induction names as [| name names IH]; intros l log.
  - cbn. rewrite app_nil_r. reflexivity.
  - cbn [append_exts extended traced].
    mstep (apply append_ext_run). rewrite IH. rewrite <- app_assoc. reflexivity.
Qed.

Lemma held_after_traced (held : list resource) (l names : list string) :
  held_after held (traced l names) = Some held.
Proof.
  revert l. induction names as [| name names IH]; intros l; [reflexivity |].
  cbn. apply IH.
Qed.

Lemma extended_spec (l names : list string) :
  l `prefix_of` extended l names
  ∧ (NoDup l -> NoDup (extended l names))
  ∧ (∀ name, name ∈ extended l names <-> name ∈ l ∨ name ∈ names).
Proof.
  revert l. induction names as [| first names IH]; intros l; cbn [extended].
  - split; [reflexivity |]. split; [auto |]. set_solver.
  - unfold u_string_list_append_unique. case_bool_decide as Hin; cbn [fst].
    + destruct (IH l) as (Hprefix & Hnodup & Hmem).
      split; [exact Hprefix |]. split; [exact Hnodup |].
      intros name. rewrite Hmem. set_solver.
    + destruct (IH (l ++ [first])) as (Hprefix & Hnodup & Hmem).
      split; [etrans; [apply prefix_app_r; reflexivity | exact Hprefix] |].
      split.
      * intros Hl. apply Hnodup, NoDup_app. split; [exact Hl |].
        split; [| apply NoDup_singleton]. set_solver.
      * intros name. rewrite Hmem. set_solver.
Qed.

Lemma log_ext_run (e : event) (required : option (list string)) (log : list event) :
  log_ext e (required, log) = Ok (tt, (required, log ++ [e])).
Proof. reflexivity. Qed.

Lemma some_names (name : string) (names : list string) :
  (0 <? Z.of_nat (length (name :: names))) = true.
Proof. apply Z.ltb_lt. cbn [length]. lia. Qed.

Ltac run_exts :=
  rewrite ?some_names;
  change (0 <? Z.of_nat (length (@nil string))) with false;
  unfold mbind, M_bind, bind, log_ext, modify, gets, ret; cbn;
  rewrite <- ?app_assoc; try reflexivity.

(** A path on which the list stays as it was. *)
Ltac exts_unchanged required :=
  eexists _, required, _; split; [run_exts |];
  split; [reflexivity |]; split; [reflexivity |];
  split; [reflexivity |]; split; [auto |]; split; [auto |];
  split; [intros; try discriminate; try congruence; set_solver | reflexivity].

(** X11. [comp_window_peek_get_vk_instance_exts] returns false when
    [out_required_list] is [NULL], after one error line and without
    touching SDL. With a list to fill it returns false only when SDL
    cannot be initialised or the temporary window cannot be created; in
    every other case it returns true, also when SDL fails to report the
    extensions, and the list is then as it was. The temporary window is
    destroyed on every path on which it was created. The list keeps its
    entries in place and gains only names SDL reported, none twice; when
    both queries succeed it holds every reported name. *)
Theorem comp_window_peek_get_vk_instance_exts_result (S : sdl)
    (required : list string) (log : list event) :
  comp_window_peek_get_vk_instance_exts S (None, log)
  = Ok (false, (None, log ++ [U_LOG_E out_required_list_is_null]))
  ∧ ∃ result required' events,
    comp_window_peek_get_vk_instance_exts S (Some required, log)
    = Ok (result, (Some required', log ++ events))
    ∧ held_after [] events = Some []
    ∧ result = (negb (video_was_init S =? 0) || negb (video_init S <? 0))
               && tmp_window_created S
    ∧ required `prefix_of` required'
    ∧ (NoDup required -> NoDup required')
    ∧ (∀ name, name ∈ required' -> name ∈ required ∨ name ∈ names S)
    ∧ (result = true -> count_ok S = true ->
       names S = [] ∨ names_ok S = true ->
       ∀ name, name ∈ names S -> name ∈ required')
    ∧ (result = false ∨ count_ok S = false ∨ (names S ≠ [] ∧ names_ok S = false) ->
       required' = required).
Proof.
  split; [reflexivity |].
  unfold comp_window_peek_get_vk_instance_exts.
  destruct (extended_spec required (names S)) as (Hprefix & Hnodup & Hmem).
  mstep reflexivity. cbn [fst].
  assert (Hwindow :
    ∀ log0 : list event,
    ∃ result required' events,
      (log_ext (SDL_CreateWindow 2 2 (tmp_window_created S));;
       if negb (tmp_window_created S) then
         log_ext (U_LOG_E failed_to_create_temp_SDL_window);; ret false
       else
         let err_free := log_ext free_names;; log_ext SDL_DestroyWindow;; ret true in
         log_ext (SDL_Vulkan_GetInstanceExtensions (count_ok S));;
         if negb (count_ok S) then
           log_ext (U_LOG_E failed_to_get_instance_extensions);; err_free
         else
           filled ← (if 0 <? Z.of_nat (length (names S)) then
                       log_ext (SDL_Vulkan_GetInstanceExtensions (names_ok S));;
                       ret (names_ok S)
                     else ret true);
           if negb (filled : bool) then
             log_ext (U_LOG_E failed_to_get_instance_extensions);; err_free
           else
             append_exts (names S);;
             err_free) (Some required, log0)
      = Ok (result, (Some required', log0 ++ events))
      ∧ held_after [] events = Some []
      ∧ result = tmp_window_created S
      ∧ required `prefix_of` required'
      ∧ (NoDup required -> NoDup required')
      ∧ (∀ name, name ∈ required' -> name ∈ required ∨ name ∈ names S)
      ∧ (result = true -> count_ok S = true ->
         names S = [] ∨ names_ok S = true ->
         ∀ name, name ∈ names S -> name ∈ required')
      ∧ (result = false ∨ count_ok S = false ∨ (names S ≠ [] ∧ names_ok S = false) ->
         required' = required)).
  { intros log0.
    destruct (tmp_window_created S); [| exts_unchanged required].
    destruct (count_ok S); [| exts_unchanged required].
    destruct (names S) as [| name names] eqn:Hnames; [exts_unchanged required |].
    destruct (names_ok S); [| exts_unchanged required].
    eexists _, (extended required (name :: names)), _. split.
    { rewrite some_names. unfold mbind, M_bind.
      erewrite bind_Ok by apply log_ext_run. cbn [negb].
      erewrite bind_Ok by apply log_ext_run. cbn [negb].
      erewrite bind_Ok
        by (erewrite bind_Ok by apply log_ext_run; reflexivity).
      cbn [negb].
      erewrite bind_Ok by apply append_exts_run.
      erewrite bind_Ok by apply log_ext_run.
      erewrite bind_Ok by apply log_ext_run.
      unfold ret. rewrite <- !app_assoc. reflexivity. }
    split.
    { cbn [app held_after effect mbind option_bind].
      rewrite held_after_app, held_after_traced. reflexivity. }
    split; [reflexivity |]. split; [exact Hprefix |]. split; [exact Hnodup |].
    split; [intros n Hn; apply Hmem, Hn |].
    split; [intros _ _ _ n Hn; apply Hmem; right; exact Hn |].
    intros [H | [H | [_ H]]]; discriminate H. }
  destruct (video_was_init S =? 0); [destruct (video_init S <? 0) |].
  - exts_unchanged required.
  - destruct (Hwindow (log ++ [SDL_WasInit (video_was_init S);
                               SDL_Init (video_init S)]))
      as (result & required' & events & Hrun & Hheld & Hresult & Hrest).
    exists result, required'. eexists. split.
    { unfold mbind, M_bind in Hrun |- *.
      erewrite bind_Ok by reflexivity.
      erewrite bind_Ok by (erewrite bind_Ok by reflexivity; reflexivity).
      cbn [negb fst snd]. rewrite <- app_assoc. cbn [app].
      rewrite Hrun, <- app_assoc. reflexivity. }
    split; [exact Hheld |]. split; [exact Hresult | exact Hrest].
  - destruct (Hwindow (log ++ [SDL_WasInit (video_was_init S)]))
      as (result & required' & events & Hrun & Hheld & Hresult & Hrest).
    exists result, required'. eexists. split.
    { unfold mbind, M_bind in Hrun |- *.
      erewrite bind_Ok by reflexivity.
      erewrite bind_Ok by reflexivity.
      cbn [negb fst snd].
      rewrite Hrun, <- app_assoc. reflexivity. }
    split; [exact Hheld |]. split; [exact Hresult | exact Hrest].
Qed.

(** SDL reports two extensions, one of which the list has. *)
Lemma comp_window_peek_get_vk_instance_exts_result_example :
  comp_window_peek_get_vk_instance_exts
    (mk_sdl 0 0 true true true ["VK_KHR_surface"; "VK_KHR_xcb_surface"]%string)
    (Some ["VK_KHR_display"; "VK_KHR_surface"]%string, [])
  = Ok (true,
        (Some ["VK_KHR_display"; "VK_KHR_surface"; "VK_KHR_xcb_surface"]%string,
         [SDL_WasInit 0; SDL_Init 0; SDL_CreateWindow 2 2 true;
          SDL_Vulkan_GetInstanceExtensions true;
          SDL_Vulkan_GetInstanceExtensions true;
          U_LOG_T "VK_KHR_surface" false; U_LOG_T "VK_KHR_xcb_surface" true;
          free_names; SDL_DestroyWindow]))
  ∧ comp_window_peek_get_vk_instance_exts
      (mk_sdl 0 0 true false true ["VK_KHR_surface"; "VK_KHR_xcb_surface"]%string)
      (Some ["VK_KHR_display"]%string, [])
    = Ok (true,
          (Some ["VK_KHR_display"]%string,
           [SDL_WasInit 0; SDL_Init 0; SDL_CreateWindow 2 2 true;
            SDL_Vulkan_GetInstanceExtensions false;
            U_LOG_E failed_to_get_instance_extensions;
            free_names; SDL_DestroyWindow]))
  ∧ comp_window_peek_get_vk_instance_exts
      (mk_sdl 0 0 true true true ["VK_KHR_surface"]%string) (None, [])
    = Ok (false, (None, [U_LOG_E out_required_list_is_null])).
Proof. split; [| split]; reflexivity. Qed.

End PeekWindow.

(** ** The debug image target (comp_window_debug_image.c) *)

Module DebugImage.

(** The [VkFormat] values the target tells apart. *)
Inductive VkFormat : Type :=
| VK_FORMAT_UNDEFINED
| VK_FORMAT_R8G8B8A8_UNORM
| VK_FORMAT_R8G8B8A8_SRGB
| VK_FORMAT_B8G8R8A8_UNORM
| VK_FORMAT_B8G8R8A8_SRGB
| VK_FORMAT_other (n : Z).

#[global] Instance VkFormat_eq_dec : EqDecision VkFormat.
Proof. solve_decision. Defined.

Inductive VkImageLayout : Type :=
| VK_IMAGE_LAYOUT_UNDEFINED
| VK_IMAGE_LAYOUT_PRESENT_SRC_KHR.

(** The two views the scratch images have of image [i]. *)
Inductive VkImageView : Type :=
| unorm_view (i : nat)
| srgb_view (i : nat).

(** [struct comp_target_image]; [None] is a field never written. *)
Record comp_target_image : Type := mk_image {
  handle : option nat;
  view : option VkImageView;
}.

Record VkExtent2D : Type := mk_extent { extent_width : Z; extent_height : Z }.

Record comp_target_create_images_info : Type := mk_info {
  extent : VkExtent2D;
  formats : list VkFormat;
}.

(** Calls into the scratch images, the pacer and the variable tracker. *)
Inductive event : Type :=
| COMP_WARN
| comp_scratch_single_images_init
| comp_scratch_single_images_ensure_mutable (extent : VkExtent2D)
| comp_scratch_single_images_get (index : Z)
| comp_scratch_single_images_done
| comp_scratch_single_images_free
| comp_scratch_single_images_destroy
| u_pc_fake_create
| u_pc_destroy
| u_var_add_root
| u_var_add_native_images_debug
| u_var_remove_root
| free.

(** [struct debug_image_target] with the fields of its [base] that the
    file writes, and the calls made for it. *)
Record debug_image_target : Type := mk_target {
  index : Z;
  images : list comp_target_image;
  has_init_vulkan : bool;
  wait_for_present_supported : bool;
  image_count : Z;
  base_images : bool;
  width : Z;
  height : Z;
  format : VkFormat;
  final_layout : VkImageLayout;
  log : list event;
}.

Definition add_log (e : event) (dit : debug_image_target) : debug_image_target :=
  mk_target (index dit) (images dit) (has_init_vulkan dit)
    (wait_for_present_supported dit) (image_count dit) (base_images dit)
    (width dit) (height dit) (format dit) (final_layout dit) (log dit ++ [e]).

Definition set_index (v : Z) (dit : debug_image_target) : debug_image_target :=
  mk_target v (images dit) (has_init_vulkan dit)
    (wait_for_present_supported dit) (image_count dit) (base_images dit)
    (width dit) (height dit) (format dit) (final_layout dit) (log dit).

Definition set_images (v : list comp_target_image) (dit : debug_image_target)
  : debug_image_target :=
  mk_target (index dit) v (has_init_vulkan dit)
    (wait_for_present_supported dit) (image_count dit) (base_images dit)
    (width dit) (height dit) (format dit) (final_layout dit) (log dit).

Definition set_has_init_vulkan (v : bool) (dit : debug_image_target)
  : debug_image_target :=
  mk_target (index dit) (images dit) v
    (wait_for_present_supported dit) (image_count dit) (base_images dit)
    (width dit) (height dit) (format dit) (final_layout dit) (log dit).

(** The exported data of [base]. *)
Definition set_exported (count : Z) (imgs : bool) (w h : Z) (f : VkFormat)
    (layout : VkImageLayout) (dit : debug_image_target) : debug_image_target :=
  mk_target (index dit) (images dit) (has_init_vulkan dit)
    (wait_for_present_supported dit) count imgs w h f layout (log dit).

Definition emit (e : event) : M debug_image_target unit := modify (add_log e).

Definition wrap32 (z : Z) : Z := z mod 2 ^ 32.

Fixpoint count (p : event -> bool) (l : list event) : nat :=
  match l with
  | [] => 0
  | e :: l => (if p e then 1 else 0) + count p l
  end.

Definition is_get (e : event) : bool :=
  match e with comp_scratch_single_images_get _ => true | _ => false end.

Definition target_init_pre_vulkan : M debug_image_target bool := ret true.

Definition target_init_post_vulkan : M debug_image_target bool :=
  (* We now know Vulkan is running and we can use it. *)
  modify (set_has_init_vulkan true);;
  ret true.

Definition target_check_ready : M debug_image_target bool := ret true.

(** The three flags of the format search. *)
Record search : Type := mk_search {
  use_unorm : bool;
  use_srgb : bool;
  maybe_convert : bool;
}.

(** The loop over [create_info->formats]: [continue] goes on with the
    rest, [break] returns the flags. *)
Fixpoint find_format (formats : list VkFormat) (s : search) : search :=
  match formats with
  | [] => s
  | format :: rest =>
    (* Used to figure out if we want SRGB or UNORM only. *)
    if negb (maybe_convert s) && bool_decide (format = VK_FORMAT_B8G8R8A8_UNORM) then
      find_format rest (mk_search true (use_srgb s) true)
    else if negb (maybe_convert s) && bool_decide (format = VK_FORMAT_B8G8R8A8_SRGB) then
      find_format rest (mk_search (use_unorm s) true true)
    (* These two are what the scratch image allocates. *)
    else if bool_decide (format = VK_FORMAT_R8G8B8A8_UNORM) then
      mk_search true (use_srgb s) false
    else if bool_decide (format = VK_FORMAT_R8G8B8A8_SRGB) then
      mk_search (use_unorm s) true false
    else find_format rest s
  end.

(** The assignments to [dit->images[i]]. *)
Definition share (s : search) (i : nat) (image : comp_target_image)
  : comp_target_image :=
  let image := mk_image (Some i) (view image) in
  let image := if use_unorm s then mk_image (handle image) (Some (unorm_view i))
               else image in
  if use_srgb s then mk_image (handle image) (Some (srgb_view i)) else image.

(** One round of the loop over [dit->images]. *)
Definition share_image (s : search) (i : nat) : M debug_image_target unit :=
  dit ← gets (fun dit : debug_image_target => dit);
  match images dit !! i with
  | None => stop OutOfBounds
  | Some image => modify (set_images (<[i := share s i image]> (images dit)))
  end.

Section Target.

(** The number of scratch images (comp_scratch.h). *)
Variable COMP_SCRATCH_NUM_IMAGES : nat.

(** The index that the [n]-th [comp_scratch_single_images_get] hands
    out. *)
Variable scratch_index : nat -> Z.

Definition target_create_images (create_info : comp_target_create_images_info)
  : M debug_image_target unit :=
  dit ← gets (fun dit : debug_image_target => dit);
  (* Paranoia. *)
  assert_ (has_init_vulkan dit);;
  let s := find_format (formats create_info) (mk_search false false false) in
  (* Check *)
  assert_ (use_unorm s || use_srgb s);;
  (if maybe_convert s then emit COMP_WARN else ret tt);;
  (* Do the allocation. *)
  emit (comp_scratch_single_images_ensure_mutable (extent create_info));;
  (* Share the Vulkan handles of images and image views. *)
  for_loop 0 COMP_SCRATCH_NUM_IMAGES (share_image s);;
  (* Fill in exported data. *)
  dit ← gets (fun dit : debug_image_target => dit);
  let f := if use_unorm s then VK_FORMAT_R8G8B8A8_UNORM else format dit in
  let f := if use_srgb s then VK_FORMAT_R8G8B8A8_SRGB else f in
  modify (set_exported (Z.of_nat COMP_SCRATCH_NUM_IMAGES) true
            (extent_width (extent create_info)) (extent_height (extent create_info))
            f VK_IMAGE_LAYOUT_PRESENT_SRC_KHR).

Definition target_has_images : M debug_image_target bool :=
  gets base_images.

Definition target_acquire : M debug_image_target (VkResult * Z) :=
  dit ← gets (fun dit : debug_image_target => dit);
  (* Error checking. *)
  assert_ (index dit =? -1);;
  let index := wrap32 (scratch_index (count is_get (log dit))) in
  emit (comp_scratch_single_images_get index);;
  (* For error checking. *)
  modify (set_index index);;
  ret (VK_SUCCESS, index).

Definition target_present (index : Z) : M debug_image_target VkResult :=
  dit ← gets (fun dit : debug_image_target => dit);
  assert_ (index =? DebugImage.index dit);;
  emit comp_scratch_single_images_done;;
  (* For error checking. *)
  modify (set_index (-1));;
  ret VK_SUCCESS.

Definition target_wait_for_present : M debug_image_target VkResult :=
  ret VK_ERROR_EXTENSION_NOT_PRESENT.

Definition target_destroy : M debug_image_target unit :=
  (* Do this first. *)
  emit u_var_remove_root;;
  dit ← gets (fun dit : debug_image_target => dit);
  (* Can only allocate if we have Vulkan. *)
  (if has_init_vulkan dit then
     emit comp_scratch_single_images_free;;
     modify (set_has_init_vulkan false);;
     modify (set_exported 0 false 0 0 VK_FORMAT_UNDEFINED VK_IMAGE_LAYOUT_UNDEFINED)
   else ret tt);;
  (* Always free non-Vulkan resources. *)
  emit comp_scratch_single_images_destroy;;
  (* Pacing is always created. *)
  emit u_pc_destroy;;
  (* Free memory. *)
  emit free.

(** [target_create]: the struct as [calloc] and the assignments leave
    it. *)
Definition target_create : debug_image_target :=
  mk_target (-1) (replicate COMP_SCRATCH_NUM_IMAGES (mk_image None None)) false
    false 0 false 0 0 VK_FORMAT_UNDEFINED VK_IMAGE_LAYOUT_UNDEFINED
    [u_pc_fake_create; comp_scratch_single_images_init; u_var_add_root;
     u_var_add_native_images_debug].

(** *** The format search *)

Definition is_exact (f : VkFormat) : bool :=
  bool_decide (f = VK_FORMAT_R8G8B8A8_UNORM) || bool_decide (f = VK_FORMAT_R8G8B8A8_SRGB).

Definition is_known (f : VkFormat) : bool :=
  is_exact f
  || bool_decide (f = VK_FORMAT_B8G8R8A8_UNORM)
  || bool_decide (f = VK_FORMAT_B8G8R8A8_SRGB).

Definition is_srgb (f : option VkFormat) : bool :=
  bool_decide (f = Some VK_FORMAT_R8G8B8A8_SRGB)
  || bool_decide (f = Some VK_FORMAT_B8G8R8A8_SRGB).

Definition is_unorm (f : option VkFormat) : bool :=
  bool_decide (f = Some VK_FORMAT_R8G8B8A8_UNORM)
  || bool_decide (f = Some VK_FORMAT_B8G8R8A8_UNORM).

(** The search asks for sRGB when the first of the four formats in the
    list is an sRGB one, or the first [R8G8B8A8] format is. *)
Definition wants_srgb (formats : list VkFormat) : bool :=
  is_srgb (find is_known formats) || is_srgb (find is_exact formats).

Definition wants_unorm (formats : list VkFormat) : bool :=
  is_unorm (find is_known formats) || is_unorm (find is_exact formats).

(** Once a [B8G8R8A8] format was seen only an [R8G8B8A8] format counts. *)
Lemma find_format_converting (l : list VkFormat) (u s : bool) :
  find_format l (mk_search u s true)
  = match find is_exact l with
    | None => mk_search u s true
    | Some f => mk_search (u || bool_decide (f = VK_FORMAT_R8G8B8A8_UNORM))
                  (s || bool_decide (f = VK_FORMAT_R8G8B8A8_SRGB)) false
    end.
Proof.
  induction l as [| f l IH]; [reflexivity |].
  destruct f; cbn; try exact IH; destruct u, s; reflexivity.
Qed.

Ltac to_bool t :=
  progress first [ change t with true | change t with false ].

Ltac decide_formats :=
  repeat first
    [ match goal with
      | |- context [bool_decide (?a = ?b)] => to_bool (bool_decide (a = b))
      | |- context [is_known ?a] => to_bool (is_known a)
      | |- context [is_exact ?a] => to_bool (is_exact a)
      | |- context [is_srgb (Some ?a)] => to_bool (is_srgb (Some a))
      | |- context [is_unorm (Some ?a)] => to_bool (is_unorm (Some a))
      | |- context [is_srgb None] => to_bool (is_srgb None)
      | |- context [is_unorm None] => to_bool (is_unorm None)
      end
    | progress cbn [negb andb orb] ].

Lemma find_format_fresh (l : list VkFormat) :
  find_format l (mk_search false false false)
  = mk_search (wants_unorm l) (wants_srgb l)
      (bool_decide (find is_exact l = None) && negb (bool_decide (find is_known l = None))).
Proof.
  unfold wants_unorm, wants_srgb.
  induction l as [| f l IH]; [reflexivity |].
  destruct f; cbn [find_format find maybe_convert use_unorm use_srgb];
    decide_formats; try exact IH; try reflexivity.
  - (* B8G8R8A8_UNORM *)
    rewrite find_format_converting.
    destruct (find is_exact l) as [f |] eqn:Hexact; decide_formats; [| reflexivity].
    apply find_some in Hexact as [_ Hexact].
    destruct f; try discriminate Hexact; decide_formats; reflexivity.
  - (* B8G8R8A8_SRGB *)
    rewrite find_format_converting.
    destruct (find is_exact l) as [f |] eqn:Hexact; decide_formats; [| reflexivity].
    apply find_some in Hexact as [_ Hexact].
    destruct f; try discriminate Hexact; decide_formats; reflexivity.
Qed.

(** *** Sharing the images *)

Lemma share_image_run (s : search) (i : nat) (image : comp_target_image)
    (dit : debug_image_target) :
  images dit !! i = Some image ->
  share_image s i dit
  = Ok (tt, set_images (<[i := share s i image]> (images dit)) dit).
Proof.
  intros Himage. unfold share_image. mstep reflexivity. rewrite Himage. reflexivity.
Qed.

Lemma share_loop (s : search) (start n : nat) (dit : debug_image_target) :
  (start + n <= length (images dit))%nat ->
  for_loop start n (share_image s) dit
  = Ok (tt, set_images
              (take start (images dit)
               ++ imap (fun k => share s (start + k)) (take n (drop start (images dit)))
               ++ drop (start + n) (images dit)) dit).
Proof.
  revert start dit. induction n as [| n IH]; intros start dit Hfit.
  - rewrite take_0, Nat.add_0_r. cbn [imap app for_loop].
    rewrite take_drop. destruct dit; reflexivity.
  - cbn [for_loop].
    destruct (lookup_lt_is_Some_2 (images dit) start) as [image Himage]; [lia |].
    erewrite bind_Ok by (apply share_image_run, Himage).
    rewrite IH by (cbn [images set_images]; rewrite length_insert; lia).
    destruct dit as [ix imgs hv wp ic bi wd ht fm fl lg]. cbn [images] in *.
    unfold set_images. cbn [index images has_init_vulkan wait_for_present_supported
      image_count base_images width height format final_layout log].
    do 3 f_equal.
    rewrite (take_S_r _ _ (share s start image))
      by (apply list_lookup_insert_eq; lia).
    rewrite take_insert_ge by lia.
    rewrite !drop_insert_lt by lia.
    rewrite (drop_S imgs image start Himage). cbn [take imap].
    rewrite Nat.add_0_r, <- !app_assoc. cbn [app].
    replace (start + S n)%nat with (S start + n)%nat by lia.
    do 3 f_equal.
    apply imap_ext. intros k x _. cbn. f_equal. lia.
Qed.

Lemma find_exact_None (l : list VkFormat) :
  find is_known l = None -> find is_exact l = None.
Proof.
  induction l as [| f l IH]; [reflexivity |].
  destruct f; cbn [find]; decide_formats; try discriminate; exact IH.
Qed.

Lemma wants_one (l : list VkFormat) (first : VkFormat) :
  find is_known l = Some first -> wants_unorm l || wants_srgb l = true.
Proof.
  intros Hfirst. unfold wants_unorm, wants_srgb. rewrite Hfirst.
  apply find_some in Hfirst as [_ Hknown].
  destruct first; try discriminate Hknown; decide_formats;
    rewrite ?orb_true_r; reflexivity.
Qed.

(** With one of the two flags set, every image gets the sRGB view when
    [use_srgb] is set and the UNORM view otherwise. *)
Lemma imap_share (s : search) (l : list comp_target_image) (start : nat) :
  use_unorm s || use_srgb s = true ->
  imap (fun k => share s (start + k)) l
  = map (fun i => mk_image (Some i)
                    (Some (if use_srgb s then srgb_view i else unorm_view i)))
      (seq start (length l)).
Proof.
  intros Hone. revert start. induction l as [| image l IH]; intros start; [reflexivity |].
  cbn [imap length seq map]. f_equal.
  - rewrite Nat.add_0_r. unfold share.
    destruct (use_unorm s), (use_srgb s); try discriminate Hone; reflexivity.
  - rewrite <- IH. apply imap_ext. intros k x _. cbn. f_equal. lia.
Qed.

(** X12. [target_create_images] on a target past [target_init_post_vulkan].
    If the list holds none of the four 8-bit RGBA formats the assertion
    fails. Otherwise the target exports [COMP_SCRATCH_NUM_IMAGES] images
    of the requested extent in [VK_FORMAT_R8G8B8A8_SRGB] or
    [VK_FORMAT_R8G8B8A8_UNORM], never another format: sRGB exactly when
    the first of the four formats in the list is an sRGB one or the first
    [R8G8B8A8] format in it is; each image carries the view of that
    format. The warning is logged exactly when the list holds no
    [R8G8B8A8] format, and only the scratch images are asked to
    allocate. *)
Theorem target_create_images_format (create_info : comp_target_create_images_info)
    (dit : debug_image_target) :
  has_init_vulkan dit = true ->
  length (images dit) = COMP_SCRATCH_NUM_IMAGES ->
  let fs := formats create_info in
  (find is_known fs = None ->
   target_create_images create_info dit = Fault AssertionFailed)
  ∧ (find is_known fs ≠ None ->
     ∃ dit',
       target_create_images create_info dit = Ok (tt, dit')
       ∧ format dit' = (if wants_srgb fs then VK_FORMAT_R8G8B8A8_SRGB
                        else VK_FORMAT_R8G8B8A8_UNORM)
       ∧ images dit'
         = map (fun i => mk_image (Some i)
                           (Some (if wants_srgb fs then srgb_view i else unorm_view i)))
             (seq 0 COMP_SCRATCH_NUM_IMAGES)
       ∧ base_images dit' = true
       ∧ image_count dit' = Z.of_nat COMP_SCRATCH_NUM_IMAGES
       ∧ width dit' = extent_width (extent create_info)
       ∧ height dit' = extent_height (extent create_info)
       ∧ final_layout dit' = VK_IMAGE_LAYOUT_PRESENT_SRC_KHR
       ∧ log dit'
         = log dit
           ++ (if bool_decide (find is_exact fs = None) then [COMP_WARN] else [])
           ++ [comp_scratch_single_images_ensure_mutable (extent create_info)]).
Proof.
  intros Hinit Hlen fs. unfold target_create_images. fold fs.
  rewrite find_format_fresh. split.
  - intros Hnone. mstep reflexivity. rewrite Hinit.
    mstep reflexivity. cbn [use_unorm use_srgb].
    unfold wants_unorm, wants_srgb.
    rewrite (find_exact_None fs Hnone), Hnone. reflexivity.
  - intros Hsome.
    destruct (find is_known fs) as [first |] eqn:Hfirst; [clear Hsome | done].
    pose proof (wants_one fs first Hfirst) as Hone.
    mstep reflexivity. rewrite Hinit.
    mstep reflexivity. cbn [use_unorm use_srgb maybe_convert].
    rewrite Hone. mstep reflexivity.
    change (bool_decide (Some first = None)) with false.
    rewrite andb_true_r.
    set (warning := if bool_decide (find is_exact fs = None) then [COMP_WARN] else []).
    set (s := mk_search _ _ _).
    assert (Hwarned : ∃ dit1,
      (if bool_decide (find is_exact fs = None) then emit COMP_WARN else ret tt) dit
      = Ok (tt, dit1)
      ∧ images dit1 = images dit ∧ log dit1 = log dit ++ warning).
    { subst warning. destruct (bool_decide (find is_exact fs = None)).
      - eexists. split; [reflexivity |]. split; reflexivity.
      - exists dit. split; [reflexivity |]. rewrite app_nil_r. split; reflexivity. }
    destruct Hwarned as (dit1 & Hrun1 & Himages1 & Hlog1).
    mstep (exact Hrun1). mstep reflexivity.
    mstep (apply share_loop; cbn [images add_log]; rewrite Himages1; lia).
    mstep reflexivity.
    eexists. split; [reflexivity |].
    cbn [format images base_images image_count width height final_layout log
         set_exported set_images add_log use_unorm use_srgb].
    change (use_srgb s) with (wants_srgb fs).
    change (use_unorm s) with (wants_unorm fs).
    split.
    { destruct (wants_unorm fs), (wants_srgb fs); try discriminate Hone; reflexivity. }
    split.
    { rewrite Himages1, drop_0, take_0, Nat.add_0_l.
      rewrite drop_ge by lia. rewrite take_ge by lia.
      rewrite app_nil_r. cbn [app].
      rewrite (imap_share s (images dit) 0 Hone), Hlen. reflexivity. }
    repeat (split; [reflexivity |]).
    rewrite Hlog1, <- app_assoc. reflexivity.
Qed.

(** *** Acquire and present *)

(** A call through [ct->acquire] or [ct->present]. *)
Inductive call : Type :=
| Acquire
| Present (index : Z).

Definition perform (c : call) : M debug_image_target VkResult :=
  match c with
  | Acquire => r ← target_acquire; ret r.1
  | Present index => target_present index
  end.

Fixpoint perform_all (cs : list call) : M debug_image_target (list VkResult) :=
  match cs with
  | [] => ret []
  | c :: cs =>
    r ← perform c;
    rs ← perform_all cs;
    ret (r :: rs)
  end.

(** The calls take turns: an acquire finds no image held, a present
    names the image that the acquire before it returned. [held] is
    [dit->index], [gets] the number of images handed out so far. *)
Fixpoint alternates (held : Z) (gets : nat) (cs : list call) : Prop :=
  match cs with
  | [] => True
  | Acquire :: cs =>
    held = -1 ∧ alternates (wrap32 (scratch_index gets)) (S gets) cs
  | Present index :: cs =>
    held ≠ -1 ∧ index = held ∧ alternates (-1) gets cs
  end.

(** [index] is a [uint32_t] parameter. *)
Definition is_uint32 (c : call) : Prop :=
  match c with
  | Acquire => True
  | Present index => 0 <= index < 2 ^ 32
  end.

Lemma count_add (p : event -> bool) (l : list event) (e : event) :
  count p (l ++ [e]) = (count p l + if p e then 1 else 0)%nat.
Proof. induction l as [| x l IH]; cbn; [lia | rewrite IH; lia]. Qed.

Lemma target_acquire_run (dit : debug_image_target) :
  let i := wrap32 (scratch_index (count is_get (log dit))) in
  target_acquire dit
  = if index dit =? -1
    then Ok ((VK_SUCCESS, i), set_index i (add_log (comp_scratch_single_images_get i) dit))
    else Fault AssertionFailed.
Proof.
  intros i. unfold target_acquire. mstep reflexivity.
  destruct (index dit =? -1); reflexivity.
Qed.

Lemma target_present_run (i : Z) (dit : debug_image_target) :
  target_present i dit
  = if i =? index dit
    then Ok (VK_SUCCESS, set_index (-1) (add_log comp_scratch_single_images_done dit))
    else Fault AssertionFailed.
Proof.
  unfold target_present. mstep reflexivity.
  destruct (i =? index dit); reflexivity.
Qed.

Definition is_acquire (c : call) : bool :=
  match c with Acquire => true | Present _ => false end.

(** X13. A sequence of acquire and present calls on the debug image
    target runs without tripping an assertion exactly when the calls take
    turns, beginning with an acquire if no image is held, and every
    present passes the index that the acquire before it returned. Every
    call of such a sequence returns [VK_SUCCESS], and the scratch images
    hand out one image per acquire. Any other sequence ends in a failed
    assertion. *)
Theorem target_acquire_present_protocol (cs : list call) (dit : debug_image_target) :
  Forall is_uint32 cs ->
  (alternates (index dit) (count is_get (log dit)) cs ->
   ∃ dit',
     perform_all cs dit = Ok (replicate (length cs) VK_SUCCESS, dit')
     ∧ count is_get (log dit')
       = (count is_get (log dit) + length (filter is_acquire cs))%nat
     ∧ images dit' = images dit)
  ∧ (¬ alternates (index dit) (count is_get (log dit)) cs ->
     perform_all cs dit = Fault AssertionFailed).
Proof.
  intros Hrange. revert dit.
  induction Hrange as [| c cs Hc _ IH]; intros dit.
  { split; [| intros Hno; destruct Hno; exact I].
    intros _. exists dit. split; [reflexivity |]. cbn. split; [lia | reflexivity]. }
  destruct c as [| i]; cbn [alternates perform_all perform].
  - (* acquire *)
    set (i := wrap32 (scratch_index (count is_get (log dit)))).
    set (dit1 := set_index i (add_log (comp_scratch_single_images_get i) dit)).
    assert (Hgets : count is_get (log dit1) = S (count is_get (log dit))).
    { subst dit1. cbn [log set_index add_log]. rewrite count_add. cbn. lia. }
    destruct (IH dit1) as [IHyes IHno].
    rewrite Hgets in IHyes, IHno. change (index dit1) with i in IHyes, IHno.
    destruct (Z.eqb_spec (index dit) (-1)) as [Hidle | Hheld].
    + assert (Hrun : (r ← target_acquire; ret r.1) dit = Ok (VK_SUCCESS, dit1)).
      { mstep (rewrite target_acquire_run; apply Z.eqb_eq in Hidle; rewrite Hidle;
               reflexivity).
        reflexivity. }
      split.
      * intros [_ Halt]. destruct (IHyes Halt) as (dit' & Hall & Hcount & Himages).
        exists dit'. mstep (exact Hrun). mstep (exact Hall).
        split; [reflexivity |]. rewrite Hcount.
        rewrite filter_cons_True by reflexivity. cbn [length].
        split; [lia | exact Himages].
      * intros Hno. mstep (exact Hrun). rewrite bind_Fault with (f := AssertionFailed);
          [reflexivity |].
        apply IHno. intros Halt. apply Hno. split; [exact Hidle | exact Halt].
    + split; [intros [Hidle _]; contradiction |].
      intros _. unfold mbind, M_bind.
      rewrite bind_Fault with (f := AssertionFailed); [reflexivity |].
      rewrite bind_Fault with (f := AssertionFailed); [reflexivity |].
      rewrite target_acquire_run.
      apply Z.eqb_neq in Hheld. rewrite Hheld. reflexivity.
  - (* present *)
    set (dit1 := set_index (-1) (add_log comp_scratch_single_images_done dit)).
    assert (Hgets : count is_get (log dit1) = count is_get (log dit)).
    { subst dit1. cbn [log set_index add_log]. rewrite count_add. cbn. lia. }
    destruct (IH dit1) as [IHyes IHno].
    rewrite Hgets in IHyes, IHno. change (index dit1) with (-1) in IHyes, IHno.
    cbn [is_uint32] in Hc.
    destruct (Z.eqb_spec i (index dit)) as [Hsame | Hother].
    + assert (Hrun : target_present i dit = Ok (VK_SUCCESS, dit1)).
      { rewrite target_present_run. apply Z.eqb_eq in Hsame. rewrite Hsame.
        reflexivity. }
      split.
      * intros (_ & _ & Halt). destruct (IHyes Halt) as (dit' & Hall & Hcount & Himages).
        exists dit'. mstep (exact Hrun). mstep (exact Hall).
        split; [reflexivity |]. rewrite Hcount.
        rewrite filter_cons_False by (intros H; exact H).
        split; [lia | exact Himages].
      * intros Hno. mstep (exact Hrun). rewrite bind_Fault with (f := AssertionFailed);
          [reflexivity |].
        apply IHno. intros Halt. apply Hno.
        split; [lia |]. split; [exact Hsame | exact Halt].
    + split; [intros (_ & Hsame & _); contradiction |].
      intros _. unfold mbind, M_bind.
      rewrite bind_Fault with (f := AssertionFailed); [reflexivity |].
      rewrite target_present_run.
      apply Z.eqb_neq in Hother. rewrite Hother. reflexivity.
Qed.

End Target.

(** *** A target with three images *)

(** [target_create] followed by [target_init_post_vulkan]. *)
Definition initialised : debug_image_target :=
  set_has_init_vulkan true (target_create 3).

Lemma initialised_run :
  target_init_post_vulkan (target_create 3) = Ok (true, initialised).
Proof. reflexivity. Qed.

(** The compositor offers a format the target does not know, then
    [VK_FORMAT_B8G8R8A8_SRGB], then [VK_FORMAT_R8G8B8A8_UNORM]: the
    target exports sRGB images and logs no warning. A list of unknown
    formats only trips the assertion. *)
Lemma target_create_images_format_witness :
  target_create_images 3
    (mk_info (mk_extent 640 480) [VK_FORMAT_other 64; VK_FORMAT_other 97]) initialised
  = Fault AssertionFailed
  ∧ ∃ dit',
      target_create_images 3
        (mk_info (mk_extent 640 480)
           [VK_FORMAT_other 64; VK_FORMAT_B8G8R8A8_SRGB; VK_FORMAT_R8G8B8A8_UNORM])
        initialised
      = Ok (tt, dit')
      ∧ format dit' = VK_FORMAT_R8G8B8A8_SRGB
      ∧ images dit'
        = [mk_image (Some 0%nat) (Some (srgb_view 0));
           mk_image (Some 1%nat) (Some (srgb_view 1));
           mk_image (Some 2%nat) (Some (srgb_view 2))]
      ∧ base_images dit' = true
      ∧ image_count dit' = 3
      ∧ width dit' = 640
      ∧ height dit' = 480
      ∧ final_layout dit' = VK_IMAGE_LAYOUT_PRESENT_SRC_KHR
      ∧ log dit'
        = log initialised
          ++ [comp_scratch_single_images_ensure_mutable (mk_extent 640 480)].
Proof.
  split.
  - apply (proj1 (target_create_images_format 3
                    (mk_info (mk_extent 640 480) [VK_FORMAT_other 64; VK_FORMAT_other 97])
                    initialised eq_refl eq_refl)).
    reflexivity.
  - apply (proj2 (target_create_images_format 3
                    (mk_info (mk_extent 640 480)
                       [VK_FORMAT_other 64; VK_FORMAT_B8G8R8A8_SRGB;
                        VK_FORMAT_R8G8B8A8_UNORM])
                    initialised eq_refl eq_refl)).
    discriminate.
Defined.

(** The scratch images hand out 0, 1, 2, 0, ... *)
Definition round_robin (n : nat) : Z := Z.of_nat (n mod 3).

(** Two frames in turn; and a second acquire without a present. *)
Lemma target_acquire_present_protocol_witness :
  (∃ dit',
     perform_all round_robin [Acquire; Present 0; Acquire; Present 1] initialised
     = Ok ([VK_SUCCESS; VK_SUCCESS; VK_SUCCESS; VK_SUCCESS], dit')
     ∧ count is_get (log dit') = 2%nat
     ∧ images dit' = images initialised)
  ∧ perform_all round_robin [Acquire; Acquire] initialised = Fault AssertionFailed
  ∧ perform_all round_robin [Acquire; Present 1] initialised = Fault AssertionFailed.
Proof.
  split; [| split].
  - apply (proj1 (target_acquire_present_protocol round_robin
                    [Acquire; Present 0; Acquire; Present 1] initialised
                    ltac:(repeat constructor; cbn; lia))).
    cbn. unfold wrap32, round_robin. cbn. repeat split; discriminate.
  - apply (proj2 (target_acquire_present_protocol round_robin
                    [Acquire; Acquire] initialised
                    ltac:(repeat constructor; cbn; lia))).
    cbn. unfold wrap32, round_robin. cbn. intros (_ & Hheld & _). discriminate Hheld.
  - apply (proj2 (target_acquire_present_protocol round_robin
                    [Acquire; Present 1] initialised
                    ltac:(repeat constructor; cbn; lia))).
    cbn. unfold wrap32, round_robin. cbn. intros (_ & _ & Hindex & _).
    discriminate Hindex.
Defined.

End DebugImage.

(** ** Live statistics: [u_ls_ns_get_and_reset] (u_live_stats.cpp) *)

Module LiveStats.

(** [struct u_live_stats_ns]: the samples recorded since the last reset
    are [values[0 .. value_count)]. The array has
    [U_LIVE_STATS_VALUE_COUNT] entries (u_live_stats.h), here the length
    of [values]. *)
Record u_live_stats_ns : Type := mk_stats {
  value_count : nat;
  values : list Z;
}.

(** [std::sort(first, last)] on [uint64_t]: ascending order. *)
Definition std_sort (l : list Z) : list Z := merge_sort Z.le l.

(** The loop [mean += uls->values[i] / count], in [uint64_t]. *)
Definition accumulate_mean (count : nat) (l : list Z) (mean : Z) : Z :=
  foldl (fun mean v => wrap64 (mean + v / Z.of_nat count)) mean l.

(** [u_ls_ns_get_and_reset]: the struct afterwards and
    what it stores through [out_median], [out_mean] and [out_worst];
    [None] when [values[count]] lies beyond the end of the array. *)
Definition u_ls_ns_get_and_reset (uls : u_live_stats_ns)
  : option (u_live_stats_ns * (Z * Z * Z)) :=
  let count := value_count uls in
  if (count =? 0)%nat then Some (uls, (0, 0, 0))
  else if decide (count <= length (values uls))%nat then
    let values' := std_sort (take count (values uls)) ++ drop count (values uls) in
    worst ← values' !! (count - 1)%nat;
    median ← values' !! (count / 2)%nat;
    let mean := accumulate_mean count (take count values') 0 in
    Some (mk_stats 0 values', (median, mean, worst))
  else None.

(** The samples a call looks at. *)
Definition recorded (uls : u_live_stats_ns) : list Z :=
  take (value_count uls) (values uls).

Definition total (l : list Z) : Z := foldr Z.add 0 l.

(** The sum of the truncated quotients. *)
Definition quotients (count : nat) (l : list Z) : Z :=
  foldr (fun v acc => v / Z.of_nat count + acc) 0 l.

(** *** Sorted arrays *)

Lemma std_sort_sorted (l : list Z) : StronglySorted Z.le (std_sort l).
Proof. apply StronglySorted_merge_sort; typeclasses eauto. Qed.

Lemma std_sort_Permutation (l : list Z) : std_sort l ≡ₚ l.
Proof. apply merge_sort_Permutation. Qed.

Lemma sorted_below (s : list Z) (k : nat) (m v : Z) :
  StronglySorted Z.le s -> s !! k = Some m -> v ∈ take (S k) s -> v <= m.
Proof.
  intros Hs Hk Hv.
  rewrite (take_S_r s k m Hk) in Hv.
  apply elem_of_app in Hv as [Hv | Hv].
  - rewrite <- (take_drop k s) in Hs.
    apply (StronglySorted_app_1_elem_of _ _ _ v m Hs Hv).
    rewrite (drop_S s m k Hk). left.
  - apply list_elem_of_singleton in Hv. lia.
Qed.

Lemma sorted_above (s : list Z) (k : nat) (m v : Z) :
  StronglySorted Z.le s -> s !! k = Some m -> v ∈ drop k s -> m <= v.
Proof.
  intros Hs Hk Hv.
  rewrite (drop_S s m k Hk) in Hv.
  apply elem_of_cons in Hv as [-> | Hv]; [lia |].
  rewrite <- (take_drop (S k) s) in Hs.
  apply (StronglySorted_app_1_elem_of _ _ _ m v Hs); [| exact Hv].
  rewrite (take_S_r s k m Hk). apply elem_of_app. right. left.
Qed.

Lemma filter_none (P : Z -> Prop) `{∀ x, Decision (P x)} (l : list Z) :
  (∀ v, v ∈ l -> ¬ P v) -> filter P l = [].
Proof.
  induction l as [| x l IH]; intros Hall; [reflexivity |].
  rewrite filter_cons_False by (apply Hall; left).
  apply IH. intros v Hv. apply Hall. right. exact Hv.
Qed.

(** At most [k] elements of a sorted array are smaller than its element
    [k], and at most those after it are larger. *)
Lemma sorted_rank (s : list Z) (k : nat) (m : Z) :
  StronglySorted Z.le s -> s !! k = Some m ->
  (length (filter (fun v => (v < m)%Z) s) <= k)%nat
  ∧ (length (filter (fun v => (m < v)%Z) s) <= length s - 1 - k)%nat.
Proof.
  intros Hs Hk.
  assert (Hlt : (k < length s)%nat) by (apply lookup_lt_is_Some; eauto).
  split.
  - rewrite <- (take_drop k s) at 1. rewrite filter_app, length_app.
    rewrite (filter_none _ (drop k s)).
    + cbn. pose proof (length_filter (fun v => v < m) (take k s)) as Hle.
      rewrite length_take in Hle. lia.
    + intros v Hv. pose proof (sorted_above s k m v Hs Hk Hv). lia.
  - rewrite <- (take_drop (S k) s) at 1. rewrite filter_app, length_app.
    rewrite (filter_none _ (take (S k) s)).
    + cbn. pose proof (length_filter (fun v => m < v) (drop (S k) s)) as Hle.
      rewrite length_drop in Hle. lia.
    + intros v Hv. pose proof (sorted_below s k m v Hs Hk Hv). lia.
Qed.

(** *** The mean *)

Lemma total_Permutation (l l' : list Z) : l ≡ₚ l' -> total l = total l'.
Proof. unfold total. induction 1; cbn in *; lia. Qed.

Lemma quotients_Permutation (count : nat) (l l' : list Z) :
  l ≡ₚ l' -> quotients count l = quotients count l'.
Proof. unfold quotients. induction 1; cbn in *; lia. Qed.

Lemma quotient_nonneg (count : nat) (v : Z) : 0 <= v -> 0 <= v / Z.of_nat count.
Proof.
  intros Hv. destruct count as [| count].
  - change (Z.of_nat 0) with 0. rewrite Z.div_0_r. lia.
  - apply Z.div_pos; lia.
Qed.

Lemma quotients_nonneg (count : nat) (l : list Z) :
  Forall (fun v => 0 <= v) l -> 0 <= quotients count l.
Proof.
  induction 1 as [| v l Hv _ IH]; [cbn; lia |].
  cbn [quotients foldr]. fold (quotients count l).
  pose proof (quotient_nonneg count v Hv). lia.
Qed.

(** As long as the sum of the quotients fits 64 bits no addition wraps. *)
Lemma accumulate_mean_exact (count : nat) (l : list Z) (mean : Z) :
  Forall (fun v => 0 <= v) l ->
  0 <= mean ->
  mean + quotients count l <= SIZE_MAX ->
  accumulate_mean count l mean = mean + quotients count l.
Proof.
  intros Hl. revert mean.
  induction Hl as [| v l Hv Hl IH]; intros mean Hmean Hfit; cbn in *; [lia |].
  pose proof (quotients_nonneg count l Hl) as Hq.
  pose proof (quotient_nonneg count v Hv) as Hv'.
  fold (quotients count l) in *.
  unfold accumulate_mean in *. cbn [foldl].
  rewrite wrap64_small by lia.
  rewrite IH by lia. lia.
Qed.

(** The quotients of [n] values that are at most [top] each. *)
Lemma quotients_bound (count : nat) (l : list Z) (top : Z) :
  (0 < count)%nat ->
  Forall (fun v => v <= top) l ->
  quotients count l <= Z.of_nat (length l) * (top / Z.of_nat count).
Proof.
  intros Hcount. induction 1 as [| v l Hv _ IH]; [cbn; lia |].
  cbn [quotients foldr length]. fold (quotients count l).
  pose proof (Z.div_le_mono v top (Z.of_nat count)). lia.
Qed.

(** Truncation loses less than [count] per sample. *)
Lemma quotients_total (count : nat) (l : list Z) :
  (0 < count)%nat ->
  Forall (fun v => 0 <= v) l ->
  Z.of_nat count * quotients count l <= total l
  ∧ total l <= Z.of_nat count * quotients count l
               + Z.of_nat (length l) * (Z.of_nat count - 1).
Proof.
  intros Hcount. induction 1 as [| v l Hv _ IH]; [cbn; lia |].
  cbn [quotients total foldr length].
  fold (quotients count l). fold (total l).
  pose proof (Z.div_mod v (Z.of_nat count)).
  pose proof (Z.mod_pos_bound v (Z.of_nat count)).
  lia.
Qed.

(** *** The call on a window that is not empty *)

Lemma length_recorded (uls : u_live_stats_ns) :
  (value_count uls <= length (values uls))%nat ->
  length (std_sort (recorded uls)) = value_count uls.
Proof.
  intros Hfit. rewrite (Permutation_length (std_sort_Permutation _)).
  unfold recorded. rewrite length_take. lia.
Qed.

Lemma u_ls_ns_get_and_reset_run (uls : u_live_stats_ns) :
  (0 < value_count uls <= length (values uls))%nat ->
  let sorted := std_sort (recorded uls) in
  ∃ median worst,
    sorted !! (value_count uls / 2)%nat = Some median
    ∧ sorted !! (value_count uls - 1)%nat = Some worst
    ∧ u_ls_ns_get_and_reset uls
      = Some (mk_stats 0 (sorted ++ drop (value_count uls) (values uls)),
              (median, accumulate_mean (value_count uls) sorted 0, worst)).
Proof.
  intros [Hpos Hfit] sorted.
  pose proof (length_recorded uls Hfit) as Hlen. fold sorted in Hlen.
  assert (Hhalf : (value_count uls / 2 < value_count uls)%nat)
    by (apply Nat.div_lt; lia).
  destruct (lookup_lt_is_Some_2 sorted (value_count uls / 2)) as [median Hmedian];
    [lia |].
  destruct (lookup_lt_is_Some_2 sorted (value_count uls - 1)) as [worst Hworst];
    [lia |].
  exists median, worst. split; [exact Hmedian |]. split; [exact Hworst |].
  unfold u_ls_ns_get_and_reset.
  destruct (Nat.eqb_spec (value_count uls) 0) as [Hzero | _]; [lia |].
  rewrite decide_True by exact Hfit.
  fold (recorded uls). fold sorted.
  rewrite (lookup_app_l_Some _ _ _ _ Hworst). cbn [mbind option_bind].
  rewrite (lookup_app_l_Some _ _ _ _ Hmedian). cbn [mbind option_bind].
  rewrite take_app_length' by (symmetry; exact Hlen). reflexivity.
Qed.

Lemma values_recorded (uls : u_live_stats_ns) :
  values uls = recorded uls ++ drop (value_count uls) (values uls).
Proof. unfold recorded. rewrite take_drop. reflexivity. Qed.

(** X14. With no sample recorded, [u_ls_ns_get_and_reset] stores three
    zeros and leaves the struct alone. With [count] samples in the array
    it resets [value_count] to zero and leaves the same samples behind,
    the first [count] in ascending order and the rest where they were;
    [worst] is a recorded sample that no sample exceeds; [median] is a
    recorded sample with at most [count / 2] samples below it and at most
    [count - 1 - count / 2] above it. *)
Theorem u_ls_ns_get_and_reset_order (uls : u_live_stats_ns) :
  (value_count uls = 0%nat -> u_ls_ns_get_and_reset uls = Some (uls, (0, 0, 0)))
  ∧ ((0 < value_count uls <= length (values uls))%nat ->
     ∃ uls' median mean worst,
       u_ls_ns_get_and_reset uls = Some (uls', (median, mean, worst))
       ∧ value_count uls' = 0%nat
       ∧ values uls' ≡ₚ values uls
       ∧ StronglySorted Z.le (take (value_count uls) (values uls'))
       ∧ drop (value_count uls) (values uls') = drop (value_count uls) (values uls)
       ∧ worst ∈ recorded uls
       ∧ (∀ v, v ∈ recorded uls -> v <= worst)
       ∧ median ∈ recorded uls
       ∧ (length (filter (fun v => (v < median)%Z) (recorded uls))
          <= value_count uls / 2)%nat
       ∧ (length (filter (fun v => (median < v)%Z) (recorded uls))
          <= value_count uls - 1 - value_count uls / 2)%nat).
Proof.
  split.
  - intros Hzero. unfold u_ls_ns_get_and_reset. rewrite Hzero. reflexivity.
  - intros Hcount.
    destruct (u_ls_ns_get_and_reset_run uls Hcount) as (median & worst & Hm & Hw & Hrun).
    destruct Hcount as [Hpos Hfit].
    pose proof (length_recorded uls Hfit) as Hlen.
    pose proof (std_sort_sorted (recorded uls)) as Hsorted.
    pose proof (std_sort_Permutation (recorded uls)) as Hperm.
    set (sorted := std_sort (recorded uls)) in *.
    eexists _, median, _, worst. split; [exact Hrun |]. cbn [value_count values].
    split; [reflexivity |].
    split; [rewrite (values_recorded uls) at 2; rewrite Hperm; reflexivity |].
    split; [rewrite take_app_length' by (symmetry; exact Hlen); exact Hsorted |].
    split; [rewrite drop_app_length' by (symmetry; exact Hlen); reflexivity |].
    split; [rewrite <- Hperm; eapply list_elem_of_lookup_2, Hw |].
    split.
    { intros v Hv. rewrite <- Hperm in Hv.
      apply (sorted_below sorted (value_count uls - 1) worst v Hsorted Hw).
      rewrite take_ge by lia. exact Hv. }
    split; [rewrite <- Hperm; eapply list_elem_of_lookup_2, Hm |].
    destruct (sorted_rank sorted (value_count uls / 2) median Hsorted Hm)
      as [Hbelow Habove].
    rewrite <- !Hperm. rewrite Hlen in Habove. split; assumption.
Qed.

(** Twelve slots, five samples. *)
Definition five_samples : u_live_stats_ns :=
  mk_stats 5 [40; 10; 50; 20; 30; 7; 7; 7; 7; 7; 7; 7].

Lemma u_ls_ns_get_and_reset_order_witness :
  u_ls_ns_get_and_reset five_samples
  = Some (mk_stats 0 [10; 20; 30; 40; 50; 7; 7; 7; 7; 7; 7; 7], (30, 30, 50))
  ∧ ∃ uls' median mean worst,
      u_ls_ns_get_and_reset five_samples = Some (uls', (median, mean, worst))
      ∧ value_count uls' = 0%nat
      ∧ values uls' ≡ₚ values five_samples
      ∧ StronglySorted Z.le (take 5 (values uls'))
      ∧ drop 5 (values uls') = drop 5 (values five_samples)
      ∧ worst ∈ recorded five_samples
      ∧ (∀ v, v ∈ recorded five_samples -> v <= worst)
      ∧ median ∈ recorded five_samples
      ∧ (length (filter (fun v => (v < median)%Z) (recorded five_samples)) <= 2)%nat
      ∧ (length (filter (fun v => (median < v)%Z) (recorded five_samples)) <= 2)%nat.
Proof.
  split; [reflexivity |].
  apply (proj2 (u_ls_ns_get_and_reset_order five_samples)).
  cbn. lia.
Defined.

(** X15. With [count] samples, each a [uint64_t], the additions of
    [u_ls_ns_get_and_reset] never wrap: [mean] is the sum of the truncated
    quotients [values[i] / count]. It is at most the exact average and
    falls short of it by less than [count]:
    [count * mean <= sum <= count * mean + count * (count - 1)]; and it is
    at most [worst]. *)
Theorem u_ls_ns_get_and_reset_mean (uls : u_live_stats_ns) :
  (0 < value_count uls <= length (values uls))%nat ->
  Forall (fun v => 0 <= v <= SIZE_MAX) (recorded uls) ->
  let count := Z.of_nat (value_count uls) in
  ∃ uls' median mean worst,
    u_ls_ns_get_and_reset uls = Some (uls', (median, mean, worst))
    ∧ mean = quotients (value_count uls) (recorded uls)
    ∧ count * mean <= total (recorded uls)
    ∧ total (recorded uls) <= count * mean + count * (count - 1)
    ∧ 0 <= mean <= worst.
Proof.
  intros Hcount Hrange count.
  destruct (u_ls_ns_get_and_reset_run uls Hcount) as (median & worst & Hm & Hw & Hrun).
  destruct Hcount as [Hpos Hfit].
  pose proof (length_recorded uls Hfit) as Hlen.
  pose proof (std_sort_sorted (recorded uls)) as Hsorted.
  pose proof (std_sort_Permutation (recorded uls)) as Hperm.
  set (sorted := std_sort (recorded uls)) in *.
  assert (Hnonneg : Forall (fun v => 0 <= v) sorted).
  { rewrite Hperm. eapply Forall_impl; [exact Hrange |]. cbn. lia. }
  assert (Hworst_range : 0 <= worst <= SIZE_MAX).
  { assert (Hin : worst ∈ recorded uls)
      by (rewrite <- Hperm; eapply list_elem_of_lookup_2, Hw).
    rewrite Forall_forall in Hrange. apply Hrange, Hin. }
  assert (Htop : Forall (fun v => v <= worst) sorted).
  { apply Forall_forall. intros v Hv.
    apply (sorted_below sorted (value_count uls - 1) worst v Hsorted Hw).
    rewrite take_ge by lia. exact Hv. }
  pose proof (quotients_bound (value_count uls) sorted worst Hpos Htop) as Hbound.
  rewrite Hlen in Hbound.
  assert (Hle : quotients (value_count uls) sorted <= worst).
  { pose proof (Z.mul_div_le worst (Z.of_nat (value_count uls))). lia. }
  pose proof (quotients_nonneg (value_count uls) sorted Hnonneg) as Hq.
  assert (Hexact : accumulate_mean (value_count uls) sorted 0
                   = quotients (value_count uls) sorted).
  { rewrite accumulate_mean_exact by (done || lia). lia. }
  destruct (quotients_total (value_count uls) sorted Hpos Hnonneg) as [Hlow Hhigh].
  rewrite Hlen in Hhigh.
  rewrite (total_Permutation _ _ Hperm) in Hlow, Hhigh.
  rewrite (quotients_Permutation _ _ _ Hperm) in Hexact, Hlow, Hhigh, Hle, Hq.
  eexists _, median, _, worst. split; [exact Hrun |].
  rewrite Hexact. subst count. repeat split; lia.
Qed.

(** The five samples sum to 150: the mean is exact here. With samples
    7, 8 and 9 the quotients are 2, 2 and 3, the mean 7. *)
Lemma u_ls_ns_get_and_reset_mean_witness :
  ∃ uls' median mean worst,
    u_ls_ns_get_and_reset five_samples = Some (uls', (median, mean, worst))
    ∧ mean = quotients 5 (recorded five_samples)
    ∧ 5 * mean <= total (recorded five_samples)
    ∧ total (recorded five_samples) <= 5 * mean + 5 * (5 - 1)
    ∧ 0 <= mean <= worst.
Proof.
  apply (u_ls_ns_get_and_reset_mean five_samples).
  - cbn. lia.
  - unfold SIZE_MAX. cbn. repeat constructor; lia.
Defined.

(** X16. The three results depend on the recorded samples only, not on
    the order in which they were recorded: two structs whose windows hold
    the same samples give the same median, mean and worst. *)
Theorem u_ls_ns_get_and_reset_order_independent (uls1 uls2 : u_live_stats_ns) :
  (value_count uls1 <= length (values uls1))%nat ->
  (value_count uls2 <= length (values uls2))%nat ->
  recorded uls1 ≡ₚ recorded uls2 ->
  is_Some (u_ls_ns_get_and_reset uls1)
  ∧ snd <$> u_ls_ns_get_and_reset uls1 = snd <$> u_ls_ns_get_and_reset uls2.
Proof.
  intros Hfit1 Hfit2 Hperm.
  assert (Hcount : value_count uls1 = value_count uls2).
  { apply Permutation_length in Hperm. unfold recorded in Hperm.
    rewrite !length_take in Hperm. lia. }
  destruct (decide (value_count uls1 = 0%nat)) as [Hzero | Hpos].
  - unfold u_ls_ns_get_and_reset. rewrite <- Hcount, Hzero. cbn.
    split; [eexists; reflexivity | reflexivity].
  - destruct (u_ls_ns_get_and_reset_run uls1) as (m1 & w1 & Hm1 & Hw1 & Hrun1);
      [lia |].
    destruct (u_ls_ns_get_and_reset_run uls2) as (m2 & w2 & Hm2 & Hw2 & Hrun2);
      [lia |].
    assert (Hsame : std_sort (recorded uls1) = std_sort (recorded uls2)).
    { apply (StronglySorted_unique Z.le); [apply std_sort_sorted .. |].
      rewrite !std_sort_Permutation. exact Hperm. }
    rewrite Hrun1, Hrun2. split; [eexists; reflexivity |]. cbn.
    rewrite <- Hcount, <- Hsame in *.
    rewrite Hm1 in Hm2. rewrite Hw1 in Hw2.
    injection Hm2 as <-. injection Hw2 as <-. reflexivity.
Qed.

(** The five samples in another order, in a larger array. *)
Lemma u_ls_ns_get_and_reset_order_independent_witness :
  is_Some (u_ls_ns_get_and_reset five_samples)
  ∧ snd <$> u_ls_ns_get_and_reset five_samples
    = snd <$> u_ls_ns_get_and_reset
                (mk_stats 5 [50; 40; 30; 20; 10; 0; 0; 0; 0; 0; 0; 0; 0; 0; 0; 0]).
Proof.
  apply (u_ls_ns_get_and_reset_order_independent five_samples
           (mk_stats 5 [50; 40; 30; 20; 10; 0; 0; 0; 0; 0; 0; 0; 0; 0; 0; 0])).
  - cbn. lia.
  - cbn. lia.
  - rewrite <- (std_sort_Permutation (recorded five_samples)).
    rewrite <- (std_sort_Permutation (recorded (mk_stats _ _))).
    reflexivity.
Defined.

End LiveStats.

(** ** Frame sinks: the splitter and the quirk sink
       (u_sink_split.c, u_sink_quirk.c) *)

Module Sink.

(** The [xrt_format] and [xrt_stereo_format] values the two files name;
    any other value keeps its number. *)
Inductive xrt_format : Type :=
| XRT_FORMAT_L8
| XRT_FORMAT_BAYER_GR8
| XRT_FORMAT_other (n : Z).

Inductive xrt_stereo_format : Type :=
| XRT_STEREO_FORMAT_SBS
| XRT_STEREO_FORMAT_INTERLEAVED
| XRT_STEREO_FORMAT_other (n : Z).

#[global] Instance xrt_format_eq_dec : EqDecision xrt_format.
Proof. solve_decision. Defined.

(** The fields of [struct xrt_frame] that the sinks touch; [data] is the
    offset of the pixel pointer into its buffer. [width] and [height] are
    [uint32_t]. *)
Record xrt_frame : Type := mk_frame {
  width : Z;
  height : Z;
  format : xrt_format;
  stereo_format : xrt_stereo_format;
  data : Z;
}.

Definition set_width (v : Z) (xf : xrt_frame) : xrt_frame :=
  mk_frame v (height xf) (format xf) (stereo_format xf) (data xf).
Definition set_height (v : Z) (xf : xrt_frame) : xrt_frame :=
  mk_frame (width xf) v (format xf) (stereo_format xf) (data xf).
Definition set_format (v : xrt_format) (xf : xrt_frame) : xrt_frame :=
  mk_frame (width xf) (height xf) v (stereo_format xf) (data xf).
Definition set_stereo_format (v : xrt_stereo_format) (xf : xrt_frame) : xrt_frame :=
  mk_frame (width xf) (height xf) (format xf) v (data xf).
Definition set_data (v : Z) (xf : xrt_frame) : xrt_frame :=
  mk_frame (width xf) (height xf) (format xf) (stereo_format xf) v.

Definition wrap32 (z : Z) : Z := z mod 2 ^ 32.

(** One frame travels through the sinks by pointer: [frame] is the
    object every sink is handed, [seen] what each sink outside these two
    files found in it when its [push_frame] was called. *)
Record world : Type := mk_world {
  frame : xrt_frame;
  seen : list (nat * xrt_frame);
}.

(** A [struct xrt_frame_sink *]: its [push_frame], bound to the sink. *)
Definition xrt_frame_sink : Type := M world unit.

Definition xrt_sink_push_frame (sink : xrt_frame_sink) : M world unit := sink.

(** A sink of some other file, which reads the frame it is given. *)
Definition outside (name : nat) : xrt_frame_sink :=
  modify (fun w => mk_world (frame w) (seen w ++ [(name, frame w)])).

(** The nodes a [struct xrt_frame_context] has been given. *)
Inductive xrt_frame_node : Type := split_node | quirk_node.

Definition xrt_frame_context_add (node : xrt_frame_node)
  : M (list xrt_frame_node) unit :=
  modify (fun xfctx => xfctx ++ [node]).

(** *** The splitter *)

Record u_sink_split : Type := mk_split {
  downstreams : list (option xrt_frame_sink);
  downstream_count : nat;
}.

Definition split_frame (s : u_sink_split) : M world unit :=
  for_loop 0 (downstream_count s) (fun i =>
    match downstreams s !! i with
    | None => stop OutOfBounds
    | Some None => ret tt
    | Some (Some sink) => xrt_sink_push_frame sink
    end).

Section Split.

(** The size of the array [downstreams] (u_sink.h). *)
Variable U_SINK_MAX_SPLIT_DOWNSTREAMS : nat.

(** [u_sink_split_multi_create]: the struct comes zeroed from [calloc],
    the first [downstream_count] pointers are copied over it. Copying
    more pointers than the caller's array holds is undefined. *)
Definition u_sink_split_multi_create (downstreams : list (option xrt_frame_sink))
    (downstream_count : nat) : M (list xrt_frame_node) u_sink_split :=
  assert_ (downstream_count <=? U_SINK_MAX_SPLIT_DOWNSTREAMS)%nat;;
  if decide (downstream_count <= length downstreams)%nat then
    let s := mk_split
               (take downstream_count downstreams
                ++ replicate (U_SINK_MAX_SPLIT_DOWNSTREAMS - downstream_count) None)
               downstream_count in
    xrt_frame_context_add split_node;;
    ret s
  else stop OutOfBounds.

Definition u_sink_split_create (left right : option xrt_frame_sink)
  : M (list xrt_frame_node) u_sink_split :=
  u_sink_split_multi_create [left; right] 2.

End Split.

(** *** The quirk sink *)

Record u_sink_quirk_params : Type := mk_params {
  stereo_sbs : bool;
  ps4_cam : bool;
  leap_motion : bool;
  bayer_as_l8 : bool;
}.

Record u_sink_quirk : Type := mk_quirk {
  downstream : xrt_frame_sink;
  params : u_sink_quirk_params;
}.

(** The assignments of [quirk_frame] to [*xf], in order. *)
Definition quirks (p : u_sink_quirk_params) (xf : xrt_frame) : xrt_frame :=
  let xf := if stereo_sbs p then set_stereo_format XRT_STEREO_FORMAT_SBS xf else xf in
  let xf :=
    if leap_motion p then
      let xf := set_stereo_format XRT_STEREO_FORMAT_INTERLEAVED xf in
      let xf := set_format XRT_FORMAT_L8 xf in
      set_width (wrap32 (width xf * 2)) xf
    else xf in
  let xf :=
    if ps4_cam p then
      (* Stereo format. *)
      let xf := set_stereo_format XRT_STEREO_FORMAT_SBS xf in
      (* Apply a offset. *)
      let xf := set_data (data xf + (32 + 64)) xf in
      if width xf =? 3448 then set_height 800 (set_width (1280 * 2) xf)
      else if width xf =? 1748 then set_height 400 (set_width (640 * 2) xf)
      else if width xf =? 898 then set_height 192 (set_width (320 * 2) xf)
      else xf
    else xf in
  if bayer_as_l8 p && bool_decide (format xf = XRT_FORMAT_BAYER_GR8)
  then set_format XRT_FORMAT_L8 xf
  else xf.

Definition quirk_frame (q : u_sink_quirk) : M world unit :=
  modify (fun w => mk_world (quirks (params q) (frame w)) (seen w));;
  xrt_sink_push_frame (downstream q).

Definition u_sink_quirk_create (downstream : xrt_frame_sink)
    (params : u_sink_quirk_params) : M (list xrt_frame_node) u_sink_quirk :=
  let q := mk_quirk downstream params in
  xrt_frame_context_add quirk_node;;
  ret q.

(** *** What a splitter delivers *)

(** Pushing to each sink of a list in turn. *)
Definition push_all (sinks : list xrt_frame_sink) : M world unit :=
  foldr (fun sink rest => xrt_sink_push_frame sink;; rest) (ret tt) sinks.

(** The sinks among the first [n] pointers that are not [NULL]. *)
Definition connected (downstreams : list (option xrt_frame_sink)) (n : nat)
  : list xrt_frame_sink :=
  omap (fun sink => sink) (take n downstreams).

Lemma split_loop (before l after : list (option xrt_frame_sink)) (w : world) :
  for_loop (length before) (length l) (fun i =>
    match (before ++ l ++ after) !! i with
    | None => stop OutOfBounds
    | Some None => ret tt
    | Some (Some sink) => xrt_sink_push_frame sink
    end) w
  = push_all (omap (fun sink => sink) l) w.
Proof.
  revert before w. induction l as [| d l IH]; intros before w; [reflexivity |].
  cbn [length for_loop]. unfold bind at 1. cbn beta.
  change ((d :: l) ++ after) with (d :: l ++ after).
  rewrite (list_lookup_middle before (l ++ after) d (length before) eq_refl).
  replace (before ++ d :: l ++ after) with ((before ++ [d]) ++ l ++ after)
    by (rewrite <- app_assoc; reflexivity).
  replace (S (length before)) with (length (before ++ [d]))
    by (rewrite length_app; cbn; lia).
  destruct d as [sink |]; cbn.
  - unfold mbind, M_bind, bind, xrt_sink_push_frame.
    destruct (sink w) as [[[] w'] | f]; [| reflexivity].
    apply IH.
  - apply IH.
Qed.

(** Within its bounds [u_sink_split_multi_create] returns a splitter
    that pushes to the connected sinks in turn. *)
Lemma u_sink_split_multi_create_run (U_SINK_MAX_SPLIT_DOWNSTREAMS : nat)
    (given : list (option xrt_frame_sink)) (count : nat)
    (xfctx : list xrt_frame_node) :
  (count <= U_SINK_MAX_SPLIT_DOWNSTREAMS)%nat ->
  (count <= length given)%nat ->
  ∃ s,
    u_sink_split_multi_create U_SINK_MAX_SPLIT_DOWNSTREAMS given count xfctx
    = Ok (s, xfctx ++ [split_node])
    ∧ length (downstreams s) = U_SINK_MAX_SPLIT_DOWNSTREAMS
    ∧ ∀ w, split_frame s w = push_all (connected given count) w.
Proof.
  intros Hmax Hgiven. unfold u_sink_split_multi_create.
  destruct (Nat.leb_spec count U_SINK_MAX_SPLIT_DOWNSTREAMS) as [_ | Hgt]; [| lia].
  rewrite decide_True by exact Hgiven.
  eexists. split; [reflexivity |]. cbn [downstreams downstream_count].
  split; [rewrite length_app, length_take, length_replicate; lia |].
  intros w. unfold split_frame. cbn [downstreams downstream_count].
  pose proof (split_loop [] (take count given)
                (replicate (U_SINK_MAX_SPLIT_DOWNSTREAMS - count) None) w) as Hloop.
  rewrite length_take, Nat.min_l in Hloop by exact Hgiven.
  exact Hloop.
Qed.

(** X17. [u_sink_split_multi_create] refuses, by assertion, more
    downstreams than the array holds. Otherwise it adds one node to the
    frame context and returns a splitter whose [split_frame] pushes the
    frame to the first [downstream_count] sinks it was given, in their
    order, skipping the [NULL] ones, and to no other sink; it stops at the
    first sink that does not return. *)
Theorem u_sink_split_multi_create_delivers (U_SINK_MAX_SPLIT_DOWNSTREAMS : nat)
    (given : list (option xrt_frame_sink)) (count : nat)
    (xfctx : list xrt_frame_node) :
  ((U_SINK_MAX_SPLIT_DOWNSTREAMS < count)%nat ->
   u_sink_split_multi_create U_SINK_MAX_SPLIT_DOWNSTREAMS given count xfctx
   = Fault AssertionFailed)
  ∧ ((count <= U_SINK_MAX_SPLIT_DOWNSTREAMS)%nat ->
     (count <= length given)%nat ->
     ∃ s,
       u_sink_split_multi_create U_SINK_MAX_SPLIT_DOWNSTREAMS given count xfctx
       = Ok (s, xfctx ++ [split_node])
       ∧ length (downstreams s) = U_SINK_MAX_SPLIT_DOWNSTREAMS
       ∧ ∀ w, split_frame s w = push_all (connected given count) w).
Proof.
  unfold u_sink_split_multi_create. split.
  - intros Hmany.
    destruct (Nat.leb_spec count U_SINK_MAX_SPLIT_DOWNSTREAMS) as [Hle | _]; [lia |].
    reflexivity.
  - intros Hmax Hgiven. fold (u_sink_split_multi_create U_SINK_MAX_SPLIT_DOWNSTREAMS
                                 given count xfctx).
    apply u_sink_split_multi_create_run; assumption.
Qed.

Lemma u_sink_split_multi_create_delivers_witness :
  u_sink_split_multi_create 4 [Some (outside 7); None; Some (outside 9)] 5 []
  = Fault AssertionFailed
  ∧ ∃ s,
      u_sink_split_multi_create 4 [Some (outside 7); None; Some (outside 9)] 3 []
      = Ok (s, [split_node])
      ∧ length (downstreams s) = 4%nat
      ∧ ∀ w, split_frame s w = push_all [outside 7; outside 9] w.
Proof.
  split.
  - apply (proj1 (u_sink_split_multi_create_delivers 4
                    [Some (outside 7); None; Some (outside 9)] 5 [])).
    lia.
  - apply (proj2 (u_sink_split_multi_create_delivers 4
                    [Some (outside 7); None; Some (outside 9)] 3 [])).
    + lia.
    + cbn. lia.
Defined.

(** X18. The splitter hands every downstream the same frame object, and
    the quirk sink rewrites that object in place. With a quirk sink on the
    left of [u_sink_split_create] and another sink on the right, the
    right sink receives the rewritten frame; with the two exchanged it
    receives the frame as it came, and the sink behind the quirk sink the
    rewritten one. *)
Theorem split_frame_shares_frame (U_SINK_MAX_SPLIT_DOWNSTREAMS : nat)
    (p : u_sink_quirk_params) (a b : nat) (w : world) :
  (2 <= U_SINK_MAX_SPLIT_DOWNSTREAMS)%nat ->
  let rewritten := quirks p (frame w) in
  ∃ q s s',
    u_sink_quirk_create (outside a) p [] = Ok (q, [quirk_node])
    ∧ u_sink_split_create U_SINK_MAX_SPLIT_DOWNSTREAMS
        (Some (quirk_frame q)) (Some (outside b)) [quirk_node]
      = Ok (s, [quirk_node; split_node])
    ∧ split_frame s w
      = Ok (tt, mk_world rewritten (seen w ++ [(a, rewritten); (b, rewritten)]))
    ∧ u_sink_split_create U_SINK_MAX_SPLIT_DOWNSTREAMS
        (Some (outside b)) (Some (quirk_frame q)) [quirk_node]
      = Ok (s', [quirk_node; split_node])
    ∧ split_frame s' w
      = Ok (tt, mk_world rewritten (seen w ++ [(b, frame w); (a, rewritten)])).
Proof.
  intros Hmax rewritten.
  exists (mk_quirk (outside a) p).
  destruct (u_sink_split_multi_create_run U_SINK_MAX_SPLIT_DOWNSTREAMS
              [Some (quirk_frame (mk_quirk (outside a) p)); Some (outside b)]
              2 [quirk_node])
    as (s & Hs & _ & Hpush); [lia | cbn; lia |].
  destruct (u_sink_split_multi_create_run U_SINK_MAX_SPLIT_DOWNSTREAMS
              [Some (outside b); Some (quirk_frame (mk_quirk (outside a) p))]
              2 [quirk_node])
    as (s' & Hs' & _ & Hpush'); [lia | cbn; lia |].
  exists s, s'.
  split; [reflexivity |].
  split; [exact Hs |].
  split.
  { rewrite Hpush. unfold connected, push_all. cbn [take omap list_omap foldr].
    cbv [mbind M_bind bind xrt_sink_push_frame quirk_frame outside modify ret
         downstream params frame seen].
    rewrite <- app_assoc. reflexivity. }
  split; [exact Hs' |].
  rewrite Hpush'. unfold connected, push_all. cbn [take omap list_omap foldr].
  cbv [mbind M_bind bind xrt_sink_push_frame quirk_frame outside modify ret
       downstream params frame seen].
  rewrite <- app_assoc. reflexivity.
Qed.

(** A Leap Motion frame of 640 x 240. *)
Definition leap_frame : xrt_frame :=
  mk_frame 640 240 (XRT_FORMAT_other 0) (XRT_STEREO_FORMAT_other 0) 0.

Definition leap_params : u_sink_quirk_params := mk_params false false true false.

Lemma split_frame_shares_frame_witness :
  ∃ q s s',
    u_sink_quirk_create (outside 1) leap_params [] = Ok (q, [quirk_node])
    ∧ u_sink_split_create 2 (Some (quirk_frame q)) (Some (outside 2)) [quirk_node]
      = Ok (s, [quirk_node; split_node])
    ∧ split_frame s (mk_world leap_frame [])
      = Ok (tt, mk_world
                  (mk_frame 1280 240 XRT_FORMAT_L8 XRT_STEREO_FORMAT_INTERLEAVED 0)
                  [(1%nat, mk_frame 1280 240 XRT_FORMAT_L8 XRT_STEREO_FORMAT_INTERLEAVED 0);
                   (2%nat, mk_frame 1280 240 XRT_FORMAT_L8 XRT_STEREO_FORMAT_INTERLEAVED 0)])
    ∧ u_sink_split_create 2 (Some (outside 2)) (Some (quirk_frame q)) [quirk_node]
      = Ok (s', [quirk_node; split_node])
    ∧ split_frame s' (mk_world leap_frame [])
      = Ok (tt, mk_world
                  (mk_frame 1280 240 XRT_FORMAT_L8 XRT_STEREO_FORMAT_INTERLEAVED 0)
                  [(2%nat, leap_frame);
                   (1%nat, mk_frame 1280 240 XRT_FORMAT_L8 XRT_STEREO_FORMAT_INTERLEAVED 0)]).
Proof.
  exact (split_frame_shares_frame 2 leap_params 1 2 (mk_world leap_frame []) (le_n 2)).
Defined.

Ltac quirk_cases :=
  unfold quirks; cbn -[Z.eqb Z.mul wrap32];
  repeat (case_match; cbn -[Z.eqb Z.mul wrap32] in * ).

(** X19. What the sink behind a quirk sink receives. It is pushed to
    once. With [bayer_as_l8] the frame is never [XRT_FORMAT_BAYER_GR8];
    with [leap_motion] it is [XRT_FORMAT_L8]. With [ps4_cam] it is side by
    side, its pixel pointer has moved 96 bytes, and its size is one of
    2560 x 800, 1280 x 400 and 640 x 192 or the size it had; without
    [ps4_cam] pointer and height are as they came. With no quirk set the
    frame is untouched. A width that fits 32 bits stays so. *)
Theorem quirk_frame_received (p : u_sink_quirk_params) (name : nat) (w : world) :
  ∃ xf,
    quirk_frame (mk_quirk (outside name) p) w
    = Ok (tt, mk_world xf (seen w ++ [(name, xf)]))
    ∧ (bayer_as_l8 p = true -> format xf ≠ XRT_FORMAT_BAYER_GR8)
    ∧ (leap_motion p = true -> format xf = XRT_FORMAT_L8)
    ∧ (ps4_cam p = true ->
       stereo_format xf = XRT_STEREO_FORMAT_SBS
       ∧ data xf = data (frame w) + 96
       ∧ ((width xf, height xf) ∈ [(2560, 800); (1280, 400); (640, 192)]
          ∨ (height xf = height (frame w)
             ∧ width xf = if leap_motion p then wrap32 (width (frame w) * 2)
                          else width (frame w))))
    ∧ (ps4_cam p = false ->
       data xf = data (frame w) ∧ height xf = height (frame w))
    ∧ (p = mk_params false false false false -> xf = frame w)
    ∧ (0 <= width (frame w) < 2 ^ 32 -> 0 <= width xf < 2 ^ 32).
Proof.
  exists (quirks p (frame w)). split; [reflexivity |].
  destruct w as [[wd ht fmt st dt] sn]. cbn [frame].
  destruct p as [sbs ps4 leap bayer].
  cbn [bayer_as_l8 leap_motion ps4_cam].
  assert (Hwrap : 0 <= wrap32 (wd * 2) < 2 ^ 32)
    by (unfold wrap32; apply Z.mod_pos_bound; lia).
  split; [| split; [| split; [| split; [| split]]]].
  - intros ->. destruct sbs, ps4, leap; quirk_cases; try discriminate;
      intros ->;
      match goal with
      | H : bool_decide _ = false |- _ =>
        apply bool_decide_eq_false in H; apply H; reflexivity
      end.
  - intros ->. destruct sbs, ps4, bayer; quirk_cases; reflexivity.
  - intros ->. split; [| split].
    + destruct sbs, leap, bayer; quirk_cases; reflexivity.
    + destruct sbs, leap, bayer; quirk_cases; reflexivity.
    + destruct sbs, leap, bayer; quirk_cases;
        first [ right; split; reflexivity | left; set_solver ].
  - intros ->. split; destruct sbs, leap, bayer; quirk_cases; reflexivity.
  - intros [= -> -> -> ->]. reflexivity.
  - intros Hwidth. cbn [width] in Hwidth.
    destruct sbs, ps4, leap, bayer; quirk_cases; lia.
Qed.

(** A PS4 camera frame of 3448 x 808 in Bayer format, through a quirk
    sink with [ps4_cam] and [bayer_as_l8]. *)
Lemma quirk_frame_received_witness :
  quirk_frame (mk_quirk (outside 3) (mk_params false true false true))
    (mk_world (mk_frame 3448 808 XRT_FORMAT_BAYER_GR8 (XRT_STEREO_FORMAT_other 0) 0) [])
  = Ok (tt, mk_world (mk_frame 2560 800 XRT_FORMAT_L8 XRT_STEREO_FORMAT_SBS 96)
              [(3%nat, mk_frame 2560 800 XRT_FORMAT_L8 XRT_STEREO_FORMAT_SBS 96)])
  ∧ ∃ xf,
      quirk_frame (mk_quirk (outside 3) (mk_params false true false true))
        (mk_world (mk_frame 3448 808 XRT_FORMAT_BAYER_GR8 (XRT_STEREO_FORMAT_other 0) 0) [])
      = Ok (tt, mk_world xf [(3%nat, xf)])
      ∧ format xf ≠ XRT_FORMAT_BAYER_GR8
      ∧ stereo_format xf = XRT_STEREO_FORMAT_SBS
      ∧ data xf = 96
      ∧ 0 <= width xf < 2 ^ 32.
Proof.
  split; [reflexivity |].
  destruct (quirk_frame_received (mk_params false true false true) 3
              (mk_world (mk_frame 3448 808 XRT_FORMAT_BAYER_GR8
                           (XRT_STEREO_FORMAT_other 0) 0) []))
    as (xf & Hrun & Hbayer & _ & Hps4 & _ & _ & Hwidth).
  exists xf. split; [exact Hrun |].
  split; [apply Hbayer; reflexivity |].
  destruct (Hps4 eq_refl) as (Hstereo & Hdata & _).
  split; [exact Hstereo |]. split; [exact Hdata |].
  apply Hwidth. cbn. lia.
Defined.

End Sink.

(** ** Rift: bringing the headset up and taking it down (rift_hmd.c)

    [rift_send_keepalive], [rift_get_report], [rift_get_config],
    [rift_get_display_info], [rift_get_lens_distortion], [rift_set_config],
    [rift_hmd_destroy] and [rift_hmd_create], on top of
    [Rift.rift_send_report].

    The report structs, their sizes and the report ids are declared in
    rift_interface.h; they are fields of the [device] below. A struct is
    kept as the bytes [memcpy] puts into it, and a field of it is read
    through the [device]. The float code of [rift_parse_distortion_report]
    is left out: an entry of [lens_distortions] holds the report it was
    parsed from. Of the assignments to [hmd->base] only the calls are
    kept. *)

Module RiftHmd.

(** [uint16_t] arithmetic. *)
Definition wrap16 (z : Z) : Z := z mod 2 ^ 16.

Inductive rift_variant : Type :=
| RIFT_VARIANT_DK1
| RIFT_VARIANT_DK2
| RIFT_VARIANT_other.

(** The places of [rift_hmd_create] that log with a reason. *)
Inductive site : Type :=
| send_keepalive
| get_config
| get_display_info
| set_config
| get_lens_distortion
| get_lens_distortion_idx (i : Z).

Inductive event : Type :=
| U_DEVICE_ALLOCATE
| sent (e : Rift.hid_event)
| os_hid_get_feature (report_id : byte) (size : Z) (result : Z)
| os_monotonic_get_ns (now : Z)
| HMD_ERROR (s : site) (reason : Z)
| HMD_ERROR_sample_rate (rate : Z)
| HMD_ERROR_setup
| HMD_INFO_config
| HMD_INFO_display_info
| HMD_INFO_override_power
| u_device_free
| calloc (n : Z)
| free
| m_relation_history_create
| m_relation_history_push (now : Z)
| m_relation_history_destroy
| u_device_setup_split_side_by_side (ok : bool)
| u_var_add_root
| u_var_add_log_level
| u_var_remove_root.

(** [struct rift_hmd]: the fields the functions here write, and the
    calls made so far. [lens_distortions] is [None] for [NULL]; an entry
    is [None] as long as it is the zeroes of [calloc]. *)
Record rift_hmd : Type := mk_hmd {
  variant : rift_variant;
  config : list byte;
  display_info : list byte;
  last_keepalive_time : Z;
  num_lens_distortions : Z;
  lens_distortions : option (list (option (list byte)));
  log_level : Z;
  log : list event;
}.

Definition set_variant (v : rift_variant) (h : rift_hmd) : rift_hmd :=
  mk_hmd v (config h) (display_info h) (last_keepalive_time h)
    (num_lens_distortions h) (lens_distortions h) (log_level h) (log h).
Definition set_config_report (v : list byte) (h : rift_hmd) : rift_hmd :=
  mk_hmd (variant h) v (display_info h) (last_keepalive_time h)
    (num_lens_distortions h) (lens_distortions h) (log_level h) (log h).
Definition set_display_info (v : list byte) (h : rift_hmd) : rift_hmd :=
  mk_hmd (variant h) (config h) v (last_keepalive_time h)
    (num_lens_distortions h) (lens_distortions h) (log_level h) (log h).
Definition set_last_keepalive_time (v : Z) (h : rift_hmd) : rift_hmd :=
  mk_hmd (variant h) (config h) (display_info h) v
    (num_lens_distortions h) (lens_distortions h) (log_level h) (log h).
Definition set_num_lens_distortions (v : Z) (h : rift_hmd) : rift_hmd :=
  mk_hmd (variant h) (config h) (display_info h) (last_keepalive_time h)
    v (lens_distortions h) (log_level h) (log h).
Definition set_lens_distortions (v : option (list (option (list byte))))
    (h : rift_hmd) : rift_hmd :=
  mk_hmd (variant h) (config h) (display_info h) (last_keepalive_time h)
    (num_lens_distortions h) v (log_level h) (log h).
Definition set_log_level (v : Z) (h : rift_hmd) : rift_hmd :=
  mk_hmd (variant h) (config h) (display_info h) (last_keepalive_time h)
    (num_lens_distortions h) (lens_distortions h) v (log h).
Definition add_logs (l : list event) (h : rift_hmd) : rift_hmd :=
  mk_hmd (variant h) (config h) (display_info h) (last_keepalive_time h)
    (num_lens_distortions h) (lens_distortions h) (log_level h) (log h ++ l).

Definition emit (e : event) : M rift_hmd unit := modify (add_logs [e]).

(** The headset and what surrounds the driver. The sizes, ids and flag
    bits are those of rift_interface.h; [keepalive_mux] is the object
    [{0, IN_REPORT_DK2, 10000}], [config_pointer] the object that the
    parameter [config] of [rift_set_config] is, an address; [garbage] is
    what an uninitialised buffer holds. The [n]-th
    [os_hid_set_feature] returns [set_feature n data], the [n]-th
    [os_hid_get_feature] returns [(get_feature n id).1] and writes
    [(get_feature n id).2]. *)
Record device : Type := mk_device {
  REPORT_MAX_SIZE : Z;
  sizeof_config : Z;
  sizeof_display_info : Z;
  sizeof_lens_distortion : Z;
  FEATURE_REPORT_KEEPALIVE_MUX : byte;
  FEATURE_REPORT_CONFIG : byte;
  FEATURE_REPORT_DISPLAY_INFO : byte;
  FEATURE_REPORT_LENS_DISTORTION : byte;
  RIFT_CONFIG_REPORT_OVERRIDE_POWER : Z;
  RIFT_CONFIG_REPORT_USE_CALIBRATION : Z;
  RIFT_CONFIG_REPORT_AUTO_CALIBRATION : Z;
  keepalive_mux : list byte;
  config_pointer : list byte;
  garbage : nat -> byte;
  sample_rate : list byte -> Z;
  or_config_flags : Z -> list byte -> list byte;
  num_distortions : list byte -> Z;
  distortion_idx : list byte -> Z;
  set_feature : nat -> list byte -> Z;
  get_feature : nat -> byte -> Z * list byte;
  clock : nat -> Z;
  RIFT_POWER_OVERRIDE : bool;
  setup_split_side_by_side : bool;
  rift_log : Z;
}.

Fixpoint count (p : event -> bool) (l : list event) : nat :=
  match l with
  | [] => 0
  | e :: l' => (if p e then 1 else 0) + count p l'
  end.

Definition is_set_feature (e : event) : bool :=
  match e with sent (Rift.os_hid_set_feature _ _) => true | _ => false end.

Definition is_get_feature (e : event) : bool :=
  match e with os_hid_get_feature _ _ _ => true | _ => false end.

Definition is_clock (e : event) : bool :=
  match e with os_monotonic_get_ns _ => true | _ => false end.

(** What [calloc] returns for [struct rift_hmd]; [variant] is assigned
    before it is read. Allocations are taken to succeed, as the code
    takes them to. *)
Definition zeroed (config_size display_info_size : Z) (l : list event) : rift_hmd :=
  mk_hmd RIFT_VARIANT_DK1
    (replicate (Z.to_nat config_size) x00)
    (replicate (Z.to_nat display_info_size) x00)
    0 0 None 0 l.

(** The bytes a device wrote over the front of [out]. *)
Definition written (bytes out : list byte) : list byte :=
  take (length out) bytes ++ drop (length bytes) out.

Section Driver.

Variable D : device.

(** An array [uint8_t buf[REPORT_MAX_SIZE]]. *)
Definition zero_buffer : list byte := replicate (Z.to_nat (REPORT_MAX_SIZE D)) x00.
Definition stack_buffer : list byte :=
  map (garbage D) (seq 0 (Z.to_nat (REPORT_MAX_SIZE D))).

(** [rift_send_report] on this headset. *)
Definition send_report (report_id : byte) (data : list byte) (data_length : Z)
  : M rift_hmd Z :=
  h ← gets (fun h : rift_hmd => h);
  match Rift.rift_send_report (REPORT_MAX_SIZE D)
          (set_feature D (count is_set_feature (log h)))
          stack_buffer report_id data data_length with
  | (Some result, events) => modify (add_logs (map sent events));; ret result
  | (None, _) => stop OutOfBounds
  end.

Definition rift_get_report (report_id : byte) (out : list byte) (out_len : Z)
  : M rift_hmd (Z * list byte) :=
  h ← gets (fun h : rift_hmd => h);
  let answer := get_feature D (count is_get_feature (log h)) report_id in
  emit (os_hid_get_feature report_id out_len answer.1);;
  ret (answer.1, written answer.2 out).

Definition ask_clock : M rift_hmd Z :=
  h ← gets (fun h : rift_hmd => h);
  let now := clock D (count is_clock (log h)) in
  emit (os_monotonic_get_ns now);;
  ret now.

Definition rift_send_keepalive : M rift_hmd Z :=
  result ← send_report (FEATURE_REPORT_KEEPALIVE_MUX D) (keepalive_mux D)
             (Z.of_nat (length (keepalive_mux D)));
  if result <? 0 then ret result
  else
    now ← ask_clock;
    modify (set_last_keepalive_time now);;
    ret 0.

(** [memcpy(dst, buf + 1, size)]. *)
Definition copy_report (dst buf : list byte) (size : Z) : M rift_hmd (list byte) :=
  match Rift.memcpy dst 0 (drop 1 buf) size with
  | Some bytes => ret bytes
  | None => stop OutOfBounds
  end.

Definition rift_get_config : M rift_hmd Z :=
  '(result, buf) ← rift_get_report (FEATURE_REPORT_CONFIG D) zero_buffer
                     (REPORT_MAX_SIZE D);
  if result <? 0 then ret result
  else
    h ← gets (fun h : rift_hmd => h);
    bytes ← copy_report (config h) buf (sizeof_config D);
    modify (set_config_report bytes);;
    (* this value is hardcoded in the DK1 and DK2 firmware *)
    if (match variant h with
        | RIFT_VARIANT_DK1 | RIFT_VARIANT_DK2 => true
        | RIFT_VARIANT_other => false
        end) && negb (sample_rate D bytes =? 1000)
    then emit (HMD_ERROR_sample_rate (sample_rate D bytes));; ret (-1)
    else ret 0.

Definition rift_get_display_info : M rift_hmd Z :=
  '(result, buf) ← rift_get_report (FEATURE_REPORT_DISPLAY_INFO D) zero_buffer
                     (REPORT_MAX_SIZE D);
  if result <? 0 then ret result
  else
    h ← gets (fun h : rift_hmd => h);
    bytes ← copy_report (display_info h) buf (sizeof_display_info D);
    modify (set_display_info bytes);;
    ret 0.

(** The report goes into the local [lens_distortion] of
    [rift_hmd_create], here the second component. *)
Definition rift_get_lens_distortion (lens_distortion : list byte)
  : M rift_hmd (Z * list byte) :=
  '(result, buf) ← rift_get_report (FEATURE_REPORT_LENS_DISTORTION D) zero_buffer
                     (REPORT_MAX_SIZE D);
  if result <? 0 then ret (result, lens_distortion)
  else
    bytes ← copy_report lens_distortion buf (sizeof_lens_distortion D);
    ret (0, bytes).

(** The call passes [&config], the address of the parameter. *)
Definition rift_set_config : M rift_hmd Z :=
  send_report (FEATURE_REPORT_CONFIG D) (config_pointer D) (sizeof_config D).

Definition rift_hmd_destroy : M rift_hmd unit :=
  (* Remove the variable tracking. *)
  emit u_var_remove_root;;
  emit m_relation_history_destroy;;
  h ← gets (fun h : rift_hmd => h);
  (match lens_distortions h with
   | Some _ => emit free
   | None => ret tt
   end);;
  emit u_device_free.

(** [rift_parse_distortion_report(&lens_distortion,
    &hmd->lens_distortions[lens_distortion.distortion_idx])]. *)
Definition rift_parse_distortion_report (report : list byte) : M rift_hmd unit :=
  h ← gets (fun h : rift_hmd => h);
  let idx := distortion_idx D report in
  match lens_distortions h with
  | Some entries =>
    if (0 <=? idx) && (idx <? Z.of_nat (length entries))
    then modify (set_lens_distortions
                   (Some (<[Z.to_nat idx := Some report]> entries)))
    else stop OutOfBounds
  | None => stop OutOfBounds
  end.

(** [for (uint16_t i = 1; i < hmd->num_lens_distortions; i++)], from
    [i] on; [false] is the [return NULL] of the body. *)
Fixpoint read_lens_distortions (fuel : nat) (i : Z) (lens_distortion : list byte)
  : M rift_hmd bool :=
  match fuel with
  | O => stop OutOfFuel
  | S fuel' =>
    h ← gets (fun h : rift_hmd => h);
    if i <? num_lens_distortions h then
      '(result, lens_distortion) ← rift_get_lens_distortion lens_distortion;
      if result <? 0 then
        emit (HMD_ERROR (get_lens_distortion_idx i) result);;
        emit u_device_free;;
        ret false
      else
        rift_parse_distortion_report lens_distortion;;
        read_lens_distortions fuel' (wrap16 (i + 1)) lens_distortion
    else ret true
  end.

(** [rift_hmd_create]; [true] for the device, [false] for [NULL]. *)
Definition rift_hmd_create (variant_ : rift_variant) (fuel : nat) : M rift_hmd bool :=
  h ← gets (fun h : rift_hmd => h);
  modify (fun _ => zeroed (sizeof_config D) (sizeof_display_info D)
                     (log h ++ [U_DEVICE_ALLOCATE]));;
  modify (set_variant variant_);;
  result ← rift_send_keepalive;
  if result <? 0 then
    emit (HMD_ERROR send_keepalive result);; emit u_device_free;; ret false
  else
  result ← rift_get_config;
  if result <? 0 then
    emit (HMD_ERROR get_config result);; emit u_device_free;; ret false
  else
  emit HMD_INFO_config;;
  result ← rift_get_display_info;
  if result <? 0 then
    emit (HMD_ERROR get_display_info result);; emit u_device_free;; ret false
  else
  emit HMD_INFO_display_info;;
  (if RIFT_POWER_OVERRIDE D then
     modify (fun h => set_config_report
                        (or_config_flags D (RIFT_CONFIG_REPORT_OVERRIDE_POWER D)
                           (config h)) h);;
     emit HMD_INFO_override_power
   else ret tt);;
  (* force enable calibration use and auto calibration *)
  modify (fun h => set_config_report
                     (or_config_flags D (RIFT_CONFIG_REPORT_USE_CALIBRATION D)
                        (config h)) h);;
  modify (fun h => set_config_report
                     (or_config_flags D (RIFT_CONFIG_REPORT_AUTO_CALIBRATION D)
                        (config h)) h);;
  (* update the config *)
  result ← rift_set_config;
  if result <? 0 then
    emit (HMD_ERROR set_config result);; emit u_device_free;; ret false
  else
  (* get the lens distortions *)
  '(result, lens_distortion) ←
    rift_get_lens_distortion
      (map (garbage D) (seq 0 (Z.to_nat (sizeof_lens_distortion D))));
  if result <? 0 then
    emit (HMD_ERROR get_lens_distortion result);; emit u_device_free;; ret false
  else
  modify (set_num_lens_distortions (num_distortions D lens_distortion));;
  emit (calloc (num_distortions D lens_distortion));;
  modify (set_lens_distortions
            (Some (replicate (Z.to_nat (num_distortions D lens_distortion)) None)));;
  rift_parse_distortion_report lens_distortion;;
  complete ← read_lens_distortions fuel 1 lens_distortion;
  if negb (complete : bool) then ret false
  else
  modify (set_log_level (rift_log D));;
  emit m_relation_history_create;;
  emit (u_device_setup_split_side_by_side (setup_split_side_by_side D));;
  if negb (setup_split_side_by_side D) then
    emit HMD_ERROR_setup;; rift_hmd_destroy;; ret false
  else
  (* Just put an initial identity value in the tracker *)
  now ← ask_clock;
  emit (m_relation_history_push now);;
  (* Setup variable tracker: Optional but useful for debugging *)
  emit u_var_add_root;;
  emit u_var_add_log_level;;
  ret true.

End Driver.

(** *** What the driver holds *)

Inductive resource : Type := Device | Distortions | History | VarRoot.

#[global] Instance resource_eq_dec : EqDecision resource.
Proof. solve_decision. Defined.

#[global] Instance resource_countable : Countable resource.
Proof.
  refine (inj_countable'
    (fun r => match r with
              | Device => 0%nat | Distortions => 1%nat
              | History => 2%nat | VarRoot => 3%nat
              end)
    (fun n => match n with
              | 0%nat => Device | 1%nat => Distortions
              | 2%nat => History | _ => VarRoot
              end) _).
  intros []; reflexivity.
Defined.

(** [U_DEVICE_ALLOCATE] and [u_device_free] make and unmake the device
    struct, [calloc] and [free] the array of lens distortions; the
    relation history and the variable root are made and unmade by the
    calls of their names. *)
Definition resource_effect (held : gset resource) (e : event) : gset resource :=
  match e with
  | U_DEVICE_ALLOCATE => held ∪ {[Device]}
  | u_device_free => held ∖ {[Device]}
  | calloc _ => held ∪ {[Distortions]}
  | free => held ∖ {[Distortions]}
  | m_relation_history_create => held ∪ {[History]}
  | m_relation_history_destroy => held ∖ {[History]}
  | u_var_add_root => held ∪ {[VarRoot]}
  | u_var_remove_root => held ∖ {[VarRoot]}
  | _ => held
  end.

Definition held (l : list event) : gset resource := foldl resource_effect ∅ l.

Definition neutral (e : event) : bool :=
  match e with
  | U_DEVICE_ALLOCATE | u_device_free | calloc _ | free
  | m_relation_history_create | m_relation_history_destroy
  | u_var_add_root | u_var_remove_root => false
  | _ => true
  end.

(** The log ends with the error of a lens distortion read of the loop
    and the [u_device_free] after it. *)
Definition later_lens_error (l : list event) : bool :=
  match rev l with
  | u_device_free :: HMD_ERROR (get_lens_distortion_idx _) _ :: _ => true
  | _ => false
  end.

(** What is held, and whether [lens_distortions] points at an array. *)
Definition view (h : rift_hmd) : gset resource * bool :=
  (held (log h), bool_decide (is_Some (lens_distortions h))).

(** A computation that leaves [f] of the state as it was. *)
Definition keeps {A B : Type} (f : rift_hmd -> B) (m : M rift_hmd A) : Prop :=
  ∀ h, post m h (fun _ h' => f h' = f h).

Lemma held_app (l l' : list event) : held (l ++ l') = foldl resource_effect (held l) l'.
Proof. unfold held. apply foldl_app. Qed.

Lemma held_neutral (l l' : list event) :
  forallb neutral l' = true -> held (l ++ l') = held l.
Proof.
  rewrite held_app. generalize (held l).
  induction l' as [| e l' IH]; intros S Hall; [reflexivity |].
  cbn in Hall. apply andb_prop in Hall as [He Hall]. cbn [foldl].
  rewrite IH by exact Hall. destruct e; try discriminate He; reflexivity.
Qed.

Section Keeps.

Context {B : Type} (f : rift_hmd -> B).

Lemma keeps_ret {A : Type} (a : A) : keeps f (ret a).
Proof. intros h. reflexivity. Qed.

Lemma keeps_bind {A C : Type} (m : M rift_hmd A) (k : A -> M rift_hmd C) :
  keeps f m -> (∀ a, keeps f (k a)) -> keeps f (bind m k).
Proof.
  intros Hm Hk h. apply post_bind. eapply post_mono; [apply Hm |].
  intros a h1 H1. eapply post_mono; [apply Hk |].
  intros b h2 H2. cbn beta in *. congruence.
Qed.

Lemma keeps_gets {A : Type} (g : rift_hmd -> A) : keeps f (gets g).
Proof. intros h. reflexivity. Qed.

Lemma keeps_stop {A : Type} (e : fault) : keeps f (stop (A := A) e).
Proof. intros h. exact I. Qed.

Lemma keeps_modify (g : rift_hmd -> rift_hmd) :
  (∀ h, f (g h) = f h) -> keeps f (modify g).
Proof. intros Hg h. apply Hg. Qed.

Lemma post_bind_keeps {A C : Type} (m : M rift_hmd A) (k : A -> M rift_hmd C)
    (h : rift_hmd) (Q : C -> rift_hmd -> Prop) :
  keeps f m -> (∀ a h1, f h1 = f h -> post (k a) h1 Q) -> post (bind m k) h Q.
Proof.
  intros Hm Hk. apply post_bind. eapply post_mono; [apply Hm |].
  intros a h1 H1. apply Hk, H1.
Qed.

End Keeps.

Lemma view_add_logs (l : list event) (h : rift_hmd) :
  forallb neutral l = true -> view (add_logs l h) = view h.
Proof.
  intros Hl. unfold view. cbn [log lens_distortions add_logs].
  rewrite held_neutral by exact Hl. reflexivity.
Qed.

Create HintDb keeps_db.

(** One step of a proof that a computation keeps [f]; [side] proves
    that a single change of the state does. *)
Ltac keeps_step side :=
  lazymatch goal with
  | |- keeps _ (mbind _ _) => unfold mbind, M_bind
  | |- keeps _ (bind _ _) => apply keeps_bind; [| intros ?]
  | |- keeps _ (ret _) => apply keeps_ret
  | |- keeps _ (gets _) => apply keeps_gets
  | |- keeps _ (emit _) => apply keeps_modify; intros ?; side
  | |- keeps _ (modify _) => apply keeps_modify; intros ?; side
  | |- keeps _ (stop _) => apply keeps_stop
  | |- keeps _ (if ?b then _ else _) => destruct b
  | |- keeps _ (match ?x with _ => _ end) => destruct x
  | |- keeps _ _ => solve [eauto with keeps_db]
  end.

Ltac quiet_side := first [reflexivity | apply view_add_logs; reflexivity].
Ltac quiet_tac := repeat (keeps_step quiet_side).

Lemma post_gets_hmd {A : Type} (f : rift_hmd -> A) (h : rift_hmd)
    (Q : A -> rift_hmd -> Prop) :
  Q (f h) h -> post (gets f) h Q.
Proof. intros H. exact H. Qed.

Lemma post_modify_hmd (f : rift_hmd -> rift_hmd) (h : rift_hmd)
    (Q : unit -> rift_hmd -> Prop) :
  Q tt (f h) -> post (modify f) h Q.
Proof. intros H. exact H. Qed.

Lemma post_emit_hmd (e : event) (h : rift_hmd) (Q : unit -> rift_hmd -> Prop) :
  Q tt (add_logs [e] h) -> post (emit e) h Q.
Proof. intros H. exact H. Qed.

Lemma forallb_neutral_sent (events : list Rift.hid_event) :
  forallb neutral (map sent events) = true.
Proof. induction events as [| e events IH]; [reflexivity | exact IH]. Qed.

Section Held.

Variable D : device.

Lemma quiet_send_report (report_id : byte) (data : list byte) (data_length : Z) :
  keeps view (send_report D report_id data data_length).
Proof.
  unfold send_report, mbind, M_bind. apply keeps_bind; [apply keeps_gets |].
  intros h. destruct (Rift.rift_send_report _ _ _ _ _ _) as [[result |] events].
  - apply keeps_bind; [| intros ?; apply keeps_ret].
    apply keeps_modify. intros h'. apply view_add_logs, forallb_neutral_sent.
  - apply keeps_stop.
Qed.

Lemma quiet_rift_get_report (report_id : byte) (out : list byte) (out_len : Z) :
  keeps view (rift_get_report D report_id out out_len).
Proof. unfold rift_get_report. quiet_tac. Qed.

Lemma quiet_ask_clock : keeps view (ask_clock D).
Proof. unfold ask_clock. quiet_tac. Qed.

Lemma quiet_copy_report (dst buf : list byte) (size : Z) :
  keeps view (copy_report dst buf size).
Proof. unfold copy_report. quiet_tac. Qed.

#[local] Hint Resolve quiet_send_report quiet_rift_get_report quiet_ask_clock
  quiet_copy_report : keeps_db.

Lemma quiet_rift_send_keepalive : keeps view (rift_send_keepalive D).
Proof. unfold rift_send_keepalive. quiet_tac. Qed.

Lemma quiet_rift_get_config : keeps view (rift_get_config D).
Proof. unfold rift_get_config. quiet_tac. Qed.

Lemma quiet_rift_get_display_info : keeps view (rift_get_display_info D).
Proof. unfold rift_get_display_info. quiet_tac. Qed.

Lemma quiet_rift_get_lens_distortion (lens_distortion : list byte) :
  keeps view (rift_get_lens_distortion D lens_distortion).
Proof. unfold rift_get_lens_distortion. quiet_tac. Qed.

Lemma quiet_rift_set_config : keeps view (rift_set_config D).
Proof. unfold rift_set_config. quiet_tac. Qed.

Lemma quiet_rift_parse_distortion_report (report : list byte) :
  keeps view (rift_parse_distortion_report D report).
Proof.
  unfold rift_parse_distortion_report, mbind, M_bind. intros h.
  apply post_bind. unfold gets, post at 1.
  destruct (lens_distortions h) as [entries |] eqn:Hentries; [| exact I].
  destruct ((0 <=? _) && _); [| exact I].
  unfold post, modify, view. cbn [log lens_distortions set_lens_distortions].
  rewrite Hentries. reflexivity.
Qed.

#[local] Hint Resolve quiet_rift_send_keepalive quiet_rift_get_config
  quiet_rift_get_display_info quiet_rift_get_lens_distortion quiet_rift_set_config
  quiet_rift_parse_distortion_report : keeps_db.

(** Giving up after a failed call: the error line, [u_device_free],
    [return NULL]. *)
Lemma post_bail (s : site) (reason : Z) (h : rift_hmd)
    (Q : bool -> rift_hmd -> Prop) :
  Q false (add_logs [u_device_free] (add_logs [HMD_ERROR s reason] h)) ->
  post (emit (HMD_ERROR s reason);; emit u_device_free;; ret false) h Q.
Proof. intros HQ. exact HQ. Qed.

(** How [rift_hmd_create] may end. *)
Definition released (ok : bool) (h : rift_hmd) : Prop :=
  if ok
  then held (log h) = {[Device; Distortions; History; VarRoot]}
       ∧ is_Some (lens_distortions h)
  else held (log h) = if later_lens_error (log h) then {[Distortions]} else ∅.

Lemma released_bail (s : site) (reason : Z) (h : rift_hmd) :
  view h = ({[Device]}, false) ->
  (∀ i, s ≠ get_lens_distortion_idx i) ->
  released false (add_logs [u_device_free] (add_logs [HMD_ERROR s reason] h)).
Proof.
  intros Hview Hsite. unfold released, later_lens_error.
  cbn [log add_logs]. rewrite !rev_app_distr. cbn [rev app].
  injection Hview as Hheld _.
  rewrite !held_app, Hheld. cbn [foldl resource_effect].
  destruct s; first [set_solver | exfalso; eapply Hsite; reflexivity].
Qed.

Lemma read_lens_distortions_released (fuel : nat) (i : Z)
    (lens_distortion : list byte) (h : rift_hmd) :
  view h = ({[Device; Distortions]}, true) ->
  post (read_lens_distortions D fuel i lens_distortion) h (fun ok h' =>
    if ok then view h' = view h else released false h').
Proof.
  revert i lens_distortion h.
  induction fuel as [| fuel IH]; intros i lens_distortion h Hview; [exact I |].
  cbn [read_lens_distortions]. unfold mbind, M_bind.
  apply post_bind. unfold gets, post at 1.
  destruct (i <? num_lens_distortions h); [| reflexivity].
  apply (post_bind_keeps view); [apply quiet_rift_get_lens_distortion |].
  intros [result lens] h1 H1.
  destruct (result <? 0).
  - apply post_bail. unfold released, later_lens_error.
    cbn [log add_logs]. rewrite !rev_app_distr. cbn [rev app].
    rewrite <- H1 in Hview. injection Hview as Hheld _.
    rewrite !held_app, Hheld. cbn [foldl resource_effect]. set_solver.
  - apply (post_bind_keeps view); [apply quiet_rift_parse_distortion_report |].
    intros u h2 H2.
    eapply post_mono; [apply IH; congruence |].
    intros ok h3 H3. destruct ok; [congruence | exact H3].
Qed.

Lemma rift_hmd_destroy_run (h : rift_hmd) :
  is_Some (lens_distortions h) ->
  ∃ h',
    rift_hmd_destroy h = Ok (tt, h')
    ∧ log h' = log h ++ [u_var_remove_root; m_relation_history_destroy; free;
                         u_device_free]
    ∧ lens_distortions h' = lens_distortions h.
Proof.
  intros [entries Hentries]. eexists. unfold rift_hmd_destroy, mbind, M_bind.
  unfold bind, emit, modify, gets, ret. cbn [lens_distortions add_logs].
  rewrite Hentries. split; [reflexivity |].
  cbn [log lens_distortions add_logs]. rewrite <- !app_assoc.
  split; [reflexivity | exact Hentries].
Qed.

Ltac quiet_next :=
  apply (post_bind_keeps view); [solve [quiet_tac] | intros ? ? ?].

(** X20.  [rift_hmd_create] called with nothing held.  If it returns the
    device, then the device struct, the lens distortion array, the
    relation history and the variable root are held, and
    [rift_hmd_destroy] gives all four back.  If it returns [NULL], the
    struct has been freed and nothing is held, with one exception: when
    the read of a lens distortion fails inside the loop, the array that
    [calloc] returned is still held. *)
Theorem rift_hmd_create_releases (variant_ : rift_variant) (fuel : nat)
    (h : rift_hmd) :
  held (log h) = ∅ ->
  post (rift_hmd_create D variant_ fuel) h (fun ok h1 =>
    if ok
    then held (log h1) = {[Device; Distortions; History; VarRoot]}
         ∧ ∃ h2, rift_hmd_destroy h1 = Ok (tt, h2) ∧ held (log h2) = ∅
    else held (log h1) = if later_lens_error (log h1) then {[Distortions]} else ∅).
Proof.
  intros Hheld. unfold rift_hmd_create, mbind, M_bind.
  apply post_bind, post_gets_hmd.
  apply post_bind, post_modify_hmd.
  apply post_bind, post_modify_hmd.
  match goal with
  | |- post _ ?x _ => remember x as h1 eqn:Hh1
  end.
  assert (Hview : view h1 = ({[Device]}, false)).
  { subst h1. unfold view. cbn [log lens_distortions set_variant zeroed].
    rewrite held_app, Hheld. cbn. f_equal; set_solver. }
  clear Hh1.
  quiet_next. destruct (_ <? 0).
  { apply post_bail, released_bail; [congruence | discriminate]. }
  quiet_next. destruct (_ <? 0).
  { apply post_bail, released_bail; [congruence | discriminate]. }
  quiet_next. quiet_next. destruct (_ <? 0).
  { apply post_bail, released_bail; [congruence | discriminate]. }
  quiet_next. quiet_next. quiet_next. quiet_next. quiet_next. destruct (_ <? 0).
  { apply post_bail, released_bail; [congruence | discriminate]. }
  quiet_next.
  match goal with
  | |- post (let '(_, _) := ?p in _) _ _ => destruct p as [result lens_distortion]
  end.
  destruct (_ <? 0).
  { apply post_bail, released_bail; [congruence | discriminate]. }
  quiet_next.
  apply post_bind, post_emit_hmd.
  apply post_bind, post_modify_hmd.
  match goal with
  | |- post _ ?x _ => remember x as h1' eqn:Hh1
  end.
  assert (Hview' : view h1' = ({[Device; Distortions]}, true)).
  { subst h1'. unfold view. cbn [log lens_distortions set_lens_distortions add_logs].
    match goal with
    | |- (held (log ?h0 ++ _), _) = _ =>
      assert (Hv : view h0 = ({[Device]}, false)) by congruence
    end.
    injection Hv as Hh _.
    rewrite held_app, Hh. cbn. f_equal. }
  clear Hh1.
  quiet_next.
  apply post_bind.
  eapply post_mono; [apply read_lens_distortions_released; congruence |].
  intros complete hl Hl. cbn beta in Hl.
  destruct complete; cbn [negb]; [| exact Hl].
  assert (Hview2 : view hl = ({[Device; Distortions]}, true)) by congruence.
  injection Hview2 as Hheld2 Hlens2. apply bool_decide_eq_true in Hlens2.
  apply post_bind, post_modify_hmd.
  apply post_bind, post_emit_hmd.
  apply post_bind, post_emit_hmd.
  destruct (setup_split_side_by_side D); cbn [negb].
  - unfold ask_clock, mbind, M_bind, bind, gets, emit, modify, ret, post.
    cbn [log lens_distortions add_logs set_log_level].
    rewrite !held_app, Hheld2. cbn [foldl resource_effect].
    split; [set_solver |].
    match goal with
    | |- ∃ h2, rift_hmd_destroy ?h1 = _ ∧ _ =>
      destruct (rift_hmd_destroy_run h1) as (hd & Hrun & Hlog & _);
        [exact Hlens2 |]
    end.
    exists hd. split; [exact Hrun |].
    rewrite Hlog. cbn [log lens_distortions add_logs set_log_level].
    rewrite !held_app, Hheld2. cbn [foldl resource_effect]. set_solver.
  - apply post_bind, post_emit_hmd.
    apply post_bind.
    match goal with
    | |- post rift_hmd_destroy ?h1 _ =>
      destruct (rift_hmd_destroy_run h1) as (hd & Hrun & Hlog & _);
        [exact Hlens2 |]
    end.
    unfold post at 1. rewrite Hrun. apply post_ret.
    unfold later_lens_error. rewrite Hlog.
    cbn [log lens_distortions add_logs set_log_level].
    rewrite !rev_app_distr. cbn [rev app].
    rewrite !held_app, Hheld2. cbn [foldl resource_effect]. set_solver.
Qed.

End Held.

(** *** What goes over the wire *)

Inductive hid_call : Type :=
| set_feature_call (data : list byte) (length : Z)
| get_feature_call (report_id : byte) (size : Z).

Definition hid_call_of (e : event) : option hid_call :=
  match e with
  | sent (Rift.os_hid_set_feature data length) => Some (set_feature_call data length)
  | os_hid_get_feature report_id size _ => Some (get_feature_call report_id size)
  | _ => None
  end.

(** The HID calls among the events, in their order. *)
Definition hid_calls (l : list event) : list hid_call := omap hid_call_of l.

(** The calls so far, and the size of the lens distortion array. *)
Definition wire (h : rift_hmd) : list hid_call * Z * option nat :=
  (hid_calls (log h), num_lens_distortions h, length <$> lens_distortions h).

Lemma hid_calls_app (l l' : list event) : hid_calls (l ++ l') = hid_calls l ++ hid_calls l'.
Proof. apply omap_app. Qed.

Lemma wire_add_logs (l : list event) (h : rift_hmd) :
  hid_calls l = [] -> wire (add_logs l h) = wire h.
Proof.
  intros Hl. unfold wire. cbn [log lens_distortions num_lens_distortions add_logs].
  rewrite hid_calls_app, Hl, app_nil_r. reflexivity.
Qed.

Ltac wire_side := first [reflexivity | apply wire_add_logs; reflexivity].
Ltac wire_tac := repeat (keeps_step wire_side).

(** The calls of [h'] are those of [h] and then [calls]; the array is
    as it was. *)
Definition called (calls : list hid_call) (h h' : rift_hmd) : Prop :=
  wire h' = (hid_calls (log h) ++ calls, num_lens_distortions h,
             length <$> lens_distortions h).

Lemma called_trans (c1 c2 : list hid_call) (h1 h2 h3 : rift_hmd) :
  called c1 h1 h2 -> called c2 h2 h3 -> called (c1 ++ c2) h1 h3.
Proof.
  unfold called, wire. intros H12 H23. injection H12 as Hc Hn Hl.
  rewrite H23, Hc, Hn, Hl, app_assoc. reflexivity.
Qed.

Lemma called_keeps (c : list hid_call) (h1 h2 h3 : rift_hmd) :
  called c h1 h2 -> wire h3 = wire h2 -> called c h1 h3.
Proof. unfold called. intros H12 H23. rewrite H23. exact H12. Qed.

Lemma called_refl (h1 h2 : rift_hmd) : wire h2 = wire h1 -> called [] h1 h2.
Proof. unfold called. intros H. rewrite H, app_nil_r. reflexivity. Qed.

Section Protocol.

Variable D : device.

Hypothesis REPORT_MAX_SIZE_size : REPORT_MAX_SIZE D <= SIZE_MAX.

Lemma length_stack_buffer : length (stack_buffer D) = Z.to_nat (REPORT_MAX_SIZE D).
Proof. unfold stack_buffer. rewrite length_map, length_seq. reflexivity. Qed.

(** A report that [rift_send_report] did not refuse went out as the id
    and then [data_length] bytes of [data]. *)
Lemma send_report_called (report_id : byte) (data : list byte) (data_length : Z)
    (h : rift_hmd) :
  post (send_report D report_id data data_length) h (fun result h' =>
    (result <? 0) = false ->
    called [set_feature_call (report_id :: take (Z.to_nat data_length) data)
              (1 + data_length)] h h'
    ∧ 0 <= data_length <= Z.of_nat (length data)
    ∧ 1 + data_length <= REPORT_MAX_SIZE D).
Proof.
  unfold send_report, mbind, M_bind. apply post_bind, post_gets_hmd.
  pose proof length_stack_buffer as Hbuf.
  unfold Rift.rift_send_report, Rift.REPORT_WRITE_VALUE, Rift.REPORT_WRITE_DATA.
  cbn [Rift.length Rift.buffer].
  destruct (1 >? wrap64 (REPORT_MAX_SIZE D - 0)) eqn:Hfirst.
  { apply post_bind, post_modify_hmd, post_ret. discriminate. }
  unfold Rift.memcpy at 1.
  destruct (decide (0 <= 0 ∧ 0 <= 1 ∧ 0 + 1 <= Z.of_nat (length (stack_buffer D))
                    ∧ 1 <= Z.of_nat (length [report_id])))
    as [(_ & _ & Hroom & _) | _]; [| exact I].
  cbn [Rift.length Rift.buffer]. change (wrap64 (0 + 1)) with 1.
  change (Z.to_nat 0) with 0%nat. change (Z.to_nat 1) with 1%nat.
  change (Z.to_nat (0 + 1)) with 1%nat. rewrite take_0. cbn [firstn app].
  assert (Hmax : 1 <= REPORT_MAX_SIZE D) by lia.
  destruct (data_length >? wrap64 (REPORT_MAX_SIZE D - 1)) eqn:Hsecond.
  { apply post_bind, post_modify_hmd, post_ret. discriminate. }
  unfold Rift.memcpy.
  destruct (decide (0 <= 1 ∧ 0 <= data_length
                    ∧ 1 + data_length
                      <= Z.of_nat (length (report_id :: drop 1 (stack_buffer D)))
                    ∧ data_length <= Z.of_nat (length data)))
    as [(_ & Hpos & Hfit & Hdata) | _]; [| exact I].
  cbn [Rift.length Rift.buffer length] in *. rewrite length_drop, Hbuf in Hfit.
  rewrite wrap64_small by lia.
  apply post_bind, post_modify_hmd, post_ret. intros _.
  split; [| lia].
  unfold called, wire.
  cbn [log lens_distortions num_lens_distortions add_logs map app].
  rewrite hid_calls_app.
  change (Z.to_nat 1) with 1%nat. rewrite firstn_cons, take_0. cbn [app].
  replace (Z.to_nat (1 + data_length)) with (S (Z.to_nat data_length)) by lia.
  rewrite firstn_cons.
  rewrite take_app_le by (rewrite length_take; lia).
  rewrite (take_ge (take _ data)) by (rewrite length_take; lia).
  reflexivity.
Qed.

Lemma post_bind_called {A C : Type} (m : M rift_hmd A) (k : A -> M rift_hmd C)
    (calls : list hid_call) (h : rift_hmd) :
  post m h (fun _ h' => called calls h h') ->
  (∀ a, keeps wire (k a)) ->
  post (bind m k) h (fun _ h' => called calls h h').
Proof.
  intros Hm Hk. apply post_bind. eapply post_mono; [apply Hm |].
  intros a h1 H1. eapply post_mono; [apply Hk |].
  intros c h2 H2. eapply called_keeps; [exact H1 | exact H2].
Qed.

Lemma rift_get_report_called (report_id : byte) (out : list byte) (out_len : Z)
    (h : rift_hmd) :
  post (rift_get_report D report_id out out_len) h (fun _ h' =>
    called [get_feature_call report_id out_len] h h').
Proof.
  unfold rift_get_report, mbind, M_bind.
  apply post_bind, post_gets_hmd. apply post_bind, post_emit_hmd, post_ret.
  unfold called, wire. cbn [log lens_distortions num_lens_distortions add_logs].
  rewrite hid_calls_app. reflexivity.
Qed.

Lemma wire_ask_clock : keeps wire (ask_clock D).
Proof. unfold ask_clock. wire_tac. Qed.

Lemma wire_copy_report (dst buf : list byte) (size : Z) :
  keeps wire (copy_report dst buf size).
Proof. unfold copy_report. wire_tac. Qed.

#[local] Hint Resolve wire_ask_clock wire_copy_report : keeps_db.

Lemma rift_send_keepalive_called (h : rift_hmd) :
  post (rift_send_keepalive D) h (fun result h' =>
    (result <? 0) = false ->
    called [set_feature_call (FEATURE_REPORT_KEEPALIVE_MUX D :: keepalive_mux D)
              (1 + Z.of_nat (length (keepalive_mux D)))] h h').
Proof.
  unfold rift_send_keepalive, mbind, M_bind. apply post_bind.
  eapply post_mono; [apply send_report_called |].
  intros result h1 H1. cbn beta in H1.
  destruct (result <? 0) eqn:Hresult; [apply post_ret; congruence |].
  destruct (H1 eq_refl) as (Hcalled & _). rewrite Nat2Z.id, firstn_all in Hcalled.
  apply (post_bind_keeps wire); [apply wire_ask_clock |]. intros now h2 H2.
  apply post_bind, post_modify_hmd, post_ret. intros _.
  eapply called_keeps; [exact Hcalled |]. rewrite <- H2. reflexivity.
Qed.

Lemma rift_get_config_called (h : rift_hmd) :
  post (rift_get_config D) h (fun _ h' =>
    called [get_feature_call (FEATURE_REPORT_CONFIG D) (REPORT_MAX_SIZE D)] h h').
Proof.
  unfold rift_get_config, mbind, M_bind.
  apply post_bind_called; [apply rift_get_report_called |].
  intros [result buf]. wire_tac.
Qed.

Lemma rift_get_display_info_called (h : rift_hmd) :
  post (rift_get_display_info D) h (fun _ h' =>
    called [get_feature_call (FEATURE_REPORT_DISPLAY_INFO D) (REPORT_MAX_SIZE D)]
      h h').
Proof.
  unfold rift_get_display_info, mbind, M_bind.
  apply post_bind_called; [apply rift_get_report_called |].
  intros [result buf]. wire_tac.
Qed.

Lemma rift_get_lens_distortion_called (lens_distortion : list byte) (h : rift_hmd) :
  post (rift_get_lens_distortion D lens_distortion) h (fun _ h' =>
    called [get_feature_call (FEATURE_REPORT_LENS_DISTORTION D) (REPORT_MAX_SIZE D)]
      h h').
Proof.
  unfold rift_get_lens_distortion, mbind, M_bind.
  apply post_bind_called; [apply rift_get_report_called |].
  intros [result buf]. wire_tac.
Qed.

(** A report that was stored found an array with room for it. *)
Lemma rift_parse_distortion_report_stored (report : list byte) (h : rift_hmd) :
  post (rift_parse_distortion_report D report) h (fun _ h' =>
    wire h' = wire h
    ∧ ∃ n, length <$> lens_distortions h = Some n ∧ (0 < n)%nat).
Proof.
  unfold rift_parse_distortion_report, mbind, M_bind.
  apply post_bind, post_gets_hmd.
  destruct (lens_distortions h) as [entries |] eqn:Hentries; [| exact I].
  destruct ((0 <=? _) && _) eqn:Hidx; [| exact I].
  apply post_modify_hmd. split.
  - unfold wire. cbn [log lens_distortions num_lens_distortions set_lens_distortions].
    rewrite Hentries. cbn. rewrite length_insert. reflexivity.
  - exists (length entries). split; [reflexivity |].
    apply andb_prop in Hidx as [Hlow Hhigh]. lia.
Qed.

Lemma wire_rift_parse_distortion_report (report : list byte) :
  keeps wire (rift_parse_distortion_report D report).
Proof.
  intros h. eapply post_mono; [apply rift_parse_distortion_report_stored |].
  intros u h' [H _]. exact H.
Qed.

Lemma called_num (calls : list hid_call) (h h' : rift_hmd) :
  called calls h h' -> num_lens_distortions h' = num_lens_distortions h.
Proof. unfold called, wire. intros H. injection H as _ Hn _. exact Hn. Qed.

(** The reads of the loop: one per index from [i] up to the number of
    distortions, which then fits [uint16_t]. *)
Lemma read_lens_distortions_called (fuel : nat) (i : Z) (lens_distortion : list byte)
    (h : rift_hmd) :
  0 <= i < 2 ^ 16 ->
  post (read_lens_distortions D fuel i lens_distortion) h (fun ok h' =>
    ok = true ->
    ∃ k : nat,
      called (replicate k (get_feature_call (FEATURE_REPORT_LENS_DISTORTION D)
                             (REPORT_MAX_SIZE D))) h h'
      ∧ Z.of_nat k = Z.max 0 (num_lens_distortions h - i)
      ∧ (i < num_lens_distortions h -> num_lens_distortions h < 2 ^ 16)).
Proof.
  revert i lens_distortion h.
  induction fuel as [| fuel IH]; intros i lens_distortion h Hi; [exact I |].
  cbn [read_lens_distortions]. unfold mbind, M_bind.
  apply post_bind, post_gets_hmd.
  destruct (Z.ltb_spec i (num_lens_distortions h)) as [Hlt | Hge].
  2: { apply post_ret. intros _. exists 0%nat.
       split; [apply called_refl; reflexivity |]. lia. }
  apply post_bind.
  eapply post_mono; [apply rift_get_lens_distortion_called |].
  intros [result lens] h1 H1. cbn beta in H1.
  destruct (result <? 0).
  { apply post_bind, post_emit_hmd. apply post_bind, post_emit_hmd.
    apply post_ret. discriminate. }
  apply (post_bind_keeps wire); [apply wire_rift_parse_distortion_report |].
  intros u h2 H2.
  assert (Hcalled2 : called [get_feature_call (FEATURE_REPORT_LENS_DISTORTION D)
                               (REPORT_MAX_SIZE D)] h h2)
    by (eapply called_keeps; [exact H1 | exact H2]).
  pose proof (called_num _ _ _ Hcalled2) as Hnum.
  assert (Hwrap : 0 <= wrap16 (i + 1) < 2 ^ 16)
    by (unfold wrap16; apply Z.mod_pos_bound; lia).
  eapply post_mono; [apply IH, Hwrap |].
  intros ok h3 H3 Hok. destruct (H3 Hok) as (k & Hcalled3 & Hk & Hbound).
  rewrite Hnum in Hk, Hbound.
  destruct (Z.lt_ge_cases (i + 1) (2 ^ 16)) as [Hsmall | Hbig].
  - unfold wrap16 in Hk, Hbound. rewrite Z.mod_small in Hk, Hbound by lia.
    exists (S k). split; [| lia].
    exact (called_trans _ _ _ _ _ Hcalled2 Hcalled3).
  - exfalso. replace (i + 1) with (2 ^ 16) in Hbound by lia.
    change (wrap16 (2 ^ 16)) with 0 in Hbound. lia.
Qed.

Lemma rift_set_config_called (h : rift_hmd) :
  post (rift_set_config D) h (fun result h' =>
    (result <? 0) = false ->
    called [set_feature_call
              (FEATURE_REPORT_CONFIG D
               :: take (Z.to_nat (sizeof_config D)) (config_pointer D))
              (1 + sizeof_config D)] h h'
    ∧ sizeof_config D <= Z.of_nat (length (config_pointer D))).
Proof.
  unfold rift_set_config. eapply post_mono; [apply send_report_called |].
  intros result h' H Hresult. destruct (H Hresult) as (Hcalled & Hsize & _).
  split; [exact Hcalled | lia].
Qed.

Ltac bail :=
  apply post_bind, post_emit_hmd; apply post_bind, post_emit_hmd;
  apply post_ret; discriminate.

Ltac wire_next :=
  apply (post_bind_keeps wire); [solve [wire_tac] | intros ? ? ?].

(** X21.  What a [rift_hmd_create] that returns the device has said to
    the headset, in this order and nothing else: the keepalive report,
    a read of the configuration, a read of the display info, a
    configuration report, and one read per lens distortion, of which
    there is at least one and fewer than [2^16].  The configuration
    report does not carry the configuration: after the report id come
    the first [sizeof(struct rift_config_report)] bytes of the pointer
    that [rift_set_config] was given, which is at least that long. *)
Theorem rift_hmd_create_protocol (variant_ : rift_variant) (fuel : nat)
    (h : rift_hmd) :
  post (rift_hmd_create D variant_ fuel) h (fun ok h' =>
    ok = true ->
    ∃ (n : nat) entries,
      hid_calls (log h')
      = hid_calls (log h)
        ++ [set_feature_call (FEATURE_REPORT_KEEPALIVE_MUX D :: keepalive_mux D)
              (1 + Z.of_nat (length (keepalive_mux D)));
            get_feature_call (FEATURE_REPORT_CONFIG D) (REPORT_MAX_SIZE D);
            get_feature_call (FEATURE_REPORT_DISPLAY_INFO D) (REPORT_MAX_SIZE D);
            set_feature_call
              (FEATURE_REPORT_CONFIG D
               :: take (Z.to_nat (sizeof_config D)) (config_pointer D))
              (1 + sizeof_config D)]
        ++ replicate n (get_feature_call (FEATURE_REPORT_LENS_DISTORTION D)
                          (REPORT_MAX_SIZE D))
      ∧ (1 <= n)%nat ∧ Z.of_nat n < 2 ^ 16
      ∧ num_lens_distortions h' = Z.of_nat n
      ∧ lens_distortions h' = Some entries ∧ length entries = n
      ∧ sizeof_config D <= Z.of_nat (length (config_pointer D))).
Proof.
  unfold rift_hmd_create, mbind, M_bind.
  apply post_bind, post_gets_hmd.
  apply post_bind, post_modify_hmd. apply post_bind, post_modify_hmd.
  match goal with
  | |- post _ ?x _ => remember x as h1 eqn:Hh1
  end.
  assert (Hstart : hid_calls (log h1) = hid_calls (log h)).
  { subst h1. cbn [log set_variant zeroed]. rewrite hid_calls_app.
    apply app_nil_r. }
  clear Hh1.
  (* the keepalive *)
  apply post_bind. eapply post_mono; [apply rift_send_keepalive_called |].
  intros r1 h2 H2. cbn beta in H2.
  destruct (r1 <? 0); [bail |]. specialize (H2 eq_refl).
  (* the configuration *)
  apply post_bind. eapply post_mono; [apply rift_get_config_called |].
  intros r2 h3 H3. cbn beta in H3.
  destruct (r2 <? 0); [bail |].
  pose proof (called_trans _ _ _ _ _ H2 H3) as H13. clear H2 H3.
  wire_next.
  (* the display info *)
  apply post_bind. eapply post_mono; [apply rift_get_display_info_called |].
  intros r3 h5 H5. cbn beta in H5.
  destruct (r3 <? 0); [bail |].
  match goal with
  | Hw : wire ?h4 = wire h3 |- _ =>
    pose proof (called_trans _ _ _ _ _ (called_keeps _ _ _ _ H13 Hw) H5) as H15
  end.
  clear H13 H5.
  wire_next. wire_next. wire_next. wire_next.
  (* the configuration report *)
  apply post_bind. eapply post_mono; [apply rift_set_config_called |].
  intros r4 h10 H10. cbn beta in H10.
  destruct (r4 <? 0); [bail |]. destruct (H10 eq_refl) as [H10' Hpointer].
  match type of H10' with
  | called _ ?h9 _ =>
    assert (Hw : wire h9 = wire h5) by congruence;
      pose proof (called_trans _ _ _ _ _ (called_keeps _ _ _ _ H15 Hw) H10') as H110
  end.
  clear H15 H10 H10'.
  (* the first lens distortion *)
  apply post_bind. eapply post_mono; [apply rift_get_lens_distortion_called |].
  intros [r5 lens_distortion] h11 H11. cbn beta in H11.
  destruct (r5 <? 0); [bail |].
  pose proof (called_trans _ _ _ _ _ H110 H11) as H111. clear H110 H11.
  apply post_bind, post_modify_hmd. apply post_bind, post_emit_hmd.
  apply post_bind, post_modify_hmd.
  match goal with
  | |- post _ ?x _ => remember x as h12 eqn:Hh12
  end.
  match type of H111 with
  | called ?calls _ _ =>
    assert (Hwire : wire h12
                    = (hid_calls (log h1) ++ calls, num_distortions D lens_distortion,
                       Some (Z.to_nat (num_distortions D lens_distortion))))
  end.
  { subst h12. unfold called, wire in *.
    cbn [log lens_distortions num_lens_distortions set_lens_distortions add_logs
           set_num_lens_distortions].
    injection H111 as Hcalls _ _.
    rewrite hid_calls_app, Hcalls, app_nil_r. cbn. rewrite length_replicate.
    reflexivity. }
  clear Hh12 H111.
  apply post_bind.
  eapply post_mono; [apply rift_parse_distortion_report_stored |].
  intros u h13 (H13 & n & Hn & Hpos). rewrite Hwire in H13.
  unfold wire in Hwire. injection Hwire as _ Hnum12 Hlen12.
  rewrite Hlen12 in Hn. injection Hn as <-.
  apply post_bind.
  eapply post_mono; [apply (read_lens_distortions_called fuel 1); lia |].
  intros complete h14 H14. cbn beta in H14.
  destruct complete; cbn [negb]; [| apply post_ret; discriminate].
  destruct (H14 eq_refl) as (k & Hcalled & Hk & Hbound). clear H14.
  assert (Hnum13 : num_lens_distortions h13 = num_distortions D lens_distortion)
    by (unfold wire in H13; injection H13 as _ Hnum _; exact Hnum).
  rewrite Hnum13 in Hk, Hbound.
  match type of H13 with
  | _ = (?calls, _, _) =>
    assert (Hwire14 : wire h14
                      = (calls ++ replicate k
                                    (get_feature_call (FEATURE_REPORT_LENS_DISTORTION D)
                                       (REPORT_MAX_SIZE D)),
                         num_distortions D lens_distortion,
                         Some (Z.to_nat (num_distortions D lens_distortion))))
  end.
  { unfold called in Hcalled. rewrite Hcalled. unfold wire in H13.
    injection H13 as Hcalls Hnum Hlen. rewrite Hcalls, Hnum, Hlen. reflexivity. }
  clear Hcalled H13.
  wire_next. wire_next. wire_next.
  destruct (setup_split_side_by_side D); cbn [negb].
  2: { apply post_bind, post_emit_hmd.
       match goal with
       | |- post (bind ?m _) _ _ =>
         apply post_bind; apply (post_mono m _ (fun _ _ => True));
           [unfold post; destruct (m _) as [[? ?] |]; exact I |]
       end.
       intros ? ? _. apply post_ret. discriminate. }
  wire_next. wire_next. wire_next. wire_next.
  apply post_ret. intros _.
  match goal with
  | |- ∃ _ _, hid_calls (log ?hf) = _ ∧ _ =>
    assert (Hfinal : wire hf = wire h14) by congruence
  end.
  rewrite Hwire14 in Hfinal. unfold wire in Hfinal.
  injection Hfinal as Hcalls Hnum Hlen.
  match type of Hlen with
  | _ <$> lens_distortions ?hf = _ =>
    destruct (lens_distortions hf) as [entries |] eqn:Hentries; [| discriminate Hlen]
  end.
  cbn in Hlen. injection Hlen as Hlen.
  exists (S k), entries.
  split.
  { rewrite Hcalls, Hstart, <- !app_assoc. cbn [app replicate]. reflexivity. }
  split; [lia |]. split; [lia |]. split; [rewrite Hnum; lia |].
  split; [reflexivity |]. split; [lia | exact Hpointer].
Qed.

End Protocol.

(** *** A headset with two lens distortions *)

(** The [n]-th read answers [-1] if [n] is [unplugged_at], and else
    writes the report id and one byte, which for the fourth read is 1;
    the index of a lens distortion report is its first byte. *)
Definition two_distortions (unplugged_at : option nat) : device :=
  mk_device 69 6 56 64 x11 x02 x09 x13 1 2 4
    [x00; x00; x0b; x10; x27]
    [x10; x32; x54; x76; x98; xba; xdc; xfe]
    (fun _ => xaa)
    (fun _ => 1000)
    (fun _ bytes => bytes)
    (fun _ => 2)
    (fun bytes => match bytes with x01 :: _ => 1 | _ => 0 end)
    (fun _ _ => 0)
    (fun n report_id =>
       (if bool_decide (unplugged_at = Some n) then -1 else 0,
        [report_id; if (n =? 3)%nat then x01 else x00]))
    (fun n => 1000 * Z.of_nat n)
    false true 0.

Definition unallocated : rift_hmd := zeroed 0 0 [].

Lemma rift_hmd_create_releases_witness :
  (∃ h1 h2,
     rift_hmd_create (two_distortions None) RIFT_VARIANT_DK2 3 unallocated
     = Ok (true, h1)
     ∧ held (log h1) = {[Device; Distortions; History; VarRoot]}
     ∧ rift_hmd_destroy h1 = Ok (tt, h2)
     ∧ held (log h2) = ∅)
  ∧ (∃ h1,
       rift_hmd_create (two_distortions (Some 2%nat)) RIFT_VARIANT_DK2 3 unallocated
       = Ok (false, h1)
       ∧ held (log h1) = ∅)
  ∧ (∃ h1,
       rift_hmd_create (two_distortions (Some 3%nat)) RIFT_VARIANT_DK2 3 unallocated
       = Ok (false, h1)
       ∧ held (log h1) = {[Distortions]}).
Proof.
  assert (Hnone : held (log unallocated) = ∅) by reflexivity.
  split; [| split].
  - assert (Hrun : ∃ h1, rift_hmd_create (two_distortions None) RIFT_VARIANT_DK2 3
                           unallocated = Ok (true, h1))
      by (eexists; vm_compute; reflexivity).
    destruct Hrun as [h1 Hrun].
    destruct (post_Ok _ _ _ _ _
                (rift_hmd_create_releases (two_distortions None) RIFT_VARIANT_DK2 3
                   unallocated Hnone) Hrun) as (Hheld & h2 & Hdestroy & Hheld2).
    exists h1, h2. repeat (split; [assumption |]). exact Hheld2.
  - assert (Hrun : ∃ h1, rift_hmd_create (two_distortions (Some 2%nat))
                           RIFT_VARIANT_DK2 3 unallocated = Ok (false, h1)
                         ∧ later_lens_error (log h1) = false)
      by (eexists; split; vm_compute; reflexivity).
    destruct Hrun as (h1 & Hrun & Hlast).
    pose proof (post_Ok _ _ _ _ _
                  (rift_hmd_create_releases (two_distortions (Some 2%nat))
                     RIFT_VARIANT_DK2 3 unallocated Hnone) Hrun) as Hheld.
    cbn beta iota in Hheld. rewrite Hlast in Hheld.
    exists h1. split; assumption.
  - assert (Hrun : ∃ h1, rift_hmd_create (two_distortions (Some 3%nat))
                           RIFT_VARIANT_DK2 3 unallocated = Ok (false, h1)
                         ∧ later_lens_error (log h1) = true)
      by (eexists; split; vm_compute; reflexivity).
    destruct Hrun as (h1 & Hrun & Hlast).
    pose proof (post_Ok _ _ _ _ _
                  (rift_hmd_create_releases (two_distortions (Some 3%nat))
                     RIFT_VARIANT_DK2 3 unallocated Hnone) Hrun) as Hheld.
    cbn beta iota in Hheld. rewrite Hlast in Hheld.
    exists h1. split; assumption.
Defined.

Lemma two_distortions_size : REPORT_MAX_SIZE (two_distortions None) <= SIZE_MAX.
Proof. unfold SIZE_MAX. cbn. lia. Qed.

Lemma rift_hmd_create_protocol_witness :
  ∃ h1,
    rift_hmd_create (two_distortions None) RIFT_VARIANT_DK2 3 unallocated
    = Ok (true, h1)
    ∧ hid_calls (log h1)
      = [set_feature_call [x11; x00; x00; x0b; x10; x27] 6;
         get_feature_call x02 69;
         get_feature_call x09 69;
         set_feature_call [x02; x10; x32; x54; x76; x98; xba] 7;
         get_feature_call x13 69;
         get_feature_call x13 69]
    ∧ lens_distortions h1
      = Some [Some (x00 :: replicate 63 x00); Some (x01 :: replicate 63 x00)].
Proof.
  assert (Hrun : ∃ h1, rift_hmd_create (two_distortions None) RIFT_VARIANT_DK2 3
                         unallocated = Ok (true, h1)
                       ∧ lens_distortions h1
                         = Some [Some (x00 :: replicate 63 x00);
                                 Some (x01 :: replicate 63 x00)])
    by (eexists; split; vm_compute; reflexivity).
  destruct Hrun as (h1 & Hrun & Hlens).
  destruct (post_Ok _ _ _ _ _
              (rift_hmd_create_protocol (two_distortions None) two_distortions_size
                 RIFT_VARIANT_DK2 3 unallocated) Hrun eq_refl)
    as (n & entries & Hcalls & _ & _ & _ & Hentries & Hn & _).
  exists h1. split; [exact Hrun |]. split; [| exact Hlens].
  rewrite Hlens in Hentries. injection Hentries as <-. subst n.
  exact Hcalls.
Defined.

End RiftHmd.

(** ** The life of the renderer: [comp_renderer_create] and
       [comp_renderer_destroy] (comp_renderer.c)

    [renderer_init] and [renderer_fini] tie the scratch of
    [Scratch] to the renderings and fences of [Renderer]. *)

Module Lifecycle.

(** The calls of the four functions that neither [Scratch] nor
    [Renderer] records. *)
Inductive event : Type :=
| U_TYPED_CALLOC
| COMP_ERROR_chl_scratch_ensure
| comp_mirror_init (ret_ : VkResult)
| COMP_ERROR_comp_mirror_init (ret_ : VkResult)
| comp_mirror_fini
| free.

(** The compositor: [renderer] is [c->r] together with the fields of
    [c] that the renderer works on, [allocated] whether the pointer
    [c->r] is not [NULL], [scratch] is [c->scratch]. *)
Record comp_compositor : Type := mk_compositor {
  renderer : Renderer.world;
  allocated : bool;
  scratch : Scratch.world;
  trace : list event;
}.

Definition emit (e : event) : M comp_compositor unit :=
  modify (fun c => mk_compositor (renderer c) (allocated c) (scratch c)
                     (trace c ++ [e])).

Definition set_allocated (v : bool) (c : comp_compositor) : comp_compositor :=
  mk_compositor (renderer c) v (scratch c) (trace c).

(** A function of comp_renderer.c, run on the renderer of [c]. *)
Definition on_renderer {T : Type} (m : M Renderer.world T) : M comp_compositor T :=
  fun c =>
    match m (renderer c) with
    | Ok (a, w) => Ok (a, mk_compositor w (allocated c) (scratch c) (trace c))
    | Fault f => Fault f
    end.

(** A function of comp_high_level_scratch.c, run on [c->scratch]. *)
Definition on_scratch {T : Type} (m : M Scratch.world T) : M comp_compositor T :=
  fun c =>
    match m (scratch c) with
    | Ok (a, s) => Ok (a, mk_compositor (renderer c) (allocated c) s (trace c))
    | Fault f => Fault f
    end.

(** The renderer fields of a struct that [calloc] returned. *)
Definition calloc_renderer (w : Renderer.world) : Renderer.world :=
  Renderer.mk_world 0 0 false false 0
    (Renderer.waited w) (Renderer.rendering w) (Renderer.peek w) (Renderer.log w).

Section WithEnv.

Variable E : Renderer.env.
Variable P : Peek.env.
Variable A : Scratch.allocator.
Variable XRT_MAX_VIEWS : nat.
Variable COMP_SCRATCH_NUM_IMAGES : nat.

(** [c->nr.view_count], and what [comp_mirror_init] returns. *)
Variable view_count : nat.
Variable mirror_init : VkResult.

Definition renderer_init (scratch_extent : Scratch.VkExtent2D)
  : M comp_compositor unit :=
  on_renderer (modify (Renderer.set_acquired_buffer (-1)));;
  on_renderer (modify (Renderer.set_fenced_buffer (-1)));;
  on_renderer (modify (Renderer.set_rtr_array false));;
  (* Setup the scratch images. *)
  bret ← on_scratch
           (Scratch.chl_scratch_ensure XRT_MAX_VIEWS COMP_SCRATCH_NUM_IMAGES A
              view_count scratch_extent Scratch.VK_FORMAT_R8G8B8A8_SRGB);
  (if negb (bret : bool) then
     emit COMP_ERROR_chl_scratch_ensure;;
     assert_ bret
   else ret tt);;
  (* Try to early-allocate these, in case we can. *)
  on_renderer (Renderer.renderer_ensure_images_and_renderings E false);;
  let ret_ := mirror_init in
  emit (comp_mirror_init ret_);;
  if decide (ret_ = VK_SUCCESS) then ret tt
  else
    emit (COMP_ERROR_comp_mirror_init ret_);;
    assert_ false.

Definition renderer_fini : M comp_compositor unit :=
  (* Command buffers *)
  on_renderer Renderer.renderer_close_renderings_and_fences;;
  (* Do before layer render just in case it holds any references. *)
  emit comp_mirror_fini;;
  (* Do this after the layer renderer. *)
  on_scratch (Scratch.chl_scratch_free_resources XRT_MAX_VIEWS COMP_SCRATCH_NUM_IMAGES).

Definition comp_renderer_create (scratch_extent : Scratch.VkExtent2D)
  : M comp_compositor unit :=
  emit U_TYPED_CALLOC;;
  modify (fun c => mk_compositor (calloc_renderer (renderer c)) true (scratch c)
                     (trace c));;
  renderer_init scratch_extent.

(** [comp_renderer_destroy(ptr_r)] with [ptr_r] either [NULL] or
    [&c->r]. *)
Definition comp_renderer_destroy (ptr_r : bool) : M comp_compositor unit :=
  if negb ptr_r then ret tt
  else
    c ← gets (fun c : comp_compositor => c);
    if negb (allocated c) then ret tt
    else
      renderer_fini;;
      emit free;;
      modify (set_allocated false).

(** The frames drawn between the two. For each the compositor puts
    the frame into the waited slot, [c->frame.waited], which the frame
    functions of the compositor do outside comp_renderer.c, and calls
    [comp_renderer_draw]; the number with the frame bounds the polls of
    the peek window in that draw. *)
Definition draws (frames : list (Renderer.comp_frame * nat)) : M comp_compositor unit :=
  foldr (fun frame rest =>
           on_renderer (modify (Renderer.set_waited frame.1));;
           on_renderer (Renderer.comp_renderer_draw E P frame.2);;
           rest)
    (ret tt) frames.

End WithEnv.

(** *** What is held *)

Inductive resource : Type := Struct | Mirror.

#[global] Instance resource_eq_dec : EqDecision resource.
Proof. solve_decision. Defined.

#[global] Instance resource_countable : Countable resource.
Proof.
  refine (inj_countable'
    (fun r => match r with Struct => true | Mirror => false end)
    (fun b => if b then Struct else Mirror) _).
  intros []; reflexivity.
Defined.

Definition resource_effect (held : gset resource) (e : event) : gset resource :=
  match e with
  | U_TYPED_CALLOC => held ∪ {[Struct]}
  | free => held ∖ {[Struct]}
  | comp_mirror_init VK_SUCCESS => held ∪ {[Mirror]}
  | comp_mirror_fini => held ∖ {[Mirror]}
  | _ => held
  end.

Definition held (l : list event) : gset resource := foldl resource_effect ∅ l.

Lemma held_snoc (l : list event) (e : event) :
  held (l ++ [e]) = resource_effect (held l) e.
Proof. unfold held. rewrite foldl_app. reflexivity. Qed.

(** The renderer is up: its struct and mirror are held, every Vulkan
    object alive has its slot, and the scratch accounts for what it
    holds. *)
Definition up (max_views num_images : nat) (c : comp_compositor) : Prop :=
  allocated c = true
  ∧ held (trace c) = {[Struct; Mirror]}
  ∧ Renderer.tidy (renderer c)
  ∧ Scratch.consistent max_views num_images (scratch c).

(** The renderer is gone, and nothing of it is left. *)
Definition down (c : comp_compositor) : Prop :=
  allocated c = false
  ∧ held (trace c) = ∅
  ∧ Renderer.alive (Renderer.log (renderer c)) = ∅
  ∧ Scratch.live (Scratch.calls (scratch c)) = ∅.

Lemma post_on_renderer {T : Type} (m : M Renderer.world T) (c : comp_compositor)
    (Q : T -> comp_compositor -> Prop) :
  post m (renderer c)
    (fun a w => Q a (mk_compositor w (allocated c) (scratch c) (trace c))) ->
  post (on_renderer m) c Q.
Proof.
  unfold post, on_renderer. destruct (m (renderer c)) as [[a w] |]; auto.
Qed.

Lemma post_on_scratch {T : Type} (m : M Scratch.world T) (c : comp_compositor)
    (Q : T -> comp_compositor -> Prop) :
  post m (scratch c)
    (fun a s => Q a (mk_compositor (renderer c) (allocated c) s (trace c))) ->
  post (on_scratch m) c Q.
Proof.
  unfold post, on_scratch. destruct (m (scratch c)) as [[a s] |]; auto.
Qed.

Lemma post_modify_state {S : Type} (f : S -> S) (s : S) (Q : unit -> S -> Prop) :
  Q tt (f s) -> post (modify f) s Q.
Proof. intros H. exact H. Qed.

Section Life.

Variable E : Renderer.env.
Variable P : Peek.env.
Variable A : Scratch.allocator.
Variable XRT_MAX_VIEWS : nat.
Variable COMP_SCRATCH_NUM_IMAGES : nat.
Variable view_count : nat.
Variable mirror_init : VkResult.

Hypothesis image_count_nonneg : ∀ n, 0 <= Renderer.image_count E n.
Hypothesis view_count_fits : (view_count <= XRT_MAX_VIEWS)%nat.

Lemma comp_renderer_create_up (scratch_extent : Scratch.VkExtent2D)
    (c : comp_compositor) :
  held (trace c) = ∅ ->
  Renderer.alive (Renderer.log (renderer c)) = ∅ ->
  Scratch.consistent XRT_MAX_VIEWS COMP_SCRATCH_NUM_IMAGES (scratch c) ->
  post (comp_renderer_create E A XRT_MAX_VIEWS COMP_SCRATCH_NUM_IMAGES view_count
          mirror_init scratch_extent) c
    (fun _ c' => up XRT_MAX_VIEWS COMP_SCRATCH_NUM_IMAGES c').
Proof.
  intros Hheld Halive Hcons.
  unfold comp_renderer_create, renderer_init, mbind, M_bind.
  apply post_bind, post_modify_state.
  apply post_bind, post_modify_state.
  apply post_bind, post_on_renderer, post_modify_state.
  apply post_bind, post_on_renderer, post_modify_state.
  apply post_bind, post_on_renderer, post_modify_state.
  unfold emit. cbn [renderer allocated scratch trace].
  apply post_bind, post_on_scratch. cbn [renderer allocated scratch trace].
  destruct (Scratch.chl_scratch_ensure_consistent XRT_MAX_VIEWS COMP_SCRATCH_NUM_IMAGES
              A view_count scratch_extent Scratch.VK_FORMAT_R8G8B8A8_SRGB
              (scratch c) Hcons view_count_fits) as (bret & s' & Hrun & Hcons').
  unfold post at 1. rewrite Hrun.
  apply post_bind.
  destruct bret; cbn [negb].
  2: { apply post_bind, post_modify_state. exact I. }
  apply post_ret.
  apply post_bind, post_on_renderer. cbn [renderer allocated scratch trace].
  eapply post_mono; [apply (Renderer.tidy_ensure E image_count_nonneg false) |].
  intros ok w' Hkeep. cbn beta in Hkeep.
  apply post_bind, post_modify_state.
  destruct (decide (mirror_init = VK_SUCCESS)) as [-> | Hfail].
  2: { apply post_bind, post_modify_state. exact I. }
  apply post_ret. unfold up. cbn [renderer allocated scratch trace].
  split; [reflexivity |].
  split; [rewrite !held_snoc, Hheld; cbn; set_solver |].
  split; [| exact Hcons'].
  apply Hkeep, Renderer.neat_tidy.
  split; [exact Halive |]. split; reflexivity.
Qed.

Lemma draws_up (frames : list (Renderer.comp_frame * nat)) (c : comp_compositor) :
  up XRT_MAX_VIEWS COMP_SCRATCH_NUM_IMAGES c ->
  post (draws E P frames) c (fun _ c' => up XRT_MAX_VIEWS COMP_SCRATCH_NUM_IMAGES c').
Proof.
  revert c. induction frames as [| [frame fuel] frames IH]; intros c Hup; [exact Hup |].
  cbn [draws foldr fst snd]. unfold mbind, M_bind.
  destruct Hup as (Hallocated & Hheld & Htidy & Hcons).
  apply post_bind, post_on_renderer, post_modify_state.
  apply post_bind, post_on_renderer. cbn [renderer allocated scratch trace].
  eapply post_mono; [apply (Renderer.tidy_draw E P image_count_nonneg fuel) |].
  intros status w' Hkeep. cbn beta in Hkeep.
  apply IH.
  split; [exact Hallocated |]. split; [exact Hheld |].
  split; [apply Hkeep, Htidy | exact Hcons].
Qed.

Lemma comp_renderer_destroy_down (c : comp_compositor) :
  up XRT_MAX_VIEWS COMP_SCRATCH_NUM_IMAGES c ->
  ∃ c',
    comp_renderer_destroy XRT_MAX_VIEWS COMP_SCRATCH_NUM_IMAGES true c = Ok (tt, c')
    ∧ down c'.
Proof.
  intros (Hallocated & Hheld & Htidy & Hfit & Hlive).
  unfold comp_renderer_destroy, renderer_fini, mbind, M_bind. cbn [negb].
  unfold bind at 1, gets. rewrite Hallocated. cbn [negb].
  unfold bind, on_renderer, on_scratch, emit, modify, set_allocated.
  rewrite Renderer.renderer_close_renderings_and_fences_run.
  cbn [renderer allocated scratch trace].
  rewrite Scratch.chl_scratch_free_resources_run by exact Hfit.
  cbn [renderer allocated scratch trace].
  eexists. split; [reflexivity |].
  unfold down. cbn [renderer allocated scratch trace Scratch.calls].
  split; [reflexivity |].
  split; [rewrite !held_snoc, Hheld; cbn; set_solver |].
  split; [apply (Renderer.tidy_closed _ Htidy) |].
  apply Scratch.live_after_free, Hlive.
Qed.

(** X22.  The renderer from creation to destruction.  On a compositor
    that holds no renderer, whose scratch accounts for what it holds,
    with a view count that fits and a target that reports no negative
    image count: if [comp_renderer_create] and then the draws of any
    number of frames, each put into the waited slot and drawn by
    [comp_renderer_draw], return, [comp_renderer_destroy] returns too
    and leaves the pointer [NULL], the renderer struct freed, the mirror
    finished, and no render pass, target resource, fence, scratch image
    or scratch render target alive.  A second [comp_renderer_destroy],
    and one on a [NULL] argument, do nothing. *)
Theorem comp_renderer_create_destroy (scratch_extent : Scratch.VkExtent2D)
    (frames : list (Renderer.comp_frame * nat)) (c : comp_compositor) :
  held (trace c) = ∅ ->
  Renderer.alive (Renderer.log (renderer c)) = ∅ ->
  Scratch.consistent XRT_MAX_VIEWS COMP_SCRATCH_NUM_IMAGES (scratch c) ->
  post (comp_renderer_create E A XRT_MAX_VIEWS COMP_SCRATCH_NUM_IMAGES view_count
          mirror_init scratch_extent;;
        draws E P frames) c
    (fun _ c1 =>
       ∃ c2,
         comp_renderer_destroy XRT_MAX_VIEWS COMP_SCRATCH_NUM_IMAGES true c1
         = Ok (tt, c2)
         ∧ down c2
         ∧ comp_renderer_destroy XRT_MAX_VIEWS COMP_SCRATCH_NUM_IMAGES true c2
           = Ok (tt, c2)
         ∧ comp_renderer_destroy XRT_MAX_VIEWS COMP_SCRATCH_NUM_IMAGES false c1
           = Ok (tt, c1)).
Proof.
  intros Hheld Halive Hcons. unfold mbind, M_bind.
  apply post_bind.
  eapply post_mono; [apply comp_renderer_create_up; assumption |].
  intros u c0 Hup. cbn beta in Hup.
  eapply post_mono; [apply draws_up, Hup |].
  intros u' c1 Hup1. cbn beta in Hup1.
  destruct (comp_renderer_destroy_down c1 Hup1) as (c2 & Hrun & Hdown).
  exists c2. split; [exact Hrun |]. split; [exact Hdown |].
  split; [| reflexivity].
  destruct Hdown as (Hallocated & _).
  unfold comp_renderer_destroy, mbind, M_bind. cbn [negb].
  unfold bind at 1, gets. rewrite Hallocated. reflexivity.
Qed.

End Life.

(** A compositor without a renderer. *)
Definition no_renderer : comp_compositor :=
  mk_compositor Renderer.start false Scratch.initial [].

(** Three frames on a three-image target between creation and
    destruction. *)
Definition three_frames : list (Renderer.comp_frame * nat) :=
  [(Renderer.frame7, 0%nat); (Renderer.frame8, 0%nat);
   (Renderer.mk_frame 9 70000000 69000000 500000, 0%nat)].

Lemma comp_renderer_create_destroy_witness :
  ∃ c1 c2,
    (comp_renderer_create Renderer.env_steady Scratch.allocator_ok 2 3 2 VK_SUCCESS
       Scratch.extent_1000;;
     draws Renderer.env_steady Peek.env_never_ready three_frames) no_renderer
    = Ok (tt, c1)
    ∧ Renderer.count Renderer.is_present (Renderer.log (renderer c1)) = 3%nat
    ∧ size (Renderer.alive (Renderer.log (renderer c1))) = 7%nat
    ∧ size (Scratch.live (Scratch.calls (scratch c1))) = 9%nat
    ∧ comp_renderer_destroy 2 3 true c1 = Ok (tt, c2)
    ∧ down c2.
Proof.
  assert (Hrun : ∃ c1,
    (comp_renderer_create Renderer.env_steady Scratch.allocator_ok 2 3 2 VK_SUCCESS
       Scratch.extent_1000;;
     draws Renderer.env_steady Peek.env_never_ready three_frames) no_renderer
    = Ok (tt, c1)
    ∧ Renderer.count Renderer.is_present (Renderer.log (renderer c1)) = 3%nat
    ∧ size (Renderer.alive (Renderer.log (renderer c1))) = 7%nat
    ∧ size (Scratch.live (Scratch.calls (scratch c1))) = 9%nat)
    by (eexists; split; [vm_compute; reflexivity |];
        split; [| split]; vm_compute; reflexivity).
  destruct Hrun as (c1 & Hrun & Hpresent & Halive & Hlive).
  destruct (post_Ok _ _ _ _ _
              (comp_renderer_create_destroy Renderer.env_steady Peek.env_never_ready
                 Scratch.allocator_ok 2 3 2 VK_SUCCESS
                 Renderer.steady_image_count (le_n 2) Scratch.extent_1000 three_frames
                 no_renderer eq_refl eq_refl (Scratch.initial_consistent 2 3)) Hrun)
    as (c2 & Hdestroy & Hdown & _).
  exists c1, c2. repeat (split; [assumption |]). exact Hdown.
Defined.

End Lifecycle.
